(** * HUML for JavaScript: decoder ([huml.js]) and encoder, embedded in Rocq

    The development follows the two source files of the package:

    - the recursive-descent [Parser] class of [huml.js], embedded as
      functions over an explicit cursor (position and line counter) in an
      exception monad, and
    - the encoder ([stringify] and its helpers), embedded as functions that
      thread the array of output lines.

    JavaScript strings are sequences of UTF-16 code units; they are modelled
    as lists of code units.  The built-ins of the host language the package
    relies on ([parseInt], [parseFloat], [String], [JSON.stringify],
    [String.prototype.trim], object property order, the [in] operator) are
    modelled in the first part of the file from ECMA-262. *)

From Stdlib Require Import String Ascii.
From Stdlib Require Import List NArith ZArith Arith Lia Bool.
From Stdlib Require Import Sorting.Permutation Sorting.Sorted.
Import ListNotations.

Set Implicit Arguments.

(** ** Strings *)

Abbreviation char := N (only parsing).
Abbreviation jsstring := (list N) (only parsing).

Definition u (s : string) : jsstring :=
  map N_of_ascii (list_ascii_of_string s).
Arguments u s%_string.

Abbreviation LF := 10%N (only parsing).
Abbreviation SP := 32%N (only parsing).
Abbreviation QUOTE := 34%N (only parsing).
Abbreviation HASH := 35%N (only parsing).
Abbreviation PLUS := 43%N (only parsing).
Abbreviation COMMA := 44%N (only parsing).
Abbreviation DASH := 45%N (only parsing).
Abbreviation DOT := 46%N (only parsing).
Abbreviation COLON := 58%N (only parsing).
Abbreviation BACKSLASH := 92%N (only parsing).
Abbreviation UNDERSCORE := 95%N (only parsing).
Abbreviation BACKTICK := 96%N (only parsing).

Definition string_eqb (a b : jsstring) : bool :=
  if list_eq_dec N.eq_dec a b then true else false.

(** Length of the longest prefix of [l] whose elements satisfy [f]: the
    number of iterations of a loop [while (!done && f(data[pos])) pos++]
    started on the remaining input [l]. *)
Fixpoint span_len (f : char -> bool) (l : jsstring) : nat :=
  match l with
  | c :: l' => if f c then S (span_len f l') else 0
  | [] => 0
  end.

Fixpoint prefixb (s l : jsstring) : bool :=
  match s, l with
  | [], _ => true
  | c :: s', d :: l' => N.eqb c d && prefixb s' l'
  | _ :: _, [] => false
  end.

(** [mem c l]: [l.includes(c)] on characters. *)
Definition mem (c : char) (l : jsstring) : bool := existsb (N.eqb c) l.

(** [s.includes(t)] for a substring [t]. *)
Fixpoint includes (t s : jsstring) : bool :=
  prefixb t s || match s with [] => false | _ :: s' => includes t s' end.

(** [s.indexOf(c)]: first index of the character, [None] for -1. *)
Fixpoint index_of (c : char) (s : jsstring) : option nat :=
  match s with
  | [] => None
  | d :: s' => if N.eqb d c then Some 0
               else match index_of c s' with Some i => Some (S i) | None => None end
  end.

(** [s.indexOf(c, from)] for [0 <= from]. *)
Definition indexOf (s : jsstring) (c : char) (from : nat) : option nat :=
  match index_of c (skipn from s) with
  | Some i => Some (from + i)
  | None => None
  end.

(** [s.slice(a, b)] with [0 <= a] and an end index that is either a
    position or -1 ([None]): a negative end counts from the end of the
    string, so -1 stands for [length - 1]. *)
Definition slice (s : jsstring) (a : nat) (b : option nat) : jsstring :=
  let e := match b with Some b => Nat.min b (length s) | None => length s - 1 end in
  firstn (e - a) (skipn a s).

(** [s.substring(a, b)] for [0 <= a <= b]. *)
Definition substring (s : jsstring) (a b : nat) : jsstring :=
  firstn (b - a) (skipn a s).

(** [s.split('\n')]. *)
Fixpoint split_lines (s : jsstring) : list jsstring :=
  match s with
  | [] => [[]]
  | c :: s' =>
      if N.eqb c LF then [] :: split_lines s'
      else match split_lines s' with
           | l :: ls => (c :: l) :: ls
           | [] => [[c]]
           end
  end.

(** [lines.join('\n')]. *)
Fixpoint join_lines (ls : list jsstring) : jsstring :=
  match ls with
  | [] => []
  | [l] => l
  | l :: ls' => l ++ LF :: join_lines ls'
  end.

(** White space and line terminators of ECMA-262, the characters removed
    by [trim] and skipped by [parseInt] and [parseFloat]. *)
Definition is_js_space (c : char) : bool :=
  ((9 <=? c) && (c <=? 13) || (c =? 32) || (c =? 160) || (c =? 5760)
   || (8192 <=? c) && (c <=? 8202) || (c =? 8232) || (c =? 8233)
   || (c =? 8239) || (c =? 8287) || (c =? 12288) || (c =? 65279))%N.

Definition trim_start (s : jsstring) : jsstring :=
  skipn (span_len is_js_space s) s.

Definition trim (s : jsstring) : jsstring :=
  rev (trim_start (rev (trim_start s))).

(** [Array.from(s)]: the code points of [s], each as the string of its one
    or two code units (a high surrogate followed by a low surrogate forms
    one element). *)
Definition is_high_surrogate (c : char) : bool := ((55296 <=? c) && (c <=? 56319))%N.
Definition is_low_surrogate (c : char) : bool := ((56320 <=? c) && (c <=? 57343))%N.

Fixpoint code_points (s : jsstring) : list jsstring :=
  match s with
  | [] => []
  | c :: s' =>
      match s' with
      | d :: s'' =>
          if is_high_surrogate c && is_low_surrogate d
          then match code_points s' with
               | _ :: rest => [c; d] :: rest
               | [] => [[c; d]]
               end
          else [c] :: code_points s'
      | [] => [[c]]
      end
  end.

(** ** Numbers

    A JavaScript number is an IEEE-754 binary64 value.  A finite value is
    kept as sign, odd mantissa and binary exponent ([(-1)^neg * m * 2^e]),
    zero as mantissa 0 with exponent 0, so that equal numbers have equal
    representations (the two zeros differ by their sign, as in IEEE-754). *)

Inductive number :=
| NaN
| Infinity (neg : bool)
| Finite (neg : bool) (m : N) (e : Z).

Fixpoint odd_part (p : positive) : positive * Z :=
  match p with
  | xO p' => let (q, k) := odd_part p' in (q, Z.succ k)
  | _ => (p, 0%Z)
  end.

Definition normalize (neg : bool) (m : N) (e : Z) : number :=
  match m with
  | N0 => Finite neg 0 0
  | Npos p => let (q, k) := odd_part p in Finite neg (Npos q) (e + k)
  end.

(** Nearest integer to [a / b], ties to even. *)
Definition div_round_even (a b : N) : N :=
  let q := (a / b)%N in
  match N.compare (2 * (a mod b)) b with
  | Lt => q
  | Gt => (q + 1)%N
  | Eq => if N.even q then q else (q + 1)%N
  end.

Definition scale2 (p q : N) (e : Z) : N * N :=
  if (0 <=? e)%Z then (p, q * 2 ^ Z.to_N e)%N else (p * 2 ^ Z.to_N (- e), q)%N.

(** The binary64 value nearest to the rational [p / q] ([0 < q]), ties to
    even: 53 bits of mantissa, least exponent -1074, overflow to infinity. *)
Definition round_binary64 (neg : bool) (p q : N) : number :=
  if (p =? 0)%N then Finite neg 0 0
  else
    let e0 := (Z.of_N (N.log2 p) - Z.of_N (N.log2 q) - 52)%Z in
    let e1 := let (a, b) := scale2 p q e0 in
              if (a / b <? 2 ^ 52)%N then (e0 - 1)%Z else e0 in
    let e := Z.max e1 (-1074) in
    let (a, b) := scale2 p q e in
    let m := div_round_even a b in
    if ((971 <? e) || (e =? 971) && (2 ^ 53 <=? Z.of_N m))%Z then Infinity neg
    else normalize neg m e.

Definition number_of_Z (z : Z) : number :=
  round_binary64 (z <? 0)%Z (Z.abs_N z) 1.

Definition number_eqb (x y : number) : bool :=
  match x, y with
  | NaN, NaN => true
  | Infinity a, Infinity b => Bool.eqb a b
  | Finite a m e, Finite b n f => Bool.eqb a b && (m =? n)%N && (e =? f)%Z
  | _, _ => false
  end.

(** Unary minus and the product [sign * x] for [sign] in [{1, -1}], the
    only arithmetic the package performs. *)
Definition number_neg (x : number) : number :=
  match x with
  | NaN => NaN
  | Infinity s => Infinity (negb s)
  | Finite s m e => Finite (negb s) m e
  end.

Definition is_digit_char (c : char) : bool := ((48 <=? c) && (c <=? 57))%N.

(** Value of a character as a digit in a radix up to 36. *)
Definition digit_value (c : char) : option N :=
  if ((48 <=? c) && (c <=? 57))%N then Some (c - 48)%N
  else if ((97 <=? c) && (c <=? 122))%N then Some (c - 87)%N
  else if ((65 <=? c) && (c <=? 90))%N then Some (c - 55)%N
  else None.

Definition is_radix_digit (radix : N) (c : char) : bool :=
  match digit_value c with Some d => (d <? radix)%N | None => false end.

Fixpoint digits_value (radix : N) (acc : N) (s : jsstring) : N :=
  match s with
  | [] => acc
  | c :: s' =>
      match digit_value c with
      | Some d => digits_value radix (acc * radix + d)%N s'
      | None => acc
      end
  end.

Definition take_while (f : char -> bool) (s : jsstring) : jsstring :=
  firstn (span_len f s) s.

Definition split_sign (s : jsstring) : bool * jsstring :=
  match s with
  | c :: s' => if (c =? DASH)%N then (true, s')
               else if (c =? PLUS)%N then (false, s') else (false, s)
  | [] => (false, [])
  end.

(** [parseInt(s, radix)] for a radix in 2..36: leading white space is
    skipped, then an optional sign, then for radix 16 an optional [0x] or
    [0X], then the longest run of digits of the radix; no digit gives
    [NaN], anything after the digits is ignored. *)
Definition parseInt (s : jsstring) (radix : N) : number :=
  let (neg, s1) := split_sign (trim_start s) in
  let s2 := if (radix =? 16)%N && (prefixb (u "0x") s1 || prefixb (u "0X") s1)
            then skipn 2 s1 else s1 in
  let ds := take_while (is_radix_digit radix) s2 in
  match ds with
  | [] => NaN
  | _ => round_binary64 neg (digits_value radix 0 ds) 1
  end.

(** [parseFloat(s)]: the longest prefix that is a decimal literal
    (digits, optional fraction, optional exponent, or [Infinity]). *)
Definition parseFloat (s : jsstring) : number :=
  let (neg, s1) := split_sign (trim_start s) in
  if prefixb (u "Infinity") s1 then Infinity neg
  else
    let ip := take_while is_digit_char s1 in
    let s2 := skipn (length ip) s1 in
    let '(fp, s3) :=
      match s2 with
      | c :: s2' => if (c =? DOT)%N
                    then let f := take_while is_digit_char s2' in (f, skipn (length f) s2')
                    else ([], s2)
      | [] => ([], s2)
      end in
    match ip ++ fp with
    | [] => NaN
    | ds =>
        let ex : Z :=
          match s3 with
          | c :: s3' =>
              if ((c =? 101) || (c =? 69))%N
              then let (eneg, s4) := split_sign s3' in
                   match take_while is_digit_char s4 with
                   | [] => 0%Z
                   | es => let v := Z.of_N (digits_value 10 0 es) in
                           if eneg then (- v)%Z else v
                   end
              else 0%Z
          | [] => 0%Z
          end in
        let m := digits_value 10 0 ds in
        let e10 := (ex - Z.of_nat (length fp))%Z in
        if (0 <=? e10)%Z then round_binary64 neg (m * 10 ^ Z.to_N e10) 1
        else round_binary64 neg m (10 ^ Z.to_N (- e10))
    end.

(** [String.fromCharCode(x)] for an integral number [x]: the code unit
    [x mod 2^16]. *)
Definition fromCharCode (x : number) : char :=
  match x with
  | Finite neg m e =>
      let v := (Z.of_N m * 2 ^ e)%Z in
      Z.to_N ((if neg then - v else v) mod 65536)%Z
  | _ => 0%N
  end.

(** Decimal digits of a natural number. *)
Fixpoint digits_of_pos (fuel : nat) (n : N) (acc : jsstring) : jsstring :=
  match fuel with
  | O => acc
  | S fuel' =>
      let acc' := (48 + n mod 10)%N :: acc in
      if (n <? 10)%N then acc' else digits_of_pos fuel' (n / 10)%N acc'
  end.

Definition decimal (n : N) : jsstring :=
  digits_of_pos (S (N.to_nat (N.log2 n))) n [].

(** *** [String(x)] for a number: Number::toString of ECMA-262

    The digits are the shortest decimal digit string [s] (with [k] digits
    and decimal exponent [n]) such that [s * 10^(n-k)] rounds to [x]. *)

Definition lt_pow10 (p q : N) (n : Z) : bool :=
  if (0 <=? n)%Z then (p <? q * 10 ^ Z.to_N n)%N
  else (p * 10 ^ Z.to_N (- n) <? q)%N.

(** The [n] with [10^(n-1) <= p/q < 10^n], searched from an estimate. *)
Fixpoint find_n (fuel : nat) (p q : N) (n : Z) : Z :=
  match fuel with
  | O => n
  | S fuel' =>
      if lt_pow10 p q (n - 1) then find_n fuel' p q (n - 1)
      else if lt_pow10 p q n then n
      else find_n fuel' p q (n + 1)
  end.

Definition scale10 (p q : N) (e : Z) : N * N :=
  if (0 <=? e)%Z then (p * 10 ^ Z.to_N e, q)%N else (p, q * 10 ^ Z.to_N (- e))%N.

Fixpoint shortest_digits (fuel : nat) (x : number) (p q : N) (n : Z) (k : Z)
  : Z * Z * N :=
  let (a, b) := scale10 p q (k - n) in
  let lo := (a / b)%N in
  let hi := (lo + 1)%N in
  let '(hn, hs) := if (hi <? 10 ^ Z.to_N k)%N then (n, hi)
                   else ((n + 1)%Z, (10 ^ Z.to_N (k - 1))%N) in
  let ok (n' : Z) (s : N) :=
    let (c, d) := scale10 s 1 (n' - k) in number_eqb (round_binary64 false c d) x in
  let lo_ok := ok n lo in
  let hi_ok := ok hn hs in
  let pick_lo :=
    match N.compare (2 * a) ((2 * lo + 1) * b) with
    | Lt => true
    | Gt => false
    | Eq => N.even lo
    end in
  if lo_ok && (negb hi_ok || pick_lo) then (n, k, lo)
  else if hi_ok then (hn, k, hs)
  else match fuel with
       | O => (n, k, lo)
       | S fuel' => shortest_digits fuel' x p q n (k + 1)
       end.

Definition zeros (n : nat) : jsstring := repeat 48%N n.

Definition format_digits (n k : Z) (s : N) : jsstring :=
  let ds := decimal s in
  if ((k <=? n) && (n <=? 21))%Z then ds ++ zeros (Z.to_nat (n - k))
  else if ((0 <? n) && (n <=? 21))%Z
       then firstn (Z.to_nat n) ds ++ DOT :: skipn (Z.to_nat n) ds
  else if ((-6 <? n) && (n <=? 0))%Z
       then u "0." ++ zeros (Z.to_nat (- n)) ++ ds
  else
    let e := (n - 1)%Z in
    let sign := if (e <? 0)%Z then DASH else PLUS in
    match ds with
    | d :: (_ :: _) as rest =>
        d :: DOT :: rest ++ 101%N :: sign :: decimal (Z.abs_N e)
    | _ => ds ++ 101%N :: sign :: decimal (Z.abs_N e)
    end.

Definition number_to_string (x : number) : jsstring :=
  match x with
  | NaN => u "NaN"
  | Infinity neg => (if neg then [DASH] else []) ++ u "Infinity"
  | Finite _ N0 _ => u "0"
  | Finite neg m e =>
      let (p, q) := scale2 m 1 (- e) in
      let n0 := ((Z.of_N (N.log2 p) - Z.of_N (N.log2 q)) * 30103 / 100000)%Z in
      let n := find_n 8 p q n0 in
      let '(n', k, s) := shortest_digits 20 (Finite false m e) p q n 1 in
      (if neg then [DASH] else []) ++ format_digits n' k s
  end.

(** *** [JSON.stringify(s)] for a string: QuoteJSONString of ECMA-262 *)

Definition hex_digit (d : N) : char :=
  if (d <? 10)%N then (48 + d)%N else (87 + d)%N.

Definition unicode_escape (c : char) : jsstring :=
  [BACKSLASH; 117%N; hex_digit (c / 4096 mod 16); hex_digit (c / 256 mod 16);
   hex_digit (c / 16 mod 16); hex_digit (c mod 16)]%N.

Definition json_escape_unit (c : char) : jsstring :=
  if (c =? 8)%N then u "\b"
  else if (c =? 9)%N then u "\t"
  else if (c =? 10)%N then u "\n"
  else if (c =? 12)%N then u "\f"
  else if (c =? 13)%N then u "\r"
  else if (c =? QUOTE)%N then [BACKSLASH; QUOTE]
  else if (c =? BACKSLASH)%N then [BACKSLASH; BACKSLASH]
  else if (c <? 32)%N || is_high_surrogate c || is_low_surrogate c
       then unicode_escape c
  else [c].

Fixpoint json_quote_body (s : jsstring) : jsstring :=
  match s with
  | [] => []
  | c :: s' =>
      match s' with
      | d :: s'' =>
          if is_high_surrogate c && is_low_surrogate d
          then c :: d :: json_quote_body s''
          else json_escape_unit c ++ json_quote_body s'
      | [] => json_escape_unit c
      end
  end.

Definition JSON_stringify (s : jsstring) : jsstring :=
  QUOTE :: json_quote_body s ++ [QUOTE].

(** ** Values

    The decoder produces plain JavaScript values.  An object is kept as the
    list of its own properties in the order [Object.entries] enumerates
    them (array-index keys in ascending order first, then the other keys in
    creation order), together with a flag telling whether its prototype is
    still [Object.prototype] (an assignment to [__proto__] can replace it
    by [null]). *)

#[warnings="-register-all"]
Inductive Value :=
| VNull
| VBool (b : bool)
| VNum (x : number)
| VStr (s : jsstring)
| VArr (items : list Value)
| VObj (proto : bool) (props : list (jsstring * Value)).

Definition EMPTY_OBJECT : Value := VObj true [].

(** Names of the properties every object inherits from [Object.prototype]. *)
Definition OBJECT_PROTOTYPE : list jsstring :=
  [u "constructor"; u "__defineGetter__"; u "__defineSetter__";
   u "hasOwnProperty"; u "__lookupGetter__"; u "__lookupSetter__";
   u "isPrototypeOf"; u "propertyIsEnumerable"; u "toString"; u "valueOf";
   u "__proto__"; u "toLocaleString"].

Definition has_own (k : jsstring) (props : list (jsstring * Value)) : bool :=
  existsb (fun kv => string_eqb (fst kv) k) props.

(** [k in obj]: an own property, or one inherited from the prototype. *)
Definition js_in (k : jsstring) (proto : bool) (props : list (jsstring * Value)) : bool :=
  has_own k props || (proto && existsb (string_eqb k) OBJECT_PROTOTYPE).

(** Array indices: canonical decimal strings of the integers up to 2^32-2. *)
Definition array_index (k : jsstring) : option N :=
  match k with
  | [] => None
  | c :: rest =>
      if forallb is_digit_char k
         && (negb (c =? 48)%N || match rest with [] => true | _ => false end)
         && (length k <=? 10)
      then let v := digits_value 10 0 k in
           if (v <=? 4294967294)%N then Some v else None
      else None
  end.

Fixpoint replace_prop (k : jsstring) (v : Value) (props : list (jsstring * Value)) :=
  match props with
  | [] => []
  | (k', v') :: ps =>
      if string_eqb k' k then (k', v) :: ps else (k', v') :: replace_prop k v ps
  end.

Fixpoint insert_index (i : N) (k : jsstring) (v : Value) (props : list (jsstring * Value)) :=
  match props with
  | [] => [(k, v)]
  | (k', v') :: ps =>
      match array_index k' with
      | Some j => if (j <? i)%N then (k', v') :: insert_index i k v ps
                  else (k, v) :: props
      | None => (k, v) :: props
      end
  end.

Definition define_prop (k : jsstring) (v : Value) (props : list (jsstring * Value)) :=
  if has_own k props then replace_prop k v props
  else match array_index k with
       | Some i => insert_index i k v props
       | None => props ++ [(k, v)]
       end.

(** [obj[k] = v] on an object built by the decoder.  The key [__proto__]
    is the accessor of [Object.prototype]: its setter replaces the
    prototype when the value is [null] and ignores the other scalars (with
    an array or object it would install that value as the prototype; the
    decoder only reaches this case with scalars, see [parseInlineVectorContents]). *)
Definition obj_set (k : jsstring) (v : Value) (o : bool * list (jsstring * Value))
  : bool * list (jsstring * Value) :=
  let (proto, props) := o in
  if proto && string_eqb k (u "__proto__") && negb (has_own k props) then
    match v with
    | VNull => (false, props)
    | _ => (proto, props)
    end
  else (proto, define_prop k v props).

(** ** The parser of [huml.js] *)

Inductive context := AfterColon | AfterDash | AfterDoubleColon | InInlineDict | AfterComma.

Inductive rootdesc := RootInlineDict | RootList | RootDict | RootInlineList | RootScalar.

(** The messages of the errors the parser raises, with their parameters. *)
Inductive message :=
| EmptyDocument                      (* empty document is undefined *)
| UnsupportedVersion (v : jsstring)  (* unsupported version '..'. expected 'v0.1.0' *)
| EmptyDoc                           (* empty doc is undefined *)
| RootIndented                       (* root element must not be indented *)
| RootVectorIndicator                (* '::' indicator not allowed at document root *)
| RootScalarIndicator                (* ':' indicator not allowed at document root *)
| UnknownDocumentType                (* internal error: unknown document type *)
| ContentAfterRoot (d : rootdesc)    (* unexpected content after .. *)
| BadIndent (cur expected : nat)     (* bad indent .., expected .. *)
| InvalidKeyStart                    (* invalid character '..', expected key *)
| DuplicateKey (k : jsstring)        (* duplicate key '..' in dict *)
| AmbiguousEmptyVector               (* ambiguous empty vector after '::'. Use [] or {}. *)
| ExpectedColonInlineDict            (* expected ':' in inline dict *)
| ExpectedKey                        (* expected a key *)
| ExpectedIndicator                  (* expected ':' or '::' after key *)
| UnexpectedEndOfInput               (* unexpected end of input, expected a value *)
| InvalidAfterSign (c : char)        (* invalid character after '+' / '-' *)
| UnexpectedCharacter (c : char)     (* unexpected character '..' when parsing value *)
| NewlineInString                    (* newlines not allowed in single-line strings *)
| IncompleteEscape                   (* incomplete escape sequence *)
| IncompleteUnicodeEscape            (* incomplete unicode escape sequence \u *)
| InvalidUnicodeEscape (hex : jsstring) (* invalid unicode escape sequence \u.. *)
| InvalidEscape (c : char)           (* invalid escape character '\..' *)
| UnclosedString                     (* unclosed string *)
| ClosingDelimiterIndent (keyIndent : nat) (* multiline closing delimiter must be at same indentation as the key *)
| UnclosedMultilineString            (* unclosed multiline string *)
| InvalidNumberLiteral               (* invalid number literal, requires digits after prefix *)
| TrailingSpaces                     (* trailing spaces are not allowed *)
| CommentNeedsSpaceBefore            (* a value must be separated from an inline comment by a space *)
| CommentHashSpace                   (* comment hash '#' must be followed by a space *)
| UnexpectedContentEOL               (* unexpected content at end of line *)
| ExpectedSingleSpace (ctx : context)   (* expected single space .. *)
| MultipleSpaces (ctx : context)     (* expected single space .., found multiple *)
| ExpectedComma                      (* expected a comma in inline collection *)
| SpaceBeforeComma.                  (* no spaces allowed before comma *)

(** [ParseError] carries the line; the first check of [parse] throws a plain
    [Error] without one. *)
Inductive exn :=
| HUMLError (m : message) (line : nat)
| JSError (m : message).

Definition exn_line (e : exn) : option nat :=
  match e with HUMLError _ l => Some l | JSError _ => None end.

Definition exn_message (e : exn) : message :=
  match e with HUMLError m _ => m | JSError m => m end.

(** The mutable fields of a [Parser]: [this.pos] and [this.line]. *)
Record Cursor := mkCursor { pos : nat; line : nat }.

(** Outcome of a method call: a value, or an exception, each with the
    cursor the parser is left with; [OutOfFuel] when the bound on the
    number of loop iterations and nested calls was too small. *)
Inductive result (A : Type) :=
| Ok (a : A) (st : Cursor)
| Throw (e : exn) (st : Cursor)
| OutOfFuel.
Arguments Throw {A} e st.
Arguments OutOfFuel {A}.

Definition M (A : Type) := Cursor -> result A.

Definition ret {A} (a : A) : M A := fun st => Ok a st.

Definition bind {A B} (c : M A) (k : A -> M B) : M B :=
  fun st => match c st with
            | Ok a st' => k a st'
            | Throw e st' => Throw e st'
            | OutOfFuel => OutOfFuel
            end.

Declare Scope parser_scope.
Delimit Scope parser_scope with parser.
Notation "x <- c ;; k" := (bind c (fun x => k))
  (at level 100, c at next level, right associativity) : parser_scope.
Notation "c ;; k" := (bind c (fun _ => k))
  (at level 100, right associativity) : parser_scope.
Open Scope parser_scope.

Definition get : M Cursor := fun st => Ok st st.
Definition put (st : Cursor) : M unit := fun _ => Ok tt st.
Definition set_pos (p : nat) : M unit := fun st => Ok tt (mkCursor p (line st)).

(** [throw this.error(m)]. *)
Definition error {A} (m : message) : M A :=
  fun st => Throw (HUMLError m (line st)) st.

Definition out_of_fuel {A} : M A := fun _ => OutOfFuel.

Definition when (b : bool) (c : M unit) : M unit := if b then c else ret tt.

Definition SPECIAL_VALUES : list (jsstring * Value) :=
  [(u "true", VBool true); (u "false", VBool false); (u "null", VNull);
   (u "nan", VNum NaN); (u "inf", VNum (Infinity false))].

Definition ESCAPE_MAP (c : char) : option char :=
  if (c =? QUOTE)%N then Some QUOTE
  else if (c =? BACKSLASH)%N then Some BACKSLASH
  else if (c =? 47)%N then Some 47%N          (* / *)
  else if (c =? 110)%N then Some LF           (* n *)
  else if (c =? 116)%N then Some 9%N          (* t *)
  else if (c =? 114)%N then Some 13%N         (* r *)
  else if (c =? 98)%N then Some 8%N           (* b *)
  else if (c =? 102)%N then Some 12%N         (* f *)
  else None.

Definition TRIPLE_QUOTE : jsstring := [QUOTE; QUOTE; QUOTE].

Definition NUMBER_BASE_PREFIXES : list (jsstring * N) :=
  [(u "0x", 16%N); (u "0o", 8%N); (u "0b", 2%N)].

Inductive vector_type := INLINE_DICT | INLINE_LIST.

Inductive root_type :=
| ROOT_INLINE_DICT | ROOT_MULTILINE_DICT | ROOT_EMPTY_LIST | ROOT_EMPTY_DICT
| ROOT_MULTILINE_LIST | ROOT_INLINE_LIST | ROOT_SCALAR.

Definition isDigit (c : char) : bool := ((48 <=? c) && (c <=? 57))%N.

Definition isAlpha (c : char) : bool :=
  ((97 <=? c) && (c <=? 122) || (65 <=? c) && (c <=? 90))%N.

Definition isAlphaNum (c : char) : bool := isAlpha c || isDigit c.

Definition isHex (c : char) : bool :=
  (isDigit c || (97 <=? c) && (c <=? 102) || (65 <=? c) && (c <=? 70))%N.

Definition isSpaceString (s : jsstring) : bool :=
  match trim s with [] => true | _ => false end.

Definition is_space (c : char) : bool := (c =? SP)%N.

Definition is_key_char (c : char) : bool :=
  isAlphaNum c || (c =? DASH)%N || (c =? UNDERSCORE)%N.

Definition ends_with_space (s : jsstring) : bool :=
  match rev s with c :: _ => (c =? SP)%N | [] => false end.

(** Outcome of the scanning loop of [parseString] on the input that follows
    the opening quote: the string and the number of code units consumed, or
    the error and the offset at which it is raised. *)
Inductive string_scan :=
| ScanOk (s : jsstring) (n : nat)
| ScanErr (m : message) (n : nat).

(** The loop of [parseString]; [rest] is the input from [this.pos] on, [n]
    the number of code units consumed since the opening quote. *)
Fixpoint parseString_loop (rest : jsstring) (n : nat) (result : jsstring) : string_scan :=
  match rest with
  | [] => ScanErr UnclosedString n
  | c :: rest1 =>
      if (c =? QUOTE)%N then ScanOk result (S n)
      else if (c =? LF)%N then ScanErr NewlineInString n
      else if (c =? BACKSLASH)%N then
        match rest1 with
        | [] => ScanErr IncompleteEscape (S n)
        | esc :: rest2 =>
            match ESCAPE_MAP esc with
            | Some x => parseString_loop rest2 (n + 2) (result ++ [x])
            | None =>
                if (esc =? 117)%N then      (* u *)
                  match rest2 with
                  | h1 :: h2 :: h3 :: h4 :: rest3 =>
                      let hex := [h1; h2; h3; h4] in
                      match parseInt hex 16 with
                      | NaN => ScanErr (InvalidUnicodeEscape hex) (S n)
                      | code => parseString_loop rest3 (n + 6) (result ++ [fromCharCode code])
                      end
                  | _ => ScanErr IncompleteUnicodeEscape (S n)
                  end
                else ScanErr (InvalidEscape esc) (S n)
            end
        end
      else parseString_loop rest1 (S n) (result ++ [c])
  end.

(** The decimal loop of [parseNumber]: number of code units consumed and
    whether a [.] or an exponent was seen. *)
Fixpoint parseNumber_loop (rest : jsstring) (n : nat) (isFloat : bool) : nat * bool :=
  match rest with
  | [] => (n, isFloat)
  | c :: rest1 =>
      if isDigit c || (c =? UNDERSCORE)%N then parseNumber_loop rest1 (S n) isFloat
      else if (c =? DOT)%N then parseNumber_loop rest1 (S n) true
      else if ((c =? 101) || (c =? 69))%N then
        match rest1 with
        | s :: rest2 =>
            if ((s =? PLUS) || (s =? DASH))%N then parseNumber_loop rest2 (n + 2) true
            else parseNumber_loop rest1 (S n) true
        | [] => parseNumber_loop rest1 (S n) true
        end
      else (n, isFloat)
  end.

Definition remove_underscores (s : jsstring) : jsstring :=
  filter (fun c => negb (c =? UNDERSCORE)%N) s.

Section Parser.

(** [this.data], fixed by the constructor. *)
Variable data : jsstring.

Definition initial : Cursor := mkCursor 0 1.

Definition done (st : Cursor) : bool := length data <=? pos st.

(** [this.data[this.pos] === c]. *)
Definition cur_is (st : Cursor) (c : char) : bool :=
  match nth_error data (pos st) with Some d => (d =? c)%N | None => false end.

(** Input from [this.pos] on. *)
Definition rest (st : Cursor) : jsstring := skipn (pos st) data.

Definition advance (n : nat) : M unit :=
  fun st => Ok tt (mkCursor (pos st + n) (line st)).

Definition skipSpaces : M unit :=
  fun st => advance (span_len is_space (rest st)) st.

Definition peekString (s : jsstring) (st : Cursor) : bool := prefixb s (rest st).

Definition peekChar (p : nat) : char := nth p data 0%N.

Definition isKeyStart (st : Cursor) : bool :=
  negb (done st) && (cur_is st QUOTE || isAlpha (peekChar (pos st))).

(** [this.data.lastIndexOf('\n', from)], the start index clamped to the
    string as [lastIndexOf] does. *)
Fixpoint last_newline (i : nat) : option nat :=
  match nth_error data i with
  | Some LF => Some i
  | _ => match i with O => None | S i' => last_newline i' end
  end.

Definition lineStart (st : Cursor) : nat :=
  let start := pos st in
  if (0 <? start) && (start <=? length data)
     && match nth_error data (start - 1) with Some c => (c =? LF)%N | None => false end
  then start
  else match last_newline (Nat.min (start - 1) (length data - 1)) with
       | Some i => i + 1
       | None => 0
       end.

Definition getCurIndent (st : Cursor) : nat :=
  span_len is_space (skipn (lineStart st) data).

(** Ensures exactly one space at the current position. *)
Definition assertSpace (ctx : context) : M unit :=
  st <- get ;;
  if done st || negb (cur_is st SP) then error (ExpectedSingleSpace ctx)
  else
    advance 1 ;;
    st <- get ;;
    if negb (done st) && cur_is st SP then error (MultipleSpaces ctx)
    else ret tt.

(** Validates and consumes the rest of the line, comment included. *)
Definition consumeLine : M unit :=
  st0 <- get ;;
  let contentStart := pos st0 in
  skipSpaces ;;
  st <- get ;;
  (if done st || cur_is st LF then
     when (contentStart <? pos st) (error TrailingSpaces)
   else if cur_is st HASH then
     when ((pos st =? contentStart) && negb (getCurIndent st + lineStart st =? pos st))
          (error CommentNeedsSpaceBefore) ;;
     set_pos (pos st + 1) ;;
     st' <- get ;;
     when (negb (done st') && negb (cur_is st' SP || cur_is st' LF))
          (error CommentHashSpace)
   else error UnexpectedContentEOL) ;;
  st <- get ;;
  let remLine := slice data (pos st) (indexOf data LF (pos st)) in
  when (ends_with_space remLine && (0 <? length remLine)) (error TrailingSpaces) ;;
  match indexOf data LF (pos st) with
  | Some nextNewline => put (mkCursor (nextNewline + 1) (line st + 1))
  | None => put (mkCursor (length data) (line st))
  end.

(** Consumes the line without validation (content of multiline strings). *)
Definition consumeLineContent : M jsstring :=
  st <- get ;;
  let start := pos st in
  match indexOf data LF (pos st) with
  | None => put (mkCursor (length data) (line st)) ;; ret (skipn start data)
  | Some nextNewline =>
      put (mkCursor (nextNewline + 1) (line st + 1)) ;;
      ret (substring data start nextNewline)
  end.

(** Skips blank and comment lines; [fuel] bounds the number of lines. *)
Fixpoint skipBlankLines_loop (fuel : nat) : M unit :=
  st <- get ;;
  if done st then ret tt
  else match fuel with
       | O => out_of_fuel
       | S fuel' =>
           let lineStart := pos st in
           skipSpaces ;;
           st1 <- get ;;
           if done st1 then when (lineStart <? pos st1) (error TrailingSpaces)
           else if negb (cur_is st1 LF || cur_is st1 HASH) then ret tt
           else if cur_is st1 LF && (lineStart <? pos st1) then error TrailingSpaces
           else set_pos lineStart ;; consumeLine ;; skipBlankLines_loop fuel'
       end.

Definition skipBlankLines : M unit :=
  fun st => skipBlankLines_loop (length data - pos st) st.

(** Validates comma usage in inline collections. *)
Definition expectComma : M unit :=
  skipSpaces ;;
  st <- get ;;
  if done st || negb (cur_is st COMMA) then error ExpectedComma
  else if (0 <? pos st)
          && match nth_error data (pos st - 1) with Some c => (c =? SP)%N | None => false end
  then error SpaceBeforeComma
  else advance 1 ;; assertSpace AfterComma.

(** Parses quoted strings with escape sequences. *)
Definition parseString : M jsstring :=
  advance 1 ;;
  st <- get ;;
  match parseString_loop (rest st) 0 [] with
  | ScanOk s n => set_pos (pos st + n) ;; ret s
  | ScanErr m n => set_pos (pos st + n) ;; error m
  end.

(** Parses a key, either a bare identifier or a quoted string. *)
Definition parseKey : M jsstring :=
  skipSpaces ;;
  st <- get ;;
  if (peekChar (pos st) =? QUOTE)%N then parseString
  else
    let start := pos st in
    advance (span_len is_key_char (rest st)) ;;
    st' <- get ;;
    if pos st' =? start then error ExpectedKey
    else ret (substring data start (pos st')).

(** Parses the [:] or [::] indicator after a key; [true] stands for [::]. *)
Definition parseIndicator : M bool :=
  st <- get ;;
  if done st || negb (cur_is st COLON) then error ExpectedIndicator
  else
    advance 1 ;;
    st <- get ;;
    if negb (done st) && cur_is st COLON then advance 1 ;; ret true
    else ret false.

(** Digits accepted by [parseBase] for each base. *)
Definition base_validator (base : N) (c : char) : bool :=
  if (base =? 16)%N then isHex c
  else if (base =? 8)%N then ((48 <=? c) && (c <=? 55))%N
  else mem c (u "01").

(** Parses numbers in non-decimal bases. *)
Definition parseBase (start : nat) (base : N) (prefix : jsstring) : M Value :=
  advance (length prefix) ;;
  st <- get ;;
  let numStart := pos st in
  advance (span_len (base_validator base) (rest st)) ;;
  st' <- get ;;
  if pos st' =? numStart then error InvalidNumberLiteral
  else
    let negative := match nth_error data start with
                    | Some c => (c =? DASH)%N
                    | None => false
                    end in
    let numStr := remove_underscores (substring data numStart (pos st')) in
    let x := parseInt numStr base in
    ret (VNum (if negative then number_neg x else x)).

(** Parses numbers in the various formats. *)
Definition parseNumber : M Value :=
  st0 <- get ;;
  let start := pos st0 in
  let c := peekChar (pos st0) in
  when ((c =? PLUS) || (c =? DASH))%N (advance 1) ;;
  st <- get ;;
  match find (fun pb => peekString (fst pb) st) NUMBER_BASE_PREFIXES with
  | Some (prefix, base) => parseBase start base prefix
  | None =>
      let (n, isFloat) := parseNumber_loop (rest st) 0 false in
      advance n ;;
      st' <- get ;;
      let numStr := remove_underscores (substring data start (pos st')) in
      ret (VNum (if isFloat then parseFloat numStr else parseInt numStr 10))
  end.

(** Line processing of multiline strings: the backtick form strips the
    required indent of [keyIndent + 2] spaces when present, the
    double-quote form trims the line. *)
Definition processLine (keyIndent : nat) (preserveSpaces : bool) (content : jsstring)
  : jsstring :=
  if preserveSpaces then
    let reqIndent := keyIndent + 2 in
    if (reqIndent <=? length content) && isSpaceString (firstn reqIndent content)
    then skipn reqIndent content
    else content
  else trim content.

(** The loop of [parseMultilineString] over the lines that follow the
    opening delimiter; [fuel] bounds the number of lines. *)
Fixpoint parseMultilineString_loop (fuel : nat) (keyIndent : nat) (preserveSpaces : bool)
    (delim : jsstring) (lines : list jsstring) : M Value :=
  st <- get ;;
  if done st then error UnclosedMultilineString
  else match fuel with
       | O => out_of_fuel
       | S fuel' =>
           let lineStartPos := pos st in
           let lineIndent := span_len is_space (rest st) in
           advance lineIndent ;;
           st1 <- get ;;
           if peekString delim st1 then
             if negb (lineIndent =? keyIndent) then error (ClosingDelimiterIndent keyIndent)
             else advance 3 ;; consumeLine ;; ret (VStr (join_lines lines))
           else
             set_pos lineStartPos ;;
             lineContent <- consumeLineContent ;;
             parseMultilineString_loop fuel' keyIndent preserveSpaces delim
               (lines ++ [processLine keyIndent preserveSpaces lineContent])
       end.

(** Parses multiline strings. *)
Definition parseMultilineString (keyIndent : nat) (preserveSpaces : bool) : M Value :=
  st <- get ;;
  let delim := substring data (pos st) (pos st + 3) in
  advance 3 ;;
  consumeLine ;;
  st' <- get ;;
  parseMultilineString_loop (length data - pos st') keyIndent preserveSpaces delim [].

(** Parses any scalar value. *)
Definition parseValue (keyIndent : nat) : M Value :=
  st <- get ;;
  if done st then error UnexpectedEndOfInput
  else
    let c := peekChar (pos st) in
    if (c =? QUOTE)%N then
      if peekString TRIPLE_QUOTE st then parseMultilineString keyIndent false
      else s <- parseString ;; ret (VStr s)
    else if (c =? BACKTICK)%N && peekString (u "```") st then
      parseMultilineString keyIndent true
    else
      match find (fun sv => peekString (fst sv) st) SPECIAL_VALUES with
      | Some (str, value) => advance (length str) ;; ret value
      | None =>
          if (c =? PLUS)%N then
            advance 1 ;;
            st1 <- get ;;
            if peekString (u "inf") st1 then advance 3 ;; ret (VNum (Infinity false))
            else if isDigit (peekChar (pos st1)) then set_pos (pos st1 - 1) ;; parseNumber
            else error (InvalidAfterSign PLUS)
          else if (c =? DASH)%N then
            advance 1 ;;
            st1 <- get ;;
            if peekString (u "inf") st1 then advance 3 ;; ret (VNum (Infinity true))
            else if isDigit (peekChar (pos st1)) then set_pos (pos st1 - 1) ;; parseNumber
            else error (InvalidAfterSign DASH)
          else if isDigit c then parseNumber
          else error (UnexpectedCharacter c)
      end.

(** The loop of [parseInlineVectorContents]; the result so far is an
    object (prototype flag and properties) for a dict, an array for a
    list.  [fuel] bounds the number of elements. *)
Fixpoint parseInlineVectorContents_loop (fuel : nat) (type : vector_type)
    (isFirst : bool) (obj : bool * list (jsstring * Value)) (arr : list Value)
  : M (bool * list (jsstring * Value) * list Value) :=
  st <- get ;;
  if done st || cur_is st LF || cur_is st HASH then ret (obj, arr)
  else match fuel with
       | O => out_of_fuel
       | S fuel' =>
           when (negb isFirst) expectComma ;;
           res <- match type with
                  | INLINE_DICT =>
                      key <- parseKey ;;
                      st1 <- get ;;
                      if done st1 || negb (cur_is st1 COLON) then error ExpectedColonInlineDict
                      else
                        advance 1 ;;
                        assertSpace InInlineDict ;;
                        v <- parseValue 0 ;;
                        ret (obj_set key v obj, arr)
                  | INLINE_LIST =>
                      v <- parseValue 0 ;;
                      ret (obj, arr ++ [v])
                  end ;;
           let '(obj', arr') := res in
           st2 <- get ;;
           if negb (done st2) && cur_is st2 SP then
             let nextPos := pos st2 + 1 + span_len is_space (skipn (pos st2 + 1) data) in
             if (nextPos <? length data)
                && match nth_error data nextPos with Some c => (c =? COMMA)%N | None => false end
             then skipSpaces ;; parseInlineVectorContents_loop fuel' type false obj' arr'
             else ret (obj', arr')
           else parseInlineVectorContents_loop fuel' type false obj' arr'
       end.

(** Unified parser for inline lists and dicts. *)
Definition parseInlineVectorContents (type : vector_type) : M Value :=
  st <- get ;;
  res <- parseInlineVectorContents_loop (length data - pos st) type true (true, []) [] ;;
  consumeLine ;;
  match type, res with
  | INLINE_DICT, ((proto, props), _) => ret (VObj proto props)
  | INLINE_LIST, (_, arr) => ret (VArr arr)
  end.

(** [hasInlineDict]: [some] visits the code points of the rest of the
    input; the callback answers [false] on a newline or [#] and the scan
    goes on with the next code point. *)
Fixpoint hasInlineDict_some (chars : list jsstring) (i : nat) (st : Cursor) : bool :=
  match chars with
  | [] => false
  | char :: chars' =>
      let actualPos := pos st + i in
      (if string_eqb char [LF] || string_eqb char [HASH] then false
       else string_eqb char [COLON]
            && ((length data <=? actualPos + 1)
                || negb match nth_error data (actualPos + 1) with
                        | Some c => (c =? COLON)%N
                        | None => false
                        end))
      || hasInlineDict_some chars' (S i) st
  end.

Definition hasInlineDict : M bool :=
  st <- get ;;
  ret (hasInlineDict_some (code_points (rest st)) 0 st).

(** Parses inline vectors: [[]], [{}], or comma-separated values. *)
Definition parseInlineVector : M Value :=
  st <- get ;;
  if peekString (u "[]") st then advance 2 ;; consumeLine ;; ret (VArr [])
  else if peekString (u "{}") st then advance 2 ;; consumeLine ;; ret EMPTY_OBJECT
  else
    isDict <- hasInlineDict ;;
    if isDict then parseInlineVectorContents INLINE_DICT
    else parseInlineVectorContents INLINE_LIST.

(** Determines whether a multiline vector is a list ([true]) or a dict by
    peeking at the next line. *)
Definition getMultilineVectorType (indent : nat) : M bool :=
  skipBlankLines ;;
  st <- get ;;
  if done st then error AmbiguousEmptyVector
  else if getCurIndent st <? indent then error AmbiguousEmptyVector
  else ret (cur_is st DASH).

(** The three mutually recursive methods: [parseMultilineDict] and
    [parseMultilineList] (each call of the function is one iteration of
    the [while (true)] loop, with the result built so far) and
    [parseVector].  [fuel] bounds loop iterations plus nested calls. *)
Fixpoint parseMultilineDict (fuel : nat) (indent : nat)
    (out : bool * list (jsstring * Value)) {struct fuel} : M Value :=
  match fuel with
  | O => out_of_fuel
  | S fuel' =>
      skipBlankLines ;;
      st <- get ;;
      if done st then ret (VObj (fst out) (snd out))
      else
        let curIndent := getCurIndent st in
        if curIndent <? indent then ret (VObj (fst out) (snd out))
        else if negb (curIndent =? indent) then error (BadIndent curIndent indent)
        else if negb (isKeyStart st) then error InvalidKeyStart
        else
          key <- parseKey ;;
          if js_in key (fst out) (snd out) then error (DuplicateKey key)
          else
            indicator <- parseIndicator ;;
            val <- (if negb indicator then
                      assertSpace AfterColon ;;
                      st1 <- get ;;
                      let isMultiline :=
                        peekString (u "```") st1 || peekString TRIPLE_QUOTE st1 in
                      v <- parseValue curIndent ;;
                      when (negb isMultiline) consumeLine ;;
                      ret v
                    else parseVector fuel' (curIndent + 2)) ;;
            parseMultilineDict fuel' indent (obj_set key val out)
  end

with parseMultilineList (fuel : nat) (indent : nat) (out : list Value)
    {struct fuel} : M Value :=
  match fuel with
  | O => out_of_fuel
  | S fuel' =>
      skipBlankLines ;;
      st <- get ;;
      if done st then ret (VArr out)
      else
        let curIndent := getCurIndent st in
        if curIndent <? indent then ret (VArr out)
        else if negb (curIndent =? indent) then error (BadIndent curIndent indent)
        else if negb (cur_is st DASH) then ret (VArr out)
        else
          advance 1 ;;
          assertSpace AfterDash ;;
          st1 <- get ;;
          val <- (if peekString (u "::") st1 then
                    advance 2 ;; parseVector fuel' (curIndent + 2)
                  else
                    v <- parseValue curIndent ;;
                    consumeLine ;;
                    ret v) ;;
          parseMultilineList fuel' indent (out ++ [val])
  end

with parseVector (fuel : nat) (indent : nat) {struct fuel} : M Value :=
  match fuel with
  | O => out_of_fuel
  | S fuel' =>
      st0 <- get ;;
      let startPos := pos st0 in
      skipSpaces ;;
      st <- get ;;
      if done st || cur_is st LF || cur_is st HASH then
        set_pos startPos ;;
        consumeLine ;;
        isList <- getMultilineVectorType indent ;;
        st1 <- get ;;
        let nextIndent := getCurIndent st1 in
        if isList then parseMultilineList fuel' nextIndent []
        else parseMultilineDict fuel' nextIndent (true, [])
      else
        set_pos startPos ;;
        assertSpace AfterDoubleColon ;;
        parseInlineVector
  end.

(** *** Lookahead *)

(** [hasKeyValuePair]: trial parse of a key; the [finally] block restores
    [this.pos] on every path, whatever state [parseKey] left behind. *)
Definition hasKeyValuePair : M bool :=
  fun st =>
    let savedPos := pos st in
    match parseKey st with
    | Ok _ st' => Ok (negb (done st') && cur_is st' COLON) (mkCursor savedPos (line st'))
    | Throw _ st' => Ok false (mkCursor savedPos (line st'))
    | OutOfFuel => OutOfFuel
    end.

Definition hasInlineListAtRoot : M bool :=
  st <- get ;;
  let line := slice data (pos st) (indexOf data LF (pos st)) in
  let content := match index_of HASH line with
                 | Some commentIdx => firstn commentIdx line
                 | None => line
                 end in
  ret (mem COMMA content && negb (mem COLON content)).

Definition hasInlineDictAtRoot : M bool :=
  st <- get ;;
  let lineEnd := indexOf data LF (pos st) in
  let commentIdx := indexOf data HASH (pos st) in
  let stop := Nat.min (match lineEnd with Some i => i | None => length data end)
                      (match commentIdx with Some i => i | None => length data end) in
  let line := slice data (pos st) (Some stop) in
  let hasColon := mem COLON line && negb (includes (u "::") line) in
  let hasComma := mem COMMA line in
  if negb (hasColon && hasComma) then ret false
  else
    let remContent :=
      existsb (fun l => let trimmed := trim l in
                        match trimmed with
                        | [] => false
                        | c :: _ => negb (c =? HASH)%N
                        end)
              (tl (split_lines (skipn (match lineEnd with
                                       | Some i => i
                                       | None => length data
                                       end) data))) in
    ret (negb remContent).

(** Determines the type of the root element. *)
Definition getRootType : M root_type :=
  kv <- hasKeyValuePair ;;
  if kv then
    inl <- hasInlineDictAtRoot ;;
    ret (if inl then ROOT_INLINE_DICT else ROOT_MULTILINE_DICT)
  else
    st <- get ;;
    if peekString (u "[]") st then ret ROOT_EMPTY_LIST
    else if peekString (u "{}") st then ret ROOT_EMPTY_DICT
    else if (peekChar (pos st) =? DASH)%N then ret ROOT_MULTILINE_LIST
    else
      il <- hasInlineListAtRoot ;;
      ret (if il then ROOT_INLINE_LIST else ROOT_SCALAR).

(** Ensures no content follows the root element. *)
Definition assertRootEnd (val : Value) (description : rootdesc) : M Value :=
  skipBlankLines ;;
  st <- get ;;
  if negb (done st) then error (ContentAfterRoot description)
  else ret val.

(** Main entry point of the parser: version declaration and root type. *)
Definition parse_ : M Value :=
  if length data =? 0 then fun st => Throw (JSError EmptyDocument) st
  else
    st <- get ;;
    when (peekString (u "%HUML") st)
      (advance 5 ;;
       st1 <- get ;;
       when (negb (done st1) && cur_is st1 SP)
         (advance 1 ;;
          st2 <- get ;;
          let start := pos st2 in
          advance (span_len (fun c => negb (mem c [SP; LF; HASH])) (rest st2)) ;;
          st3 <- get ;;
          when (start <? pos st3)
            (let version := substring data start (pos st3) in
             when (negb (string_eqb version (u "v0.1.0")))
               (error (UnsupportedVersion version)))) ;;
       consumeLine) ;;
    skipBlankLines ;;
    st <- get ;;
    if done st then error EmptyDoc
    else if negb (getCurIndent st =? 0) then error RootIndented
    else if peekString (u "::") st then error RootVectorIndicator
    else
      kv <- (if peekString (u ":") st then hasKeyValuePair else ret true) ;;
      if peekString (u ":") st && negb kv then error RootScalarIndicator
      else
        rootType <- getRootType ;;
        match rootType with
        | ROOT_INLINE_DICT =>
            v <- parseInlineVectorContents INLINE_DICT ;;
            assertRootEnd v RootInlineDict
        | ROOT_MULTILINE_DICT => parseMultilineDict (S (length data)) 0 (true, [])
        | ROOT_EMPTY_LIST =>
            advance 2 ;; consumeLine ;; assertRootEnd (VArr []) RootList
        | ROOT_EMPTY_DICT =>
            advance 2 ;; consumeLine ;; assertRootEnd EMPTY_OBJECT RootDict
        | ROOT_MULTILINE_LIST => parseMultilineList (S (length data)) 0 []
        | ROOT_INLINE_LIST =>
            v <- parseInlineVectorContents INLINE_LIST ;;
            assertRootEnd v RootInlineList
        | ROOT_SCALAR =>
            val <- parseValue 0 ;;
            consumeLine ;;
            assertRootEnd val RootScalar
        end.

End Parser.

(** [parse(data)] for a string [data]: a fresh parser, then [parse()]. *)
Definition parse (data : jsstring) : result Value := parse_ data initial.

(** The outcome of [parse] as seen by the caller. *)
Definition outcome {A} (r : result A) : option (A + exn) :=
  match r with
  | Ok a _ => Some (inl a)
  | Throw e _ => Some (inr e)
  | OutOfFuel => None
  end.

(** ** The encoder *)

(** Exceptions of the encoder: [String.prototype.repeat] throws a
    [RangeError] on a negative count. *)
Inductive encode_exn := RangeError.

Inductive encoded (A : Type) :=
| Done (a : A)
| Raise (e : encode_exn).
Arguments Raise {A} e.

Definition and_then {A B} (c : encoded A) (k : A -> encoded B) : encoded B :=
  match c with Done a => k a | Raise e => Raise e end.

(** The array [lines]: [push], and [lines[lines.length - 1] += s].  On an
    empty array the latter writes the property ["-1"], which is not an
    element: the array stays empty. *)
Definition push (lines : list jsstring) (s : jsstring) : list jsstring := lines ++ [s].

Fixpoint append_last (lines : list jsstring) (s : jsstring) : list jsstring :=
  match lines with
  | [] => []
  | [l] => [l ++ s]
  | l :: ls => l :: append_last ls s
  end.

Definition spaces (n : nat) : jsstring := repeat SP n.

(** [BARE_KEY_REGEX.test(key)]. *)
Definition BARE_KEY_REGEX (key : jsstring) : bool :=
  match key with
  | c :: key' => isAlpha c && forallb is_key_char key'
  | [] => false
  end.

(** Format a number for HUML output. *)
Definition formatNumber (num : number) : jsstring :=
  match num with
  | NaN => u "nan"
  | Infinity false => u "inf"
  | Infinity true => u "-inf"
  | _ => number_to_string num
  end.

(** Encode a string value. *)
Definition toString (str : jsstring) (indent : nat) (lines : list jsstring)
  : encoded (list jsstring) :=
  if mem LF str then
    let contentIndent := indent in
    let lines1 := append_last lines (u "```") in
    let strLines := split_lines str in
    let strLines := match rev strLines with
                    | [] :: front => rev front
                    | _ => strLines
                    end in
    let lines2 := fold_left (fun ls l => push ls (spaces contentIndent ++ l)) strLines lines1 in
    if indent <? 2 then Raise RangeError
    else Done (push lines2 (spaces (indent - 2) ++ u "```"))
  else Done (append_last lines (JSON_stringify str)).

(** Determines if a value is a vector (array or object): for an object the
    test [value.constructor === Object] holds when the property is
    inherited from [Object.prototype]. *)
Definition isVector (value : Value) : bool :=
  match value with
  | VArr _ => true
  | VObj proto props => proto && negb (has_own (u "constructor") props)
  | _ => false
  end.

(** Determines if a vector is empty. *)
Definition isEmptyVector (value : Value) : bool :=
  match value with
  | VArr [] => true
  | VObj _ [] => true
  | _ => false
  end.

(** Quotes a key if necessary. *)
Definition quoteKey (key : jsstring) : jsstring :=
  if BARE_KEY_REGEX key then key else JSON_stringify key.

Section Encoder.

(** [a.localeCompare(b)] of the host: negative, zero or positive. *)
Variable localeCompare : jsstring -> jsstring -> Z.

(** [entries.sort(([a], [b]) => a.localeCompare(b))]: the sort is stable. *)
Fixpoint sort_insert {A} (e : jsstring * A) (l : list (jsstring * A)) :=
  match l with
  | [] => [e]
  | e' :: l' =>
      if (localeCompare (fst e) (fst e') <=? 0)%Z then e :: l
      else e' :: sort_insert e l'
  end.

Fixpoint sort_entries {A} (l : list (jsstring * A)) : list (jsstring * A) :=
  match l with
  | [] => []
  | e :: l' => sort_insert e (sort_entries l')
  end.

(** An encoder for a value: what [toValue(value, indent, lines)] does for
    the given indent and lines. *)
Definition writer := nat -> list jsstring -> encoded (list jsstring).

(** Writes a key-value pair; [write] is [toValue] at the value. *)
Definition writeKeyValuePair (key : jsstring) (value : Value) (write : writer)
    (indent : nat) (lines : list jsstring) : encoded (list jsstring) :=
  let lines1 := push lines (spaces indent ++ quoteKey key) in
  let isVec := isVector value in
  let isEmpty := isEmptyVector value in
  let lines2 := append_last lines1
                  (if isVec then (if isEmpty then u ":: " else u "::") else u ": ") in
  write (indent + 2) lines2.

(** Encode an array value; [write] is [toValue] at each item. *)
Definition toArray (arr : list (Value * writer)) (indent : nat)
    (lines : list jsstring) (isRootLevel : bool) : encoded (list jsstring) :=
  match arr with
  | [] => Done (append_last lines (u "[]"))
  | _ =>
      let itemIndent := if isRootLevel then 0 else indent in
      fold_left (fun acc item =>
                   and_then acc (fun lines =>
                     let lines1 := push lines (spaces itemIndent ++ u "- ") in
                     if isVector (fst item)
                     then snd item (itemIndent + 2) (append_last lines1 (u "::"))
                     else snd item itemIndent lines1))
                arr (Done lines)
  end.

(** Encode an object value. *)
Definition toObject (entries : list (jsstring * (Value * writer))) (indent : nat)
    (lines : list jsstring) (isRootLevel : bool) : encoded (list jsstring) :=
  match entries with
  | [] => Done (append_last lines (u "{}"))
  | _ =>
      let entries := sort_entries entries in
      let keyIndent := if isRootLevel then 0 else indent in
      fold_left (fun acc e =>
                   and_then acc (fun lines =>
                     writeKeyValuePair (fst e) (fst (snd e)) (snd (snd e)) keyIndent lines))
                entries (Done lines)
  end.

(** Encode a value. *)
Fixpoint toValue (value : Value) (indent : nat) (lines : list jsstring)
    (isRootLevel : bool) {struct value} : encoded (list jsstring) :=
  match value with
  | VNull => Done (append_last lines (u "null"))
  | VBool b => Done (append_last lines (if b then u "true" else u "false"))
  | VNum x => Done (append_last lines (formatNumber x))
  | VStr s => toString s indent lines
  | VArr arr =>
      toArray
        ((fix items (l : list Value) : list (Value * writer) :=
            match l with
            | [] => []
            | v :: l' => (v, fun i ls => toValue v i ls false) :: items l'
            end) arr)
        indent lines isRootLevel
  | VObj _ props =>
      toObject
        ((fix entries (l : list (jsstring * Value)) : list (jsstring * (Value * writer)) :=
            match l with
            | [] => []
            | (k, v) :: l' => (k, (v, fun i ls => toValue v i ls false)) :: entries l'
            end) props)
        indent lines isRootLevel
  end.

(** Convert a value to HUML format. *)
Definition stringify (obj : Value) (includeVersion : bool) : encoded jsstring :=
  let lines := if includeVersion then [u "%HUML v0.1.0"; []] else [] in
  and_then (toValue obj 0 lines true) (fun lines =>
    Done (join_lines (push lines []))).

End Encoder.

(** Comparison of strings by code units, a total order on strings. *)
Fixpoint code_unit_compare (a b : jsstring) : Z :=
  match a, b with
  | [], [] => 0
  | [], _ :: _ => -1
  | _ :: _, [] => 1
  | c :: a', d :: b' =>
      match N.compare c d with
      | Lt => -1
      | Gt => 1
      | Eq => code_unit_compare a' b'
      end
  end.

(** ** Vocabulary of the statements *)



(** The keys of an object are pairwise distinct. *)
Fixpoint keys_distinct (keys : list jsstring) : bool :=
  match keys with
  | [] => true
  | k :: ks => negb (existsb (string_eqb k) ks) && keys_distinct ks
  end.

(** The entries of an object are written in this order, each by
    [writeKeyValuePair] with [toValue] at its value. *)
Definition write_entries (cmp : jsstring -> jsstring -> Z)
    (entries : list (jsstring * Value)) (keyIndent : nat) (lines : list jsstring)
  : encoded (list jsstring) :=
  fold_left (fun acc e =>
               and_then acc (fun lines =>
                 writeKeyValuePair (fst e) (snd e)
                   (fun i ls => toValue cmp (snd e) i ls false) keyIndent lines))
            entries (Done lines).

Definition num (z : Z) : Value := VNum (number_of_Z z).

(** The 1-based number of the line that holds offset [p]. *)
Definition line_number (data : jsstring) (p : nat) : nat :=
  S (count_occ N.eq_dec (firstn p data) LF).

(** Offset [j] is the first offset of a line. *)
Definition is_line_start (data : jsstring) (j : nat) : bool :=
  match j with
  | O => true
  | S j' => match nth_error data j' with Some c => (c =? LF)%N | None => false end
  end.






(** [wp c st Q E]: the call [c] in state [st] ends (it does not exhaust its
    fuel), with a value and a state that satisfy [Q], or with an exception
    and a state that satisfy [E]. *)
Definition wp {A} (c : M A) (st : Cursor) (Q : A -> Cursor -> Prop)
    (E : exn -> Cursor -> Prop) : Prop :=
  match c st with
  | Ok a st' => Q a st'
  | Throw e st' => E e st'
  | OutOfFuel => False
  end.

(** The parser stands at or before offset [p], and its line counter does
    not exceed the number of the line it stands on. *)
Definition upto (data : jsstring) (p : nat) (st : Cursor) : Prop :=
  pos st <= p /\ line st <= line_number data (pos st).

(** An exception raised in such a state, carrying the line counter. *)
Definition raised_upto (data : jsstring) (p : nat) (e : exn) (st : Cursor) : Prop :=
  upto data p st /\ exn_line e = Some (line st).



(** *** Round trips *)

(** The text [String(x)] of a finite number is read back as [x] by
    [parseNumber]: it is a decimal literal that the scanning loop consumes
    whole, and its conversion is [x]. *)
Definition number_text_ok (x : number) : bool :=
  let t := number_to_string x in
  let t' := match t with
            | c :: r => if (c =? DASH)%N then r else t
            | [] => []
            end in
  match t' with
  | c :: _ =>
      isDigit c
      && negb (existsb (fun pb => prefixb (fst pb) t') NUMBER_BASE_PREFIXES)
      && negb (mem UNDERSCORE t)
      && (let (n, isFloat) := parseNumber_loop t' 0 false in
          (n =? length t')
          && number_eqb (if isFloat then parseFloat t else parseInt t 10) x)
  | [] => false
  end.

Definition number_ok (x : number) : bool :=
  match x with
  | Finite _ _ _ => number_text_ok x
  | _ => true
  end.

(** The keys of a dict the decoder can rebuild line by line: distinct, and
    none names a property of [Object.prototype]. *)
Definition keys_ok (keys : list jsstring) : bool :=
  keys_distinct keys
  && forallb (fun k => negb (existsb (string_eqb k) OBJECT_PROTOTYPE)) keys.

(** Values the encoder writes in a form the decoder reads back: strings
    without newline, numbers whose text is read back, dicts with
    [Object.prototype] and good keys, no empty list or dict as a list
    item. *)
Fixpoint encodable (v : Value) : bool :=
  match v with
  | VNull | VBool _ => true
  | VNum x => number_ok x
  | VStr s => negb (mem LF s)
  | VArr items =>
      (fix all (l : list Value) : bool :=
         match l with
         | [] => true
         | i :: l' => encodable i && negb (isEmptyVector i) && all l'
         end) items
  | VObj proto props =>
      proto && keys_ok (map fst props)
      && (fix all (l : list (jsstring * Value)) : bool :=
            match l with
            | [] => true
            | (_, x) :: l' => encodable x && all l'
            end) props
  end.


(** The object the decoder builds from entries read in the given order. *)
Definition build_object (entries : list (jsstring * Value)) : bool * list (jsstring * Value) :=
  fold_left (fun o kv => obj_set (fst kv) (snd kv) o) entries (true, []).

(** The value decoded from the encoding of [v]: every dict is rebuilt from
    its entries taken in the order the encoder writes them. *)
Fixpoint canonical (cmp : jsstring -> jsstring -> Z) (v : Value) : Value :=
  match v with
  | VArr items => VArr (map (canonical cmp) items)
  | VObj proto props =>
      let o := build_object
                 (sort_entries cmp
                    ((fix entries (l : list (jsstring * Value)) :=
                        match l with
                        | [] => []
                        | (k, x) :: l' => (k, canonical cmp x) :: entries l'
                        end) props)) in
      VObj (fst o) (snd o)
  | _ => v
  end.


(** The text of a scalar and the value it is read as. *)
Inductive scalar_text : jsstring -> Value -> Prop :=
| st_null : scalar_text (u "null") VNull
| st_true : scalar_text (u "true") (VBool true)
| st_false : scalar_text (u "false") (VBool false)
| st_nan : scalar_text (u "nan") (VNum NaN)
| st_inf : scalar_text (u "inf") (VNum (Infinity false))
| st_neg_inf : scalar_text (u "-inf") (VNum (Infinity true))
| st_number neg m e :
    number_text_ok (Finite neg m e) = true ->
    scalar_text (number_to_string (Finite neg m e)) (VNum (Finite neg m e))
| st_string s : scalar_text (JSON_stringify s) (VStr s).

(** The lines of a multiline dict at a given indent with the entries they
    denote, and the lines of a multiline list with its items. *)
Inductive dict_lines : nat -> list jsstring -> list (jsstring * Value) -> Prop :=
| dl_nil n : dict_lines n [] []
| dl_scalar n k t v ls es :
    scalar_text t v -> dict_lines n ls es ->
    dict_lines n ((spaces n ++ quoteKey k ++ u ": " ++ t) :: ls) ((k, v) :: es)
| dl_empty_list n k ls es :
    dict_lines n ls es ->
    dict_lines n ((spaces n ++ quoteKey k ++ u ":: []") :: ls) ((k, VArr []) :: es)
| dl_empty_dict n k ls es :
    dict_lines n ls es ->
    dict_lines n ((spaces n ++ quoteKey k ++ u ":: {}") :: ls) ((k, EMPTY_OBJECT) :: es)
| dl_list n k body items ls es :
    body <> [] -> list_lines (n + 2) body items -> dict_lines n ls es ->
    dict_lines n ((spaces n ++ quoteKey k ++ u "::") :: body ++ ls) ((k, VArr items) :: es)
| dl_dict n k body entries ls es :
    body <> [] -> dict_lines (n + 2) body entries ->
    keys_ok (map fst entries) = true -> dict_lines n ls es ->
    dict_lines n ((spaces n ++ quoteKey k ++ u "::") :: body ++ ls)
      ((k, VObj true (snd (build_object entries))) :: es)
with list_lines : nat -> list jsstring -> list Value -> Prop :=
| ll_nil n : list_lines n [] []
| ll_scalar n t v ls items :
    scalar_text t v -> list_lines n ls items ->
    list_lines n ((spaces n ++ u "- " ++ t) :: ls) (v :: items)
| ll_list n body inner ls items :
    body <> [] -> list_lines (n + 2) body inner -> list_lines n ls items ->
    list_lines n ((spaces n ++ u "- ::") :: body ++ ls) (VArr inner :: items)
| ll_dict n body entries ls items :
    body <> [] -> dict_lines (n + 2) body entries ->
    keys_ok (map fst entries) = true -> list_lines n ls items ->
    list_lines n ((spaces n ++ u "- ::") :: body ++ ls)
      (VObj true (snd (build_object entries)) :: items).

(** The text of a list of lines, each ended by a newline. *)
Definition unlines (ls : list jsstring) : jsstring :=
  concat (map (fun l => l ++ [LF]) ls).

(** The cursor moved [n] code units forward on the same line. *)
Definition adv (st : Cursor) (n : nat) : Cursor := mkCursor (pos st + n) (line st).

(** The characters that [JSON.stringify] writes as a [\u] escape. *)
Definition unicode_escaped : list N :=
  map N.of_nat (seq 0 32) ++ map (fun i => (55296 + N.of_nat i)%N) (seq 0 2048).

Scheme dict_lines_mut := Minimality for dict_lines Sort Prop
  with list_lines_mut := Minimality for list_lines Sort Prop.

Combined Scheme lines_mutind from dict_lines_mut, list_lines_mut.

(** A character that starts the content of a line: not a space, a newline
    or the start of a comment. *)
Definition content (c : char) : bool :=
  negb ((c =? SP) || (c =? LF) || (c =? HASH))%N.

(** The indentation of a text. *)
Definition lead (txt : jsstring) : nat := span_len is_space txt.

(** A line starts at offset [ls] of [data], and [txt] is the input from
    there on. *)
Definition at_line (data : jsstring) (ls : nat) (txt : jsstring) : Prop :=
  is_line_start data ls = true /\ skipn ls data = txt.

(** What follows a block of lines at indent [n]: the end of the input, or
    a line with content at a smaller indent. *)
Definition tail_ok (n : nat) (post : jsstring) : Prop :=
  post = [] \/ exists m c tl, post = spaces m ++ c :: tl /\ m < n /\ content c = true.

Definition put_entries (es : list (jsstring * Value)) (out : bool * list (jsstring * Value))
  : bool * list (jsstring * Value) :=
  fold_left (fun o kv => obj_set (fst kv) (snd kv) o) es out.

(** [parseMultilineDict] reads the lines [ls] at indent [n] as the entries
    [es], added to the object built so far, and stops in the indentation
    of the line that follows them. *)
Definition reads_dict (n : nat) (ls : list jsstring) (es : list (jsstring * Value)) : Prop :=
  forall data fuel out st lsn post,
    at_line data lsn (unlines ls ++ post) -> tail_ok n post ->
    lsn <= pos st <= lsn + lead (unlines ls ++ post) ->
    2 * length ls + 1 <= fuel ->
    fst out = true -> keys_ok (map fst es) = true ->
    forallb (fun k => negb (has_own k (snd out))) (map fst es) = true ->
    parseMultilineDict data fuel n out st
    = Ok (VObj true (snd (put_entries es out)))
         (mkCursor (lsn + length (unlines ls) + lead post) (line st + length ls)).

(** [parseMultilineList] reads the lines [ls] at indent [n] as the items
    [items], added to the array built so far. *)
Definition reads_list (n : nat) (ls : list jsstring) (items : list Value) : Prop :=
  forall data fuel out st lsn post,
    at_line data lsn (unlines ls ++ post) -> tail_ok n post ->
    lsn <= pos st <= lsn + lead (unlines ls ++ post) ->
    2 * length ls + 1 <= fuel ->
    parseMultilineList data fuel n out st
    = Ok (VArr (out ++ items))
         (mkCursor (lsn + length (unlines ls) + lead post) (line st + length ls)).

(** [parseVector], called after a [::] followed by [suffix] and the lines
    [body], returns [val] and stops in the indentation of the line that
    follows them. *)
Definition reads_vector (n : nat) (suffix : jsstring) (body : list jsstring) (val : Value)
  : Prop :=
  forall data fuel s T,
    rest data s = suffix ++ LF :: unlines body ++ T -> tail_ok n T ->
    2 * length body + 2 <= fuel ->
    exists st',
      parseVector data fuel n s = Ok val st'
      /\ line st' = line s + 1 + length body
      /\ pos s + length suffix + 1 + length (unlines body) <= pos st'
         <= pos s + length suffix + 1 + length (unlines body) + lead T.

(** The entries of a dict with their values in canonical form. *)
Definition canonical_entries (cmp : jsstring -> jsstring -> Z)
    (props : list (jsstring * Value)) : list (jsstring * Value) :=
  map (fun e => (fst e, canonical cmp (snd e))) props.

Definition is_scalar (v : Value) : bool :=
  match v with
  | VArr _ | VObj _ _ => false
  | _ => true
  end.

(** What the encoder writes for a value that [encodable] accepts: the text
    of a scalar, appended to the last line; the lines of a non-empty list
    or dict, each block at the indent the encoder is called with. *)
Definition encodes (cmp : jsstring -> jsstring -> Z) (v : Value) : Prop :=
  match v with
  | VArr [] | VObj _ [] => True
  | VArr items =>
      forall n, exists ls,
        list_lines n ls (map (canonical cmp) items)
        /\ forall lines, toValue cmp v n lines false = Done (lines ++ ls)
  | VObj _ props =>
      forall n, exists ls,
        dict_lines n ls (sort_entries cmp (canonical_entries cmp props))
        /\ forall lines, toValue cmp v n lines false = Done (lines ++ ls)
  | _ =>
      exists t,
        scalar_text t v
        /\ forall indent lines l,
             toValue cmp v indent (lines ++ [l]) false = Done (lines ++ [l ++ t])
  end.

(** *** Number literals *)

(** The decimal loop of [parseNumber] stops before this input: it is empty
    or starts with a character that is no digit, [_], [.], [e] or [E]. *)
Definition number_stop (tail : jsstring) : bool :=
  match tail with
  | [] => true
  | c :: _ => negb (isDigit c || (c =? UNDERSCORE) || (c =? DOT) || (c =? 101) || (c =? 69))%N
  end.

(** An optional sign of a number literal. *)
Definition is_sign (sign : jsstring) : bool :=
  string_eqb sign [] || string_eqb sign [PLUS] || string_eqb sign [DASH].

Definition is_negative (sign : jsstring) : bool := string_eqb sign [DASH].

(** The digit loop of [parseBase] stops before this input. *)
Definition base_stop (base : N) (tail : jsstring) : bool :=
  match tail with
  | [] => true
  | c :: _ => negb (base_validator base c)
  end.

(** *** Multiline strings *)

(** The delimiter of each form of multiline string: backticks for the form
    that preserves spaces, double quotes for the form that trims. *)
Definition delimiter (preserveSpaces : bool) : jsstring :=
  if preserveSpaces then u "```" else TRIPLE_QUOTE.

(** A line that, after its indentation, starts with the delimiter. *)
Definition closes (delim l : jsstring) : bool := prefixb delim (skipn (lead l) l).

(** A line of the content of a multiline string: it holds no newline and
    does not start with the delimiter. *)
Definition content_line (delim l : jsstring) : bool :=
  negb (mem LF l) && negb (closes delim l).

(** The lines [toString] writes for the content of a string: its lines
    without an empty last one. *)
Definition string_lines (str : jsstring) : list jsstring :=
  match rev (split_lines str) with
  | [] :: front => rev front
  | _ => split_lines str
  end.

(** The lines [toString] writes after the opening delimiter for a string
    with a newline, below a key at indent [keyIndent]. *)
Definition string_block (str : jsstring) (keyIndent : nat) : list jsstring :=
  map (app (spaces (keyIndent + 2))) (string_lines str) ++ [spaces keyIndent ++ u "```"].

(** The string without the newline it ends with, if any. *)
Definition chomp (s : jsstring) : jsstring :=
  match rev s with
  | c :: front => if (c =? LF)%N then rev front else s
  | [] => s
  end.

(** What follows the closing delimiter: the end of the input or a newline;
    the number of characters and of lines [consumeLine] then moves by. *)
Definition line_end (post : jsstring) : bool :=
  match post with [] => true | c :: _ => (c =? LF)%N end.

Definition line_step (post : jsstring) : nat :=
  match post with [] => 0 | _ :: _ => 1 end.

(** *** The encoder at the root *)

(** A string with a newline. *)
Definition multiline (v : Value) : bool :=
  match v with VStr s => mem LF s | _ => false end.

(** A string with a newline that the encoder meets at indent 0: the root
    itself, or an item of a list at the root. *)
Definition unindented_multiline (v : Value) : bool :=
  match v with
  | VStr s => mem LF s
  | VArr items => existsb multiline items
  | _ => false
  end.

(** The text the encoder appends to the last line for a value it writes
    without a line of its own. *)
Definition inline_text (v : Value) : option jsstring :=
  match v with
  | VNull => Some (u "null")
  | VBool b => Some (if b then u "true" else u "false")
  | VNum x => Some (formatNumber x)
  | VStr s => if mem LF s then None else Some (JSON_stringify s)
  | VArr [] => Some (u "[]")
  | VObj _ [] => Some (u "{}")
  | _ => None
  end.

(** The lines of the version header. *)
Definition VERSION_HEADER : jsstring := u "%HUML v0.1.0".

(** The result of the encoder with the lines [pre] before it. *)
Definition after_lines (pre : list jsstring) (r : encoded (list jsstring))
  : encoded (list jsstring) :=
  match r with Done ls => Done (pre ++ ls) | Raise e => Raise e end.

(** *** Documents *)

(** A character of the version token of the header line. *)
Definition version_char (c : char) : bool := negb (mem c [SP; LF; HASH]).

(** The input after the version token: the end, a space, a newline or a
    [#]. *)
Definition version_stop (tail : jsstring) : bool :=
  match tail with [] => true | c :: _ => negb (version_char c) end.

(** The text of a comment after its [#]: nothing, or a space followed by
    text, with no space at the end. *)
Definition comment_text (body : jsstring) : bool :=
  match body with [] => true | d :: _ => (d =? SP)%N end
  && negb (ends_with_space body) && negb (mem LF body).

(** A line without content that the decoder accepts: the empty line, or
    spaces and a comment. *)
Definition blank_or_comment (l : jsstring) : bool :=
  match skipn (lead l) l with
  | [] => lead l =? 0
  | c :: body => (c =? HASH)%N && comment_text body
  end.

(** *** Inline vectors *)

(** The text of the elements of an inline vector, separated by a comma and
    a space. *)
Fixpoint inline_items (ts : list jsstring) : jsstring :=
  match ts with
  | [] => []
  | [t] => t
  | t :: ts' => t ++ COMMA :: SP :: inline_items ts'
  end.

(** The text of an entry of an inline dict. *)
Definition inline_entry (k t : jsstring) : jsstring := quoteKey k ++ COLON :: SP :: t.

(** The text of the elements that follow the first one. *)
Definition more_items (ts : list jsstring) : jsstring :=
  concat (map (fun t => COMMA :: SP :: t) ts).

(** The input before the cursor does not end with a space. *)
Definition no_space_before (data : jsstring) (st : Cursor) : bool :=
  negb ((0 <? pos st)
        && match nth_error data (pos st - 1) with Some c => (c =? SP)%N | None => false end).

(** The entries of an inline dict, each a key, the text of a scalar and
    its value: their texts, and the pairs they denote. *)
Definition entry_texts (es : list (jsstring * jsstring * Value)) : list jsstring :=
  map (fun e => inline_entry (fst (fst e)) (snd (fst e))) es.

Definition entry_pairs (es : list (jsstring * jsstring * Value))
  : list (jsstring * Value) :=
  map (fun e => (fst (fst e), snd e)) es.

(** *** Every run ends *)

(** The parser stands inside the input, and its line counter lies between
    1 and the number of the line it stands on. *)
Definition sound (data : jsstring) (st : Cursor) : Prop :=
  pos st <= length data /\ 1 <= line st <= line_number data (pos st).

(** An exception of the decoder with a line carries one of the lines of
    the input. *)
Definition in_range (data : jsstring) (e : exn) (st : Cursor) : Prop :=
  match e with
  | HUMLError _ l => 1 <= l <= line_number data (length data)
  | JSError _ => True
  end.

(** What may follow the items of a multiline list at indent [n]: what may
    follow any block, or a line at the same indent whose content does not
    start with a dash. *)
Definition list_tail (n : nat) (post : jsstring) : Prop :=
  tail_ok n post
  \/ exists c tl, post = spaces n ++ c :: tl /\ content c = true /\ c <> DASH.

(** * Properties *)

(** ** Strings and lists *)

Lemma string_eqb_eq a b : string_eqb a b = true <-> a = b.
Proof.
  unfold string_eqb. destruct (list_eq_dec N.eq_dec a b); split; congruence.
Qed.

Lemma string_eqb_refl a : string_eqb a a = true.
Proof. now apply string_eqb_eq. Qed.


(** ** Lookahead leaves the cursor alone *)

(** [parseKey] never touches the line counter, on any path. *)
Lemma parseKey_line data st :
  match parseKey data st with
  | Ok _ st' => line st' = line st
  | Throw _ st' => line st' = line st
  | OutOfFuel => False
  end.
Proof.
  unfold parseKey, parseString, skipSpaces, advance, bind, get, set_pos, error, ret.
  simpl.
  destruct (peekChar data _ =? 34)%N; simpl.
  - destruct (parseString_loop _ 0 []); simpl; reflexivity.
  - destruct (_ =? _); simpl; reflexivity.
Qed.

(** C9. Every lookahead predicate ([hasKeyValuePair], [hasInlineDict],
    [hasInlineListAtRoot], [hasInlineDictAtRoot]) returns its answer and
    leaves position and line counter exactly as it found them, whether the
    trial parse of the key succeeds, fails or throws. *)
Theorem lookahead_restores_cursor (data : jsstring) (st : Cursor) :
  (exists b, hasKeyValuePair data st = Ok b st)
  /\ (exists b, hasInlineDict data st = Ok b st)
  /\ (exists b, hasInlineListAtRoot data st = Ok b st)
  /\ (exists b, hasInlineDictAtRoot data st = Ok b st).
Proof.
  repeat split.
  - unfold hasKeyValuePair.
    pose proof (parseKey_line data st) as H.
    destruct (parseKey data st) as [k st'|e st'|]; [| |contradiction];
      destruct st as [p l]; simpl in *; rewrite H; eexists; reflexivity.
  - unfold hasInlineDict, bind, get, ret. eexists; reflexivity.
  - unfold hasInlineListAtRoot, bind, get, ret. eexists; reflexivity.
  - unfold hasInlineDictAtRoot, bind, get, ret.
    destruct (negb _); eexists; reflexivity.
Qed.

(** The trial parse really moves the cursor before it is restored: on the
    input [ab:] the key parser stops at offset 2. *)
Example parseKey_moves :
  parseKey (u "ab:") initial = Ok (u "ab") (mkCursor 2 1)
  /\ hasKeyValuePair (u "ab:") initial = Ok true initial.
Proof. split; reflexivity. Qed.

(** ** Keys inherited from [Object.prototype] *)

Lemma obj_set_keeps_prototype key val props :
  js_in key true props = false ->
  fst (obj_set key val (true, props)) = true.
Proof.
  unfold js_in, obj_set. intros H.
  apply orb_false_iff in H as [Hown Hin]. simpl in Hin.
  destruct (string_eqb key (u "__proto__")) eqn:E; simpl; [|reflexivity].
  apply string_eqb_eq in E. subst key. discriminate Hin.
Qed.




(** Whole documents: [constructor] and [toString] as bare keys, the
    quoted key [__proto__] (a bare one is no key start). *)
Example inherited_key_documents :
  outcome (parse (u "constructor: 1"))
  = Some (inr (HUMLError (DuplicateKey (u "constructor")) 1))
  /\ outcome (parse (u "a: 1" ++ LF :: u "toString: 2"))
     = Some (inr (HUMLError (DuplicateKey (u "toString")) 2))
  /\ outcome (parse (QUOTE :: u "__proto__" ++ QUOTE :: u ": 1"))
     = Some (inr (HUMLError (DuplicateKey (u "__proto__")) 1))
  /\ outcome (parse (u "__proto__: 1")) = Some (inr (HUMLError InvalidKeyStart 1)).
Proof. repeat split; vm_compute; reflexivity. Qed.

(** ** Behaviour on concrete documents *)

(** C2. A key at indent 0 followed by [::] and a continuation line: the
    continuation is expected at indent 2, yet a line at indent 5 is taken as
    the first entry of the nested dict (its indent is read from the input),
    while a line at indent 1 is refused. *)
Theorem deeper_continuation_accepted :
  outcome (parse (u "a::" ++ LF :: u "     b: 1"))
  = Some (inl (VObj true [(u "a", VObj true [(u "b", num 1)])]))
  /\ outcome (parse (u "a::" ++ LF :: u "  b: 1"))
     = Some (inl (VObj true [(u "a", VObj true [(u "b", num 1)])]))
  /\ outcome (parse (u "a::" ++ LF :: u " b: 1"))
     = Some (inr (HUMLError AmbiguousEmptyVector 2)).
Proof. repeat split; vm_compute; reflexivity. Qed.

(** C3. A repeated key is refused in a multiline dict, at the line of the
    second occurrence, but silently overwritten in an inline dict, nested or
    at the root. *)
Theorem inline_duplicate_key_overwritten :
  outcome (parse (u "a: 1" ++ LF :: u "a: 2"))
  = Some (inr (HUMLError (DuplicateKey (u "a")) 2))
  /\ outcome (parse (u "k:: a: 1, a: 2"))
     = Some (inl (VObj true [(u "k", VObj true [(u "a", num 2)])]))
  /\ outcome (parse (u "a: 1, a: 2"))
     = Some (inl (VObj true [(u "a", num 2)])).
Proof. repeat split; vm_compute; reflexivity. Qed.

(** C4. [key:: 1, 2, 3] alone decodes to a list, and [key:: a: 1, b: 2] to
    a dict; but the scan for a colon does not stop at the end of the line:
    with a later line [b: 1] the same first line is taken for an inline
    dict and refused. *)
Theorem inline_decision_reads_later_lines :
  outcome (parse (u "key:: 1, 2, 3"))
  = Some (inl (VObj true [(u "key", VArr [num 1; num 2; num 3])]))
  /\ outcome (parse (u "key:: a: 1, b: 2"))
     = Some (inl (VObj true [(u "key", VObj true [(u "a", num 1); (u "b", num 2)])]))
  /\ hasInlineDict (u "key:: 1, 2, 3" ++ LF :: u "b: 1") (mkCursor 6 1)
     = Ok true (mkCursor 6 1)
  /\ outcome (parse (u "key:: 1, 2, 3" ++ LF :: u "b: 1"))
     = Some (inr (HUMLError ExpectedColonInlineDict 1)).
Proof. repeat split; vm_compute; reflexivity. Qed.

(** C6. Base-prefixed literals decode to integers and need a digit after
    the prefix; an underscore, accepted in decimal literals, ends a
    base-prefixed literal and is then unexpected content. *)
Theorem base_prefixed_literals :
  outcome (parse (u "a: 0xFF")) = Some (inl (VObj true [(u "a", num 255)]))
  /\ outcome (parse (u "a: 0o17")) = Some (inl (VObj true [(u "a", num 15)]))
  /\ outcome (parse (u "a: 0b101")) = Some (inl (VObj true [(u "a", num 5)]))
  /\ outcome (parse (u "a: -0x10")) = Some (inl (VObj true [(u "a", num (-16))]))
  /\ outcome (parse (u "a: 0x")) = Some (inr (HUMLError InvalidNumberLiteral 1))
  /\ outcome (parse (u "a: 1_000")) = Some (inl (VObj true [(u "a", num 1000)]))
  /\ outcome (parse (u "a: 0xFF_FF")) = Some (inr (HUMLError UnexpectedContentEOL 1)).
Proof. repeat split; vm_compute; reflexivity. Qed.

(** C8. The escape [\u12G4], whose four characters are not all hex digits,
    is accepted and yields the code unit 0x12; [\uG234] is refused, as are
    an escape outside the table and an unterminated string. *)
Theorem unicode_escape_prefix_accepted :
  outcome (parse (u "k: " ++ QUOTE :: u "\u12G4" ++ [QUOTE]))
  = Some (inl (VObj true [(u "k", VStr [18%N])]))
  /\ outcome (parse (u "k: " ++ QUOTE :: u "A" ++ [QUOTE]))
     = Some (inl (VObj true [(u "k", VStr (u "A"))]))
  /\ outcome (parse (u "k: " ++ QUOTE :: u "\uG234" ++ [QUOTE]))
     = Some (inr (HUMLError (InvalidUnicodeEscape (u "G234")) 1))
  /\ outcome (parse (u "k: " ++ QUOTE :: u "\q" ++ [QUOTE]))
     = Some (inr (HUMLError (InvalidEscape 113%N) 1))
  /\ outcome (parse (u "k: " ++ QUOTE :: u "abc"))
     = Some (inr (HUMLError UnclosedString 1)).
Proof. repeat split; vm_compute; reflexivity. Qed.

(** The escape table of single-line strings: after a backslash exactly the
    eight characters of [ESCAPE_MAP] are replaced, [u] starts a unicode
    escape, and any other character is an error. *)
Lemma ESCAPE_MAP_domain (esc : char) :
  ESCAPE_MAP esc <> None <-> In esc [QUOTE; BACKSLASH; 47; 110; 116; 114; 98; 102]%N.
Proof.
  unfold ESCAPE_MAP. split.
  - intros H.
    repeat match goal with
           | H : context [(esc =? ?c)%N] |- _ =>
               destruct (N.eqb_spec esc c); [subst; simpl; tauto|]
           end.
    congruence.
  - intros Hin. simpl in Hin.
    repeat (destruct Hin as [<-|Hin]; [cbn; discriminate|]). contradiction.
Qed.

Lemma escape_rejected (esc : char) (rest1 : jsstring) (n : nat) (result : jsstring) :
  ~ In esc [QUOTE; BACKSLASH; 47; 110; 116; 114; 98; 102; 117]%N ->
  parseString_loop (BACKSLASH :: esc :: rest1) n result = ScanErr (InvalidEscape esc) (S n).
Proof.
  intros Hnin.
  assert (Hmap : ESCAPE_MAP esc = None).
  { destruct (ESCAPE_MAP esc) eqn:E; [|reflexivity].
    exfalso. apply Hnin.
    assert (H : ESCAPE_MAP esc <> None) by congruence.
    apply ESCAPE_MAP_domain in H. simpl in *. tauto. }
  cbn [parseString_loop]. rewrite Hmap.
  destruct (N.eqb_spec esc 117); [exfalso; apply Hnin; subst; simpl; tauto|].
  reflexivity.
Qed.

(** ** Key order of encoded dicts *)

Section SortEntries.

Variable cmp : jsstring -> jsstring -> Z.
Variable A : Type.


Lemma sort_insert_perm (e : jsstring * A) l :
  Permutation (sort_insert cmp e l) (e :: l).
Proof.
  induction l as [|e' l IH]; simpl; [reflexivity|].
  destruct (cmp (fst e) (fst e') <=? 0)%Z; [reflexivity|].
  rewrite IH. apply perm_swap.
Qed.

Lemma sort_entries_perm (l : list (jsstring * A)) :
  Permutation (sort_entries cmp l) l.
Proof.
  induction l as [|e l IH]; simpl; [reflexivity|].
  rewrite sort_insert_perm. now constructor.
Qed.

Lemma sort_entries_map (B : Type) (f : A -> B) (l : list (jsstring * A)) :
  sort_entries cmp (map (fun e => (fst e, f (snd e))) l)
  = map (fun e => (fst e, f (snd e))) (sort_entries cmp l).
Proof.
  induction l as [|e l IH]; simpl; [reflexivity|].
  rewrite IH. generalize (sort_entries cmp l) as s. clear.
  induction s as [|e' s IH]; simpl; [reflexivity|].
  destruct (cmp (fst e) (fst e') <=? 0)%Z; simpl; [reflexivity|].
  now rewrite IH.
Qed.


Lemma keys_distinct_NoDup keys : keys_distinct keys = true -> NoDup keys.
Proof.
  induction keys as [|k ks IH]; simpl; intros H; constructor.
  - apply andb_true_iff in H as [H _]. intros Hin.
    apply negb_true_iff in H.
    assert (existsb (string_eqb k) ks = true); [|congruence].
    apply existsb_exists. exists k. split; [assumption|apply string_eqb_refl].
  - apply andb_true_iff in H as [_ H]. auto.
Qed.





End SortEntries.

Lemma toValue_object cmp proto props indent lines isRootLevel :
  props <> [] ->
  toValue cmp (VObj proto props) indent lines isRootLevel
  = write_entries cmp (sort_entries cmp props)
      (if isRootLevel then 0 else indent) lines.
Proof.
  intros Hne. cbn [toValue].
  set (entries := (fix entries (l : list (jsstring * Value)) := _) props).
  pose (f := fun v : Value => (v, (fun i ls => toValue cmp v i ls false) : writer)).
  assert (He : entries = map (fun e => (fst e, f (snd e))) props).
  { subst entries. clear. induction props as [|[k v] l IH]; [reflexivity|].
    simpl. now rewrite IH. }
  rewrite He. clear He entries.
  unfold toObject.
  destruct (map _ props) as [|e0 es] eqn:Em.
  { destruct props; [congruence|discriminate]. }
  rewrite <- Em. clear Em e0 es.
  rewrite (sort_entries_map cmp f).
  unfold write_entries. generalize (sort_entries cmp props) as s.
  generalize (Done lines) as acc.
  intros acc s. revert acc. induction s as [|x s IH]; intros acc; [reflexivity|].
  simpl. apply IH.
Qed.



(** The text of a root dict given in two insertion orders. *)
Example encoder_sorts_keys_text :
  stringify code_unit_compare (VObj true [(u "b", VNull); (u "a", VBool true)]) false
  = Done (u "a: true" ++ LF :: u "b: null" ++ [LF])
  /\ stringify code_unit_compare (VObj true [(u "a", VBool true); (u "b", VNull)]) false
     = Done (u "a: true" ++ LF :: u "b: null" ++ [LF]).
Proof. split; vm_compute; reflexivity. Qed.

(** ** Reasoning about parser calls *)

Lemma wp_bind A B (c : M A) (k : A -> M B) st Q E :
  wp c st (fun a st1 => wp (k a) st1 Q E) E -> wp (bind c k) st Q E.
Proof. unfold wp, bind. destruct (c st); auto. Qed.

Lemma wp_ret A (a : A) st (Q : A -> Cursor -> Prop) E : Q a st -> wp (ret a) st Q E.
Proof. auto. Qed.

Lemma wp_get st (Q : Cursor -> Cursor -> Prop) E : Q st st -> wp get st Q E.
Proof. auto. Qed.

Lemma wp_put st st' (Q : unit -> Cursor -> Prop) E : Q tt st' -> wp (put st') st Q E.
Proof. auto. Qed.

Lemma wp_set_pos p st (Q : unit -> Cursor -> Prop) E :
  Q tt (mkCursor p (line st)) -> wp (set_pos p) st Q E.
Proof. auto. Qed.

Lemma wp_advance n st (Q : unit -> Cursor -> Prop) E :
  Q tt (mkCursor (pos st + n) (line st)) -> wp (advance n) st Q E.
Proof. auto. Qed.

Lemma wp_error A m st (Q : A -> Cursor -> Prop) (E : exn -> Cursor -> Prop) :
  E (HUMLError m (line st)) st -> wp (error m) st Q E.
Proof. auto. Qed.


Lemma wp_when (b : bool) (c : M unit) st (Q : unit -> Cursor -> Prop) E :
  (b = true -> wp c st Q E) -> (b = false -> Q tt st) -> wp (when b c) st Q E.
Proof.
  destruct b; simpl; intros H1 H2; [apply H1; reflexivity|].
  apply wp_ret, H2. reflexivity.
Qed.

Ltac wp_get := apply wp_bind; apply wp_get; cbv beta.
Ltac wp_adv := apply wp_bind; apply wp_advance; cbv beta.
Ltac wp_setpos := apply wp_bind; apply wp_set_pos; cbv beta.

(** ** Lists and offsets *)

Lemma span_len_le f l : span_len f l <= length l.
Proof. induction l as [|c l IH]; simpl; [lia|]. destruct (f c); simpl; lia. Qed.



Lemma index_of_spec c s :
  match index_of c s with
  | Some i => nth_error s i = Some c /\ forall k, k < i -> nth_error s k <> Some c
  | None => forall k, nth_error s k <> Some c
  end.
Proof.
  induction s as [|d s IH]; simpl.
  - intros k. destruct k; discriminate.
  - destruct (N.eqb_spec d c) as [->|Hne].
    + split; [reflexivity|]. intros k Hk. lia.
    + destruct (index_of c s) as [i|].
      * destruct IH as [H1 H2]. split; [exact H1|].
        intros [|k] Hk; simpl; [congruence|]. apply H2. lia.
      * intros [|k]; simpl; [congruence|]. apply IH.
Qed.

Lemma indexOf_spec s c from :
  match indexOf s c from with
  | Some j => from <= j /\ nth_error s j = Some c
              /\ forall k, from <= k -> k < j -> nth_error s k <> Some c
  | None => forall k, from <= k -> nth_error s k <> Some c
  end.
Proof.
  unfold indexOf. pose proof (index_of_spec c (skipn from s)) as H.
  destruct (index_of c (skipn from s)) as [i|].
  - destruct H as [H1 H2]. rewrite nth_error_skipn in H1.
    repeat split; [lia|exact H1|].
    intros k Hk1 Hk2. specialize (H2 (k - from)).
    rewrite nth_error_skipn in H2. replace (from + (k - from)) with k in H2 by lia.
    apply H2. lia.
  - intros k Hk. specialize (H (k - from)).
    rewrite nth_error_skipn in H. now replace (from + (k - from)) with k in H by lia.
Qed.

Lemma line_number_mono data p p' : p <= p' -> line_number data p <= line_number data p'.
Proof.
  intros Hle. unfold line_number.
  assert (H : firstn p' data = firstn p data ++ skipn p (firstn p' data)).
  { rewrite <- (firstn_skipn p (firstn p' data)) at 1.
    rewrite firstn_firstn. now replace (Nat.min p p') with p by lia. }
  rewrite H, count_occ_app. lia.
Qed.

Lemma firstn_S_nth A (l : list A) n x :
  nth_error l n = Some x -> firstn (S n) l = firstn n l ++ [x].
Proof.
  revert n. induction l as [|a l IH]; intros [|n] H; simpl in *; try discriminate.
  - now injection H as ->.
  - now rewrite (IH n H).
Qed.

Lemma line_number_newline data p :
  nth_error data p = Some LF -> line_number data (S p) = S (line_number data p).
Proof.
  intros H. unfold line_number. rewrite (firstn_S_nth _ _ H), count_occ_app.
  simpl. lia.
Qed.



(** ** Indentation *)

Lemma span_len_exact f l n :
  (forall k, k < n -> exists c, nth_error l k = Some c /\ f c = true) ->
  (forall c, nth_error l n = Some c -> f c = false) ->
  span_len f l = n.
Proof.
  revert n. induction l as [|a l IH]; intros n Hall Hstop; simpl.
  - destruct n; [reflexivity|]. destruct (Hall 0) as [c [Hc _]]; [lia|discriminate].
  - destruct n as [|n].
    + now rewrite (Hstop a eq_refl).
    + destruct (Hall 0) as [c [Hc Hf]]; [lia|]. simpl in Hc. injection Hc as ->.
      rewrite Hf. f_equal. apply IH.
      * intros k Hk. apply (Hall (S k)). lia.
      * intros c' Hc'. now apply Hstop.
Qed.

Lemma last_newline_other data i :
  nth_error data i <> Some LF ->
  last_newline data i = match i with O => None | S i' => last_newline data i' end.
Proof.
  intros H. destruct i; cbn [last_newline];
    (destruct (nth_error data _) as [c|]; [|reflexivity]);
    (destruct c as [|p]; [reflexivity|]);
    repeat (destruct p as [p|p|]; try reflexivity); congruence.
Qed.

Lemma last_newline_here data i :
  nth_error data i = Some LF -> last_newline data i = Some i.
Proof. intros H. destruct i; cbn [last_newline]; now rewrite H. Qed.

Lemma last_newline_spaces data ls i :
  ls <= i ->
  (forall k, ls <= k -> k <= i -> nth_error data k = Some SP) ->
  last_newline data i = match ls with O => None | S l' => last_newline data l' end.
Proof.
  intros Hle Hall. induction i as [|i IH].
  - assert (ls = 0) by lia. subst. apply last_newline_other.
    rewrite (Hall 0); [discriminate|lia|lia].
  - rewrite last_newline_other by (rewrite (Hall (S i)); [discriminate|lia|lia]).
    destruct (Nat.eq_dec ls (S i)) as [->|Hne]; [reflexivity|].
    apply IH; [lia|]. intros k H1 H2. apply Hall; lia.
Qed.

Lemma lineStart_in_indent data st ls :
  is_line_start data ls = true -> ls <= pos st ->
  (forall k, ls <= k -> k < pos st -> nth_error data k = Some SP) ->
  pos st < length data -> nth_error data (pos st) <> Some LF ->
  lineStart data st = ls.
Proof.
  intros Hls Hle Hall Hlen Hcur. unfold lineStart.
  destruct (Nat.eq_dec ls (pos st)) as [E|E].
  - (* at the start of the line *)
    rewrite <- E in *. destruct ls as [|l'].
    + simpl Nat.ltb. cbn [andb]. simpl Nat.sub. simpl Nat.min.
      rewrite last_newline_other by exact Hcur. reflexivity.
    + simpl in Hls. replace (S l' - 1) with l' by lia.
      destruct (nth_error data l') as [c|]; [|discriminate].
      rewrite Hls.
      replace (0 <? S l') with true by (symmetry; apply Nat.ltb_lt; lia).
      replace (S l' <=? length data) with true by (symmetry; apply Nat.leb_le; lia).
      reflexivity.
  - assert (Hprev : nth_error data (pos st - 1) = Some SP) by (apply Hall; lia).
    rewrite Hprev. replace (32 =? 10)%N with false by reflexivity.
    rewrite andb_false_r.
    replace (Nat.min (pos st - 1) (length data - 1)) with (pos st - 1) by lia.
    rewrite (@last_newline_spaces data ls (pos st - 1)); [|lia|intros; apply Hall; lia].
    destruct ls as [|l']; [reflexivity|].
    simpl in Hls.
    destruct (nth_error data l') as [c|] eqn:Ec; [|discriminate].
    apply N.eqb_eq in Hls. subst c.
    rewrite (last_newline_here _ _ Ec). lia.
Qed.

Lemma getCurIndent_in_indent data st ls :
  is_line_start data ls = true -> ls <= pos st ->
  (forall k, ls <= k -> k < pos st -> nth_error data k = Some SP) ->
  pos st < length data -> nth_error data (pos st) <> Some LF ->
  nth_error data (pos st) <> Some SP ->
  getCurIndent data st = pos st - ls.
Proof.
  intros Hls Hle Hall Hlen Hcur Hsp. unfold getCurIndent.
  rewrite (@lineStart_in_indent data st ls Hls Hle Hall Hlen Hcur).
  apply span_len_exact.
  - intros k Hk. exists SP. rewrite nth_error_skipn. split; [|reflexivity].
    apply Hall; lia.
  - intros c Hc. rewrite nth_error_skipn in Hc.
    replace (ls + (pos st - ls)) with (pos st) in Hc by lia.
    unfold is_space. apply N.eqb_neq. intros ->. contradiction.
Qed.


(** ** Trailing spaces

    A line ends at offset [i0] with a space, followed by the newline.  The
    parser never gets past that newline: every call keeps the cursor at or
    before it, and an exception raised on the way carries a line number
    that does not exceed the number of that line. *)

Section TrailingSpace.

Variable data : jsstring.
Variable i0 : nat.
Hypothesis Hsp : nth_error data i0 = Some SP.
Hypothesis Hlf : nth_error data (S i0) = Some LF.
Hypothesis Hmulti : forall j, j <= S i0 ->
  prefixb TRIPLE_QUOTE (skipn j data) = false /\ prefixb (u "```") (skipn j data) = false.
Hypothesis Hesc : forall j, j < i0 -> S i0 <= j + 5 ->
  prefixb (u "\u") (skipn j data) = false.
Hypothesis Hdash : forall j, j <= S i0 ->
  is_line_start data j = true -> nth_error data j <> Some DASH.
Hypothesis Hheader : prefixb (u "%HUML " ++ [LF]) data = false.

Local Abbreviation Inv := (upto data (S i0)).
Local Abbreviation Tight := (upto data i0).
Local Abbreviation Exc := (raised_upto data (S i0)).

Lemma length_data : S (S i0) <= length data.
Proof. apply Nat.le_succ_l, nth_error_Some. rewrite Hlf. discriminate. Qed.




Lemma cur_is_false st c d :
  nth_error data (pos st) = Some d -> d <> c -> cur_is data st c = false.
Proof. unfold cur_is. intros -> H. now apply N.eqb_neq. Qed.



















Lemma rest_advance st n :
  rest data (mkCursor (pos st + n) (line st)) = skipn n (rest data st).
Proof. unfold rest. simpl. rewrite skipn_skipn. f_equal. lia. Qed.


Lemma rest_nil st : Inv st -> rest data st <> [].
Proof.
  intros [H _] E. unfold rest in E. apply skipn_all_iff in E.
  pose proof length_data. lia.
Qed.


















Lemma cursor_eta st : mkCursor (pos st) (line st) = st.
Proof. destruct st; reflexivity. Qed.











Lemma hasKeyValuePair_wp st (Q : bool -> Cursor -> Prop) E :
  (forall b, Q b st) -> wp (hasKeyValuePair data) st Q E.
Proof.
  intros HQ. destruct (lookahead_restores_cursor data st) as [[b Hb] _].
  unfold wp. rewrite Hb. apply HQ.
Qed.

Lemma getRootType_wp st (Q : root_type -> Cursor -> Prop) E :
  (forall t,
      match t with
      | ROOT_EMPTY_LIST => peekString data (u "[]") st = true
      | ROOT_EMPTY_DICT => peekString data (u "{}") st = true
      | ROOT_MULTILINE_LIST => (peekChar data (pos st) =? DASH)%N = true
      | _ => True
      end -> Q t st) ->
  wp (getRootType data) st Q E.
Proof.
  intros HQ. unfold getRootType.
  apply wp_bind, hasKeyValuePair_wp. intros kv.
  destruct kv.
  - destruct (lookahead_restores_cursor data st) as [_ [_ [_ [b Hb]]]].
    apply wp_bind. unfold wp at 1. rewrite Hb.
    apply wp_ret, HQ. now destruct b.
  - wp_get.
    destruct (peekString data (u "[]") st) eqn:E1; [now apply wp_ret, HQ|].
    destruct (peekString data (u "{}") st) eqn:E2; [now apply wp_ret, HQ|].
    destruct (peekChar data (pos st) =? DASH)%N eqn:Ed; [now apply wp_ret, HQ|].
    destruct (lookahead_restores_cursor data st) as [_ [_ [[b Hb] _]]].
    apply wp_bind. unfold wp at 1. rewrite Hb.
    apply wp_ret, HQ. now destruct b.
Qed.


End TrailingSpace.




(** On plain documents the error is the trailing-space error, at the line
    itself: a content line, a comment line, a blank line. *)
Example trailing_space_documents :
  outcome (parse (u "a: 1 " ++ LF :: u "b: 2")) = Some (inr (HUMLError TrailingSpaces 1))
  /\ outcome (parse (u "a: 1" ++ LF :: u "# note " ++ LF :: u "b: 2"))
     = Some (inr (HUMLError TrailingSpaces 2))
  /\ outcome (parse (u "a: 1" ++ LF :: u "  " ++ LF :: u "b: 2"))
     = Some (inr (HUMLError TrailingSpaces 2)).
Proof. repeat split; vm_compute; reflexivity. Qed.


(** The other lines with a trailing space that the decoder lets through:
    the bare header line, a line whose newline is swallowed by a [\u]
    escape, a line after a root list, and a comment at the end of input
    (which is not followed by a newline). *)
Example trailing_space_accepted :
  outcome (parse (u "%HUML " ++ LF :: u "a: 1")) = Some (inl (VObj true [(u "a", num 1)]))
  /\ outcome (parse (u "k: " ++ QUOTE :: u "\u1 " ++ LF :: u "4" ++ [QUOTE]))
     = Some (inl (VObj true [(u "k", VStr [1%N])]))
  /\ outcome (parse (u "- 1" ++ LF :: u "x " ++ [LF])) = Some (inl (VArr [num 1]))
  /\ outcome (parse (u "a: 1" ++ LF :: u "# c ")) = Some (inl (VObj true [(u "a", num 1)])).
Proof. repeat split; vm_compute; reflexivity. Qed.

(** ** Reading back what the encoder writes: tokens *)

Lemma rest_adv data st n : rest data (adv st n) = skipn n (rest data st).
Proof. unfold rest, adv. simpl. rewrite skipn_skipn. f_equal. lia. Qed.

Lemma adv_adv st n m : adv (adv st n) m = adv st (n + m).
Proof. unfold adv. simpl. f_equal. lia. Qed.

Lemma adv_0 st : adv st 0 = st.
Proof. unfold adv. destruct st. simpl. f_equal. lia. Qed.

Lemma rest_head data st c tl :
  rest data st = c :: tl ->
  done data st = false /\ nth_error data (pos st) = Some c
  /\ peekChar data (pos st) = c.
Proof.
  intros H.
  assert (Hn : nth_error data (pos st) = Some c).
  { unfold rest in H. rewrite <- (Nat.add_0_r (pos st)), <- nth_error_skipn, H. reflexivity. }
  repeat split; auto.
  - unfold done. apply Nat.leb_gt. apply nth_error_Some. rewrite Hn. discriminate.
  - unfold peekChar. now apply nth_error_nth.
Qed.

Lemma cur_is_rest data st c tl d :
  rest data st = c :: tl -> cur_is data st d = (c =? d)%N.
Proof.
  intros H. apply rest_head in H as [_ [H _]]. unfold cur_is. now rewrite H.
Qed.

Lemma rest_nil_done data st : rest data st = [] -> done data st = true.
Proof.
  unfold rest, done. intros H. apply skipn_all_iff in H. now apply Nat.leb_le.
Qed.

Lemma span_len_spaces f m c tl :
  f SP = true -> f c = false -> span_len f (spaces m ++ c :: tl) = m.
Proof.
  intros H1 H2. unfold spaces. induction m as [|m IH]; simpl.
  - now rewrite H2.
  - rewrite H1. now rewrite IH.
Qed.

Lemma skipn_spaces m (l : list N) : skipn m (spaces m ++ l) = l.
Proof.
  rewrite skipn_app. unfold spaces. rewrite repeat_length, Nat.sub_diag.
  rewrite skipn_all2 by (rewrite repeat_length; lia). reflexivity.
Qed.

Lemma skipn_app_length (a b : list N) : skipn (length a) (a ++ b) = b.
Proof.
  rewrite skipn_app, Nat.sub_diag, skipn_all2 by lia. reflexivity.
Qed.

Lemma skipSpaces_at data st m c tl :
  rest data st = spaces m ++ c :: tl -> c <> SP ->
  skipSpaces data st = Ok tt (adv st m).
Proof.
  intros H Hc. unfold skipSpaces, advance. rewrite H.
  rewrite span_len_spaces; [reflexivity|reflexivity|].
  unfold is_space. now apply N.eqb_neq.
Qed.

Lemma skipSpaces_none data st c tl :
  rest data st = c :: tl -> c <> SP -> skipSpaces data st = Ok tt st.
Proof.
  intros H Hc. rewrite (@skipSpaces_at data st 0 c tl H Hc). now rewrite adv_0.
Qed.

Lemma peekString_rest data st s : peekString data s st = prefixb s (rest data st).
Proof. reflexivity. Qed.

Lemma prefixb_app s tl : prefixb s (s ++ tl) = true.
Proof. induction s as [|c s IH]; simpl; [reflexivity|]. now rewrite N.eqb_refl. Qed.

Lemma assertSpace_at data ctx st c tl :
  rest data st = SP :: c :: tl -> c <> SP ->
  assertSpace data ctx st = Ok tt (adv st 1).
Proof.
  intros H Hc. unfold assertSpace, bind, get.
  destruct (rest_head _ _ H) as [Hd _]. rewrite Hd, (cur_is_rest _ _ SP H).
  simpl. unfold advance.
  assert (H1 : rest data (adv st 1) = c :: tl) by (rewrite rest_adv, H; reflexivity).
  fold (adv st 1).
  destruct (rest_head _ _ H1) as [Hd1 _]. rewrite Hd1, (cur_is_rest _ _ SP H1).
  apply N.eqb_neq in Hc. rewrite Hc. reflexivity.
Qed.

Lemma indexOf_here data st tl :
  rest data st = LF :: tl -> indexOf data LF (pos st) = Some (pos st).
Proof.
  intros H. unfold indexOf. unfold rest in H. rewrite H. simpl. f_equal. lia.
Qed.

(** At the end of a line. *)
Lemma consumeLine_at data st tl :
  rest data st = LF :: tl ->
  consumeLine data st = Ok tt (mkCursor (pos st + 1) (line st + 1)).
Proof.
  intros H. unfold consumeLine, bind, get.
  rewrite (@skipSpaces_none data st LF tl H) by discriminate.
  destruct (rest_head _ _ H) as [Hd _]. rewrite Hd, (cur_is_rest _ _ LF H).
  simpl. rewrite Nat.ltb_irrefl. simpl.
  rewrite (indexOf_here _ _ H).
  unfold slice. rewrite Nat.min_l, Nat.sub_diag.
  - simpl. reflexivity.
  - apply Nat.lt_le_incl, nth_error_Some.
    destruct (rest_head _ _ H) as [_ [Hn _]]. rewrite Hn. discriminate.
Qed.

(** *** Strings *)

Lemma unicode_escaped_checked :
  forallb (fun c => match parseInt (skipn 2 (unicode_escape c)) 16 with
                    | NaN => false
                    | code => (fromCharCode code =? c)%N
                    end) unicode_escaped = true.
Proof. vm_compute. reflexivity. Qed.

Lemma unicode_escaped_in c :
  (c <? 32)%N || is_high_surrogate c || is_low_surrogate c = true ->
  In c unicode_escaped.
Proof.
  intros H. unfold unicode_escaped. apply in_app_iff.
  unfold is_high_surrogate, is_low_surrogate in H.
  destruct (N.ltb_spec c 32) as [Hlt|Hge].
  - left. rewrite <- (N2Nat.id c). apply in_map, in_seq. clear H. lia.
  - right. simpl in H.
    assert (Hr : (55296 <= c <= 57343)%N).
    { apply orb_true_iff in H. destruct H as [H|H];
        apply andb_true_iff in H as [H1 H2];
        apply N.leb_le in H1, H2; lia. }
    apply in_map_iff. exists (N.to_nat (c - 55296)). split; [lia|].
    apply in_seq. lia.
Qed.

Lemma unicode_escape_parse c tl n acc :
  (c <? 32)%N || is_high_surrogate c || is_low_surrogate c = true ->
  parseString_loop (unicode_escape c ++ tl) n acc
  = parseString_loop tl (n + 6) (acc ++ [c]).
Proof.
  intros H. apply unicode_escaped_in in H.
  pose proof unicode_escaped_checked as Hall. rewrite forallb_forall in Hall.
  specialize (Hall c H). unfold unicode_escape in *.
  cbn [app parseString_loop skipn] in *.
  change (ESCAPE_MAP 117) with (@None N).
  replace (92 =? 34)%N with false by reflexivity.
  replace (92 =? 10)%N with false by reflexivity.
  replace (92 =? 92)%N with true by reflexivity.
  replace (117 =? 117)%N with true by reflexivity. cbv iota.
  destruct (parseInt _ 16) as [|neg|neg m e]; [discriminate| |];
    apply N.eqb_eq in Hall; now rewrite Hall.
Qed.

Lemma escape_unit_parse c tl n acc :
  parseString_loop (json_escape_unit c ++ tl) n acc
  = parseString_loop tl (n + length (json_escape_unit c)) (acc ++ [c]).
Proof.
  unfold json_escape_unit.
  repeat match goal with
         | |- context [if (c =? ?k)%N then _ else _] =>
             destruct (N.eqb_spec c k) as [->|?]; [reflexivity|]
         end.
  destruct ((c <? 32)%N || is_high_surrogate c || is_low_surrogate c) eqn:E.
  - now apply unicode_escape_parse.
  - cbn [app parseString_loop length].
    repeat match goal with
           | H : c <> ?k |- context [(c =? ?k)%N] =>
               rewrite (proj2 (N.eqb_neq c k) H)
           end.
    now rewrite Nat.add_1_r.
Qed.

Lemma surrogate_plain c :
  is_high_surrogate c = true \/ is_low_surrogate c = true ->
  (c =? QUOTE)%N = false /\ (c =? LF)%N = false /\ (c =? BACKSLASH)%N = false.
Proof.
  unfold is_high_surrogate, is_low_surrogate. intros [H|H];
    apply andb_true_iff in H as [H1 H2]; apply N.leb_le in H1, H2;
    repeat split; apply N.eqb_neq; lia.
Qed.

Lemma json_quote_body_cons c d s :
  json_quote_body (c :: d :: s)
  = if is_high_surrogate c && is_low_surrogate d
    then c :: d :: json_quote_body s
    else json_escape_unit c ++ json_quote_body (d :: s).
Proof. reflexivity. Qed.

Lemma parseString_loop_plain c tl n acc :
  (c =? QUOTE)%N = false -> (c =? LF)%N = false -> (c =? BACKSLASH)%N = false ->
  parseString_loop (c :: tl) n acc = parseString_loop tl (S n) (acc ++ [c]).
Proof. intros H1 H2 H3. simpl. now rewrite H1, H2, H3. Qed.

Lemma json_body_parse len :
  forall s tl n acc, length s <= len ->
    parseString_loop (json_quote_body s ++ QUOTE :: tl) n acc
    = ScanOk (acc ++ s) (n + length (json_quote_body s) + 1).
Proof.
  induction len as [|len IH]; intros s tl n acc Hlen.
  - destruct s; [|simpl in Hlen; lia]. simpl. rewrite app_nil_r. f_equal. lia.
  - destruct s as [|c [|d s]].
    + simpl. rewrite app_nil_r. f_equal. lia.
    + cbn [json_quote_body]. rewrite escape_unit_parse. simpl.
      f_equal. lia.
    + rewrite json_quote_body_cons.
      destruct (is_high_surrogate c && is_low_surrogate d) eqn:E.
      * apply andb_true_iff in E as [Ec Ed].
        destruct (@surrogate_plain c (or_introl Ec)) as [C1 [C2 C3]].
        destruct (@surrogate_plain d (or_intror Ed)) as [D1 [D2 D3]].
        rewrite <- !app_comm_cons.
        rewrite (@parseString_loop_plain c _ _ _ C1 C2 C3).
        rewrite (@parseString_loop_plain d _ _ _ D1 D2 D3).
        rewrite IH by (simpl in Hlen |- *; lia).
        rewrite <- !app_assoc. simpl. f_equal. lia.
      * rewrite <- app_assoc, escape_unit_parse.
        rewrite IH by (simpl in Hlen |- *; lia).
        rewrite <- app_assoc. simpl. f_equal. rewrite length_app. lia.
Qed.

Lemma parseString_at data st s tl :
  rest data st = JSON_stringify s ++ tl ->
  parseString data st = Ok s (adv st (length (JSON_stringify s))).
Proof.
  intros H. unfold parseString, bind, advance, get. fold (adv st 1).
  rewrite rest_adv, H. unfold JSON_stringify.
  cbn [app skipn]. rewrite <- app_assoc. cbn [app].
  rewrite (json_body_parse (len := length s)) by lia.
  unfold set_pos, ret, adv. simpl. f_equal. f_equal.
  rewrite length_app. simpl. lia.
Qed.

Lemma json_body_head s c tl : json_quote_body s = c :: tl -> c <> QUOTE.
Proof.
  destruct s as [|a [|b s]]; cbn [json_quote_body]; [discriminate| |].
  - unfold json_escape_unit.
    repeat match goal with
           | |- context [if (a =? ?k)%N then _ else _] =>
               destruct (N.eqb_spec a k) as [->|?]; [intros [= <- _]; discriminate|]
           end.
    destruct (_ || _); [intros [= <- _]; discriminate|]. now intros [= <- _].
  - destruct (is_high_surrogate a && is_low_surrogate b) eqn:E.
    + intros [= <- _]. apply andb_true_iff in E as [E _].
      destruct (@surrogate_plain a (or_introl E)) as [C _]. now apply N.eqb_neq.
    + unfold json_escape_unit.
      repeat match goal with
             | |- context [if (a =? ?k)%N then _ else _] =>
                 destruct (N.eqb_spec a k) as [->|?]; [intros [= <- _]; discriminate|]
             end.
      destruct (_ || _); [intros [= <- _]; discriminate|]. now intros [= <- _].
Qed.

(** *** Keys and indicators *)

Lemma substring_rest data st n :
  substring data (pos st) (pos st + n) = firstn n (rest data st).
Proof. unfold substring, rest. f_equal. lia. Qed.

Lemma firstn_app_length (a b : list N) : firstn (length a) (a ++ b) = a.
Proof.
  rewrite firstn_app, Nat.sub_diag, firstn_all. simpl. now rewrite app_nil_r.
Qed.

Lemma isAlpha_key_char c : isAlpha c = true -> is_key_char c = true.
Proof. unfold is_key_char, isAlphaNum. now intros ->. Qed.

Lemma span_len_forall f (k : list N) c tl :
  forallb f k = true -> f c = false -> span_len f (k ++ c :: tl) = length k.
Proof.
  intros Hk Hc. induction k as [|d k IH]; simpl in *.
  - now rewrite Hc.
  - apply andb_true_iff in Hk as [Hd Hk]. rewrite Hd. now rewrite IH.
Qed.

(** A key as the encoder writes it starts with a letter or a quote. *)
Lemma quoteKey_head k :
  exists c r, quoteKey k = c :: r
              /\ (c = QUOTE /\ quoteKey k = JSON_stringify k
                  \/ isAlpha c = true /\ BARE_KEY_REGEX k = true /\ quoteKey k = k).
Proof.
  unfold quoteKey. destruct (BARE_KEY_REGEX k) eqn:E.
  - destruct k as [|c k]; [discriminate|]. exists c, k. split; [reflexivity|].
    right. simpl in E. apply andb_true_iff in E as [E _]. auto.
  - eexists _, _. split; [reflexivity|]. left. auto.
Qed.

Lemma isAlpha_not c : isAlpha c = true ->
  c <> SP /\ c <> QUOTE /\ c <> LF /\ c <> HASH /\ c <> DASH /\ c <> COLON.
Proof.
  unfold isAlpha. intros H. apply orb_true_iff in H.
  destruct H as [H|H]; apply andb_true_iff in H as [H1 H2];
    apply N.leb_le in H1, H2; repeat split; lia.
Qed.

Lemma parseKey_at data st k tl :
  rest data st = quoteKey k ++ COLON :: tl ->
  parseKey data st = Ok k (adv st (length (quoteKey k)))
  /\ isKeyStart data st = true.
Proof.
  intros H. destruct (quoteKey_head k) as (c & r & Hq & Hc).
  assert (Hr : rest data st = c :: r ++ COLON :: tl) by (now rewrite H, Hq).
  destruct (rest_head _ _ Hr) as (Hd & Hn & Hp).
  unfold isKeyStart, parseKey, bind, get.
  rewrite Hd, (cur_is_rest _ _ QUOTE Hr), Hp.
  destruct Hc as [[-> Hj]|(Ha & Hb & Hk)].
  - split; [|reflexivity].
    rewrite (@skipSpaces_none data st QUOTE _ Hr) by discriminate.
    rewrite Hp. simpl. rewrite Hj in *. now apply parseString_at with (tl := COLON :: tl).
  - rewrite Ha. split; [|now rewrite orb_true_r].
    destruct (isAlpha_not _ Ha) as (N1 & N2 & _).
    rewrite (@skipSpaces_none data st c _ Hr) by assumption.
    rewrite Hp. apply N.eqb_neq in N2. rewrite N2.
    unfold advance. rewrite H, Hk.
    rewrite Hk in Hq. rewrite Hq in Hb. simpl in Hb.
    apply andb_true_iff in Hb as [_ Hb].
    rewrite span_len_forall.
    + cbv beta. cbn [pos line].
      destruct (Nat.eqb_spec (pos st + length k) (pos st)) as [E|_].
      * rewrite Hq in E. simpl in E. lia.
      * unfold ret, adv. f_equal. rewrite substring_rest, H, Hk.
        apply firstn_app_length.
    + rewrite Hq. simpl. now rewrite (isAlpha_key_char _ Ha).
    + reflexivity.
Qed.

Lemma parseIndicator_single data st c tl :
  rest data st = COLON :: c :: tl -> c <> COLON ->
  parseIndicator data st = Ok false (adv st 1).
Proof.
  intros H Hc. unfold parseIndicator, bind, get, advance.
  destruct (rest_head _ _ H) as [Hd _]. rewrite Hd, (cur_is_rest _ _ COLON H).
  cbn [negb orb andb N.eqb Pos.eqb]. change (mkCursor (pos st + 1) (line st)) with (adv st 1).
  assert (H1 : rest data (adv st 1) = c :: tl) by (rewrite rest_adv, H; reflexivity).
  destruct (rest_head _ _ H1) as [Hd1 _]. rewrite Hd1, (cur_is_rest _ _ COLON H1).
  apply N.eqb_neq in Hc. now rewrite Hc.
Qed.

Lemma parseIndicator_double data st tl :
  rest data st = COLON :: COLON :: tl ->
  parseIndicator data st = Ok true (adv st 2).
Proof.
  intros H. unfold parseIndicator, bind, get, advance.
  destruct (rest_head _ _ H) as [Hd _]. rewrite Hd, (cur_is_rest _ _ COLON H).
  cbn [negb orb andb N.eqb Pos.eqb]. change (mkCursor (pos st + 1) (line st)) with (adv st 1).
  assert (H1 : rest data (adv st 1) = COLON :: tl) by (rewrite rest_adv, H; reflexivity).
  destruct (rest_head _ _ H1) as [Hd1 _]. rewrite Hd1, (cur_is_rest _ _ COLON H1).
  simpl. unfold ret, adv. simpl. f_equal. f_equal. lia.
Qed.

(** *** Numbers *)

Lemma parseNumber_loop_app len :
  forall t n f g tl, length t <= len ->
    parseNumber_loop t n f = (n + length t, g) ->
    parseNumber_loop (t ++ LF :: tl) n f = (n + length t, g).
Proof.
  induction len as [|len IH]; intros t n f g tl Hlen H.
  - destruct t; [|simpl in Hlen; lia]. simpl in *. exact H.
  - destruct t as [|c t]; [simpl in *; exact H|].
    simpl in H |- *.
    destruct (isDigit c || (c =? UNDERSCORE)%N).
    { replace (n + S (length t)) with (S n + length t) in * by lia.
      apply IH; [simpl in Hlen; lia|exact H]. }
    destruct (c =? DOT)%N.
    { replace (n + S (length t)) with (S n + length t) in * by lia.
      apply IH; [simpl in Hlen; lia|exact H]. }
    destruct ((c =? 101) || (c =? 69))%N.
    + destruct t as [|s t].
      * simpl in *. exact H.
      * simpl app. cbv iota beta. destruct ((s =? PLUS) || (s =? DASH))%N.
        -- replace (n + S (length (s :: t))) with (n + 2 + length t) in * by (simpl; lia).
           apply IH; [simpl in Hlen; lia|exact H].
        -- replace (n + S (length (s :: t))) with (S n + length (s :: t)) in * by lia.
           apply (IH (s :: t)); [simpl in Hlen |- *; lia|exact H].
    + injection H as H _. lia.
Qed.

Lemma prefixb_app_lf p t tl :
  mem LF p = false -> prefixb p (t ++ LF :: tl) = prefixb p t.
Proof.
  revert t. induction p as [|c p IH]; intros t Hp; [reflexivity|].
  unfold mem in Hp, IH. cbn [existsb] in Hp. apply orb_false_iff in Hp as [Hc Hp].
  destruct t as [|d t]; cbn [app prefixb].
  - rewrite N.eqb_sym, Hc. reflexivity.
  - now rewrite IH.
Qed.

Lemma remove_underscores_id t : mem UNDERSCORE t = false -> remove_underscores t = t.
Proof.
  induction t as [|c t IH]; [reflexivity|]. unfold mem in *.
  cbn [existsb remove_underscores filter]. intros H.
  apply orb_false_iff in H as [Hc H]. rewrite N.eqb_sym, Hc. cbn [negb].
  unfold remove_underscores in IH. now rewrite IH.
Qed.

Lemma number_eqb_eq x y : number_eqb x y = true -> x = y.
Proof.
  destruct x as [|a|a m e], y as [|b|b n f]; simpl; try discriminate; auto.
  - intros H. apply Bool.eqb_prop in H. now subst.
  - intros H. apply andb_true_iff in H as [H He]. apply andb_true_iff in H as [Ha Hm].
    apply Bool.eqb_prop in Ha. apply N.eqb_eq in Hm. apply Z.eqb_eq in He. now subst.
Qed.

Lemma isDigit_not c : isDigit c = true ->
  (c =? QUOTE)%N = false /\ (c =? BACKTICK)%N = false /\ (c =? PLUS)%N = false
  /\ (c =? DASH)%N = false /\ (c =? COLON)%N = false /\ (c =? SP)%N = false
  /\ (c =? 116)%N = false /\ (c =? 102)%N = false /\ (c =? 110)%N = false
  /\ (c =? 105)%N = false.
Proof.
  unfold isDigit. intros H. apply andb_true_iff in H as [H1 H2].
  apply N.leb_le in H1, H2. repeat split; apply N.eqb_neq; lia.
Qed.

Lemma find_prefix_none t tl :
  existsb (fun pb : jsstring * N => prefixb (fst pb) t) NUMBER_BASE_PREFIXES = false ->
  find (fun pb : jsstring * N => prefixb (fst pb) (t ++ LF :: tl)) NUMBER_BASE_PREFIXES = None.
Proof.
  unfold NUMBER_BASE_PREFIXES. cbn [existsb find fst]. intros H.
  apply orb_false_iff in H as [H1 H]. apply orb_false_iff in H as [H2 H].
  apply orb_false_iff in H as [H3 _].
  rewrite !prefixb_app_lf by reflexivity. now rewrite H1, H2, H3.
Qed.

(** [parseNumber] on the text of a number that [number_text_ok] accepts;
    [t'] is the text without its sign. *)
Lemma parseNumber_at data st x sign t' tl :
  rest data st = sign ++ t' ++ LF :: tl ->
  (sign = [] /\ (exists c r, t' = c :: r /\ isDigit c = true) \/ sign = [DASH]) ->
  existsb (fun pb : jsstring * N => prefixb (fst pb) t') NUMBER_BASE_PREFIXES = false ->
  mem UNDERSCORE (sign ++ t') = false ->
  (let (n, isFloat) := parseNumber_loop t' 0 false in
   (n =? length t')
   && number_eqb (if isFloat then parseFloat (sign ++ t') else parseInt (sign ++ t') 10) x)
  = true ->
  parseNumber data st = Ok (VNum x) (adv st (length (sign ++ t'))).
Proof.
  intros H Hs Hp Hu Hn.
  destruct (parseNumber_loop t' 0 false) as [n isFloat] eqn:El.
  apply andb_true_iff in Hn as [Hlen Hx]. apply Nat.eqb_eq in Hlen. subst n.
  apply number_eqb_eq in Hx.
  pose proof (@parseNumber_loop_app (length t') t' 0 false isFloat tl (le_n _) El) as Ha.
  simpl in Ha.
  unfold parseNumber, bind, get.
  assert (Hst : exists st1, when ((peekChar data (pos st) =? PLUS)
                                   || (peekChar data (pos st) =? DASH))%N
                              (advance 1) st = Ok tt st1
                            /\ st1 = adv st (length sign)
                            /\ rest data st1 = t' ++ LF :: tl).
  { destruct Hs as [[-> (c & r & -> & Hc)]| ->].
    - simpl in H. destruct (rest_head _ _ H) as (_ & _ & Hpk). rewrite Hpk.
      destruct (isDigit_not _ Hc) as (_ & _ & -> & -> & _).
      simpl. exists st. unfold ret. rewrite adv_0. auto.
    - simpl in H. destruct (rest_head _ _ H) as (_ & _ & Hpk). rewrite Hpk.
      simpl. exists (adv st 1). repeat split. rewrite rest_adv, H. reflexivity. }
  destruct Hst as (st1 & -> & -> & Hr).
  unfold peekString. rewrite Hr, (find_prefix_none _ _ Hp), Ha.
  unfold advance, ret. unfold adv at 1 2. simpl pos. simpl line.
  f_equal.
  - rewrite <- Nat.add_assoc, substring_rest, H, app_assoc, <- length_app.
    rewrite firstn_app_length, (remove_underscores_id _ Hu). now rewrite Hx.
  - unfold adv. f_equal. rewrite length_app. lia.
Qed.

(** *** Scalars *)

Lemma number_text_split x :
  number_text_ok x = true ->
  exists sign t',
    number_to_string x = sign ++ t'
    /\ (sign = [] \/ sign = [DASH])
    /\ (exists c r, t' = c :: r /\ isDigit c = true)
    /\ existsb (fun pb : jsstring * N => prefixb (fst pb) t') NUMBER_BASE_PREFIXES = false
    /\ mem UNDERSCORE (sign ++ t') = false
    /\ (let (n, isFloat) := parseNumber_loop t' 0 false in
        (n =? length t')
        && number_eqb (if isFloat then parseFloat (sign ++ t') else parseInt (sign ++ t') 10) x)
       = true.
Proof.
  unfold number_text_ok. set (t := number_to_string x).
  intros H.
  assert (Hs : exists sign t', t = sign ++ t' /\ (sign = [] \/ sign = [DASH])
               /\ match t with
                  | c :: r => if (c =? DASH)%N then r else t
                  | [] => []
                  end = t').
  { destruct t as [|c r]; [exists [], []; auto|].
    destruct (N.eqb_spec c DASH) as [->|_].
    - exists [DASH], r. auto.
    - exists [], (c :: r). auto. }
  destruct Hs as (sign & t' & Ht & Hsign & Ht').
  rewrite Ht' in H. exists sign, t'. rewrite <- Ht.
  destruct t' as [|c r]; [discriminate|].
  apply andb_true_iff in H as [H H4]. apply andb_true_iff in H as [H H3].
  apply andb_true_iff in H as [H1 H2].
  apply negb_true_iff in H2, H3.
  repeat split; eauto.
Qed.

Lemma special_none c tl :
  (c =? 116)%N = false -> (c =? 102)%N = false -> (c =? 110)%N = false ->
  (c =? 105)%N = false ->
  find (fun sv : jsstring * Value => prefixb (fst sv) (c :: tl)) SPECIAL_VALUES = None.
Proof.
  intros H1 H2 H3 H4.
  assert (Hp : forall a s, (c =? a)%N = false -> prefixb (a :: s) (c :: tl) = false).
  { intros a s Ha. cbn [prefixb]. now rewrite N.eqb_sym, Ha. }
  unfold SPECIAL_VALUES. cbn [find fst].
  change (u "true") with (116%N :: u "rue"). change (u "false") with (102%N :: u "alse").
  change (u "null") with (110%N :: u "ull"). change (u "nan") with (110%N :: u "an").
  change (u "inf") with (105%N :: u "nf").
  now rewrite !Hp.
Qed.

Lemma set_pos_back st : set_pos (pos (adv st 1) - 1) (adv st 1) = Ok tt st.
Proof.
  unfold set_pos, adv. simpl. destruct st as [p l]. simpl. f_equal. f_equal. lia.
Qed.

Lemma parseValue_number data ci st x tl :
  number_text_ok x = true ->
  rest data st = number_to_string x ++ LF :: tl ->
  parseValue data ci st = Ok (VNum x) (adv st (length (number_to_string x))).
Proof.
  intros Hx H. destruct (number_text_split _ Hx) as (sign & t' & Ht & Hs & Hd & Hp & Hu & Hn).
  rewrite Ht in *. rewrite <- app_assoc in H.
  destruct Hd as (c & r & -> & Hc).
  destruct (isDigit_not _ Hc) as (C1 & C2 & C3 & C4 & C5 & C6 & C7 & C8 & C9 & C10).
  unfold parseValue, bind, get.
  destruct Hs as [-> | ->].
  - simpl in H. destruct (rest_head _ _ H) as (Hdn & _ & Hpk).
    rewrite Hdn, Hpk, C1, C2. cbn [andb]. unfold peekString. rewrite H.
    rewrite special_none by assumption. rewrite C3, C4, Hc.
    apply (@parseNumber_at data st x [] (c :: r) tl); auto.
    left. split; eauto.
  - simpl in H. destruct (rest_head _ _ H) as (Hdn & _ & Hpk).
    rewrite Hdn, Hpk. cbn [N.eqb Pos.eqb andb]. unfold peekString. rewrite H.
    rewrite special_none by reflexivity.
    unfold advance. change (mkCursor (pos st + 1) (line st)) with (adv st 1).
    assert (H1 : rest data (adv st 1) = c :: r ++ LF :: tl)
      by (rewrite rest_adv, H; reflexivity).
    rewrite H1. change (u "inf") with (105%N :: u "nf"). cbn [prefixb].
    rewrite (N.eqb_sym 105), C10. cbn [andb].
    destruct (rest_head _ _ H1) as (_ & _ & Hpk1). rewrite Hpk1, Hc.
    rewrite set_pos_back.
    apply (@parseNumber_at data st x [DASH] (c :: r) tl); auto.
Qed.

Lemma parseValue_scalar data ci st t v tl :
  scalar_text t v ->
  rest data st = t ++ LF :: tl ->
  parseValue data ci st = Ok v (adv st (length t))
  /\ peekString data (u "```") st || peekString data TRIPLE_QUOTE st = false
  /\ peekString data (u "::") st = false
  /\ (exists c r, t = c :: r /\ c <> SP).
Proof.
  intros Ht H.
  destruct Ht.
  1-5: unfold parseValue, bind, get, peekString;
       destruct (rest_head _ _ H) as (Hd & _ & Hp); rewrite Hd, Hp, H;
       (split; [reflexivity|]); (split; [reflexivity|]); (split; [reflexivity|]);
       eexists _, _; (split; [reflexivity|discriminate]).
  - assert (H1 : skipn (pos st + 1) data = u "inf" ++ LF :: tl).
    { pose proof (rest_adv data st 1) as E. rewrite H in E. exact E. }
    unfold parseValue, bind, get, peekString.
    destruct (rest_head _ _ H) as (Hd & _ & Hp). rewrite Hd, Hp, H.
    split; [|split; [reflexivity|split; [reflexivity|]]].
    + simpl. unfold rest. simpl. rewrite H1. simpl. unfold ret, adv. f_equal. f_equal. lia.
    + eexists _, _. split; [reflexivity|discriminate].
  - destruct (number_text_split _ H0) as (sign & t' & Ht & Hs & Hd & _).
    destruct Hd as (c & r & -> & Hc).
    destruct (isDigit_not _ Hc) as (C1 & C2 & C3 & C4 & C5 & C6 & _).
    split; [now apply parseValue_number with (tl := tl)|].
    unfold peekString. rewrite H, Ht.
    change (u "```") with (96%N :: u "``"). change (u "::") with (58%N :: u ":").
    destruct Hs as [-> | ->]; cbn [app prefixb TRIPLE_QUOTE].
    + rewrite (N.eqb_sym 96), (N.eqb_sym 34), (N.eqb_sym 58), C1, C2, C5.
      repeat split. eexists _, _. split; [reflexivity|]. now apply N.eqb_neq.
    + repeat split. eexists _, _. split; [reflexivity|discriminate].
  - unfold parseValue, bind, get, peekString.
    unfold JSON_stringify in H. simpl in H.
    destruct (rest_head _ _ H) as (Hd & _ & Hp). rewrite Hd, Hp.
    assert (Htq : prefixb TRIPLE_QUOTE (rest data st) = false).
    { rewrite H. destruct (json_quote_body s) as [|c b] eqn:Eb.
      - reflexivity.
      - apply json_body_head in Eb. apply N.eqb_neq in Eb.
        cbn [app prefixb TRIPLE_QUOTE]. rewrite N.eqb_sym in Eb. rewrite Eb.
        reflexivity. }
    rewrite Htq. cbn [N.eqb Pos.eqb].
    rewrite (@parseString_at data st s (LF :: tl)).
    + split; [reflexivity|]. rewrite H. split. { reflexivity. } split. { reflexivity. }
      exists QUOTE, (json_quote_body s ++ [QUOTE]). split; [reflexivity|discriminate].
    + unfold JSON_stringify. simpl. exact H.
Qed.

(** ** Reading back what the encoder writes: lines *)

Lemma wp_ok A (c : M A) st a st' :
  c st = Ok a st' -> forall (Q : A -> Cursor -> Prop) E, Q a st' -> wp c st Q E.
Proof. unfold wp. now intros ->. Qed.

Lemma wp_returns A (c : M A) st a st' :
  wp c st (fun x s => x = a /\ s = st') (fun _ _ => False) -> c st = Ok a st'.
Proof.
  unfold wp. destruct (c st) as [x s|e s|]; [|contradiction|contradiction].
  now intros [-> ->].
Qed.

Lemma returns_wp A (c : M A) st a st' :
  c st = Ok a st' -> wp c st (fun x s => x = a /\ s = st') (fun _ _ => False).
Proof. intros H. now apply (@wp_ok _ _ _ _ _ H). Qed.

Ltac wp_step H := apply wp_bind; apply (@wp_ok _ _ _ _ _ H); cbv beta.

Lemma length_spaces n : length (spaces n) = n.
Proof. apply repeat_length. Qed.

Lemma unlines_cons l ls : unlines (l :: ls) = l ++ LF :: unlines ls.
Proof. unfold unlines. simpl. now rewrite <- app_assoc. Qed.

Lemma at_line_rest data ls txt l k :
  at_line data ls txt -> rest data (mkCursor (ls + k) l) = skipn k txt.
Proof.
  intros [_ H]. unfold rest. simpl. rewrite <- H, skipn_skipn. f_equal. lia.
Qed.

Lemma at_line_nth data ls txt k :
  at_line data ls txt -> nth_error data (ls + k) = nth_error txt k.
Proof. intros [_ H]. rewrite <- H, nth_error_skipn. reflexivity. Qed.

Lemma at_line_next data ls l txt :
  at_line data ls (l ++ LF :: txt) -> at_line data (ls + length l + 1) txt.
Proof.
  intros H. split.
  - replace (ls + length l + 1) with (S (ls + length l)) by lia. simpl.
    rewrite (at_line_nth _ H), nth_error_app2, Nat.sub_diag by lia. reflexivity.
  - destruct H as [_ H].
    replace (ls + length l + 1) with (length l + 1 + ls) by lia.
    rewrite <- skipn_skipn, H.
    replace (length l + 1) with (1 + length l) by lia.
    rewrite <- skipn_skipn, skipn_app_length. reflexivity.
Qed.

Lemma content_spec c : content c = true -> c <> SP /\ c <> LF /\ c <> HASH.
Proof.
  unfold content. intros H. apply negb_true_iff in H.
  apply orb_false_iff in H as [H H3]. apply orb_false_iff in H as [H1 H2].
  apply N.eqb_neq in H1, H2, H3. auto.
Qed.

Lemma lead_content m c tl : content c = true -> lead (spaces m ++ c :: tl) = m.
Proof.
  intros H. apply content_spec in H as [H _]. unfold lead.
  apply span_len_spaces; [reflexivity|]. now apply N.eqb_neq.
Qed.

Lemma skipn_spaces_le k m (l : list N) :
  k <= m -> skipn k (spaces m ++ l) = spaces (m - k) ++ l.
Proof.
  intros H. replace m with (k + (m - k)) at 1 by lia.
  unfold spaces. rewrite repeat_app, <- app_assoc.
  rewrite <- (repeat_length SP k) at 1. apply skipn_app_length.
Qed.

(** The head of a line with content, reached from anywhere in its
    indentation. *)
Lemma line_head data lsn n c r st :
  at_line data lsn (spaces n ++ c :: r) -> content c = true ->
  lsn <= pos st <= lsn + n ->
  skipBlankLines data st = Ok tt (mkCursor (lsn + n) (line st))
  /\ forall l, done data (mkCursor (lsn + n) l) = false
               /\ getCurIndent data (mkCursor (lsn + n) l) = n
               /\ rest data (mkCursor (lsn + n) l) = c :: r.
Proof.
  intros Hat Hc Hpos.
  destruct (content_spec _ Hc) as (N1 & N2 & N3).
  assert (Hrest : forall l, rest data (mkCursor (lsn + n) l) = c :: r).
  { intros l. rewrite (at_line_rest _ _ Hat). apply skipn_spaces. }
  assert (Hst : rest data st = spaces (n - (pos st - lsn)) ++ c :: r).
  { rewrite <- (skipn_spaces_le (c :: r)) by lia.
    destruct Hat as [_ Hat]. unfold rest. rewrite <- Hat, skipn_skipn.
    f_equal. lia. }
  split.
  - unfold skipBlankLines.
    assert (Hlen : pos st < length data).
    { assert (Hl : length (rest data st) = length data - pos st)
        by (unfold rest; apply length_skipn).
      rewrite Hst, length_app in Hl. simpl in Hl. lia. }
    destruct (length data - pos st) as [|fuel] eqn:Ef; [lia|].
    cbn [skipBlankLines_loop]. unfold bind, get.
    replace (done data st) with false
      by (symmetry; unfold done; apply Nat.leb_gt; lia).
    rewrite (@skipSpaces_at data st _ c r Hst N1).
    replace (adv st (n - (pos st - lsn))) with (mkCursor (lsn + n) (line st))
      by (unfold adv; f_equal; lia).
    specialize (Hrest (line st)).
    destruct (rest_head _ _ Hrest) as (Hd & _ & _).
    rewrite Hd, (cur_is_rest _ _ LF Hrest), (cur_is_rest _ _ HASH Hrest).
    apply N.eqb_neq in N2, N3. rewrite N2, N3. reflexivity.
  - intros l. specialize (Hrest l).
    destruct (rest_head _ _ Hrest) as (Hd & Hn & _).
    repeat split; auto.
    rewrite (@getCurIndent_in_indent data (mkCursor (lsn + n) l) lsn).
    + simpl. lia.
    + apply Hat.
    + simpl. lia.
    + simpl. intros k H1 H2. replace k with (lsn + (k - lsn)) by lia.
      rewrite (at_line_nth _ Hat), nth_error_app1 by (rewrite length_spaces; lia).
      unfold spaces. apply nth_error_repeat. lia.
    + apply nth_error_Some. simpl. simpl in Hn. rewrite Hn. discriminate.
    + simpl in *. rewrite Hn. congruence.
    + simpl in *. rewrite Hn. congruence.
Qed.

Lemma skipBlankLines_eof data st :
  rest data st = [] -> skipBlankLines data st = Ok tt st /\ done data st = true.
Proof.
  intros H. pose proof (rest_nil_done _ _ H) as Hd. split; [|exact Hd].
  unfold skipBlankLines. destruct (length data - pos st); simpl; unfold bind, get;
    now rewrite Hd.
Qed.

(** *** Objects built entry by entry *)

Lemma has_own_app k props k' v :
  has_own k (props ++ [(k', v)]) = has_own k props || string_eqb k' k.
Proof. unfold has_own. rewrite existsb_app. simpl. now rewrite orb_false_r. Qed.

Lemma has_own_replace k k' v props :
  has_own k (replace_prop k' v props) = has_own k props.
Proof.
  unfold has_own. induction props as [|[a b] ps IH]; [reflexivity|].
  simpl. destruct (string_eqb a k'); simpl; [reflexivity|]. now rewrite IH.
Qed.

Lemma has_own_insert k i k' v props :
  has_own k (insert_index i k' v props) = string_eqb k' k || has_own k props.
Proof.
  unfold has_own. induction props as [|[a b] ps IH]; simpl.
  - reflexivity.
  - destruct (array_index a) as [j|]; [destruct (j <? i)%N|]; simpl; try reflexivity.
    rewrite IH. now rewrite !orb_assoc, (orb_comm (string_eqb a k)).
Qed.

Lemma has_own_define k k' v props :
  k <> k' -> has_own k (define_prop k' v props) = has_own k props.
Proof.
  intros Hne.
  assert (E : string_eqb k' k = false).
  { destruct (string_eqb k' k) eqn:E; [|reflexivity].
    apply string_eqb_eq in E. congruence. }
  unfold define_prop. destruct (has_own k' props).
  - apply has_own_replace.
  - destruct (array_index k').
    + now rewrite has_own_insert, E.
    + now rewrite has_own_app, E, orb_false_r.
Qed.

Lemma fresh_step k v ks out :
  fst out = true -> keys_ok (k :: ks) = true ->
  forallb (fun k' => negb (has_own k' (snd out))) (k :: ks) = true ->
  js_in k (fst out) (snd out) = false
  /\ obj_set k v out = (true, define_prop k v (snd out))
  /\ keys_ok ks = true
  /\ forallb (fun k' => negb (has_own k' (snd (obj_set k v out)))) ks = true.
Proof.
  destruct out as [proto props]. simpl. intros -> Hk Ho.
  unfold keys_ok in *. cbn [keys_distinct forallb] in Hk.
  apply andb_true_iff in Hk as [Hd Hp]. apply andb_true_iff in Hd as [Hd1 Hd2].
  apply andb_true_iff in Hp as [Hp1 Hp2].
  apply andb_true_iff in Ho as [Ho1 Ho2].
  apply negb_true_iff in Hd1, Hp1, Ho1.
  assert (Hproto : string_eqb k (u "__proto__") = false).
  { destruct (string_eqb k (u "__proto__")) eqn:E; [|reflexivity].
    apply string_eqb_eq in E. subst k. discriminate. }
  repeat split.
  - unfold js_in. now rewrite Ho1, Hp1.
  - now rewrite Hproto.
  - now rewrite Hd2, Hp2.
  - rewrite Hproto. simpl. rewrite forallb_forall in *. intros k' Hin.
    rewrite has_own_define; [now apply Ho2|].
    intros ->. rewrite existsb_exists in Hd1 || (apply not_true_iff_false in Hd1; apply Hd1).
    apply existsb_exists. exists k. split; [exact Hin|]. apply string_eqb_refl.
Qed.

(** *** The lines of a block *)

Lemma key_content k :
  exists c r, quoteKey k = c :: r /\ content c = true /\ c <> DASH.
Proof.
  destruct (quoteKey_head k) as (c & r & Hq & [[-> _]|[Ha _]]).
  - exists QUOTE, r. repeat split; auto. discriminate.
  - exists c, r. destruct (isAlpha_not _ Ha) as (N1 & N2 & N3 & N4 & N5 & N6).
    repeat split; auto. unfold content.
    apply N.eqb_neq in N1, N3, N4. now rewrite N1, N3, N4.
Qed.

Lemma dict_lines_head n ls es post :
  dict_lines n ls es -> ls <> [] ->
  exists c r, unlines ls ++ post = spaces n ++ c :: r /\ content c = true /\ c <> DASH.
Proof.
  intros H Hne. destruct H; try congruence;
    destruct (key_content k) as (c & r & Hq & Hc & Hd);
    exists c; rewrite unlines_cons, Hq, <- !app_assoc; simpl;
    eexists; (split; [reflexivity|auto]).
Qed.

Lemma list_lines_head n ls items post :
  list_lines n ls items -> ls <> [] ->
  exists r, unlines ls ++ post = spaces n ++ DASH :: r.
Proof.
  intros H Hne. destruct H; try congruence;
    rewrite unlines_cons, <- !app_assoc; simpl; eexists; reflexivity.
Qed.

Lemma tail_ok_weaken n m post : tail_ok n post -> n <= m -> tail_ok m post.
Proof.
  intros [->|(k & c & tl & -> & Hk & Hc)] Hle; [now left|].
  right. exists k, c, tl. repeat split; auto. lia.
Qed.

Lemma tail_ok_dict n ls es post :
  dict_lines n ls es -> tail_ok n post -> tail_ok (n + 2) (unlines ls ++ post).
Proof.
  intros H Ht. destruct ls as [|l ls].
  - simpl. apply (@tail_ok_weaken n (n + 2) post Ht). lia.
  - destruct (@dict_lines_head n (l :: ls) es post H) as (c & r & E & Hc & _);
      [discriminate|].
    right. exists n, c, r. repeat split; auto. lia.
Qed.

Lemma tail_ok_list n ls items post :
  list_lines n ls items -> tail_ok n post -> tail_ok (n + 2) (unlines ls ++ post).
Proof.
  intros H Ht. destruct ls as [|l ls].
  - simpl. apply (@tail_ok_weaken n (n + 2) post Ht). lia.
  - destruct (@list_lines_head n (l :: ls) items post H) as (r & E); [discriminate|].
    right. exists n, DASH, r. repeat split; auto. lia.
Qed.

Lemma tail_ok_lead n post : tail_ok n post -> post = [] \/ lead post < n /\ exists c r, post = spaces (lead post) ++ c :: r /\ content c = true.
Proof.
  intros [->|(m & c & tl & -> & Hm & Hc)]; [now left|].
  right. rewrite (lead_content _ _ _ Hc). split; [exact Hm|]. eauto.
Qed.

Ltac lens :=
  repeat rewrite ?length_app, ?length_spaces, ?unlines_cons in *;
  cbn [length pos line adv] in *; lia.

(** The end of a block: the input ends, or a line at a smaller indent
    follows. *)
Lemma block_end data n st lsn post :
  at_line data lsn post -> tail_ok n post ->
  lsn <= pos st <= lsn + lead post ->
  exists st', skipBlankLines data st = Ok tt st'
              /\ st' = mkCursor (lsn + lead post) (line st)
              /\ (done data st' = true
                  \/ done data st' = false /\ getCurIndent data st' < n).
Proof.
  intros Hat Ht Hpos. destruct (@tail_ok_lead n post Ht) as [->|(Hlt & c & r & E & Hc)].
  - unfold lead in *. simpl in Hpos. assert (Hr : rest data st = []).
    { destruct Hat as [_ Hat]. unfold rest. replace (pos st) with lsn by lia. exact Hat. }
    destruct (skipBlankLines_eof _ _ Hr) as [Hs Hd].
    exists st. split; [exact Hs|]. split; [|now left].
    destruct st; simpl in *. f_equal. lia.
  - rewrite E in Hat.
    destruct (@line_head data lsn (lead post) c r st Hat Hc Hpos) as [Hs Hh].
    eexists. split; [exact Hs|]. split; [reflexivity|]. right.
    destruct (Hh (line st)) as (Hd & Hi & _). rewrite Hi. auto.
Qed.

Lemma reads_dict_nil n : reads_dict n [] [].
Proof.
  intros data fuel out st lsn post Hat Htail Hpos Hfuel Hproto Hkeys Hown.
  destruct fuel as [|fuel]; [simpl in Hfuel; lia|].
  simpl in Hat, Hpos.
  destruct (@block_end data n st lsn post Hat Htail Hpos) as (st' & Hs & -> & Hend).
  apply wp_returns. cbn [parseMultilineDict].
  wp_step Hs. wp_get. rewrite Hproto.
  destruct Hend as [->|[-> Hlt]].
  - apply wp_ret. split; [reflexivity|]. f_equal; simpl; lia.
  - apply Nat.ltb_lt in Hlt. cbv zeta. rewrite Hlt.
    apply wp_ret. split; [reflexivity|]. f_equal; simpl; lia.
Qed.

Lemma reads_list_nil n : reads_list n [] [].
Proof.
  intros data fuel out st lsn post Hat Htail Hpos Hfuel.
  destruct fuel as [|fuel]; [simpl in Hfuel; lia|].
  simpl in Hat, Hpos.
  destruct (@block_end data n st lsn post Hat Htail Hpos) as (st' & Hs & -> & Hend).
  apply wp_returns. cbn [parseMultilineList].
  wp_step Hs. wp_get. rewrite app_nil_r.
  destruct Hend as [->|[-> Hlt]].
  - apply wp_ret. split; [reflexivity|]. f_equal; simpl; lia.
  - apply Nat.ltb_lt in Hlt. cbv zeta. rewrite Hlt.
    apply wp_ret. split; [reflexivity|]. f_equal; simpl; lia.
Qed.

Lemma unlines_app a b : unlines (a ++ b) = unlines a ++ unlines b.
Proof. unfold unlines. now rewrite map_app, concat_app. Qed.

Lemma at_line_block data lsn body :
  forall l T, at_line data lsn (l ++ LF :: unlines body ++ T) ->
              at_line data (lsn + length l + 1 + length (unlines body)) T.
Proof.
  induction body as [|b bs IH]; intros l T H.
  - simpl in *. rewrite Nat.add_0_r. now apply at_line_next.
  - rewrite unlines_cons in *.
    replace (l ++ LF :: (b ++ LF :: unlines bs) ++ T)
      with ((l ++ LF :: b) ++ LF :: unlines bs ++ T) in H
      by (rewrite <- !app_assoc; simpl; rewrite <- ?app_assoc; reflexivity).
    apply IH in H.
    replace (lsn + length l + 1 + length (b ++ LF :: unlines bs))
      with (lsn + length (l ++ LF :: b) + 1 + length (unlines bs)) by lens.
    exact H.
Qed.

Lemma at_line_after_lf data s T : rest data s = LF :: T -> at_line data (pos s + 1) T.
Proof.
  intros H. split.
  - rewrite Nat.add_1_r. simpl. destruct (rest_head _ _ H) as (_ & -> & _). reflexivity.
  - pose proof (rest_adv data s 1) as E. rewrite H in E. exact E.
Qed.

(** *** One entry of a dict *)

Lemma dict_entry_key data n st lsn k more :
  at_line data lsn (spaces n ++ quoteKey k ++ COLON :: more) ->
  lsn <= pos st <= lsn + n ->
  exists c r,
    skipBlankLines data st = Ok tt (mkCursor (lsn + n) (line st))
    /\ done data (mkCursor (lsn + n) (line st)) = false
    /\ getCurIndent data (mkCursor (lsn + n) (line st)) = n
    /\ isKeyStart data (mkCursor (lsn + n) (line st)) = true
    /\ parseKey data (mkCursor (lsn + n) (line st))
       = Ok k (mkCursor (lsn + n + length (quoteKey k)) (line st))
    /\ rest data (mkCursor (lsn + n + length (quoteKey k)) (line st)) = COLON :: more
    /\ quoteKey k = c :: r.
Proof.
  intros Hat Hpos.
  destruct (key_content k) as (c & r & Hq & Hc & _).
  assert (Hat' : at_line data lsn (spaces n ++ c :: r ++ COLON :: more))
    by (rewrite Hq in Hat; exact Hat).
  destruct (@line_head data lsn n c _ st Hat' Hc Hpos) as [Hs Hh].
  destruct (Hh (line st)) as (Hd & Hi & Hr).
  assert (Hr' : rest data (mkCursor (lsn + n) (line st)) = quoteKey k ++ COLON :: more)
    by (rewrite Hr, Hq; reflexivity).
  destruct (@parseKey_at data _ k more Hr') as [Hkey Hks].
  exists c, r. repeat split; auto.
  pose proof (rest_adv data (mkCursor (lsn + n) (line st)) (length (quoteKey k))) as E.
  rewrite Hr', skipn_app_length in E. exact E.
Qed.

Lemma dict_scalar_entry data fuel n out st lsn k t v T (Q : Value -> Cursor -> Prop) E :
  scalar_text t v ->
  at_line data lsn (spaces n ++ quoteKey k ++ COLON :: SP :: t ++ LF :: T) ->
  lsn <= pos st <= lsn + n ->
  js_in k (fst out) (snd out) = false ->
  wp (parseMultilineDict data fuel n (obj_set k v out))
     (mkCursor (lsn + n + length (quoteKey k) + 2 + length t + 1) (line st + 1)) Q E ->
  wp (parseMultilineDict data (S fuel) n out) st Q E.
Proof.
  intros Ht Hat Hpos Hjs Hk.
  destruct (@dict_entry_key data n st lsn k _ Hat Hpos)
    as (c & r & Hs & Hd & Hi & Hks & Hkey & Hr & _).
  set (s1 := mkCursor (lsn + n + length (quoteKey k)) (line st)) in *.
  assert (Hind : parseIndicator data s1 = Ok false (adv s1 1))
    by (apply (@parseIndicator_single data s1 SP _ Hr); discriminate).
  assert (R2 : rest data (adv s1 1) = SP :: t ++ LF :: T)
    by (rewrite rest_adv, Hr; reflexivity).
  assert (R3 : rest data (adv (adv s1 1) 1) = t ++ LF :: T)
    by (rewrite rest_adv, R2; reflexivity).
  destruct (@parseValue_scalar data n _ t v T Ht R3) as (Hv & Hm & _ & (c' & r' & Et & Hc')).
  assert (Has : assertSpace data AfterColon (adv s1 1) = Ok tt (adv (adv s1 1) 1)).
  { apply (@assertSpace_at data AfterColon (adv s1 1) c' (r' ++ LF :: T)); [|exact Hc'].
    rewrite R2, Et. reflexivity. }
  assert (R4 : rest data (adv (adv (adv s1 1) 1) (length t)) = LF :: T)
    by (rewrite rest_adv, R3; apply skipn_app_length).
  pose proof (@consumeLine_at data _ T R4) as Hcl.
  cbn [parseMultilineDict]. wp_step Hs. wp_get. rewrite Hd. cbv zeta.
  rewrite Hi, Nat.ltb_irrefl, Nat.eqb_refl, Hks. cbn [negb].
  wp_step Hkey. rewrite Hjs. wp_step Hind. cbn [negb].
  apply wp_bind. wp_step Has. wp_get. rewrite Hm. wp_step Hv. cbn [negb when].
  wp_step Hcl. apply wp_ret.
  replace (mkCursor (pos (adv (adv (adv s1 1) 1) (length t)) + 1)
                    (line (adv (adv (adv s1 1) 1) (length t)) + 1))
    with (mkCursor (lsn + n + length (quoteKey k) + 2 + length t + 1) (line st + 1))
    by (unfold s1; simpl; f_equal; lia).
  exact Hk.
Qed.

Lemma dict_vector_entry data fuel n out st lsn k more (Q : Value -> Cursor -> Prop) E :
  at_line data lsn (spaces n ++ quoteKey k ++ COLON :: COLON :: more) ->
  lsn <= pos st <= lsn + n ->
  js_in k (fst out) (snd out) = false ->
  wp (parseVector data fuel (n + 2))
     (mkCursor (lsn + n + length (quoteKey k) + 2) (line st))
     (fun val st' => wp (parseMultilineDict data fuel n (obj_set k val out)) st' Q E) E ->
  wp (parseMultilineDict data (S fuel) n out) st Q E.
Proof.
  intros Hat Hpos Hjs Hk.
  destruct (@dict_entry_key data n st lsn k _ Hat Hpos)
    as (c & r & Hs & Hd & Hi & Hks & Hkey & Hr & _).
  set (s1 := mkCursor (lsn + n + length (quoteKey k)) (line st)) in *.
  pose proof (@parseIndicator_double data s1 _ Hr) as Hind.
  cbn [parseMultilineDict]. wp_step Hs. wp_get. rewrite Hd. cbv zeta.
  rewrite Hi, Nat.ltb_irrefl, Nat.eqb_refl, Hks. cbn [negb].
  wp_step Hkey. rewrite Hjs. wp_step Hind. cbn [negb]. apply wp_bind.
  replace (adv s1 2) with (mkCursor (lsn + n + length (quoteKey k) + 2) (line st))
    by (unfold s1, adv; simpl; f_equal; lia).
  exact Hk.
Qed.

(** *** One item of a list *)

Lemma list_item_dash data n st lsn more :
  at_line data lsn (spaces n ++ DASH :: SP :: more) ->
  lsn <= pos st <= lsn + n ->
  skipBlankLines data st = Ok tt (mkCursor (lsn + n) (line st))
  /\ done data (mkCursor (lsn + n) (line st)) = false
  /\ getCurIndent data (mkCursor (lsn + n) (line st)) = n
  /\ cur_is data (mkCursor (lsn + n) (line st)) DASH = true
  /\ rest data (mkCursor (lsn + n + 1) (line st)) = SP :: more.
Proof.
  intros Hat Hpos.
  destruct (@line_head data lsn n DASH _ st Hat eq_refl Hpos) as [Hs Hh].
  destruct (Hh (line st)) as (Hd & Hi & Hr).
  repeat split; auto.
  - now rewrite (cur_is_rest _ _ DASH Hr).
  - pose proof (rest_adv data (mkCursor (lsn + n) (line st)) 1) as E.
    rewrite Hr in E. exact E.
Qed.

Lemma list_scalar_item data fuel n out st lsn t v T (Q : Value -> Cursor -> Prop) E :
  scalar_text t v ->
  at_line data lsn (spaces n ++ DASH :: SP :: t ++ LF :: T) ->
  lsn <= pos st <= lsn + n ->
  wp (parseMultilineList data fuel n (out ++ [v]))
     (mkCursor (lsn + n + 2 + length t + 1) (line st + 1)) Q E ->
  wp (parseMultilineList data (S fuel) n out) st Q E.
Proof.
  intros Ht Hat Hpos Hk.
  destruct (@list_item_dash data n st lsn _ Hat Hpos) as (Hs & Hd & Hi & Hc & R1).
  set (s0 := mkCursor (lsn + n) (line st)) in *.
  change (mkCursor (lsn + n + 1) (line st)) with (adv s0 1) in R1.
  assert (R2 : rest data (adv (adv s0 1) 1) = t ++ LF :: T)
    by (rewrite rest_adv, R1; reflexivity).
  destruct (@parseValue_scalar data n _ t v T Ht R2) as (Hv & _ & Hm & (c' & r' & Et & Hc')).
  assert (Has : assertSpace data AfterDash (adv s0 1) = Ok tt (adv (adv s0 1) 1)).
  { apply (@assertSpace_at data AfterDash (adv s0 1) c' (r' ++ LF :: T)); [|exact Hc'].
    rewrite R1, Et. reflexivity. }
  assert (R3 : rest data (adv (adv (adv s0 1) 1) (length t)) = LF :: T)
    by (rewrite rest_adv, R2; apply skipn_app_length).
  pose proof (@consumeLine_at data _ T R3) as Hcl.
  cbn [parseMultilineList]. wp_step Hs. wp_get. rewrite Hd. cbv zeta.
  rewrite Hi, Nat.ltb_irrefl, Nat.eqb_refl, Hc. cbn [negb].
  wp_adv. change (mkCursor (pos s0 + 1) (line s0)) with (adv s0 1).
  wp_step Has. wp_get. rewrite Hm.
  apply wp_bind. wp_step Hv. wp_step Hcl. apply wp_ret.
  replace (mkCursor (pos (adv (adv (adv s0 1) 1) (length t)) + 1)
                    (line (adv (adv (adv s0 1) 1) (length t)) + 1))
    with (mkCursor (lsn + n + 2 + length t + 1) (line st + 1))
    by (unfold s0; simpl; f_equal; lia).
  exact Hk.
Qed.

Lemma list_vector_item data fuel n out st lsn more (Q : Value -> Cursor -> Prop) E :
  at_line data lsn (spaces n ++ DASH :: SP :: COLON :: COLON :: more) ->
  lsn <= pos st <= lsn + n ->
  wp (parseVector data fuel (n + 2)) (mkCursor (lsn + n + 4) (line st))
     (fun val st' => wp (parseMultilineList data fuel n (out ++ [val])) st' Q E) E ->
  wp (parseMultilineList data (S fuel) n out) st Q E.
Proof.
  intros Hat Hpos Hk.
  destruct (@list_item_dash data n st lsn _ Hat Hpos) as (Hs & Hd & Hi & Hc & R1).
  set (s0 := mkCursor (lsn + n) (line st)) in *.
  change (mkCursor (lsn + n + 1) (line st)) with (adv s0 1) in R1.
  assert (R2 : rest data (adv (adv s0 1) 1) = COLON :: COLON :: more)
    by (rewrite rest_adv, R1; reflexivity).
  assert (Has : assertSpace data AfterDash (adv s0 1) = Ok tt (adv (adv s0 1) 1)).
  { apply (@assertSpace_at data AfterDash (adv s0 1) COLON (COLON :: more)); [|discriminate].
    exact R1. }
  cbn [parseMultilineList]. wp_step Hs. wp_get. rewrite Hd. cbv zeta.
  rewrite Hi, Nat.ltb_irrefl, Nat.eqb_refl, Hc. cbn [negb].
  wp_adv. change (mkCursor (pos s0 + 1) (line s0)) with (adv s0 1).
  wp_step Has. wp_get. unfold peekString at 1. rewrite R2.
  change (prefixb (u "::") (COLON :: COLON :: more)) with true. cbv iota.
  apply wp_bind. wp_adv.
  replace (mkCursor (pos (adv (adv s0 1) 1) + 2) (line (adv (adv s0 1) 1)))
    with (mkCursor (lsn + n + 4) (line st))
    by (unfold s0; simpl; f_equal; lia).
  exact Hk.
Qed.

(** *** Vectors after [::] *)

Lemma set_pos_same s s' : line s' = line s -> set_pos (pos s) s' = Ok tt s.
Proof. destruct s, s'. unfold set_pos. simpl. intros ->. reflexivity. Qed.

Lemma wp_ext A (c c' : M A) st (Q : A -> Cursor -> Prop) E :
  c st = c' st -> wp c' st Q E -> wp c st Q E.
Proof. unfold wp. now intros ->. Qed.

Lemma reads_vector_empty n (open close : N) val :
  (forall data s, prefixb [open; close] (rest data s) = true ->
                  parseInlineVector data s
                  = (advance 2 ;; consumeLine data ;; ret val) s) ->
  open <> LF -> open <> HASH -> open <> SP ->
  reads_vector n [SP; open; close] [] val.
Proof.
  intros Hinline N1 N2 N3 data fuel s T Hr Ht Hf.
  destruct fuel as [|fuel]; [lia|].
  simpl in Hr.
  assert (R1 : rest data (adv s 1) = open :: close :: LF :: T)
    by (rewrite rest_adv, Hr; reflexivity).
  assert (R2 : rest data (adv (adv s 1) 2) = LF :: T)
    by (rewrite rest_adv, R1; reflexivity).
  pose proof (@skipSpaces_at data s 1 open _ Hr N3) as Hsk.
  pose proof (@assertSpace_at data AfterDoubleColon s open _ Hr N3) as Has.
  pose proof (@consumeLine_at data _ T R2) as Hcl.
  destruct (rest_head _ _ R1) as (Hd & _ & _).
  assert (Hpre : prefixb [open; close] (rest data (adv s 1)) = true).
  { rewrite R1. cbn [prefixb]. now rewrite !N.eqb_refl. }
  eexists. split; [|split].
  - apply wp_returns. cbn [parseVector]. wp_get. wp_step Hsk. wp_get.
    rewrite Hd, (cur_is_rest _ _ LF R1), (cur_is_rest _ _ HASH R1).
    apply N.eqb_neq in N1, N2. rewrite N1, N2. cbn [orb].
    wp_step (@set_pos_same s (adv s 1) eq_refl).
    wp_step Has. apply (@wp_ext _ _ _ _ _ _ (Hinline data (adv s 1) Hpre)).
    wp_adv. change (mkCursor (pos (adv s 1) + 2) (line (adv s 1))) with (adv (adv s 1) 2).
    wp_step Hcl. apply wp_ret. split; reflexivity.
  - simpl. lia.
  - simpl. lia.
Qed.

Lemma reads_vector_empty_list n : reads_vector n (u " []") [] (VArr []).
Proof.
  apply (@reads_vector_empty n 91 93 (VArr [])); try discriminate.
  intros data s H. unfold parseInlineVector, bind at 1, get, peekString.
  change (u "[]") with [91; 93]%N. now rewrite H.
Qed.

Lemma reads_vector_empty_dict n : reads_vector n (u " {}") [] EMPTY_OBJECT.
Proof.
  apply (@reads_vector_empty n 123 125 EMPTY_OBJECT); try discriminate.
  intros data s H. unfold parseInlineVector, bind at 1, get, peekString.
  change (u "{}") with [123; 125]%N. change (u "[]") with [91; 93]%N.
  rewrite H. destruct (rest data s) as [|c r]; [discriminate|].
  cbn [prefixb] in *. apply andb_true_iff in H as [H _]. apply N.eqb_eq in H. subst c.
  reflexivity.
Qed.

Lemma forallb_no_own (ks : list jsstring) :
  forallb (fun k => negb (has_own k (snd (true, @nil (jsstring * Value))))) ks = true.
Proof. apply forallb_forall. reflexivity. Qed.

(** The lines of a block after a line ended by [::]. *)
Lemma vector_block data n s c r T :
  rest data s = LF :: spaces n ++ c :: r -> content c = true -> T = spaces n ++ c :: r ->
  skipSpaces data s = Ok tt s
  /\ done data s = false /\ cur_is data s LF = true
  /\ consumeLine data s = Ok tt (mkCursor (pos s + 1) (line s + 1))
  /\ getMultilineVectorType data n (mkCursor (pos s + 1) (line s + 1))
     = Ok (c =? DASH)%N (mkCursor (pos s + 1 + n) (line s + 1))
  /\ getCurIndent data (mkCursor (pos s + 1 + n) (line s + 1)) = n
  /\ at_line data (pos s + 1) T.
Proof.
  intros Hr Hc ->.
  pose proof (@at_line_after_lf data s _ Hr) as Hat.
  destruct (rest_head _ _ Hr) as (Hd & _ & _).
  assert (Hp : pos s + 1 <= pos (mkCursor (pos s + 1) (line s + 1)) <= pos s + 1 + n)
    by (simpl; lia).
  destruct (@line_head data (pos s + 1) n c r _ Hat Hc Hp) as [Hs Hh].
  destruct (Hh (line s + 1)) as (Hd1 & Hi & Hr1).
  split; [|split; [exact Hd|split; [|split; [|split; [|split; [exact Hi|exact Hat]]]]]].
  - apply (@skipSpaces_none data s LF _ Hr). discriminate.
  - now rewrite (cur_is_rest _ _ LF Hr).
  - now apply consumeLine_at with (tl := spaces n ++ c :: r).
  - apply wp_returns. unfold getMultilineVectorType.
    wp_step Hs. wp_get. simpl line. rewrite Hd1, Hi, Nat.ltb_irrefl.
    apply wp_ret. rewrite (cur_is_rest _ _ DASH Hr1). auto.
Qed.

Lemma reads_vector_dict n body entries :
  body <> [] -> dict_lines n body entries -> reads_dict n body entries ->
  keys_ok (map fst entries) = true ->
  reads_vector n [] body (VObj true (snd (build_object entries))).
Proof.
  intros Hne Hb IH Hk data fuel s T Hr Ht Hf.
  destruct fuel as [|fuel]; [lia|].
  destruct (@dict_lines_head n body entries T Hb Hne) as (c & r & E & Hc & Hdash).
  simpl in Hr.
  assert (Hr' : rest data s = LF :: spaces n ++ c :: r) by (now rewrite Hr, E).
  destruct (@vector_block data n s c r _ Hr' Hc E)
    as (Hsk & Hd & Hlf & Hcl & Hty & Hi & Hat).
  apply N.eqb_neq in Hdash. rewrite Hdash in Hty.
  assert (Hpos : pos s + 1 <= pos (mkCursor (pos s + 1 + n) (line s + 1))
                 <= pos s + 1 + lead (unlines body ++ T)).
  { rewrite E, (lead_content _ _ _ Hc). simpl. lia. }
  pose proof (IH data fuel (true, []) _ (pos s + 1) T Hat Ht Hpos
                 ltac:(lia) eq_refl Hk (forallb_no_own _)) as Hrun.
  eexists. split; [|split].
  - apply wp_returns. cbn [parseVector]. wp_get. wp_step Hsk. wp_get.
    rewrite Hd, Hlf. cbn [orb].
    wp_step (@set_pos_same s s eq_refl). wp_step Hcl. wp_step Hty. wp_get.
    cbv zeta. rewrite Hi. apply (@wp_ok _ _ _ _ _ Hrun). split; reflexivity.
  - simpl. lia.
  - simpl. lia.
Qed.

Lemma reads_vector_list n body items :
  body <> [] -> list_lines n body items -> reads_list n body items ->
  reads_vector n [] body (VArr items).
Proof.
  intros Hne Hb IH data fuel s T Hr Ht Hf.
  destruct fuel as [|fuel]; [lia|].
  destruct (@list_lines_head n body items T Hb Hne) as (r & E).
  simpl in Hr.
  assert (Hr' : rest data s = LF :: spaces n ++ DASH :: r) by (now rewrite Hr, E).
  destruct (@vector_block data n s DASH r _ Hr' eq_refl E)
    as (Hsk & Hd & Hlf & Hcl & Hty & Hi & Hat).
  assert (Hpos : pos s + 1 <= pos (mkCursor (pos s + 1 + n) (line s + 1))
                 <= pos s + 1 + lead (unlines body ++ T)).
  { rewrite E, (lead_content n DASH r eq_refl). simpl. lia. }
  pose proof (IH data fuel [] _ (pos s + 1) T Hat Ht Hpos ltac:(lia)) as Hrun.
  eexists. split; [|split].
  - apply wp_returns. cbn [parseVector]. wp_get. wp_step Hsk. wp_get.
    rewrite Hd, Hlf. cbn [orb].
    wp_step (@set_pos_same s s eq_refl). wp_step Hcl. wp_step Hty. wp_get.
    cbv zeta. rewrite Hi. change (10 =? 10)%N with true. cbv iota.
    apply (@wp_ok _ _ _ _ _ Hrun). split; reflexivity.
  - simpl. lia.
  - simpl. lia.
Qed.

(** *** Blocks *)

Lemma lead_key n k more : lead (spaces n ++ quoteKey k ++ more) = n.
Proof.
  destruct (key_content k) as (c & r & -> & Hc & _).
  apply (lead_content n c (r ++ more) Hc).
Qed.

Lemma reads_dict_scalar n k t v ls es :
  scalar_text t v -> reads_dict n ls es ->
  reads_dict n ((spaces n ++ quoteKey k ++ u ": " ++ t) :: ls) ((k, v) :: es).
Proof.
  intros Ht IH data fuel out st lsn post Hat Htail Hpos Hfuel Hproto Hkeys Hown.
  destruct fuel as [|fuel]; [simpl in Hfuel; lia|].
  change (u ": ") with [COLON; SP] in *.
  set (L := spaces n ++ quoteKey k ++ [COLON; SP] ++ t) in *.
  assert (E1 : unlines (L :: ls) ++ post = L ++ LF :: unlines ls ++ post)
    by (rewrite unlines_cons, <- app_assoc; reflexivity).
  assert (E2 : L ++ LF :: unlines ls ++ post
               = spaces n ++ quoteKey k ++ COLON :: SP :: t ++ LF :: unlines ls ++ post)
    by (unfold L; rewrite <- !app_assoc; reflexivity).
  rewrite E1 in Hat, Hpos.
  pose proof (@at_line_next data lsn L _ Hat) as Hnext.
  rewrite E2 in Hat, Hpos. rewrite lead_key in Hpos.
  destruct (@fresh_step k v (map fst es) out Hproto Hkeys Hown) as (Hjs & Hset & Hk' & Hown').
  apply wp_returns.
  apply (@dict_scalar_entry data fuel n out st lsn k t v _ _ _ Ht Hat Hpos Hjs).
  assert (HL : length L = n + length (quoteKey k) + 2 + length t) by (unfold L; lens).
  assert (Hrun := IH data fuel (obj_set k v out)
                    (mkCursor (lsn + n + length (quoteKey k) + 2 + length t + 1) (line st + 1))
                    (lsn + length L + 1) post Hnext Htail
                    ltac:(simpl; lia) ltac:(simpl in Hfuel; lia)
                    ltac:(now rewrite Hset) Hk' Hown').
  apply (@wp_ok _ _ _ _ _ Hrun). split; [reflexivity|].
  f_equal; rewrite ?unlines_cons, ?length_app; simpl; lia.
Qed.

Lemma reads_dict_vector n k suffix body val ls es :
  reads_vector (n + 2) suffix body val ->
  dict_lines n ls es -> reads_dict n ls es ->
  reads_dict n ((spaces n ++ quoteKey k ++ u "::" ++ suffix) :: body ++ ls) ((k, val) :: es).
Proof.
  intros Hvec Hls IH data fuel out st lsn post Hat Htail Hpos Hfuel Hproto Hkeys Hown.
  destruct fuel as [|fuel]; [simpl in Hfuel; lia|].
  change (u "::") with [COLON; COLON] in *.
  set (L := spaces n ++ quoteKey k ++ [COLON; COLON] ++ suffix) in *.
  assert (E1 : unlines (L :: body ++ ls) ++ post
               = L ++ LF :: unlines body ++ unlines ls ++ post)
    by (rewrite unlines_cons, unlines_app, <- !app_assoc; simpl;
        rewrite <- ?app_assoc; reflexivity).
  assert (E2 : L ++ LF :: unlines body ++ unlines ls ++ post
               = spaces n ++ quoteKey k ++ COLON :: COLON
                   :: suffix ++ LF :: unlines body ++ unlines ls ++ post)
    by (unfold L; rewrite <- !app_assoc; reflexivity).
  rewrite E1 in Hat, Hpos.
  pose proof (@at_line_block data lsn body L _ Hat) as Hnext.
  rewrite E2 in Hat, Hpos. rewrite lead_key in Hpos.
  destruct (@fresh_step k val (map fst es) out Hproto Hkeys Hown)
    as (Hjs & Hset & Hk' & Hown').
  apply wp_returns.
  apply (@dict_vector_entry data fuel n out st lsn k _ _ _ Hat Hpos Hjs).
  set (s := mkCursor (lsn + n + length (quoteKey k) + 2) (line st)).
  assert (Hr : rest data s = suffix ++ LF :: unlines body ++ unlines ls ++ post).
  { unfold s. replace (lsn + n + length (quoteKey k) + 2)
      with (lsn + (n + length (quoteKey k) + 2)) by lia.
    rewrite (@at_line_rest data lsn _ (line st) _ Hat).
    replace (n + length (quoteKey k) + 2)
      with (length (spaces n ++ quoteKey k ++ [COLON; COLON])) by lens.
    transitivity (skipn (length (spaces n ++ quoteKey k ++ [COLON; COLON]))
                    ((spaces n ++ quoteKey k ++ [COLON; COLON])
                       ++ suffix ++ LF :: unlines body ++ unlines ls ++ post));
      [|apply skipn_app_length].
    f_equal. rewrite <- !app_assoc. reflexivity. }
  assert (HL : length L = n + length (quoteKey k) + 2 + length suffix) by (unfold L; lens).
  cbn [length] in Hfuel. rewrite length_app in Hfuel.
  destruct (Hvec data fuel s (unlines ls ++ post) Hr
              (@tail_ok_dict n ls es post Hls Htail) ltac:(simpl in Hfuel; lia))
    as (st' & Hrun & Hline & Hp).
  apply (@wp_ok _ _ _ _ _ Hrun).
  assert (Hrun' := IH data fuel (obj_set k val out) st'
                     (lsn + length L + 1 + length (unlines body)) post Hnext Htail
                     ltac:(unfold s in Hp; simpl in Hp; lia) ltac:(simpl in Hfuel; lia)
                     ltac:(now rewrite Hset) Hk' Hown').
  apply (@wp_ok _ _ _ _ _ Hrun'). split; [reflexivity|].
  f_equal; rewrite ?unlines_cons, ?unlines_app, ?length_app; simpl;
    rewrite ?length_app; unfold s in *; simpl in *; lia.
Qed.

Lemma reads_list_scalar n t v ls items :
  scalar_text t v -> reads_list n ls items ->
  reads_list n ((spaces n ++ u "- " ++ t) :: ls) (v :: items).
Proof.
  intros Ht IH data fuel out st lsn post Hat Htail Hpos Hfuel.
  destruct fuel as [|fuel]; [simpl in Hfuel; lia|].
  change (u "- ") with [DASH; SP] in *.
  set (L := spaces n ++ [DASH; SP] ++ t) in *.
  assert (E1 : unlines (L :: ls) ++ post = L ++ LF :: unlines ls ++ post)
    by (rewrite unlines_cons, <- app_assoc; reflexivity).
  assert (E2 : L ++ LF :: unlines ls ++ post
               = spaces n ++ DASH :: SP :: t ++ LF :: unlines ls ++ post)
    by (unfold L; rewrite <- !app_assoc; reflexivity).
  rewrite E1 in Hat, Hpos.
  pose proof (@at_line_next data lsn L _ Hat) as Hnext.
  rewrite E2 in Hat, Hpos. rewrite (lead_content n DASH _ eq_refl) in Hpos.
  apply wp_returns.
  apply (@list_scalar_item data fuel n out st lsn t v _ _ _ Ht Hat Hpos).
  assert (HL : length L = n + 2 + length t) by (unfold L; lens).
  assert (Hrun := IH data fuel (out ++ [v])
                    (mkCursor (lsn + n + 2 + length t + 1) (line st + 1))
                    (lsn + length L + 1) post Hnext Htail
                    ltac:(simpl; lia) ltac:(simpl in Hfuel; lia)).
  apply (@wp_ok _ _ _ _ _ Hrun). split; [now rewrite <- app_assoc|].
  f_equal; rewrite ?unlines_cons, ?length_app; simpl; lia.
Qed.

Lemma reads_list_vector n body val ls items :
  reads_vector (n + 2) [] body val ->
  list_lines n ls items -> reads_list n ls items ->
  reads_list n ((spaces n ++ u "- ::") :: body ++ ls) (val :: items).
Proof.
  intros Hvec Hls IH data fuel out st lsn post Hat Htail Hpos Hfuel.
  destruct fuel as [|fuel]; [simpl in Hfuel; lia|].
  change (u "- ::") with [DASH; SP; COLON; COLON] in *.
  set (L := spaces n ++ [DASH; SP; COLON; COLON]) in *.
  assert (E1 : unlines (L :: body ++ ls) ++ post
               = L ++ LF :: unlines body ++ unlines ls ++ post)
    by (rewrite unlines_cons, unlines_app, <- !app_assoc; simpl;
        rewrite <- ?app_assoc; reflexivity).
  assert (E2 : L ++ LF :: unlines body ++ unlines ls ++ post
               = spaces n ++ DASH :: SP :: COLON :: COLON
                   :: LF :: unlines body ++ unlines ls ++ post)
    by (unfold L; rewrite <- !app_assoc; reflexivity).
  rewrite E1 in Hat, Hpos.
  pose proof (@at_line_block data lsn body L _ Hat) as Hnext.
  rewrite E2 in Hat, Hpos. rewrite (lead_content n DASH _ eq_refl) in Hpos.
  apply wp_returns.
  apply (@list_vector_item data fuel n out st lsn _ _ _ Hat Hpos).
  set (s := mkCursor (lsn + n + 4) (line st)).
  assert (Hr : rest data s = [] ++ LF :: unlines body ++ unlines ls ++ post).
  { unfold s. replace (lsn + n + 4) with (lsn + (n + 4)) by lia.
    rewrite (@at_line_rest data lsn _ (line st) _ Hat).
    replace (n + 4) with (length (spaces n ++ [DASH; SP; COLON; COLON])) by lens.
    transitivity (skipn (length (spaces n ++ [DASH; SP; COLON; COLON]))
                    ((spaces n ++ [DASH; SP; COLON; COLON])
                       ++ LF :: unlines body ++ unlines ls ++ post));
      [|apply skipn_app_length].
    f_equal. rewrite <- !app_assoc. reflexivity. }
  assert (HL : length L = n + 4) by (unfold L; lens).
  cbn [length] in Hfuel. rewrite length_app in Hfuel.
  destruct (Hvec data fuel s (unlines ls ++ post) Hr
              (@tail_ok_list n ls items post Hls Htail) ltac:(simpl in Hfuel; lia))
    as (st' & Hrun & Hline & Hp).
  apply (@wp_ok _ _ _ _ _ Hrun).
  assert (Hrun' := IH data fuel (out ++ [val]) st'
                     (lsn + length L + 1 + length (unlines body)) post Hnext Htail
                     ltac:(unfold s in Hp; simpl in Hp; lia) ltac:(simpl in Hfuel; lia)).
  apply (@wp_ok _ _ _ _ _ Hrun'). split; [now rewrite <- app_assoc|].
  f_equal; rewrite ?unlines_cons, ?unlines_app, ?length_app; simpl;
    rewrite ?length_app; unfold s in *; simpl in *; lia.
Qed.

(** The decoder reads every block of lines of the grammar as the entries
    or items it denotes. *)
Lemma reads_lines :
  (forall n ls es, dict_lines n ls es -> reads_dict n ls es)
  /\ (forall n ls items, list_lines n ls items -> reads_list n ls items).
Proof.
  apply lines_mutind.
  - apply reads_dict_nil.
  - intros n k t v ls es Ht _ IH. now apply reads_dict_scalar.
  - intros n k ls es Hls IH.
    apply (@reads_dict_vector n k (u " []") [] (VArr []) ls es); auto.
    apply reads_vector_empty_list.
  - intros n k ls es Hls IH.
    apply (@reads_dict_vector n k (u " {}") [] EMPTY_OBJECT ls es); auto.
    apply reads_vector_empty_dict.
  - intros n k body items ls es Hne Hb IHb Hls IH.
    apply (@reads_dict_vector n k [] body (VArr items) ls es); auto.
    now apply reads_vector_list.
  - intros n k body entries ls es Hne Hb IHb Hk Hls IH.
    apply (@reads_dict_vector n k [] body _ ls es); auto.
    now apply reads_vector_dict.
  - apply reads_list_nil.
  - intros n t v ls items Ht _ IH. now apply reads_list_scalar.
  - intros n body inner ls items Hne Hb IHb Hls IH.
    apply (@reads_list_vector n body (VArr inner) ls items); auto.
    now apply reads_vector_list.
  - intros n body entries ls items Hne Hb IHb Hk Hls IH.
    apply (@reads_list_vector n body _ ls items); auto.
    now apply reads_vector_dict.
Qed.

(** ** What the encoder writes *)

Lemma Value_nested_ind (P : Value -> Prop) :
  P VNull -> (forall b, P (VBool b)) -> (forall x, P (VNum x)) -> (forall s, P (VStr s)) ->
  (forall items, Forall P items -> P (VArr items)) ->
  (forall proto props, Forall (fun kv => P (snd kv)) props -> P (VObj proto props)) ->
  forall v, P v.
Proof.
  intros H1 H2 H3 H4 H5 H6. fix IH 1. intros [|b|x|s|items|proto props].
  - exact H1.
  - apply H2.
  - apply H3.
  - apply H4.
  - apply H5. induction items as [|i items IHi]; constructor; [apply IH|exact IHi].
  - apply H6. induction props as [|[k x] props IHp]; constructor; [apply IH|exact IHp].
Qed.

Lemma encodable_arr items :
  encodable (VArr items)
  = forallb (fun i => encodable i && negb (isEmptyVector i)) items.
Proof.
  cbn [encodable]. induction items as [|i items IH]; [reflexivity|].
  cbn [forallb]. now rewrite <- IH.
Qed.

Lemma encodable_obj proto props :
  encodable (VObj proto props)
  = proto && keys_ok (map fst props) && forallb (fun kv => encodable (snd kv)) props.
Proof.
  cbn [encodable]. f_equal. induction props as [|[k x] props IH]; [reflexivity|].
  cbn [forallb snd]. now rewrite <- IH.
Qed.


Lemma canonical_obj cmp proto props :
  canonical cmp (VObj proto props)
  = VObj (fst (build_object (sort_entries cmp (canonical_entries cmp props))))
         (snd (build_object (sort_entries cmp (canonical_entries cmp props)))).
Proof.
  cbn [canonical]. unfold canonical_entries.
  replace ((fix entries (l : list (jsstring * Value)) : list (jsstring * Value) :=
              match l with
              | [] => []
              | (k, x) :: l' => (k, canonical cmp x) :: entries l'
              end) props)
    with (map (fun e : jsstring * Value => (fst e, canonical cmp (snd e))) props);
    [reflexivity|].
  induction props as [|[k x] props IH]; [reflexivity|]. simpl. now rewrite IH.
Qed.

Lemma toValue_array cmp arr indent lines isRootLevel :
  toValue cmp (VArr arr) indent lines isRootLevel
  = toArray (map (fun v => (v, (fun i ls => toValue cmp v i ls false) : writer)) arr)
      indent lines isRootLevel.
Proof.
  cbn [toValue]. f_equal.
  all: induction arr as [|v arr IH]; [reflexivity|]; simpl; now rewrite IH.
Qed.

Lemma append_last_snoc lines l s : append_last (lines ++ [l]) s = lines ++ [l ++ s].
Proof.
  induction lines as [|a lines IH]; [reflexivity|].
  simpl. rewrite IH. destruct (lines ++ [l]) eqn:E; [|reflexivity].
  destruct lines; discriminate.
Qed.

Lemma scalar_canonical cmp v : is_scalar v = true -> canonical cmp v = v.
Proof. destruct v; try discriminate; reflexivity. Qed.

Lemma encodes_scalar cmp v :
  is_scalar v = true -> encodable v = true -> encodes cmp v.
Proof.
  destruct v as [|b|x|s|items|proto props]; try discriminate; intros _ He; cbn [encodes].
  - exists (u "null"). split; [constructor|]. intros. cbn [toValue].
    now rewrite append_last_snoc.
  - exists (if b then u "true" else u "false"). split; [destruct b; constructor|].
    intros. cbn [toValue]. now rewrite append_last_snoc.
  - exists (formatNumber x). split.
    + destruct x as [|[|]|neg m e]; try constructor. exact He.
    + intros. cbn [toValue]. now rewrite append_last_snoc.
  - exists (JSON_stringify s). split; [constructor|].
    intros. cbn [toValue encodable] in *. unfold toString.
    apply negb_true_iff in He. rewrite He. now rewrite append_last_snoc.
Qed.

Lemma NoDup_keys_distinct keys : NoDup keys -> keys_distinct keys = true.
Proof.
  induction 1 as [|k ks Hin _ IH]; [reflexivity|].
  cbn [keys_distinct]. rewrite IH, andb_true_r. apply negb_true_iff.
  destruct (existsb (string_eqb k) ks) eqn:E; [|reflexivity].
  apply existsb_exists in E as (k' & Hk' & E). apply string_eqb_eq in E. now subst.
Qed.

Lemma keys_ok_perm a b : Permutation a b -> keys_ok a = true -> keys_ok b = true.
Proof.
  unfold keys_ok. intros Hp H. apply andb_true_iff in H as [Hd Hf].
  apply andb_true_iff. split.
  - apply NoDup_keys_distinct. apply (Permutation_NoDup Hp).
    now apply keys_distinct_NoDup.
  - rewrite forallb_forall in *. intros k Hk. apply Hf.
    now apply (Permutation_in _ (Permutation_sym Hp)).
Qed.

Lemma map_fst_canonical cmp props :
  map fst (canonical_entries cmp props) = map fst props.
Proof. unfold canonical_entries. rewrite map_map. reflexivity. Qed.

Lemma keys_ok_sorted cmp props :
  keys_ok (map fst props) = true ->
  keys_ok (map fst (sort_entries cmp (canonical_entries cmp props))) = true.
Proof.
  apply keys_ok_perm. rewrite <- (map_fst_canonical cmp props).
  apply Permutation_map, Permutation_sym, sort_entries_perm.
Qed.

Lemma keys_ok_not_proto k ks :
  keys_ok ks = true -> In k ks -> existsb (string_eqb k) OBJECT_PROTOTYPE = false.
Proof.
  unfold keys_ok. intros H Hin. apply andb_true_iff in H as [_ H].
  rewrite forallb_forall in H. apply negb_true_iff. now apply H.
Qed.

Lemma fst_put_entries es out :
  keys_ok (map fst es) = true -> fst (put_entries es out) = fst out.
Proof.
  revert out. induction es as [|[k v] es IH]; intros out Hk; [reflexivity|].
  cbn [put_entries fold_left fst snd]. fold (put_entries es (obj_set k v out)).
  assert (Hp : string_eqb k (u "__proto__") = false).
  { destruct (string_eqb k (u "__proto__")) eqn:E; [|reflexivity].
    apply string_eqb_eq in E. subst k.
    pose proof (@keys_ok_not_proto (u "__proto__") _ Hk (or_introl eq_refl)) as F.
    discriminate. }
  rewrite IH.
  - destruct out as [proto props]. simpl. rewrite Hp, andb_false_r. reflexivity.
  - unfold keys_ok in *. cbn [map fst keys_distinct forallb] in Hk.
    apply andb_true_iff in Hk as [Hd Hf]. apply andb_true_iff in Hd as [_ Hd].
    apply andb_true_iff in Hf as [_ Hf]. now rewrite Hd, Hf.
Qed.

Lemma isVector_encodable proto props :
  encodable (VObj proto props) = true -> isVector (VObj proto props) = true /\ proto = true
  /\ keys_ok (map fst props) = true.
Proof.
  rewrite encodable_obj. intros H. apply andb_true_iff in H as [H _].
  apply andb_true_iff in H as [-> Hk]. repeat split; auto.
  cbn [isVector andb]. apply negb_true_iff. unfold has_own.
  destruct (existsb _ props) eqn:E; [|reflexivity].
  apply existsb_exists in E as ([k x] & Hin & E). apply string_eqb_eq in E. simpl in E.
  subst k.
  pose proof (@keys_ok_not_proto (u "constructor") _ Hk
                (in_map fst _ _ Hin)) as F. discriminate.
Qed.

Lemma canonical_dict cmp proto props :
  encodable (VObj proto props) = true ->
  canonical cmp (VObj proto props)
  = VObj true (snd (build_object (sort_entries cmp (canonical_entries cmp props)))).
Proof.
  intros H. destruct (isVector_encodable _ _ H) as (_ & _ & Hk).
  rewrite canonical_obj. f_equal.
  apply (@fst_put_entries _ (true, [])). now apply keys_ok_sorted.
Qed.

Lemma list_lines_nonempty n ls items : list_lines n ls items -> items <> [] -> ls <> [].
Proof. intros H. destruct H; congruence. Qed.

Lemma dict_lines_nonempty n ls es : dict_lines n ls es -> es <> [] -> ls <> [].
Proof. intros H. destruct H; congruence. Qed.

Lemma sort_entries_nonempty cmp A (l : list (jsstring * A)) :
  l <> [] -> sort_entries cmp l <> [].
Proof.
  intros Hne E. pose proof (sort_entries_perm cmp l) as Hp. rewrite E in Hp.
  apply Permutation_nil in Hp. contradiction.
Qed.

(** The lines of a non-empty list or dict written after a [::]. *)
Lemma encodes_block cmp v n :
  encodable v = true -> encodes cmp v -> isEmptyVector v = false -> is_scalar v = false ->
  isVector v = true
  /\ exists body val,
       body <> []
       /\ canonical cmp v = val
       /\ (forall lines, toValue cmp v n lines false = Done (lines ++ body))
       /\ ((exists items, val = VArr items /\ list_lines n body items)
           \/ (exists entries, val = VObj true (snd (build_object entries))
                               /\ dict_lines n body entries
                               /\ keys_ok (map fst entries) = true)).
Proof.
  intros He Hv Hne Hs.
  destruct v as [|b|x|s|[|i items]|proto [|e props]]; try discriminate.
  - split; [reflexivity|]. destruct (Hv n) as (ls & Hl & Hw).
    exists ls, (VArr (map (canonical cmp) (i :: items))).
    split; [apply (list_lines_nonempty Hl); discriminate|].
    split; [reflexivity|]. split; [exact Hw|]. left. eauto.
  - destruct (isVector_encodable _ _ He) as (Hvec & -> & Hk).
    split; [exact Hvec|]. destruct (Hv n) as (ls & Hl & Hw).
    exists ls, (canonical cmp (VObj true (e :: props))).
    split.
    { apply (dict_lines_nonempty Hl). apply sort_entries_nonempty. discriminate. }
    split; [reflexivity|]. split; [exact Hw|]. right.
    eexists. split; [now apply canonical_dict|]. split; [exact Hl|].
    now apply keys_ok_sorted.
Qed.

Lemma and_then_done A B (a : A) (k : A -> encoded B) : and_then (Done a) k = k a.
Proof. reflexivity. Qed.

Lemma fold_raise A B (f : encoded A -> B -> encoded A) (l : list B) e :
  (forall b, f (Raise e) b = Raise e) -> fold_left f l (Raise e) = Raise e.
Proof. intros H. induction l as [|b l IH]; [reflexivity|]. simpl. now rewrite H. Qed.

Lemma list_fold cmp n items :
  Forall (encodes cmp) items ->
  forallb (fun i => encodable i && negb (isEmptyVector i)) items = true ->
  exists ls,
    list_lines n ls (map (canonical cmp) items)
    /\ forall lines,
         fold_left (fun acc (item : Value * writer) =>
                      and_then acc (fun lines =>
                        let lines1 := push lines (spaces n ++ u "- ") in
                        if isVector (fst item)
                        then snd item (n + 2) (append_last lines1 (u "::"))
                        else snd item n lines1))
           (map (fun v => (v, (fun i ls => toValue cmp v i ls false) : writer)) items)
           (Done lines)
         = Done (lines ++ ls).
Proof.
  induction items as [|i items IH]; intros Hf He.
  - exists []. split; [constructor|]. intros. simpl. now rewrite app_nil_r.
  - inversion Hf as [|? ? Hi Hf']; subst. cbn [forallb] in He.
    apply andb_true_iff in He as [Hei He]. apply andb_true_iff in Hei as [Hei Hne].
    apply negb_true_iff in Hne.
    destruct (IH Hf' He) as (ls & Hl & Hw). clear IH.
    destruct (is_scalar i) eqn:Es.
    + assert (Hv : isVector i = false) by (destruct i; try discriminate; reflexivity).
      assert (Hi' := Hi).
      assert (Hsc : exists t, scalar_text t i /\ forall indent lines l,
                 toValue cmp i indent (lines ++ [l]) false = Done (lines ++ [l ++ t]))
        by (destruct i; try discriminate; exact Hi).
      destruct Hsc as (t & Ht & Hwt).
      exists ((spaces n ++ u "- " ++ t) :: ls). split.
      * cbn [map]. rewrite (scalar_canonical cmp _ Es). now constructor.
      * intros lines. cbn [map fold_left fst snd]. rewrite and_then_done.
        cbv zeta. rewrite Hv. unfold push. rewrite Hwt, Hw.
        rewrite <- !app_assoc. reflexivity.
    + destruct (@encodes_block cmp i (n + 2) Hei Hi Hne Es)
        as (Hv & body & val & Hb & Hc & Hwb & Hkind).
      exists ((spaces n ++ u "- ::") :: body ++ ls). split.
      * cbn [map]. rewrite Hc.
        destruct Hkind as [(inner & -> & Hin)|(entries & -> & Hin & Hk)].
        -- now apply ll_list.
        -- now apply ll_dict.
      * intros lines. cbn [map fold_left fst snd]. rewrite and_then_done.
        cbv zeta. rewrite Hv. unfold push. rewrite append_last_snoc, Hwb, Hw.
        rewrite <- !app_assoc. reflexivity.
Qed.

Lemma dict_fold cmp n s :
  Forall (fun kv => encodes cmp (snd kv)) s ->
  forallb (fun kv => encodable (snd kv)) s = true ->
  exists ls,
    dict_lines n ls (canonical_entries cmp s)
    /\ forall lines, write_entries cmp s n lines = Done (lines ++ ls).
Proof.
  unfold write_entries.
  induction s as [|[k x] s IH]; intros Hf He.
  - exists []. split; [constructor|]. intros. simpl. now rewrite app_nil_r.
  - inversion Hf as [|? ? Hi Hf']; subst. cbn [forallb snd] in He, Hi.
    apply andb_true_iff in He as [Hei He].
    destruct (IH Hf' He) as (ls & Hl & Hw). clear IH.
    unfold canonical_entries in *. cbn [map fst snd].
    destruct (is_scalar x) eqn:Es; [|destruct (isEmptyVector x) eqn:Em].
    + assert (Hv : isVector x = false) by (destruct x; try discriminate; reflexivity).
      assert (Hsc : exists t, scalar_text t x /\ forall indent lines l,
                 toValue cmp x indent (lines ++ [l]) false = Done (lines ++ [l ++ t]))
        by (destruct x; try discriminate; exact Hi).
      destruct Hsc as (t & Ht & Hwt).
      exists ((spaces n ++ quoteKey k ++ u ": " ++ t) :: ls). split.
      * rewrite (scalar_canonical cmp _ Es). now constructor.
      * intros lines. cbn [fold_left fst snd]. rewrite and_then_done.
        unfold writeKeyValuePair. cbv zeta. rewrite Hv. unfold push.
        rewrite append_last_snoc, Hwt, Hw. rewrite <- !app_assoc. reflexivity.
    + destruct x as [|b|y|t|[|i items]|proto [|e props]]; try discriminate.
      * exists ((spaces n ++ quoteKey k ++ u ":: []") :: ls). split.
        -- now constructor.
        -- intros lines. cbn [fold_left fst snd]. rewrite and_then_done.
           unfold writeKeyValuePair. cbv zeta. cbn [isVector isEmptyVector]. unfold push.
           rewrite append_last_snoc. cbn [toValue toArray]. rewrite append_last_snoc, Hw.
           rewrite <- !app_assoc. reflexivity.
      * destruct (isVector_encodable _ _ Hei) as (Hvec & -> & _).
        exists ((spaces n ++ quoteKey k ++ u ":: {}") :: ls). split.
        -- now constructor.
        -- intros lines. cbn [fold_left fst snd]. rewrite and_then_done.
           unfold writeKeyValuePair. cbv zeta. rewrite Hvec. cbn [isEmptyVector]. unfold push.
           rewrite append_last_snoc. cbn [toValue toObject]. rewrite append_last_snoc, Hw.
           rewrite <- !app_assoc. reflexivity.
    + destruct (@encodes_block cmp x (n + 2) Hei Hi Em Es)
        as (Hv & body & val & Hb & Hc & Hwb & Hkind).
      exists ((spaces n ++ quoteKey k ++ u "::") :: body ++ ls). split.
      * rewrite Hc.
        destruct Hkind as [(inner & -> & Hin)|(entries & -> & Hin & Hk)].
        -- now apply dl_list.
        -- now apply dl_dict.
      * intros lines. cbn [fold_left fst snd]. rewrite and_then_done.
        unfold writeKeyValuePair. cbv zeta. rewrite Hv, Em. unfold push.
        rewrite append_last_snoc, Hwb, Hw. rewrite <- !app_assoc. reflexivity.
Qed.

(** Every value that [encodable] accepts is written in the grammar. *)
Lemma encodable_encodes cmp v : encodable v = true -> encodes cmp v.
Proof.
  induction v as [| | | |items IH|proto props IH] using Value_nested_ind; intros He;
    try (now apply encodes_scalar).
  - destruct items as [|i items]; [exact I|].
    rewrite encodable_arr in He.
    assert (Hf : Forall (encodes cmp) (i :: items)).
    { rewrite Forall_forall in *. intros x Hx. apply IH; [exact Hx|].
      rewrite forallb_forall in He. specialize (He x Hx).
      now apply andb_true_iff in He as [He _]. }
    intros n. destruct (@list_fold cmp n (i :: items) Hf He) as (ls & Hl & Hw).
    exists ls. split; [exact Hl|]. intros lines.
    rewrite toValue_array. exact (Hw lines).
  - destruct props as [|e props]; [exact I|].
    pose proof He as He'. rewrite encodable_obj in He.
    apply andb_true_iff in He as [_ He].
    assert (Hp : Permutation (sort_entries cmp (e :: props)) (e :: props))
      by apply sort_entries_perm.
    assert (Hf : Forall (fun kv => encodes cmp (snd kv)) (sort_entries cmp (e :: props))).
    { rewrite Forall_forall in *. intros x Hx. rewrite forallb_forall in He.
      apply (Permutation_in _ Hp) in Hx. apply IH; auto. }
    assert (He2 : forallb (fun kv => encodable (snd kv)) (sort_entries cmp (e :: props)) = true).
    { rewrite forallb_forall in *. intros x Hx. apply He. now apply (Permutation_in _ Hp). }
    intros n. destruct (@dict_fold cmp n _ Hf He2) as (ls & Hl & Hw).
    exists ls. split.
    + unfold canonical_entries in *. now rewrite sort_entries_map.
    + intros lines. rewrite toValue_object by discriminate. exact (Hw lines).
Qed.

(** ** The first line of a document written by the encoder *)

Lemma mem_false_iff c (l : list N) : mem c l = false <-> ~ In c l.
Proof.
  unfold mem. split.
  - intros H Hin. assert (E : existsb (N.eqb c) l = true).
    { apply existsb_exists. exists c. split; [exact Hin|apply N.eqb_refl]. }
    congruence.
  - intros H. destruct (existsb (N.eqb c) l) eqn:E; [|reflexivity].
    apply existsb_exists in E as (d & Hd & E). apply N.eqb_eq in E. now subst.
Qed.

(** The characters of [JSON.stringify(s)] between the quotes: those of
    [s] from the space on, and the characters of the escapes. *)
Lemma hex_digit_range d :
  (d < 16 -> 48 <= hex_digit d <= 57 \/ 97 <= hex_digit d <= 102)%N.
Proof. unfold hex_digit. intros H. destruct (N.ltb_spec d 10); lia. Qed.

Lemma unicode_escape_chars c0 c :
  In c (unicode_escape c0) -> (c = 92 \/ c = 34 \/ 48 <= c <= 57 \/ 97 <= c <= 117)%N.
Proof.
  unfold unicode_escape. intros Hin.
  assert (H16 : (16 <> 0)%N) by discriminate.
  pose proof (hex_digit_range (N.mod_lt (c0 / 4096) 16 H16)).
  pose proof (hex_digit_range (N.mod_lt (c0 / 256) 16 H16)).
  pose proof (hex_digit_range (N.mod_lt (c0 / 16) 16 H16)).
  pose proof (hex_digit_range (N.mod_lt c0 16 H16)).
  repeat (destruct Hin as [<-|Hin]; [lia|]). contradiction.
Qed.

Lemma json_unit_chars c0 c :
  In c (json_escape_unit c0) ->
  (32 <= c /\ c = c0 \/ c = 92 \/ c = 34 \/ 48 <= c <= 57 \/ 97 <= c <= 117)%N.
Proof.
  unfold json_escape_unit.
  repeat match goal with
         | |- context [if (c0 =? ?k)%N then _ else _] =>
             destruct (N.eqb_spec c0 k) as [->|?];
             [simpl; intros [<-|[<-|[]]]; lia|]
         end.
  destruct (c0 <? 32)%N eqn:E; cbn [orb].
  - intros Hin. right. now apply unicode_escape_chars with (c0 := c0).
  - apply N.ltb_ge in E.
    destruct (is_high_surrogate c0 || is_low_surrogate c0).
    + intros Hin. right. now apply unicode_escape_chars with (c0 := c0).
    + intros [<-|[]]. left. split; [exact E|reflexivity].
Qed.

Lemma json_body_chars len :
  forall s c, length s <= len -> In c (json_quote_body s) ->
    (32 <= c /\ In c s \/ c = 92 \/ c = 34 \/ 48 <= c <= 57 \/ 97 <= c <= 117)%N.
Proof.
  induction len as [|len IH]; intros s c Hlen Hin.
  - destruct s; [contradiction|simpl in Hlen; lia].
  - destruct s as [|a [|b s]]; [contradiction| |].
    + cbn [json_quote_body] in Hin. apply json_unit_chars in Hin.
      destruct Hin as [[H1 ->]|H]; [left; split; [exact H1|now left]|now right].
    + rewrite json_quote_body_cons in Hin.
      destruct (is_high_surrogate a && is_low_surrogate b) eqn:E.
      * apply andb_true_iff in E as [Ea Eb].
        unfold is_high_surrogate, is_low_surrogate in *.
        apply andb_true_iff in Ea as [Ea _]. apply andb_true_iff in Eb as [Eb _].
        apply N.leb_le in Ea, Eb.
        destruct Hin as [<-|[<-|Hin]].
        -- left. split; [lia|now left].
        -- left. split; [lia|right; now left].
        -- apply IH in Hin; [|simpl in Hlen; lia].
           destruct Hin as [[H1 H2]|H]; [left; split; [exact H1|right; right; exact H2]|now right].
      * apply in_app_iff in Hin as [Hin|Hin].
        -- apply json_unit_chars in Hin.
           destruct Hin as [[H1 ->]|H]; [left; split; [exact H1|now left]|now right].
        -- apply IH in Hin; [|simpl in Hlen |- *; lia].
           destruct Hin as [[H1 H2]|H]; [left; split; [exact H1|right; exact H2]|now right].
Qed.

Lemma json_chars s c :
  In c (JSON_stringify s) ->
  (32 <= c /\ In c s \/ c = 92 \/ c = 34 \/ 48 <= c <= 57 \/ 97 <= c <= 117)%N.
Proof.
  unfold JSON_stringify. intros [<-|Hin]; [auto|].
  apply in_app_iff in Hin as [Hin|[<-|[]]]; [|auto].
  now apply (@json_body_chars (length s) s c (le_n _)).
Qed.

Lemma key_chars k c :
  In c (quoteKey k) ->
  (32 <= c /\ In c k \/ c = 92 \/ c = 34 \/ 48 <= c <= 57 \/ 97 <= c <= 117)%N.
Proof.
  unfold quoteKey. destruct (BARE_KEY_REGEX k) eqn:E.
  - intros Hin. left. split; [|exact Hin].
    destruct k as [|a k]; [contradiction|]. simpl in E.
    apply andb_true_iff in E as [Ea Ek].
    assert (Hc : is_key_char c = true).
    { destruct Hin as [<-|Hin]; [now apply isAlpha_key_char|].
      rewrite forallb_forall in Ek. now apply Ek. }
    unfold is_key_char, isAlphaNum, isAlpha, isDigit in Hc.
    repeat (apply orb_true_iff in Hc; destruct Hc as [Hc|Hc]);
      try (apply andb_true_iff in Hc as [H1 H2]; apply N.leb_le in H1, H2; lia);
      apply N.eqb_eq in Hc; lia.
  - apply json_chars.
Qed.

Lemma parseNumber_loop_chars len :
  forall t n f g, length t <= len ->
    parseNumber_loop t n f = (n + length t, g) -> ~ In LF t.
Proof.
  induction len as [|len IH]; intros t n f g Hlen H.
  - destruct t; [auto|simpl in Hlen; lia].
  - destruct t as [|c t]; [auto|].
    simpl in H. intros [Hc|Hin].
    + subst c. simpl in H. injection H as H _. lia.
    + destruct (isDigit c || (c =? UNDERSCORE)%N).
      { replace (n + S (length t)) with (S n + length t) in H by lia.
        apply (IH t (S n) f g) in H; [contradiction|simpl in Hlen; lia]. }
      destruct (c =? DOT)%N.
      { replace (n + S (length t)) with (S n + length t) in H by lia.
        apply (IH t (S n) true g) in H; [contradiction|simpl in Hlen; lia]. }
      destruct ((c =? 101) || (c =? 69))%N.
      * destruct t as [|s t]; [contradiction|].
        destruct ((s =? PLUS) || (s =? DASH))%N eqn:Es.
        -- replace (n + S (length (s :: t))) with (n + 2 + length t) in H by (simpl; lia).
           apply (IH t (n + 2) true g) in H; [|simpl in Hlen; lia].
           destruct Hin as [->|Hin]; [simpl in Es; discriminate|contradiction].
        -- replace (n + S (length (s :: t))) with (S n + length (s :: t)) in H by lia.
           apply (IH (s :: t) (S n) true g) in H; [contradiction|simpl in Hlen |- *; lia].
      * injection H as H _. lia.
Qed.

Lemma scalar_text_no_lf t v : scalar_text t v -> ~ In LF t.
Proof.
  intros H. destruct H.
  1-6: intros Hin; simpl in Hin; repeat (destruct Hin as [Hin|Hin]; [discriminate|]);
       contradiction.
  - destruct (number_text_split _ H) as (sign & t' & -> & Hs & _ & _ & _ & Hn).
    destruct (parseNumber_loop t' 0 false) as [n isFloat] eqn:El.
    apply andb_true_iff in Hn as [Hlen _]. apply Nat.eqb_eq in Hlen. subst n.
    pose proof (@parseNumber_loop_chars (length t') t' 0 false isFloat (le_n _) El) as Hno.
    intros Hin. apply in_app_iff in Hin as [Hin|Hin]; [|contradiction].
    destruct Hs as [-> | ->]; [contradiction|].
    destruct Hin as [Hin|[]]. discriminate.
  - intros Hin. apply json_chars in Hin. lia.
Qed.

Lemma key_no_lf k : ~ In LF (quoteKey k).
Proof. intros Hin. apply key_chars in Hin. lia. Qed.

Lemma key_no_hash k : mem HASH k = false -> ~ In HASH (quoteKey k).
Proof.
  intros H Hin. apply key_chars in Hin. apply mem_false_iff in H.
  destruct Hin as [[_ Hin]|Hin]; [contradiction|lia].
Qed.

Lemma index_of_app c (a b : list N) :
  ~ In c a -> index_of c (a ++ c :: b) = Some (length a).
Proof.
  induction a as [|d a IH]; intros Hn; simpl.
  - now rewrite N.eqb_refl.
  - destruct (N.eqb_spec d c) as [->|_]; [exfalso; apply Hn; now left|].
    rewrite IH; [reflexivity|]. intros Hin. apply Hn. now right.
Qed.

Lemma index_of_none c (a : list N) : ~ In c a -> index_of c a = None.
Proof.
  induction a as [|d a IH]; intros Hn; simpl; [reflexivity|].
  destruct (N.eqb_spec d c) as [->|_]; [exfalso; apply Hn; now left|].
  rewrite IH; [reflexivity|]. intros Hin. apply Hn. now right.
Qed.

Lemma includes_unfold t (s : list N) :
  includes t s
  = prefixb t s || match s with [] => false | _ :: s' => includes t s' end.
Proof. destruct s; reflexivity. Qed.

Lemma includes_app t (a b : list N) : includes t (a ++ t ++ b) = true.
Proof.
  induction a as [|d a IH]; rewrite includes_unfold.
  - simpl app. now rewrite prefixb_app.
  - simpl app. cbv iota. rewrite IH. apply orb_true_r.
Qed.

Lemma split_lines_cons c s :
  c <> LF -> exists l ls, split_lines s = l :: ls /\ split_lines (c :: s) = (c :: l) :: ls.
Proof.
  intros Hc. assert (Hs : exists l ls, split_lines s = l :: ls).
  { destruct s as [|d s]; [simpl; eauto|]. simpl.
    destruct (d =? LF)%N; [eauto|]. destruct (split_lines s); eauto. }
  destruct Hs as (l & ls & E). exists l, ls. split; [exact E|].
  simpl. apply N.eqb_neq in Hc. now rewrite Hc, E.
Qed.

Lemma split_lines_head m c more :
  c <> LF ->
  exists l ls, split_lines (spaces m ++ c :: more) = (spaces m ++ c :: l) :: ls.
Proof.
  intros Hc. induction m as [|m (l & ls & IH)].
  - destruct (@split_lines_cons c more Hc) as (l & ls & _ & E). exists l, ls. exact E.
  - destruct (@split_lines_cons SP (spaces m ++ c :: more)) as (l' & ls' & E1 & E2);
      [discriminate|].
    rewrite IH in E1. injection E1 as <- <-. exists l, ls. exact E2.
Qed.

Lemma trim_start_snoc (y : list N) c :
  is_js_space c = false -> exists z, trim_start (y ++ [c]) = z ++ [c].
Proof.
  intros Hc. unfold trim_start. induction y as [|a y (z & IH)]; simpl.
  - rewrite Hc. now exists [].
  - destruct (is_js_space a); [now exists z|]. now exists (a :: y).
Qed.

Lemma trim_head m c l :
  is_js_space c = false -> exists r, trim (spaces m ++ c :: l) = c :: r.
Proof.
  intros Hc. unfold trim.
  assert (E : trim_start (spaces m ++ c :: l) = c :: l).
  { unfold trim_start. rewrite span_len_spaces by auto. apply skipn_spaces. }
  rewrite E. simpl rev.
  destruct (@trim_start_snoc (rev l) c Hc) as (z & ->).
  rewrite rev_app_distr. simpl. eauto.
Qed.

(** ** The root of a document written by the encoder *)

Lemma lines_length :
  (forall n ls es, dict_lines n ls es -> 2 * length ls <= length (unlines ls))
  /\ (forall n ls items, list_lines n ls items -> 2 * length ls <= length (unlines ls)).
Proof.
  apply lines_mutind; intros;
    repeat match goal with
           | |- context [quoteKey ?k] =>
               let c := fresh "c" in let r := fresh "r" in let E := fresh "E" in
               destruct (quoteKey_head k) as (c & r & E & _); rewrite E in *; clear E
           end;
    rewrite ?unlines_cons, ?unlines_app, ?length_app in *; cbn [length unlines concat map] in *;
    rewrite ?length_app in *; cbn [length] in *; try lia.
  all: change (length (u "- ")) with 2 in *; change (length (u "- ::")) with 4 in *; lia.
Qed.

Lemma root_facts data c r :
  data = c :: r -> content c = true -> c <> COLON -> c <> 37%N ->
  (length data =? 0) = false
  /\ peekString data (u "%HUML") initial = false
  /\ skipBlankLines data initial = Ok tt initial
  /\ done data initial = false
  /\ getCurIndent data initial = 0
  /\ peekString data (u "::") initial = false
  /\ peekString data (u ":") initial = false
  /\ rest data initial = data
  /\ at_line data 0 data.
Proof.
  intros -> Hc N1 N2.
  assert (Hat : at_line (c :: r) 0 (spaces 0 ++ c :: r)) by (split; reflexivity).
  destruct (@line_head (c :: r) 0 0 c r initial Hat Hc ltac:(simpl; lia)) as [Hs Hh].
  destruct (Hh 1) as (Hd & Hi & Hr).
  apply N.eqb_neq in N1, N2.
  repeat split; auto.
  - unfold peekString. change (rest (c :: r) initial) with (c :: r).
    change (u "%HUML") with (37%N :: u "HUML"). cbn [prefixb].
    now rewrite N.eqb_sym, N2.
  - unfold peekString. change (rest (c :: r) initial) with (c :: r).
    change (u "::") with (COLON :: u ":"). cbn [prefixb]. now rewrite N.eqb_sym, N1.
  - unfold peekString. change (rest (c :: r) initial) with (c :: r).
    change (u ":") with [COLON]. cbn [prefixb]. now rewrite N.eqb_sym, N1.
Qed.

Lemma hasInline_total data st : exists b, hasInlineDictAtRoot data st = Ok b st.
Proof.
  unfold hasInlineDictAtRoot, bind, get. cbv zeta.
  match goal with |- context [if ?b then _ else _] => destruct b end;
    eexists; reflexivity.
Qed.

Lemma hasKeyValuePair_key data k more :
  data = quoteKey k ++ COLON :: more ->
  hasKeyValuePair data initial = Ok true initial.
Proof.
  intros E. unfold hasKeyValuePair.
  assert (Hr : rest data initial = quoteKey k ++ COLON :: more) by exact E.
  destruct (@parseKey_at data initial k more Hr) as [Hk _]. rewrite Hk.
  assert (R1 : rest data (adv initial (length (quoteKey k))) = COLON :: more)
    by (rewrite rest_adv, Hr; apply skipn_app_length).
  destruct (rest_head _ _ R1) as (Hd & _ & _).
  now rewrite Hd, (cur_is_rest _ _ COLON R1).
Qed.

Lemma hasKeyValuePair_dash data more :
  data = DASH :: SP :: more ->
  hasKeyValuePair data initial = Ok false initial.
Proof.
  intros E. unfold hasKeyValuePair, parseKey, bind, get.
  assert (Hr : rest data initial = DASH :: SP :: more) by exact E.
  rewrite (@skipSpaces_none data initial DASH _ Hr) by discriminate.
  destruct (rest_head _ _ Hr) as (_ & _ & Hp). rewrite Hp.
  change (45 =? 34)%N with false. cbv iota. unfold advance. rewrite Hr.
  change (span_len is_key_char (DASH :: SP :: more)) with 1.
  simpl. subst data. reflexivity.
Qed.

(** The wrapper of [parse] up to the choice of the root type. *)
Ltac root_prefix F :=
  destruct F as (Flen & Fpk & Fs & Fd & Fi & Fp2 & Fp1 & Fr & Fat);
  apply wp_returns; unfold parse, parse_; rewrite Flen; wp_get; rewrite Fpk;
  apply wp_bind, wp_ret; wp_step Fs; wp_get; rewrite Fd, Fi, Fp2, Fp1;
  cbn [Nat.eqb negb andb]; apply wp_bind, wp_ret; cbn [negb andb]; apply wp_bind.

Lemma parse_dict_lines ls es :
  dict_lines 0 ls es -> ls <> [] -> keys_ok (map fst es) = true ->
  hasInlineDictAtRoot (unlines ls) initial = Ok false initial ->
  parse (unlines ls)
  = Ok (VObj true (snd (build_object es))) (mkCursor (length (unlines ls)) (1 + length ls)).
Proof.
  intros Hdl Hne Hk Hinl.
  destruct (@dict_lines_head 0 ls es [] Hdl Hne) as (c & r & E & Hc & _).
  rewrite app_nil_r in E. simpl in E.
  assert (Hkey : exists k more, unlines ls = quoteKey k ++ COLON :: more).
  { inversion Hdl; subst; try congruence; exists k; rewrite unlines_cons; simpl;
      rewrite <- ?app_assoc; eexists; reflexivity. }
  destruct Hkey as (k & more & Ekey).
  assert (N1 : c <> COLON /\ c <> 37%N).
  { destruct (quoteKey_head k) as (c' & r' & Eq & Hq). rewrite Eq, E in Ekey.
    injection Ekey as -> _. destruct Hq as [[-> _]|[Ha _]].
    - split; discriminate.
    - unfold isAlpha in Ha. apply orb_true_iff in Ha.
      destruct Ha as [Ha|Ha]; apply andb_true_iff in Ha as [H1 H2];
        apply N.leb_le in H1, H2; split; lia. }
  pose proof (@root_facts (unlines ls) c r E Hc (proj1 N1) (proj2 N1)) as F.
  pose proof (proj1 reads_lines 0 ls es Hdl (unlines ls) (S (length (unlines ls)))
                (true, []) initial 0 []) as Hrun.
  rewrite app_nil_r in Hrun.
  pose proof (proj1 lines_length 0 ls es Hdl) as Hlen.
  assert (Hbound : 0 <= pos initial <= 0 + lead (unlines ls)) by (simpl; lia).
  assert (Hfuel : 2 * length ls + 1 <= S (length (unlines ls))) by lia.
  specialize (Hrun (proj2 (proj2 (proj2 (proj2 (proj2 (proj2 (proj2 (proj2 F))))))))
                   (or_introl eq_refl) Hbound Hfuel eq_refl Hk (forallb_no_own _)).
  root_prefix F.
  unfold getRootType. wp_step (@hasKeyValuePair_key (unlines ls) k more Ekey).
  wp_step Hinl. apply wp_ret.
  apply (@wp_ok _ _ _ _ _ Hrun). split; [reflexivity|].
  unfold lead, initial. cbn [span_len line]. f_equal; lia.
Qed.

Lemma parse_list_lines ls items :
  list_lines 0 ls items -> ls <> [] ->
  parse (unlines ls)
  = Ok (VArr items) (mkCursor (length (unlines ls)) (1 + length ls)).
Proof.
  intros Hll Hne.
  assert (Hhd : exists more, unlines ls = DASH :: SP :: more).
  { inversion Hll; subst; try congruence; rewrite unlines_cons; simpl; eexists; reflexivity. }
  destruct Hhd as (more & E).
  pose proof (@root_facts (unlines ls) DASH _ E eq_refl ltac:(discriminate)
                ltac:(discriminate)) as F.
  pose proof (proj2 reads_lines 0 ls items Hll (unlines ls) (S (length (unlines ls)))
                [] initial 0 []) as Hrun.
  rewrite app_nil_r in Hrun.
  pose proof (proj2 lines_length 0 ls items Hll) as Hlen.
  assert (Hbound : 0 <= pos initial <= 0 + lead (unlines ls)) by (simpl; lia).
  assert (Hfuel : 2 * length ls + 1 <= S (length (unlines ls))) by lia.
  specialize (Hrun (proj2 (proj2 (proj2 (proj2 (proj2 (proj2 (proj2 (proj2 F))))))))
                   (or_introl eq_refl) Hbound Hfuel).
  assert (Hr : rest (unlines ls) initial = DASH :: SP :: more) by exact E.
  destruct (rest_head _ _ Hr) as (_ & _ & Hp).
  root_prefix F.
  unfold getRootType. wp_step (@hasKeyValuePair_dash (unlines ls) more E).
  wp_get. unfold peekString. rewrite Hr, Hp.
  change (prefixb (u "[]") (DASH :: SP :: more)) with false.
  change (prefixb (u "{}") (DASH :: SP :: more)) with false.
  change (45 =? 45)%N with true. cbv iota. apply wp_ret.
  apply (@wp_ok _ _ _ _ _ Hrun). split; [reflexivity|].
  unfold lead, initial. cbn [span_len line]. f_equal; lia.
Qed.

(** A root dict of one scalar entry read as an inline dict. *)
Lemma parse_inline_entry k t v :
  scalar_text t v -> keys_ok [k] = true ->
  hasInlineDictAtRoot (unlines [quoteKey k ++ u ": " ++ t]) initial = Ok true initial ->
  exists st',
    parse (unlines [quoteKey k ++ u ": " ++ t])
    = Ok (VObj true (snd (build_object [(k, v)]))) st'.
Proof.
  intros Ht Hk Hinl.
  set (data := unlines [quoteKey k ++ u ": " ++ t]) in *.
  assert (E : data = quoteKey k ++ COLON :: SP :: t ++ LF :: []).
  { unfold data. rewrite unlines_cons. change (u ": ") with [COLON; SP].
    rewrite <- !app_assoc. reflexivity. }
  destruct (key_content k) as (c & r & Eq & Hc & _).
  assert (N1 : c <> COLON /\ c <> 37%N).
  { destruct (quoteKey_head k) as (c' & r' & Eq' & Hq). rewrite Eq in Eq'.
    injection Eq' as <- _. destruct Hq as [[-> _]|[Ha _]].
    - split; discriminate.
    - unfold isAlpha in Ha. apply orb_true_iff in Ha.
      destruct Ha as [Ha|Ha]; apply andb_true_iff in Ha as [H1 H2];
        apply N.leb_le in H1, H2; split; lia. }
  assert (E' : data = c :: r ++ COLON :: SP :: t ++ [LF]) by (now rewrite E, Eq).
  pose proof (@root_facts data c _ E' Hc (proj1 N1) (proj2 N1)) as F.
  assert (Hr : rest data initial = quoteKey k ++ COLON :: SP :: t ++ [LF]) by exact E.
  destruct (@parseKey_at data initial k _ Hr) as [Hkey _].
  set (s1 := adv initial (length (quoteKey k))) in *.
  assert (R1 : rest data s1 = COLON :: SP :: t ++ [LF])
    by (unfold s1; rewrite rest_adv, Hr; apply skipn_app_length).
  assert (R2 : rest data (adv s1 1) = SP :: t ++ [LF]) by (rewrite rest_adv, R1; reflexivity).
  assert (R3 : rest data (adv (adv s1 1) 1) = t ++ [LF])
    by (rewrite rest_adv, R2; reflexivity).
  destruct (@parseValue_scalar data 0 _ t v [] Ht R3) as (Hv & _ & _ & (c' & r' & Et & Hc')).
  assert (Has : assertSpace data InInlineDict (adv s1 1) = Ok tt (adv (adv s1 1) 1)).
  { apply (@assertSpace_at data InInlineDict (adv s1 1) c' (r' ++ [LF])); [|exact Hc'].
    rewrite R2, Et. reflexivity. }
  set (s4 := adv (adv (adv s1 1) 1) (length t)) in *.
  assert (R4 : rest data s4 = [LF])
    by (unfold s4; rewrite rest_adv, R3; apply skipn_app_length).
  pose proof (@consumeLine_at data s4 [] R4) as Hcl.
  assert (R5 : rest data (mkCursor (pos s4 + 1) (line s4 + 1)) = []).
  { pose proof (rest_adv data s4 1) as X. rewrite R4 in X. exact X. }
  destruct (@skipBlankLines_eof data _ R5) as [Hsk Hdn].
  assert (Hr0 : rest data initial = c :: r ++ COLON :: SP :: t ++ [LF]) by exact E'.
  destruct (rest_head _ _ Hr0) as (Hd0 & _ & _).
  destruct (rest_head _ _ R1) as (Hd1 & _ & _).
  destruct (rest_head _ _ R4) as (Hd4 & _ & _).
  assert (Hfuel : exists f, length data - pos initial = S (S f)).
  { rewrite E, Eq. simpl. rewrite !length_app. simpl.
    exists (length r + length t + 2). rewrite ?length_app. simpl. lia. }
  destruct Hfuel as (f & Hfuel).
  eexists.
  root_prefix F.
  unfold getRootType. wp_step (@hasKeyValuePair_key data k _ E).
  wp_step Hinl. apply wp_ret.
  unfold parseInlineVectorContents. apply wp_bind. wp_get. rewrite Hfuel.
  apply wp_bind.
  cbn [parseInlineVectorContents_loop]. wp_get.
  rewrite Hd0, (cur_is_rest _ _ LF Hr0), (cur_is_rest _ _ HASH Hr0).
  destruct (content_spec _ Hc) as (C1 & C2 & C3).
  apply N.eqb_neq in C2, C3. rewrite C2, C3. cbn [orb negb when].
  apply wp_bind, wp_ret. apply wp_bind. wp_step Hkey. wp_get.
  rewrite Hd1, (cur_is_rest _ _ COLON R1). cbn [N.eqb Pos.eqb negb orb].
  wp_adv. change (mkCursor (pos s1 + 1) (line s1)) with (adv s1 1).
  wp_step Has. wp_step Hv. apply wp_ret. wp_get.
  fold s4. rewrite Hd4, (cur_is_rest _ _ SP R4).
  cbn [N.eqb Pos.eqb negb andb orb]. cbn [parseInlineVectorContents_loop].
  wp_get. rewrite Hd4, (cur_is_rest _ _ LF R4).
  cbn [N.eqb Pos.eqb negb andb orb]. apply wp_ret.
  wp_step Hcl.
  assert (Hp : fst (obj_set k v (true, [])) = true)
    by (apply (@fst_put_entries [(k, v)] (true, [])); exact Hk).
  destruct (obj_set k v (true, [])) as [proto props] eqn:Eo. simpl in Hp. subst proto.
  apply wp_ret. unfold assertRootEnd. wp_step Hsk. wp_get. rewrite Hdn.
  cbn [negb]. apply wp_ret. split; [|reflexivity].
  unfold build_object. cbn [fold_left fst snd]. now rewrite Eo.
Qed.

(** *** The choice between an inline and a multiline root dict *)

Lemma indexOf_first (c : N) (a b : list N) :
  ~ In c a -> indexOf (a ++ c :: b) c 0 = Some (length a).
Proof. intros H. unfold indexOf. simpl skipn. now rewrite index_of_app. Qed.

Lemma hasInline_more_lines L1 m c more :
  ~ In LF L1 -> is_js_space c = false -> c <> HASH -> c <> LF ->
  hasInlineDictAtRoot (L1 ++ LF :: spaces m ++ c :: more) initial = Ok false initial.
Proof.
  intros HL Hsp Hh Hlf. unfold hasInlineDictAtRoot, bind, get. cbv zeta.
  change (pos initial) with 0.
  rewrite (indexOf_first LF L1 (spaces m ++ c :: more) HL).
  match goal with |- (if ?b then _ else _) _ = _ => destruct b end; [reflexivity|].
  unfold ret. f_equal. apply negb_false_iff.
  rewrite skipn_app_length. cbn [split_lines]. change (10 =? 10)%N with true. cbv iota.
  cbn [tl].
  destruct (@split_lines_head m c more Hlf) as (l & ls & ->).
  cbn [existsb]. destruct (@trim_head m c l Hsp) as (r & ->).
  apply N.eqb_neq in Hh. now rewrite Hh.
Qed.

Lemma hasInline_vector_line L1 :
  ~ In LF L1 -> ~ In HASH L1 -> includes (u "::") L1 = true ->
  hasInlineDictAtRoot (L1 ++ [LF]) initial = Ok false initial.
Proof.
  intros HL Hh Hi. unfold hasInlineDictAtRoot, bind, get. cbv zeta.
  change (pos initial) with 0.
  rewrite (indexOf_first LF L1 [] HL).
  assert (Hc : indexOf (L1 ++ [LF]) HASH 0 = None).
  { unfold indexOf. simpl skipn. rewrite index_of_none; [reflexivity|].
    intros Hin. apply in_app_iff in Hin as [Hin|[Hin|[]]]; [contradiction|discriminate]. }
  rewrite Hc.
  assert (Hs : slice (L1 ++ [LF]) 0
                 (Some (Nat.min (length L1) (length (L1 ++ [LF])))) = L1).
  { unfold slice. rewrite length_app. simpl length.
    replace (Nat.min (Nat.min (length L1) (length L1 + 1)) (length L1 + 1) - 0)
      with (length L1) by lia.
    simpl skipn. apply firstn_app_length. }
  rewrite Hs, Hi. cbn [negb]. rewrite andb_false_r. reflexivity.
Qed.

Lemma is_js_space_alpha c : isAlpha c = true -> is_js_space c = false.
Proof.
  unfold isAlpha. intros H.
  assert (Hr : (65 <= c <= 122)%N).
  { apply orb_true_iff in H. destruct H as [H|H]; apply andb_true_iff in H as [H1 H2];
      apply N.leb_le in H1, H2; lia. }
  unfold is_js_space.
  repeat match goal with
         | |- context [(?a <=? c)%N] =>
             destruct (N.leb_spec a c); try lia
         | |- context [(c <=? ?a)%N] =>
             destruct (N.leb_spec c a); try lia
         | |- context [(c =? ?a)%N] =>
             destruct (N.eqb_spec c a); try lia
         end; reflexivity.
Qed.

Lemma key_head_solid k :
  exists c r, quoteKey k = c :: r /\ is_js_space c = false /\ c <> HASH /\ c <> LF.
Proof.
  destruct (quoteKey_head k) as (c & r & Hq & [[-> _]|[Ha _]]).
  - exists QUOTE, r. repeat split; auto; discriminate.
  - exists c, r. destruct (isAlpha_not _ Ha) as (N1 & N2 & N3 & N4 & N5 & N6).
    repeat split; auto. now apply is_js_space_alpha.
Qed.

Lemma dict_lines_solid n ls es post :
  dict_lines n ls es -> ls <> [] ->
  exists c r, unlines ls ++ post = spaces n ++ c :: r
              /\ is_js_space c = false /\ c <> HASH /\ c <> LF.
Proof.
  intros H Hne. destruct H; try congruence;
    destruct (key_head_solid k) as (c & r & Hq & Hc);
    exists c; rewrite unlines_cons, Hq, <- !app_assoc; simpl;
    eexists; (split; [reflexivity|auto]).
Qed.

Lemma list_lines_solid n ls items post :
  list_lines n ls items -> ls <> [] ->
  exists c r, unlines ls ++ post = spaces n ++ c :: r
              /\ is_js_space c = false /\ c <> HASH /\ c <> LF.
Proof.
  intros H Hne. destruct (@list_lines_head n ls items post H Hne) as (r & E).
  exists DASH, r. repeat split; auto; discriminate.
Qed.

Lemma dict_lines_nil_inv n es : dict_lines n [] es -> es = [].
Proof.
  intros H. inversion H; subst; try reflexivity;
    match goal with E : _ :: _ = [] |- _ => discriminate E
                  | E : [] = _ :: _ |- _ => discriminate E end.
Qed.

(** *** Objects rebuilt by the decoder *)








(** ** Round trip *)


Lemma toValue_root cmp v lines :
  toValue cmp v 0 lines true = toValue cmp v 0 lines false.
Proof.
  destruct v as [|b|x|s|items|proto props]; try reflexivity.
  all: destruct props as [|e props]; [reflexivity|];
    now rewrite !toValue_object by discriminate.
Qed.

Lemma join_lines_unlines ls : join_lines (push ls []) = unlines ls.
Proof.
  unfold push. induction ls as [|l ls IH]; [reflexivity|].
  rewrite unlines_cons, <- IH. simpl.
  destruct (ls ++ [[]]) eqn:E; [destruct ls; discriminate|reflexivity].
Qed.




(** ** Further properties: strings and keys *)

Lemma json_body_scan len :
  forall s tl n acc, length s <= len ->
    parseString_loop (json_quote_body s ++ tl) n acc
    = parseString_loop tl (n + length (json_quote_body s)) (acc ++ s).
Proof.
  induction len as [|len IH]; intros s tl n acc Hlen.
  - destruct s; [|simpl in Hlen; lia]. simpl. now rewrite app_nil_r, Nat.add_0_r.
  - destruct s as [|c [|d s]].
    + simpl. now rewrite app_nil_r, Nat.add_0_r.
    + cbn [json_quote_body]. now rewrite escape_unit_parse.
    + rewrite json_quote_body_cons.
      destruct (is_high_surrogate c && is_low_surrogate d) eqn:E.
      * apply andb_true_iff in E as [Ec Ed].
        destruct (@surrogate_plain c (or_introl Ec)) as [C1 [C2 C3]].
        destruct (@surrogate_plain d (or_intror Ed)) as [D1 [D2 D3]].
        rewrite <- !app_comm_cons.
        rewrite (@parseString_loop_plain c _ _ _ C1 C2 C3).
        rewrite (@parseString_loop_plain d _ _ _ D1 D2 D3).
        rewrite IH by (simpl in Hlen |- *; lia).
        rewrite <- !app_assoc. simpl. f_equal. lia.
      * rewrite <- app_assoc, escape_unit_parse.
        rewrite IH by (simpl in Hlen |- *; lia).
        rewrite <- app_assoc. simpl. f_equal. rewrite length_app. lia.
Qed.

(** X1.  [parseString] reads back every string that [JSON.stringify] wrote:
    when the input at the cursor is [JSON.stringify(s)], whatever follows
    it, [parseString] returns [s], the cursor stands right after the
    closing quote and the line counter is unchanged. *)
Theorem quoted_string_read_back (data : jsstring) (st : Cursor) (s tl : jsstring) :
  rest data st = JSON_stringify s ++ tl ->
  parseString data st
  = Ok s (mkCursor (pos st + length (JSON_stringify s)) (line st)).
Proof. intros H. exact (@parseString_at data st s tl H). Qed.

Lemma quoted_string_read_back_witness :
  parseString (u "k: " ++ JSON_stringify [9; 34; 92; 55357; 233]%N ++ [LF]) (mkCursor 3 1)
  = Ok [9; 34; 92; 55357; 233]%N
       (mkCursor (3 + length (JSON_stringify [9; 34; 92; 55357; 233]%N)) 1).
Proof.
  apply (@quoted_string_read_back _ (mkCursor 3 1) [9; 34; 92; 55357; 233]%N [LF]).
  reflexivity.
Defined.

(** X2.  [parseKey] reads back every key as [quoteKey] writes it before a
    colon: a key that matches the bare-key pattern is written as it is,
    any other key in quotes, and [parseKey] returns the key in both cases,
    with the cursor on the colon. *)
Theorem key_read_back (data : jsstring) (st : Cursor) (k tl : jsstring) :
  rest data st = quoteKey k ++ COLON :: tl ->
  parseKey data st = Ok k (mkCursor (pos st + length (quoteKey k)) (line st))
  /\ nth_error data (pos st + length (quoteKey k)) = Some COLON.
Proof.
  intros H. destruct (@parseKey_at data st k tl H) as [Hk _]. split; [exact Hk|].
  pose proof (rest_adv data st (length (quoteKey k))) as E.
  rewrite H, skipn_app_length in E.
  now destruct (rest_head _ _ E) as (_ & Hn & _).
Qed.

Lemma key_read_back_witness :
  parseKey (u "  " ++ quoteKey (u "a key") ++ u ": 1") (mkCursor 2 1)
  = Ok (u "a key") (mkCursor (2 + length (quoteKey (u "a key"))) 1)
  /\ nth_error (u "  " ++ quoteKey (u "a key") ++ u ": 1")
               (2 + length (quoteKey (u "a key"))) = Some COLON.
Proof.
  apply (@key_read_back _ (mkCursor 2 1) (u "a key") (u " 1")). reflexivity.
Defined.

(** X3.  A quoted string must be closed on its line: when the opening
    quote is followed by the escaped text of any string and then by a
    newline or by the end of the input, [parseString] throws, with the line
    of the opening quote, "newlines not allowed in single-line strings" in
    the first case and "unclosed string" in the second. *)
Theorem unterminated_string_rejected (data : jsstring) (st : Cursor) (s tail : jsstring) :
  rest data st = QUOTE :: json_quote_body s ++ tail ->
  match tail with [] => True | c :: _ => c = LF end ->
  parseString data st
  = Throw (HUMLError (match tail with [] => UnclosedString | _ => NewlineInString end)
             (line st))
          (mkCursor (pos st + 1 + length (json_quote_body s)) (line st)).
Proof.
  intros H Ht. unfold parseString, bind, advance, get. fold (adv st 1).
  rewrite rest_adv, H. cbn [skipn].
  rewrite (json_body_scan (len := length s)) by lia.
  destruct tail as [|c tl].
  - simpl. unfold set_pos, error. simpl. reflexivity.
  - subst c. simpl. unfold set_pos, error. simpl. reflexivity.
Qed.

Lemma unterminated_string_rejected_witness :
  parseString (u "k: " ++ QUOTE :: json_quote_body (u "a b") ++ LF :: u "c") (mkCursor 3 1)
  = Throw (HUMLError NewlineInString 1)
          (mkCursor (3 + 1 + length (json_quote_body (u "a b"))) 1).
Proof.
  apply (@unterminated_string_rejected _ (mkCursor 3 1) (u "a b") (LF :: u "c"));
    reflexivity.
Defined.

(** ** Further properties: number literals *)

Lemma is_sign_cases sign :
  is_sign sign = true -> sign = [] \/ sign = [PLUS] \/ sign = [DASH].
Proof.
  unfold is_sign. intros H. apply orb_true_iff in H as [H|H];
    [apply orb_true_iff in H as [H|H]|]; apply string_eqb_eq in H; auto.
Qed.

Lemma digits_loop t :
  forall tail n f,
    forallb (fun c => isDigit c || (c =? UNDERSCORE)%N) t = true ->
    number_stop tail = true ->
    parseNumber_loop (t ++ tail) n f = (n + length t, f).
Proof.
  induction t as [|c t IH]; intros tail n f Ht Hs.
  - simpl. rewrite Nat.add_0_r. destruct tail as [|c tl]; [reflexivity|].
    simpl in Hs. apply negb_true_iff in Hs.
    apply orb_false_iff in Hs as [Hs H5]. apply orb_false_iff in Hs as [Hs H4].
    apply orb_false_iff in Hs as [Hs H3].
    cbn [parseNumber_loop]. now rewrite Hs, H3, H4, H5.
  - cbn [forallb] in Ht. apply andb_true_iff in Ht as [Hc Ht].
    cbn [app parseNumber_loop]. rewrite Hc, IH by assumption.
    f_equal. simpl. lia.
Qed.

Lemma take_while_all f (l : list N) : forallb f l = true -> take_while f l = l.
Proof.
  unfold take_while. intros H.
  assert (E : span_len f l = length l).
  { induction l as [|c l IH]; [reflexivity|]. simpl in *.
    apply andb_true_iff in H as [-> H]. now rewrite IH. }
  rewrite E. apply firstn_all.
Qed.

Lemma isDigit_radix c : isDigit c = true -> is_radix_digit 10 c = true.
Proof.
  unfold isDigit, is_radix_digit, digit_value. intros H. rewrite H.
  apply andb_true_iff in H as [H1 H2]. apply N.leb_le in H1, H2.
  apply N.ltb_lt. lia.
Qed.

Lemma isDigit_no_space c : isDigit c = true -> is_js_space c = false.
Proof.
  unfold isDigit. intros H. apply andb_true_iff in H as [H1 H2].
  apply N.leb_le in H1, H2. unfold is_js_space.
  repeat match goal with
         | |- context [(?a <=? c)%N] => destruct (N.leb_spec a c); try lia
         | |- context [(c <=? ?a)%N] => destruct (N.leb_spec c a); try lia
         | |- context [(c =? ?a)%N] => destruct (N.eqb_spec c a); try lia
         end; reflexivity.
Qed.

Lemma trim_start_head c (l : list N) : is_js_space c = false -> trim_start (c :: l) = c :: l.
Proof. intros H. unfold trim_start. simpl. now rewrite H. Qed.

(** [parseInt] on an optional sign and decimal digits. *)
Lemma parseInt_digits sign d ds :
  is_sign sign = true -> forallb isDigit (d :: ds) = true ->
  parseInt (sign ++ d :: ds) 10
  = round_binary64 (is_negative sign) (digits_value 10 0 (d :: ds)) 1.
Proof.
  intros Hs Hd. pose proof Hd as Hd'. cbn [forallb] in Hd'.
  apply andb_true_iff in Hd' as [Hd0 _].
  destruct (isDigit_not _ Hd0) as (_ & _ & C3 & C4 & _).
  assert (Ht : take_while (is_radix_digit 10) (d :: ds) = d :: ds).
  { apply take_while_all. rewrite forallb_forall in *. intros c Hc.
    now apply isDigit_radix, Hd. }
  unfold parseInt.
  destruct (is_sign_cases _ Hs) as [-> | [-> | ->]]; cbn [app].
  - rewrite (trim_start_head d ds (isDigit_no_space _ Hd0)). unfold split_sign.
    rewrite C4, C3. change (10 =? 16)%N with false. cbn [andb]. now rewrite Ht.
  - rewrite trim_start_head by reflexivity. unfold split_sign.
    change (43 =? 45)%N with false. change (43 =? 43)%N with true. cbv iota.
    change (10 =? 16)%N with false. cbn [andb]. now rewrite Ht.
  - rewrite trim_start_head by reflexivity. unfold split_sign.
    change (45 =? 45)%N with true. cbv iota.
    change (10 =? 16)%N with false. cbn [andb]. now rewrite Ht.
Qed.

Lemma special_none_sign c tl :
  c = PLUS \/ c = DASH ->
  find (fun sv : jsstring * Value => prefixb (fst sv) (c :: tl)) SPECIAL_VALUES = None.
Proof. intros [-> | ->]; now apply special_none. Qed.

Lemma prefixb_inf_digit d tl : isDigit d = true -> prefixb (u "inf") (d :: tl) = false.
Proof.
  intros H. destruct (isDigit_not _ H) as (_ & _ & _ & _ & _ & _ & _ & _ & _ & C).
  change (u "inf") with (105%N :: u "nf"). cbn [prefixb]. now rewrite N.eqb_sym, C.
Qed.

(** [parseValue] on a number literal hands over to [parseNumber] at the
    same cursor. *)
Lemma parseValue_number_start data ci st sign d more :
  is_sign sign = true -> isDigit d = true ->
  rest data st = sign ++ d :: more ->
  parseValue data ci st = parseNumber data st
  /\ exists st1, when ((peekChar data (pos st) =? PLUS) || (peekChar data (pos st) =? DASH))%N
                   (advance 1) st = Ok tt st1
                 /\ st1 = adv st (length sign)
                 /\ rest data st1 = d :: more
                 /\ match nth_error data (pos st) with
                    | Some c => (c =? DASH)%N
                    | None => false
                    end = is_negative sign.
Proof.
  intros Hs Hd H.
  destruct (isDigit_not _ Hd) as (C1 & C2 & C3 & C4 & _).
  destruct (is_sign_cases _ Hs) as [-> | [-> | ->]]; cbn [app] in H;
    destruct (rest_head _ _ H) as (Hdn & Hn & Hpk).
  - split.
    + unfold parseValue, bind, get. rewrite Hdn, Hpk, C1, C2. cbn [andb].
      unfold peekString. rewrite H, special_none by (now destruct (isDigit_not _ Hd) as
        (_ & _ & _ & _ & _ & _ & ? & ? & ? & ?)).
      now rewrite C3, C4, Hd.
    + exists st. rewrite Hpk, C3, C4, Hn, C4. cbn [orb when]. unfold ret.
      rewrite adv_0. auto.
  - assert (H1 : rest data (adv st 1) = d :: more) by (rewrite rest_adv, H; reflexivity).
    destruct (rest_head _ _ H1) as (_ & _ & Hpk1).
    split.
    + unfold parseValue, bind, get. rewrite Hdn, Hpk.
      change (43 =? 34)%N with false. change (43 =? 96)%N with false. cbn [andb].
      unfold peekString. rewrite H, special_none_sign by auto.
      change (43 =? 43)%N with true. cbv iota.
      unfold advance. change (mkCursor (pos st + 1) (line st)) with (adv st 1).
      rewrite H1, prefixb_inf_digit, Hpk1, Hd by assumption.
      now rewrite set_pos_back.
    + exists (adv st 1). rewrite Hpk, Hn. repeat split; auto.
  - assert (H1 : rest data (adv st 1) = d :: more) by (rewrite rest_adv, H; reflexivity).
    destruct (rest_head _ _ H1) as (_ & _ & Hpk1).
    split.
    + unfold parseValue, bind, get. rewrite Hdn, Hpk.
      change (45 =? 34)%N with false. change (45 =? 96)%N with false. cbn [andb].
      unfold peekString. rewrite H, special_none_sign by auto.
      change (45 =? 43)%N with false. change (45 =? 45)%N with true. cbv iota.
      unfold advance. change (mkCursor (pos st + 1) (line st)) with (adv st 1).
      rewrite H1, prefixb_inf_digit, Hpk1, Hd by assumption.
      now rewrite set_pos_back.
    + exists (adv st 1). rewrite Hpk, Hn. repeat split; auto.
Qed.

Lemma remove_underscores_app a b :
  remove_underscores (a ++ b) = remove_underscores a ++ remove_underscores b.
Proof. unfold remove_underscores. apply filter_app. Qed.

Lemma remove_underscores_digits t :
  forallb (fun c => isDigit c || (c =? UNDERSCORE)%N) t = true ->
  forallb isDigit (remove_underscores t) = true.
Proof.
  induction t as [|c t IH]; [reflexivity|]. cbn [forallb]. intros H.
  apply andb_true_iff in H as [Hc H]. unfold remove_underscores in *. cbn [filter].
  destruct (c =? UNDERSCORE)%N eqn:E; cbn [negb].
  - now apply IH.
  - cbn [forallb]. rewrite orb_false_r in Hc. now rewrite Hc, IH.
Qed.

(** X4.  A decimal integer literal, with an optional sign and with
    underscores anywhere after its first digit, is read by [parseValue] as
    the number nearest to the value of its digits, the underscores left
    out; the cursor stops right after the literal. *)
Theorem decimal_integer_literal (data : jsstring) (ci : nat) (st : Cursor)
    (sign : jsstring) (d : char) (t tail : jsstring) :
  is_sign sign = true ->
  isDigit d = true ->
  forallb (fun c => isDigit c || (c =? UNDERSCORE)%N) t = true ->
  number_stop tail = true ->
  existsb (fun pb : jsstring * N => prefixb (fst pb) (d :: t ++ tail))
    NUMBER_BASE_PREFIXES = false ->
  rest data st = sign ++ d :: t ++ tail ->
  parseValue data ci st
  = Ok (VNum (round_binary64 (is_negative sign)
                (digits_value 10 0 (d :: remove_underscores t)) 1))
       (mkCursor (pos st + length (sign ++ d :: t)) (line st)).
Proof.
  intros Hs Hd Ht Hstop Hpre H.
  destruct (@parseValue_number_start data ci st sign d (t ++ tail) Hs Hd H)
    as (-> & st1 & Hw & -> & Hr & _).
  assert (Hall : forallb (fun c => isDigit c || (c =? UNDERSCORE)%N) (d :: t) = true)
    by (cbn [forallb]; now rewrite Hd, Ht).
  pose proof (@digits_loop (d :: t) tail 0 false Hall Hstop) as Hloop.
  unfold parseNumber, bind, get. rewrite Hw.
  unfold peekString. rewrite Hr.
  assert (Hf : find (fun pb : jsstring * N => prefixb (fst pb) (d :: t ++ tail))
                 NUMBER_BASE_PREFIXES = None).
  { unfold NUMBER_BASE_PREFIXES in *. cbn [existsb find fst] in *.
    apply orb_false_iff in Hpre as [H1 Hpre]. apply orb_false_iff in Hpre as [H2 Hpre].
    apply orb_false_iff in Hpre as [H3 _]. now rewrite H1, H2, H3. }
  rewrite Hf. change (d :: t ++ tail) with ((d :: t) ++ tail). rewrite Hloop.
  unfold advance, ret. cbn [pos line adv Nat.add].
  f_equal.
  - rewrite <- Nat.add_assoc, substring_rest, H.
    replace (sign ++ d :: t ++ tail) with ((sign ++ d :: t) ++ tail)
      by (now rewrite <- app_assoc).
    rewrite <- length_app, firstn_app_length, remove_underscores_app.
    assert (Es : remove_underscores sign = sign)
      by (destruct (is_sign_cases _ Hs) as [-> | [-> | ->]]; reflexivity).
    assert (Ed : remove_underscores (d :: t) = d :: remove_underscores t).
    { unfold remove_underscores. cbn [filter].
      destruct (d =? UNDERSCORE)%N eqn:E; [|reflexivity].
      apply N.eqb_eq in E. subst d. discriminate. }
    rewrite Es, Ed. f_equal. apply parseInt_digits; [exact Hs|].
    rewrite <- Ed. now apply remove_underscores_digits.
  - f_equal. rewrite length_app. lia.
Qed.

Lemma decimal_integer_literal_witness :
  parseValue (u "k: -1_000_0 # c") 0 (mkCursor 3 1)
  = Ok (VNum (round_binary64 true (digits_value 10 0 (u "10000")) 1)) (mkCursor 11 1).
Proof.
  apply (@decimal_integer_literal (u "k: -1_000_0 # c") 0 (mkCursor 3 1)
           [DASH] 49%N (u "_000_0") (u " # c")); reflexivity.
Defined.

Lemma base_validator_props base c :
  (base = 16 \/ base = 8 \/ base = 2)%N -> base_validator base c = true ->
  is_radix_digit base c = true /\ is_js_space c = false
  /\ (c =? UNDERSCORE)%N = false /\ (c =? PLUS)%N = false /\ (c =? DASH)%N = false
  /\ (c =? 120)%N = false /\ (c =? 88)%N = false.
Proof.
  intros Hb H.
  assert (Hr : (48 <= c <= 57 \/ 97 <= c <= 102 \/ 65 <= c <= 70)%N
               /\ is_radix_digit base c = true).
  { unfold base_validator, is_radix_digit, digit_value in *.
    destruct Hb as [-> | [-> | ->]]; cbn [N.eqb Pos.eqb] in H.
    - unfold isHex, isDigit in H.
      repeat (apply orb_true_iff in H; destruct H as [H|H]);
        apply andb_true_iff in H as [H1 H2]; apply N.leb_le in H1, H2;
        (split; [lia|]);
        repeat match goal with
               | |- context [(?a <=? c)%N] => destruct (N.leb_spec a c); try lia
               | |- context [(c <=? ?a)%N] => destruct (N.leb_spec c a); try lia
               end; cbn [andb]; apply N.ltb_lt; lia.
    - apply andb_true_iff in H as [H1 H2]. apply N.leb_le in H1, H2.
      split; [lia|].
      repeat match goal with
             | |- context [(?a <=? c)%N] => destruct (N.leb_spec a c); try lia
             | |- context [(c <=? ?a)%N] => destruct (N.leb_spec c a); try lia
             end; cbn [andb]; apply N.ltb_lt; lia.
    - unfold mem in H. change (u "01") with [48; 49]%N in H. cbn [existsb] in H.
      rewrite orb_false_r in H. apply orb_true_iff in H.
      assert (Hc : c = 48%N \/ c = 49%N)
        by (destruct H as [H|H]; apply N.eqb_eq in H; auto).
      split; [lia|]. destruct Hc as [-> | ->]; reflexivity. }
  destruct Hr as [Hr Hd]. split; [exact Hd|].
  split.
  - unfold is_js_space.
    repeat match goal with
           | |- context [(?a <=? c)%N] => destruct (N.leb_spec a c); try lia
           | |- context [(c <=? ?a)%N] => destruct (N.leb_spec c a); try lia
           | |- context [(c =? ?a)%N] => destruct (N.eqb_spec c a); try lia
           end; reflexivity.
  - repeat split; apply N.eqb_neq; lia.
Qed.

Lemma span_len_stop_at f (k tail : list N) :
  forallb f k = true -> match tail with [] => true | c :: _ => negb (f c) end = true ->
  span_len f (k ++ tail) = length k.
Proof.
  intros Hk Ht. destruct tail as [|c tl].
  - rewrite app_nil_r. clear Ht. induction k as [|a k IH]; [reflexivity|].
    simpl in *. apply andb_true_iff in Hk as [-> Hk]. now rewrite IH.
  - apply span_len_forall; [exact Hk|]. now apply negb_true_iff.
Qed.

(** [parseInt] on digits of the base, without sign or prefix. *)
Lemma parseInt_base base c h :
  (base = 16 \/ base = 8 \/ base = 2)%N ->
  forallb (base_validator base) (c :: h) = true ->
  parseInt (c :: h) base = round_binary64 false (digits_value base 0 (c :: h)) 1.
Proof.
  intros Hb Hh. pose proof Hh as Hh'. cbn [forallb] in Hh'.
  apply andb_true_iff in Hh' as [Hc Hrest].
  destruct (@base_validator_props base c Hb Hc) as (_ & Hsp & _ & Cp & Cd & _).
  unfold parseInt. rewrite (@trim_start_head c h Hsp). unfold split_sign. rewrite Cd, Cp.
  assert (Hx : (base =? 16)%N && (prefixb (u "0x") (c :: h) || prefixb (u "0X") (c :: h))
               = false).
  { destruct h as [|e h].
    - change (u "0x") with [48; 120]%N. change (u "0X") with [48; 88]%N.
      cbn [prefixb]. now rewrite !andb_false_r.
    - cbn [forallb] in Hrest. apply andb_true_iff in Hrest as [He _].
      destruct (@base_validator_props base e Hb He) as (_ & _ & _ & _ & _ & Cx & CX).
      change (u "0x") with [48; 120]%N. change (u "0X") with [48; 88]%N.
      cbn [prefixb]. rewrite (N.eqb_sym 120), (N.eqb_sym 88), Cx, CX.
      now rewrite !andb_false_r. }
  rewrite Hx.
  rewrite take_while_all; [reflexivity|].
  rewrite forallb_forall in *. intros e He.
  now destruct (@base_validator_props base e Hb (Hh e He)).
Qed.

(** X5.  A literal with a base prefix ([0x], [0o] or [0b]) followed by at
    least one digit of the base is read by [parseValue] as the number
    nearest to the value of the digits in that base, negated after a [-]
    sign; hexadecimal digits are accepted in both cases. *)
Theorem based_integer_literal (data : jsstring) (ci : nat) (st : Cursor)
    (sign prefix : jsstring) (base : N) (c : char) (h tail : jsstring) :
  is_sign sign = true ->
  In (prefix, base) NUMBER_BASE_PREFIXES ->
  forallb (base_validator base) (c :: h) = true ->
  base_stop base tail = true ->
  rest data st = sign ++ prefix ++ (c :: h) ++ tail ->
  parseValue data ci st
  = Ok (VNum (let x := round_binary64 false (digits_value base 0 (c :: h)) 1 in
              if is_negative sign then number_neg x else x))
       (mkCursor (pos st + length (sign ++ prefix ++ c :: h)) (line st)).
Proof.
  intros Hs Hin Hh Hstop H.
  assert (Hb : (base = 16 \/ base = 8 \/ base = 2)%N
               /\ exists p, prefix = [48%N; p]
                  /\ find (fun pb : jsstring * N =>
                             prefixb (fst pb) (prefix ++ (c :: h) ++ tail))
                        NUMBER_BASE_PREFIXES = Some (prefix, base)).
  { unfold NUMBER_BASE_PREFIXES in *.
    destruct Hin as [E|[E|[E|[]]]]; injection E as <- <-.
    - split; [auto|]. exists 120%N. split; reflexivity.
    - split; [auto|]. exists 111%N. split; reflexivity.
    - split; [auto|]. exists 98%N. split; reflexivity. }
  destruct Hb as (Hb & p & Ep & Hfind).
  assert (H' : rest data st = sign ++ 48%N :: (p :: (c :: h) ++ tail))
    by (rewrite H, Ep; reflexivity).
  destruct (@parseValue_number_start data ci st sign 48%N _ Hs eq_refl H')
    as (-> & st1 & Hw & -> & Hr & Hneg).
  assert (Hr1 : rest data (adv st (length sign)) = prefix ++ (c :: h) ++ tail)
    by (rewrite Hr, Ep; reflexivity).
  unfold parseNumber, bind, get. rewrite Hw.
  unfold peekString. rewrite Hr1, Hfind.
  unfold parseBase, bind, get, advance.
  set (s2 := mkCursor (pos (adv st (length sign)) + length prefix)
               (line (adv st (length sign)))).
  assert (Hr2 : rest data s2 = (c :: h) ++ tail).
  { change s2 with (adv (adv st (length sign)) (length prefix)).
    rewrite rest_adv, Hr1. apply skipn_app_length. }
  rewrite Hr2.
  rewrite (@span_len_stop_at (base_validator base) (c :: h) tail Hh Hstop).
  cbn [pos line].
  destruct (Nat.eqb_spec (pos s2 + length (c :: h)) (pos s2)) as [E|_];
    [simpl in E; lia|].
  unfold ret. rewrite Hneg. f_equal.
  - rewrite substring_rest, Hr2, firstn_app_length.
    rewrite remove_underscores_id.
    + rewrite (@parseInt_base base c h Hb Hh). reflexivity.
    + apply mem_false_iff. intros Hin'. rewrite forallb_forall in Hh.
      destruct (@base_validator_props base _ Hb (Hh _ Hin')) as (_ & _ & Cu & _).
      discriminate.
  - unfold s2, adv. cbn [pos line]. f_equal. rewrite !length_app. lia.
Qed.

Lemma based_integer_literal_witness :
  parseValue (u "k: -0xfF, 2") 0 (mkCursor 3 1)
  = Ok (VNum (number_neg (round_binary64 false (digits_value 16 0 (u "fF")) 1)))
       (mkCursor 8 1).
Proof.
  apply (@based_integer_literal (u "k: -0xfF, 2") 0 (mkCursor 3 1)
           [DASH] (u "0x") 16 102%N (u "F") (u ", 2")); try reflexivity.
  left. reflexivity.
Defined.

(** ** Further properties: multiline strings *)

Lemma rest_length data st : length (rest data st) = length data - pos st.
Proof. unfold rest. apply length_skipn. Qed.

Lemma rest_app_done data st a c b : rest data st = a ++ c :: b -> done data st = false.
Proof.
  intros H. pose proof (rest_length data st) as Hl. rewrite H, length_app in Hl.
  simpl in Hl. unfold done. apply Nat.leb_gt. lia.
Qed.

Lemma lead_le l : lead l <= length l.
Proof. unfold lead. induction l as [|c l IH]; simpl; [lia|]. destruct (is_space c); simpl; lia. Qed.

Lemma lead_app_lf l r : span_len is_space (l ++ LF :: r) = lead l.
Proof.
  unfold lead. induction l as [|c l IH]; [reflexivity|].
  simpl. destruct (is_space c); [now rewrite IH|reflexivity].
Qed.

Lemma skipn_app_le (l r : list N) n : n <= length l -> skipn n (l ++ r) = skipn n l ++ r.
Proof.
  intros H. rewrite skipn_app. replace (n - length l) with 0 by lia. reflexivity.
Qed.

Lemma indexOf_line data st l r :
  rest data st = l ++ LF :: r -> mem LF l = false ->
  indexOf data LF (pos st) = Some (pos st + length l).
Proof.
  intros H Hl. unfold indexOf. fold (rest data st). rewrite H.
  rewrite index_of_app; [reflexivity|]. now apply mem_false_iff.
Qed.

Lemma indexOf_last data st l :
  rest data st = l -> mem LF l = false -> indexOf data LF (pos st) = None.
Proof.
  intros H Hl. unfold indexOf. fold (rest data st). rewrite H.
  rewrite index_of_none; [reflexivity|]. now apply mem_false_iff.
Qed.

Lemma consumeLine_eof data st :
  rest data st = [] -> consumeLine data st = Ok tt (mkCursor (length data) (line st)).
Proof.
  intros H. pose proof (rest_nil_done _ _ H) as Hd.
  unfold consumeLine, bind, get, skipSpaces, advance. rewrite H. cbn [span_len].
  change (mkCursor (pos st + 0) (line st)) with (adv st 0). rewrite adv_0, Hd.
  cbn [orb]. unfold when. rewrite Nat.ltb_irrefl. unfold ret.
  unfold slice, indexOf. fold (rest data st). rewrite H. cbn [index_of firstn length].
  rewrite firstn_nil. cbn [ends_with_space length Nat.ltb Nat.leb andb].
  destruct (ends_with_space []); reflexivity.
Qed.

(** The loop of [parseMultilineString] over the lines of the content. *)
Lemma multiline_body data k preserve delim :
  mem LF delim = false ->
  forall body lines fuel st R,
    forallb (content_line delim) body = true ->
    rest data st = unlines body ++ R ->
    parseMultilineString_loop data (length body + fuel) k preserve delim lines st
    = parseMultilineString_loop data fuel k preserve delim
        (lines ++ map (processLine k preserve) body)
        (mkCursor (pos st + length (unlines body)) (line st + length body)).
Proof.
  intros Hdelim. induction body as [|l body IH]; intros lines fuel st R Hb H.
  - simpl. rewrite app_nil_r, !Nat.add_0_r. now rewrite cursor_eta.
  - cbn [forallb] in Hb. apply andb_true_iff in Hb as [Hl Hb].
    unfold content_line in Hl. apply andb_true_iff in Hl as [Hlf Hcl].
    apply negb_true_iff in Hlf, Hcl.
    rewrite unlines_cons, <- app_assoc in H. cbn [app] in H.
    pose proof (rest_app_done _ _ _ _ _ H) as Hd.
    cbn [length Nat.add parseMultilineString_loop]. unfold bind at 1, get at 1.
    rewrite Hd. rewrite H, lead_app_lf.
    unfold bind at 1, advance at 1. unfold bind at 1, get at 1.
    change (mkCursor (pos st + lead l) (line st)) with (adv st (lead l)).
    rewrite peekString_rest, rest_adv, H.
    rewrite (skipn_app_le l _ (lead_le l)), (prefixb_app_lf _ _ _ Hdelim).
    unfold closes in Hcl. rewrite Hcl.
    unfold bind at 1, set_pos at 1. cbn [pos line adv]. rewrite cursor_eta.
    unfold bind at 1, consumeLineContent at 1, bind at 1, get at 1.
    rewrite (indexOf_line _ _ _ _ H Hlf).
    unfold bind at 1, put at 1, ret at 1.
    rewrite substring_rest, H, firstn_app_length.
    rewrite IH with (R := R); [| exact Hb |].
    + cbn [pos line map]. rewrite <- app_assoc. cbn [app].
      rewrite unlines_cons, length_app. cbn [length].
      f_equal. f_equal; lia.
    + unfold rest in *. cbn [pos].
      replace (pos st + length l + 1) with (length (l ++ [LF]) + pos st)
        by (rewrite length_app; simpl; lia).
      rewrite <- skipn_skipn, H.
      change (l ++ LF :: unlines body ++ R) with (l ++ [LF] ++ unlines body ++ R).
      rewrite app_assoc. apply skipn_app_length.
Qed.

Lemma delimiter_facts preserve :
  length (delimiter preserve) = 3 /\ mem LF (delimiter preserve) = false
  /\ exists c r, delimiter preserve = c :: r /\ is_space c = false
                 /\ c = (if preserve then BACKTICK else QUOTE).
Proof. destruct preserve; (split; [reflexivity|split; [reflexivity|]]); eexists _, _; now split. Qed.

(** The loop of [parseMultilineString] on a line that starts with the
    delimiter after [m] spaces. *)
Lemma multiline_close data k preserve lines fuel st m post :
  rest data st = spaces m ++ delimiter preserve ++ post ->
  parseMultilineString_loop data (S fuel) k preserve (delimiter preserve) lines st
  = if m =? k
    then (consumeLine data ;; ret (VStr (join_lines lines))) (adv st (m + 3))
    else Throw (HUMLError (ClosingDelimiterIndent k) (line st)) (adv st m).
Proof.
  intros H. destruct (delimiter_facts preserve) as (_ & _ & c & r & E & Hc & _).
  pose proof H as H'. rewrite E in H'. cbn [app] in H'.
  pose proof (rest_app_done _ _ _ _ _ H') as Hd.
  cbn [parseMultilineString_loop]. unfold bind at 1, get at 1. rewrite Hd.
  rewrite H', (@span_len_spaces is_space m c (r ++ post) eq_refl Hc).
  unfold bind at 1, advance at 1. unfold bind at 1, get at 1.
  change (mkCursor (pos st + m) (line st)) with (adv st m).
  rewrite peekString_rest, rest_adv, H, skipn_spaces, prefixb_app.
  destruct (m =? k); cbn [negb].
  - unfold bind at 1, advance at 1.
    change (mkCursor (pos (adv st m) + 3) (line (adv st m))) with (adv (adv st m) 3).
    now rewrite adv_adv.
  - reflexivity.
Qed.

Lemma unlines_length ls : length ls <= length (unlines ls).
Proof.
  induction ls as [|l ls IH]; [simpl; lia|].
  rewrite unlines_cons, length_app. simpl. lia.
Qed.

(** [parseMultilineString] from the opening delimiter over the lines of
    the content. *)
Lemma parseMultilineString_open data k preserve st body R :
  forallb (content_line (delimiter preserve)) body = true ->
  rest data st = delimiter preserve ++ LF :: unlines body ++ R ->
  parseMultilineString data k preserve st
  = parseMultilineString_loop data (length R + (length (unlines body) - length body))
      k preserve (delimiter preserve) (map (processLine k preserve) body)
      (mkCursor (pos st + 4 + length (unlines body)) (line st + 1 + length body)).
Proof.
  intros Hb H. destruct (delimiter_facts preserve) as (Hlen & Hlf & _).
  unfold parseMultilineString. unfold bind at 1, get at 1.
  rewrite substring_rest, H.
  replace (firstn 3 (delimiter preserve ++ LF :: unlines body ++ R))
    with (delimiter preserve) by (destruct preserve; reflexivity).
  unfold bind at 1, advance at 1.
  change (mkCursor (pos st + 3) (line st)) with (adv st 3).
  assert (H3 : rest data (adv st 3) = LF :: unlines body ++ R).
  { rewrite rest_adv, H, <- Hlen. apply skipn_app_length. }
  unfold bind at 1. rewrite (@consumeLine_at data _ _ H3).
  unfold bind at 1, get at 1. cbn [pos line adv].
  set (s1 := mkCursor (pos st + 3 + 1) (line st + 1)).
  assert (H4 : rest data s1 = unlines body ++ R).
  { unfold s1, rest in *. cbn [pos adv] in *.
    replace (pos st + 3 + 1) with (1 + (pos st + 3)) by lia.
    now rewrite <- skipn_skipn, H3. }
  assert (Hf : length data - pos s1
               = length body + (length R + (length (unlines body) - length body))).
  { rewrite <- rest_length, H4, length_app. pose proof (unlines_length body). lia. }
  change (pos s1) with (pos st + 3 + 1) in Hf. rewrite Hf.
  rewrite (@multiline_body data k preserve _ Hlf body [] _ s1 R Hb H4).
  unfold s1. cbn [pos line app]. f_equal. f_equal; lia.
Qed.

Lemma parseValue_multiline data k preserve st more :
  rest data st = delimiter preserve ++ more ->
  parseValue data k st = parseMultilineString data k preserve st.
Proof.
  intros H. destruct (delimiter_facts preserve) as (_ & _ & c & r & E & _ & Hc).
  pose proof H as H'. rewrite E in H'. cbn [app] in H'.
  destruct (rest_head _ _ H') as (Hd & _ & Hp).
  unfold parseValue. unfold bind at 1, get at 1. rewrite Hd, Hp, Hc.
  rewrite !peekString_rest, H.
  destruct preserve; cbn [delimiter].
  - change (BACKTICK =? QUOTE)%N with false. cbv iota.
    rewrite N.eqb_refl, prefixb_app. reflexivity.
  - rewrite N.eqb_refl. unfold delimiter. now rewrite prefixb_app.
Qed.

(** A multiline string read from its opening to its closing delimiter. *)
Lemma multiline_string_at data k preserve st body post :
  forallb (content_line (delimiter preserve)) body = true ->
  rest data st
  = delimiter preserve ++ LF :: unlines body ++ spaces k ++ delimiter preserve ++ post ->
  line_end post = true ->
  parseValue data k st
  = Ok (VStr (join_lines (map (processLine k preserve) body)))
       (mkCursor (pos st + 4 + length (unlines body) + k + 3 + line_step post)
                 (line st + 1 + length body + line_step post)).
Proof.
  intros Hb H Hpost.
  rewrite (@parseValue_multiline data k preserve st _ H).
  rewrite (@parseMultilineString_open data k preserve st body _ Hb H).
  destruct (delimiter_facts preserve) as (Hlen & _).
  set (s1 := mkCursor (pos st + 4 + length (unlines body)) (line st + 1 + length body)).
  assert (H1 : rest data s1 = spaces k ++ delimiter preserve ++ post).
  { unfold s1, rest in *. cbn [pos].
    replace (pos st + 4 + length (unlines body))
      with (length (delimiter preserve ++ LF :: unlines body) + pos st)
      by (rewrite length_app, Hlen; simpl; lia).
    rewrite <- skipn_skipn, H.
    change (delimiter preserve ++ LF :: unlines body ++ spaces k ++ delimiter preserve ++ post)
      with (delimiter preserve ++ (LF :: unlines body) ++ spaces k ++ delimiter preserve ++ post).
    rewrite app_assoc. apply skipn_app_length. }
  rewrite !length_app, Hlen. cbn [Nat.add].
  rewrite Nat.add_comm with (n := length (spaces k)). cbn [Nat.add].
  rewrite (@multiline_close data k preserve _ _ s1 k post H1), Nat.eqb_refl.
  assert (H2 : rest data (adv s1 (k + 3)) = post).
  { rewrite rest_adv, H1.
    replace (k + 3) with (length (spaces k ++ delimiter preserve))
      by (rewrite length_app, length_spaces, Hlen; lia).
    rewrite app_assoc. apply skipn_app_length. }
  unfold bind at 1. destruct post as [|c post].
  - rewrite (@consumeLine_eof data _ H2). unfold ret. f_equal.
    pose proof (rest_length data (adv s1 (k + 3))) as Hl. rewrite H2 in Hl.
    unfold s1, adv in *. cbn [pos line length line_step] in *.
    assert (Hle : pos st + 4 + length (unlines body) + k + 3 <= length data).
    { pose proof (rest_length data st) as Hl0. rewrite H, !length_app, Hlen in Hl0.
      simpl in Hl0. rewrite !length_app, length_spaces, Hlen in Hl0. simpl in Hl0. lia. }
    f_equal; lia.
  - cbn [line_end] in Hpost. apply N.eqb_eq in Hpost. subst c.
    rewrite (@consumeLine_at data _ _ H2). unfold ret. f_equal.
    unfold s1, adv. cbn [pos line line_step]. f_equal; lia.
Qed.

Lemma split_lines_nonempty s : split_lines s <> [].
Proof.
  destruct s as [|c s]; [discriminate|]. simpl.
  destruct (c =? LF)%N; [discriminate|]. destruct (split_lines s); discriminate.
Qed.

Lemma join_lines_cons l ls : ls <> [] -> join_lines (l :: ls) = l ++ LF :: join_lines ls.
Proof. destruct ls; [contradiction|reflexivity]. Qed.

Lemma join_split_lines s : join_lines (split_lines s) = s.
Proof.
  induction s as [|c s IH]; [reflexivity|].
  pose proof (split_lines_nonempty s) as Hn. cbn [split_lines].
  destruct (N.eqb_spec c LF) as [->|_].
  - now rewrite (join_lines_cons [] Hn), IH.
  - destruct (split_lines s) as [|l ls]; [contradiction|].
    rewrite <- IH. destruct ls; reflexivity.
Qed.

Lemma split_lines_no_lf s : forallb (fun l => negb (mem LF l)) (split_lines s) = true.
Proof.
  induction s as [|c s IH]; [reflexivity|]. cbn [split_lines].
  destruct (N.eqb_spec c LF) as [->|Hc]; [exact IH|].
  assert (Hm : forall l, mem LF (c :: l) = mem LF l).
  { intros l. unfold mem. cbn [existsb]. apply N.eqb_neq in Hc.
    now rewrite N.eqb_sym, Hc. }
  destruct (split_lines s) as [|l ls]; cbn [forallb] in *; rewrite Hm; [reflexivity|exact IH].
Qed.

Lemma split_lines_snoc_lf s : split_lines (s ++ [LF]) = split_lines s ++ [[]].
Proof.
  induction s as [|c s IH]; [reflexivity|]. simpl.
  destruct (c =? LF)%N; rewrite IH; [reflexivity|].
  pose proof (split_lines_nonempty s) as Hn.
  destruct (split_lines s); [contradiction|reflexivity].
Qed.

Lemma split_lines_snoc s c :
  c <> LF -> exists front x, split_lines (s ++ [c]) = front ++ [x ++ [c]].
Proof.
  intros Hc. induction s as [|d s (front & x & IH)].
  - exists [], []. simpl. apply N.eqb_neq in Hc. now rewrite Hc.
  - simpl. rewrite IH. destruct (d =? LF)%N.
    + exists ([] :: front), x. reflexivity.
    + destruct front as [|f front].
      * exists [], (d :: x). reflexivity.
      * exists ((d :: f) :: front), x. reflexivity.
Qed.

(** The lines of a string, put together again, are the string without its
    last newline. *)
Lemma join_string_lines s : join_lines (string_lines s) = chomp s.
Proof.
  unfold string_lines, chomp.
  destruct (rev s) as [|c front] eqn:E.
  - apply (f_equal (@rev N)) in E. rewrite rev_involutive in E. subst s. reflexivity.
  - apply (f_equal (@rev N)) in E. rewrite rev_involutive in E. simpl in E.
    destruct (N.eqb_spec c LF) as [->|Hc].
    + rewrite E, split_lines_snoc_lf, rev_app_distr. simpl.
      rewrite rev_involutive. apply join_split_lines.
    + destruct (split_lines_snoc (rev front) Hc) as (fr & x & Hs).
      rewrite <- E in Hs. rewrite Hs, rev_app_distr. simpl.
      destruct (x ++ [c]) eqn:Ex; [destruct x; discriminate|].
      rewrite <- Hs. apply join_split_lines.
Qed.

Lemma string_lines_no_lf s : forallb (fun l => negb (mem LF l)) (string_lines s) = true.
Proof.
  pose proof (split_lines_no_lf s) as H. unfold string_lines.
  destruct (rev (split_lines s)) as [|l front] eqn:E; [exact H|].
  destruct l; [|exact H].
  apply (f_equal (@rev (list N))) in E. rewrite rev_involutive in E. simpl in E.
  rewrite E, forallb_app in H. now apply andb_true_iff in H as [H _].
Qed.

Lemma lead_spaces n l : lead (spaces n ++ l) = n + lead l.
Proof. unfold lead, spaces. induction n as [|n IH]; [reflexivity|]. simpl. now rewrite IH. Qed.

Lemma closes_indented delim n l : closes delim (spaces n ++ l) = closes delim l.
Proof.
  unfold closes. rewrite lead_spaces, Nat.add_comm.
  rewrite <- skipn_skipn. now rewrite skipn_spaces.
Qed.

Lemma trim_spaces n : trim (spaces n) = [].
Proof.
  unfold trim, trim_start.
  assert (H : span_len is_js_space (spaces n) = n).
  { unfold spaces. induction n as [|n IH]; [reflexivity|]. simpl. now rewrite IH. }
  pose proof (skipn_spaces n []) as E. rewrite app_nil_r in E.
  rewrite H, E. reflexivity.
Qed.

Lemma processLine_indented k l : processLine k true (spaces (k + 2) ++ l) = l.
Proof.
  unfold processLine. rewrite length_app, length_spaces.
  replace (k + 2 <=? k + 2 + length l) with true by (symmetry; apply Nat.leb_le; lia).
  pose proof (firstn_app_length (spaces (k + 2)) l) as E.
  rewrite length_spaces in E. rewrite E.
  unfold isSpaceString. rewrite trim_spaces. cbn [andb].
  apply skipn_spaces.
Qed.

Lemma join_lines_snoc ls x : join_lines (ls ++ [x]) = unlines ls ++ x.
Proof.
  induction ls as [|l ls IH]; [reflexivity|].
  rewrite unlines_cons. cbn [app join_lines]. rewrite IH.
  destruct (ls ++ [x]) eqn:E; [destruct ls; discriminate|].
  now rewrite <- app_assoc.
Qed.

Lemma fold_push (f : jsstring -> jsstring) (ls : list jsstring) :
  forall lines, fold_left (fun acc l => push acc (f l)) ls lines = lines ++ map f ls.
Proof.
  induction ls as [|l ls IH]; intros lines; simpl.
  - now rewrite app_nil_r.
  - rewrite IH. unfold push. now rewrite <- app_assoc.
Qed.

(** [toString] on a string with a newline, below a key at indent [k]. *)
Lemma toString_block s k lines l :
  mem LF s = true ->
  toString s (k + 2) (lines ++ [l]) = Done (lines ++ (l ++ u "```") :: string_block s k).
Proof.
  intros H. unfold toString. rewrite H.
  replace (k + 2 <? 2) with false by (symmetry; apply Nat.ltb_ge; lia).
  rewrite append_last_snoc. fold (string_lines s).
  rewrite fold_push. unfold push, string_block.
  replace (k + 2 - 2) with k by lia.
  rewrite <- !app_assoc. reflexivity.
Qed.

(** X6.  A string with a newline, written by [toString] below a key as a
    block between backtick delimiters, is read back by [parseValue] as the
    same string without the newline it ends with (if any), provided none of
    its lines starts, after spaces, with three backticks. *)
Theorem multiline_string_round_trip (s : jsstring) (k : nat)
    (lines : list jsstring) (l : jsstring) (data : jsstring) (st : Cursor)
    (post : jsstring) :
  mem LF s = true ->
  forallb (fun x => negb (closes (u "```") x)) (string_lines s) = true ->
  rest data st = u "```" ++ LF :: join_lines (string_block s k) ++ post ->
  line_end post = true ->
  toString s (k + 2) (lines ++ [l]) = Done (lines ++ (l ++ u "```") :: string_block s k)
  /\ parseValue data k st
     = Ok (VStr (chomp s))
          (mkCursor (pos st + length (u "```" ++ LF :: join_lines (string_block s k))
                     + line_step post)
                    (line st + length (string_block s k) + line_step post)).
Proof.
  intros Hs Hfence H Hpost. split; [now apply toString_block|].
  set (body := map (app (spaces (k + 2))) (string_lines s)).
  assert (Hb : forallb (content_line (delimiter true)) body = true).
  { unfold body. rewrite forallb_forall. intros x Hx.
    apply in_map_iff in Hx as (y & <- & Hy).
    pose proof (string_lines_no_lf s) as Hlf. rewrite forallb_forall in Hlf, Hfence.
    unfold content_line, delimiter. rewrite closes_indented, (Hfence y Hy), andb_true_r.
    specialize (Hlf y Hy). apply negb_true_iff in Hlf. apply negb_true_iff.
    unfold mem in *. rewrite existsb_app, Hlf, orb_false_r.
    unfold spaces. clear. induction (k + 2) as [|n IH]; [reflexivity|]. exact IH. }
  assert (Hj : join_lines (string_block s k) = unlines body ++ spaces k ++ u "```")
    by (unfold string_block; apply join_lines_snoc).
  rewrite Hj in H |- *.
  assert (H' : rest data st
               = delimiter true ++ LF :: unlines body ++ spaces k ++ delimiter true ++ post).
  { rewrite H. cbn [delimiter]. rewrite <- !app_assoc. reflexivity. }
  rewrite (@multiline_string_at data k true st body post Hb H' Hpost).
  f_equal.
  - f_equal. unfold body. rewrite map_map.
    rewrite (map_ext _ (fun x => x) (processLine_indented k)), map_id.
    apply join_string_lines.
  - assert (Hlen : length (string_block s k) = length body + 1)
      by (unfold string_block; fold body; rewrite length_app; reflexivity).
    rewrite Hlen, length_app. cbn [length]. rewrite !length_app, length_spaces.
    change (length (u "```")) with 3. f_equal; lia.
Qed.

Lemma multiline_string_round_trip_witness :
  toString (u "a" ++ LF :: u " b" ++ [LF]) 2 [u "k: "]
  = Done [u "k: ```"; u "  a"; u "   b"; u "```"]
  /\ parseValue (u "k: ```" ++ LF :: u "  a" ++ LF :: u "   b" ++ LF :: u "```" ++ [LF])
       0 (mkCursor 3 1)
     = Ok (VStr (u "a" ++ LF :: u " b")) (mkCursor 20 5).
Proof.
  exact (@multiline_string_round_trip (u "a" ++ LF :: u " b" ++ [LF]) 0 [] (u "k: ")
           (u "k: ```" ++ LF :: u "  a" ++ LF :: u "   b" ++ LF :: u "```" ++ [LF])
           (mkCursor 3 1) [LF] eq_refl eq_refl eq_refl eq_refl).
Defined.

(** X7.  A multiline string between triple double quotes is read as its
    content lines, each trimmed of the white space at both ends, joined by
    newlines; the closing delimiter stands at the indentation of the key
    and the cursor ends after its line. *)
Theorem triple_quoted_string_trimmed (data : jsstring) (k : nat) (st : Cursor)
    (body : list jsstring) (post : jsstring) :
  forallb (content_line TRIPLE_QUOTE) body = true ->
  rest data st = TRIPLE_QUOTE ++ LF :: unlines body ++ spaces k ++ TRIPLE_QUOTE ++ post ->
  line_end post = true ->
  parseValue data k st
  = Ok (VStr (join_lines (map trim body)))
       (mkCursor (pos st + 4 + length (unlines body) + k + 3 + line_step post)
                 (line st + 1 + length body + line_step post)).
Proof.
  intros Hb H Hpost.
  exact (@multiline_string_at data k false st body post Hb H Hpost).
Qed.

Lemma triple_quoted_string_trimmed_witness :
  parseValue (u "k: " ++ TRIPLE_QUOTE ++ LF :: u "      a b  " ++ LF :: u "c" ++ LF
                :: TRIPLE_QUOTE)
    0 (mkCursor 3 1)
  = Ok (VStr (u "a b" ++ LF :: u "c")) (mkCursor 24 4).
Proof.
  exact (@triple_quoted_string_trimmed
           (u "k: " ++ TRIPLE_QUOTE ++ LF :: u "      a b  " ++ LF :: u "c" ++ LF
              :: TRIPLE_QUOTE)
           0 (mkCursor 3 1) [u "      a b  "; u "c"] [] eq_refl eq_refl eq_refl).
Defined.

Lemma multiline_loop_done data fuel k preserve delim lines st :
  done data st = true ->
  parseMultilineString_loop data fuel k preserve delim lines st
  = Throw (HUMLError UnclosedMultilineString (line st)) st.
Proof. intros H. destruct fuel; cbn [parseMultilineString_loop]; unfold bind, get; now rewrite H. Qed.

(** X8.  A multiline string whose closing delimiter is missing (no line up
    to the end of the input starts with it) fails with 'unclosed multiline
    string', raised at the end of the input. *)
Theorem multiline_string_unclosed (data : jsstring) (k : nat) (preserve : bool)
    (st : Cursor) (body : list jsstring) (last : jsstring) :
  forallb (content_line (delimiter preserve)) body = true ->
  content_line (delimiter preserve) last = true ->
  rest data st = delimiter preserve ++ LF :: unlines body ++ last ->
  parseValue data k st
  = Throw (HUMLError UnclosedMultilineString (line st + 1 + length body))
      (mkCursor (length data) (line st + 1 + length body)).
Proof.
  intros Hb Hlast H.
  rewrite (@parseValue_multiline data k preserve st _ H).
  rewrite (@parseMultilineString_open data k preserve st body _ Hb H).
  destruct (delimiter_facts preserve) as (Hlen & Hlf & _).
  remember (mkCursor (pos st + 4 + length (unlines body)) (line st + 1 + length body))
    as s1 eqn:Es1.
  assert (H1 : rest data s1 = last).
  { subst s1. unfold rest in *. cbn [pos].
    replace (pos st + 4 + length (unlines body))
      with (length (delimiter preserve ++ LF :: unlines body) + pos st)
      by (rewrite length_app, Hlen; simpl; lia).
    rewrite <- skipn_skipn, H.
    change (delimiter preserve ++ LF :: unlines body ++ last)
      with (delimiter preserve ++ (LF :: unlines body) ++ last).
    rewrite app_assoc. apply skipn_app_length. }
  assert (Hend : pos st + 4 + length (unlines body) + length last = length data).
  { pose proof (rest_length data st) as Hl. rewrite H, length_app, Hlen in Hl.
    simpl in Hl. rewrite length_app in Hl.
    assert (pos st < length data); [|lia].
    destruct (Nat.lt_ge_cases (pos st) (length data)) as [Hlt|Hge]; [exact Hlt|].
    lia. }
  destruct last as [|c r].
  - rewrite multiline_loop_done by (now apply rest_nil_done).
    subst s1. cbn [line]. simpl in Hend. do 2 f_equal. lia.
  - unfold content_line in Hlast. apply andb_true_iff in Hlast as [Hl Hc].
    apply negb_true_iff in Hl, Hc. unfold closes in Hc.
    destruct (rest_head _ _ H1) as (Hd & _).
    cbn [length Nat.add parseMultilineString_loop]. unfold bind at 1, get at 1.
    rewrite Hd, H1. fold (lead (c :: r)).
    unfold bind at 1, advance at 1. unfold bind at 1, get at 1.
    change (mkCursor (pos s1 + lead (c :: r)) (line s1)) with (adv s1 (lead (c :: r))).
    rewrite peekString_rest, rest_adv, H1, Hc.
    unfold bind at 1, set_pos at 1. cbn [pos line adv]. rewrite cursor_eta.
    unfold bind at 1, consumeLineContent at 1, bind at 1, get at 1.
    rewrite (@indexOf_last data s1 _ H1 Hl).
    unfold bind at 1, put at 1, ret at 1.
    rewrite multiline_loop_done; [subst s1; reflexivity|].
    unfold done. cbn [pos]. apply Nat.leb_refl.
Qed.

Lemma multiline_string_unclosed_witness :
  parseValue (u "k: ```" ++ LF :: u "  a" ++ LF :: u " ``") 0 (mkCursor 3 1)
  = Throw (HUMLError UnclosedMultilineString 3) (mkCursor 14 3).
Proof.
  exact (@multiline_string_unclosed (u "k: ```" ++ LF :: u "  a" ++ LF :: u " ``")
           0 true (mkCursor 3 1) [u "  a"] (u " ``") eq_refl eq_refl eq_refl).
Defined.

Lemma closing_misplaced_at (data : jsstring) (k : nat) (preserve : bool)
    (st : Cursor) (body : list jsstring) (m : nat) (post : jsstring) :
  forallb (content_line (delimiter preserve)) body = true ->
  rest data st
  = delimiter preserve ++ LF :: unlines body ++ spaces m ++ delimiter preserve ++ post ->
  m <> k ->
  parseValue data k st
  = Throw (HUMLError (ClosingDelimiterIndent k) (line st + 1 + length body))
      (mkCursor (pos st + 4 + length (unlines body) + m) (line st + 1 + length body)).
Proof.
  intros Hb H Hm.
  rewrite (@parseValue_multiline data k preserve st _ H).
  rewrite (@parseMultilineString_open data k preserve st body _ Hb H).
  destruct (delimiter_facts preserve) as (Hlen & _).
  set (s1 := mkCursor (pos st + 4 + length (unlines body)) (line st + 1 + length body)).
  assert (H1 : rest data s1 = spaces m ++ delimiter preserve ++ post).
  { unfold s1, rest in *. cbn [pos].
    replace (pos st + 4 + length (unlines body))
      with (length (delimiter preserve ++ LF :: unlines body) + pos st)
      by (rewrite length_app, Hlen; simpl; lia).
    rewrite <- skipn_skipn, H.
    change (delimiter preserve ++ LF :: unlines body ++ spaces m ++ delimiter preserve ++ post)
      with (delimiter preserve ++ (LF :: unlines body) ++ spaces m ++ delimiter preserve ++ post).
    rewrite app_assoc. apply skipn_app_length. }
  rewrite !length_app, Hlen. cbn [Nat.add].
  rewrite Nat.add_comm with (n := length (spaces m)). cbn [Nat.add].
  rewrite (@multiline_close data k preserve _ _ s1 m post H1).
  apply Nat.eqb_neq in Hm. rewrite Hm. reflexivity.
Qed.

(** X9.  A closing delimiter that does not stand at the indentation of the
    key is rejected: the error names the indentation of the key and
    carries the line of the delimiter. *)
Theorem closing_delimiter_misplaced (data : jsstring) (k : nat) (preserve : bool)
    (st : Cursor) (body : list jsstring) (m : nat) (post : jsstring) :
  forallb (content_line (delimiter preserve)) body = true ->
  rest data st
  = delimiter preserve ++ LF :: unlines body ++ spaces m ++ delimiter preserve ++ post ->
  m <> k ->
  parseValue data k st
  = Throw (HUMLError (ClosingDelimiterIndent k) (line st + 1 + length body))
      (mkCursor (pos st + 4 + length (unlines body) + m) (line st + 1 + length body)).
Proof.
  intros Hb H Hm.
  exact (@closing_misplaced_at data k preserve st body m post Hb H Hm).
Qed.

Lemma closing_delimiter_misplaced_witness :
  parseValue (u "k: ```" ++ LF :: u "  a" ++ LF :: u "  ```" ++ [LF]) 0 (mkCursor 3 1)
  = Throw (HUMLError (ClosingDelimiterIndent 0) 3) (mkCursor 13 3).
Proof.
  apply (@closing_delimiter_misplaced
           (u "k: ```" ++ LF :: u "  a" ++ LF :: u "  ```" ++ [LF])
           0 true (mkCursor 3 1) [u "  a"] 2 [LF]); [reflexivity|reflexivity|lia].
Defined.

(** ** Further properties: the encoder *)

Section EncoderProperties.

Variable cmp : jsstring -> jsstring -> Z.

Lemma fold_and_then_done A B (step : B -> A -> encoded A) (l : list B) :
  (forall b a, In b l -> exists a', step b a = Done a') ->
  forall a, exists a', fold_left (fun acc b => and_then acc (step b)) l (Done a) = Done a'.
Proof.
  induction l as [|b l IH]; intros H a.
  - exists a. reflexivity.
  - cbn [fold_left and_then]. destruct (H b a (or_introl eq_refl)) as [a' ->].
    apply IH. intros b' a0 Hin. apply H. now right.
Qed.

Lemma toArray_nonempty (arr : list (Value * writer)) indent lines isRootLevel :
  arr <> [] ->
  toArray arr indent lines isRootLevel
  = fold_left (fun acc (item : Value * writer) =>
                 and_then acc (fun lines =>
                   let lines1 := push lines (spaces (if isRootLevel then 0 else indent)
                                               ++ u "- ") in
                   if isVector (fst item)
                   then snd item ((if isRootLevel then 0 else indent) + 2)
                          (append_last lines1 (u "::"))
                   else snd item (if isRootLevel then 0 else indent) lines1))
      arr (Done lines).
Proof. destruct arr; [contradiction|reflexivity]. Qed.

(** Below indent 2 nothing is raised; an object raises at no indent. *)
Lemma toValue_indented v :
  forall indent lines,
    2 <= indent \/ (exists p props, v = VObj p props) ->
    exists lines', toValue cmp v indent lines false = Done lines'.
Proof.
  induction v as [| | | |items IH|proto props IH] using Value_nested_ind;
    intros indent lines Hi.
  1-3: eexists; reflexivity.
  - destruct Hi as [Hi|(p & props & E)]; [|discriminate].
    cbn [toValue]. unfold toString. destruct (mem LF s); [|eexists; reflexivity].
    replace (indent <? 2) with false by (symmetry; apply Nat.ltb_ge; lia).
    eexists; reflexivity.
  - destruct Hi as [Hi|(p & props & E)]; [|discriminate].
    rewrite toValue_array.
    destruct items as [|i items]; [eexists; reflexivity|].
    rewrite toArray_nonempty by discriminate.
    apply (@fold_and_then_done _ _
             (fun (item : Value * writer) lines =>
                let lines1 := push lines (spaces indent ++ u "- ") in
                if isVector (fst item)
                then snd item (indent + 2) (append_last lines1 (u "::"))
                else snd item indent lines1)).
    intros b a Hin. apply in_map_iff in Hin as (x & <- & Hx).
    rewrite Forall_forall in IH. cbn [fst snd].
    destruct (isVector x); apply (IH x Hx); left; lia.
  - destruct props as [|e props]; [eexists; reflexivity|].
    rewrite toValue_object by discriminate. unfold write_entries.
    apply (@fold_and_then_done _ _
             (fun (e : jsstring * Value) lines =>
                writeKeyValuePair (fst e) (snd e)
                  (fun i ls => toValue cmp (snd e) i ls false) indent lines)).
    intros b a Hin. unfold writeKeyValuePair.
    rewrite Forall_forall in IH. apply IH; [|left; lia].
    apply (Permutation_in _ (sort_entries_perm cmp (e :: props))). exact Hin.
Qed.

(** An item of a list at the root. *)
Lemma root_item v lines :
  let lines1 := push lines (spaces 0 ++ u "- ") in
  (if isVector v
   then toValue cmp v (0 + 2) (append_last lines1 (u "::")) false
   else toValue cmp v 0 lines1 false)
  = (if multiline v then Raise RangeError
     else (if isVector v
           then toValue cmp v (0 + 2) (append_last lines1 (u "::")) false
           else toValue cmp v 0 lines1 false))
  /\ (multiline v = false ->
      exists lines',
        (if isVector v
         then toValue cmp v (0 + 2) (append_last lines1 (u "::")) false
         else toValue cmp v 0 lines1 false) = Done lines').
Proof.
  intros lines1. split.
  - destruct v as [|b|x|s|items|proto props]; try reflexivity.
    cbn [multiline isVector toValue]. unfold toString. now destruct (mem LF s).
  - intros Hm. destruct (isVector v) eqn:Hv.
    + apply toValue_indented. left. lia.
    + destruct v as [|b|x|s|items|proto props]; try (eexists; reflexivity).
      * cbn [multiline] in Hm. cbn [toValue]. unfold toString. rewrite Hm.
        eexists; reflexivity.
      * discriminate.
      * apply toValue_indented. right. eauto.
Qed.

Lemma root_items items :
  forall lines,
    fold_left (fun acc (item : Value * writer) =>
                 and_then acc (fun lines =>
                   let lines1 := push lines (spaces 0 ++ u "- ") in
                   if isVector (fst item)
                   then snd item (0 + 2) (append_last lines1 (u "::"))
                   else snd item 0 lines1))
      (map (fun v => (v, (fun i ls => toValue cmp v i ls false) : writer)) items)
      (Done lines)
    = (if existsb multiline items then Raise RangeError
       else fold_left (fun acc (item : Value * writer) =>
                 and_then acc (fun lines =>
                   let lines1 := push lines (spaces 0 ++ u "- ") in
                   if isVector (fst item)
                   then snd item (0 + 2) (append_last lines1 (u "::"))
                   else snd item 0 lines1))
              (map (fun v => (v, (fun i ls => toValue cmp v i ls false) : writer)) items)
              (Done lines))
    /\ (existsb multiline items = false ->
        exists lines',
          fold_left (fun acc (item : Value * writer) =>
                 and_then acc (fun lines =>
                   let lines1 := push lines (spaces 0 ++ u "- ") in
                   if isVector (fst item)
                   then snd item (0 + 2) (append_last lines1 (u "::"))
                   else snd item 0 lines1))
              (map (fun v => (v, (fun i ls => toValue cmp v i ls false) : writer)) items)
              (Done lines) = Done lines').
Proof.
  induction items as [|i items IH]; intros lines.
  - split; [reflexivity|]. intros _. eexists; reflexivity.
  - cbn [map fold_left existsb and_then fst snd].
    destruct (root_item i lines) as [H1 H2]. cbv zeta in H1, H2.
    destruct (multiline i) eqn:Hm.
    + cbn [orb]. rewrite H1. split; [|discriminate].
      apply fold_raise. reflexivity.
    + cbn [orb]. destruct (H2 eq_refl) as [lines' ->]. apply IH.
Qed.

Lemma toValue_root_outcome v lines :
  if unindented_multiline v then toValue cmp v 0 lines true = Raise RangeError
  else exists lines', toValue cmp v 0 lines true = Done lines'.
Proof.
  rewrite toValue_root.
  destruct v as [|b|x|s|items|proto props]; cbn [unindented_multiline];
    try (eexists; reflexivity).
  - cbn [toValue]. unfold toString. destruct (mem LF s); [reflexivity|].
    eexists; reflexivity.
  - rewrite toValue_array.
    destruct items as [|i items]; [eexists; reflexivity|].
    rewrite toArray_nonempty by discriminate.
    destruct (root_items (i :: items) lines) as [H1 H2].
    destruct (existsb multiline (i :: items)); [exact H1|now apply H2].
  - apply toValue_indented. right. eauto.
Qed.

(** X10.  [stringify] throws a [RangeError] exactly when a string with a
    newline is the root value or an item of a list at the root; for every
    other value it returns a text.  Such a string below a key, or in a
    nested list, never makes it throw. *)
Theorem stringify_range_error (v : Value) (includeVersion : bool) :
  if unindented_multiline v
  then stringify cmp v includeVersion = Raise RangeError
  else exists text, stringify cmp v includeVersion = Done text.
Proof.
  unfold stringify.
  pose proof (toValue_root_outcome v
                (if includeVersion then [u "%HUML v0.1.0"; []] else [])) as H.
  destruct (unindented_multiline v).
  - now rewrite H.
  - destruct H as [lines' ->]. eexists; reflexivity.
Qed.

Lemma join_lines_header ls :
  join_lines (push ([VERSION_HEADER; []] ++ ls) [])
  = VERSION_HEADER ++ LF :: LF :: join_lines (push ls []).
Proof.
  rewrite !join_lines_unlines. rewrite unlines_app.
  unfold unlines at 1. cbn [map concat app]. rewrite <- !app_assoc. reflexivity.
Qed.

(** X11.  A root value that is a scalar or an empty list or dict is
    written only with the version header: without it [stringify] returns
    the empty string, which [parse] rejects as an empty document; with it
    the text of the value follows the header on the second line. *)
Theorem root_scalar_needs_header (v : Value) (t : jsstring) :
  inline_text v = Some t ->
  stringify cmp v false = Done []
  /\ parse [] = Throw (JSError EmptyDocument) initial
  /\ stringify cmp v true = Done (VERSION_HEADER ++ LF :: t ++ [LF]).
Proof.
  intros H. split; [|split; [reflexivity|]].
  - destruct v as [|b|x|s|[|i items]|proto [|e props]]; try discriminate; try reflexivity.
    cbn [inline_text] in H. unfold stringify. cbn [toValue]. unfold toString.
    destruct (mem LF s); [discriminate|reflexivity].
  - unfold stringify.
    assert (E : toValue cmp v 0 [u "%HUML v0.1.0"; []] true
                = Done [VERSION_HEADER; t]).
    { destruct v as [|b|x|s|[|i items]|proto [|e props]]; try discriminate;
        cbn [inline_text] in H.
      4: { cbn [toValue]. unfold toString. destruct (mem LF s); [discriminate|].
           injection H as <-. reflexivity. }
      all: injection H as <-; reflexivity. }
    rewrite E. cbn [and_then]. f_equal.
Qed.

Lemma append_last_app pre lines t :
  lines <> [] -> append_last (pre ++ lines) t = pre ++ append_last lines t.
Proof.
  intros H. induction pre as [|a pre IH]; [reflexivity|].
  cbn [app append_last]. rewrite IH.
  destruct (pre ++ lines) eqn:E; [|reflexivity].
  destruct pre; [simpl in E; contradiction|discriminate].
Qed.

Lemma fold_after B (step : B -> list jsstring -> encoded (list jsstring)) pre l :
  (forall b lines, In b l -> step b (pre ++ lines) = after_lines pre (step b lines)) ->
  forall lines,
    fold_left (fun acc b => and_then acc (step b)) l (Done (pre ++ lines))
    = after_lines pre (fold_left (fun acc b => and_then acc (step b)) l (Done lines)).
Proof.
  induction l as [|b l IH]; intros H lines; [reflexivity|].
  cbn [fold_left and_then]. rewrite (H b lines (or_introl eq_refl)).
  destruct (step b lines) as [ls|e]; cbn [after_lines].
  - apply IH. intros b' x Hin. apply H. now right.
  - rewrite !fold_raise by reflexivity. reflexivity.
Qed.

(** The encoder leaves the lines before the last one as they are: with
    more lines in front it writes the same, after them. *)
Lemma toValue_after pre v :
  (forall n lines, lines <> [] ->
     toValue cmp v n (pre ++ lines) false = after_lines pre (toValue cmp v n lines false))
  /\ (is_scalar v = false -> isEmptyVector v = false ->
      forall n lines,
        toValue cmp v n (pre ++ lines) false = after_lines pre (toValue cmp v n lines false)).
Proof.
  induction v as [| | | |items IH|proto props IH] using Value_nested_ind.
  1-3: split; [|discriminate]; intros n lines Hl; cbn [toValue after_lines];
       now rewrite append_last_app.
  - split; [|discriminate]. intros n lines Hl. cbn [toValue]. unfold toString.
    destruct (mem LF s); cbn [after_lines]; [|now rewrite append_last_app].
    destruct (n <? 2); [reflexivity|]. cbn [after_lines].
    rewrite !fold_push, append_last_app by exact Hl. unfold push.
    now rewrite <- !app_assoc.
  - assert (Hstep : forall (b : Value * writer) n lines,
               In b (map (fun v => (v, (fun i ls => toValue cmp v i ls false) : writer)) items) ->
               (fun (item : Value * writer) lines =>
                  let lines1 := push lines (spaces n ++ u "- ") in
                  if isVector (fst item)
                  then snd item (n + 2) (append_last lines1 (u "::"))
                  else snd item n lines1) b (pre ++ lines)
               = after_lines pre
                   ((fun (item : Value * writer) lines =>
                       let lines1 := push lines (spaces n ++ u "- ") in
                       if isVector (fst item)
                       then snd item (n + 2) (append_last lines1 (u "::"))
                       else snd item n lines1) b lines)).
    { intros b n lines Hin. apply in_map_iff in Hin as (x & <- & Hx).
      rewrite Forall_forall in IH. destruct (IH x Hx) as [IHx _].
      cbv beta zeta. cbn [fst snd]. unfold push. rewrite <- app_assoc.
      destruct (isVector x).
      - rewrite append_last_app by (destruct lines; discriminate).
        apply IHx. rewrite append_last_snoc. destruct lines; discriminate.
      - apply IHx. destruct lines; discriminate. }
    split.
    + intros n lines Hl. rewrite !toValue_array.
      destruct items as [|i items].
      * cbn [map toArray after_lines]. now rewrite append_last_app.
      * rewrite !toArray_nonempty by discriminate.
        apply (@fold_after _ (fun (item : Value * writer) lines =>
                  let lines1 := push lines (spaces n ++ u "- ") in
                  if isVector (fst item)
                  then snd item (n + 2) (append_last lines1 (u "::"))
                  else snd item n lines1)).
        intros b ls Hin. now apply Hstep.
    + intros _ He n lines. rewrite !toValue_array.
      destruct items as [|i items]; [discriminate|].
      rewrite !toArray_nonempty by discriminate.
      apply (@fold_after _ (fun (item : Value * writer) lines =>
                let lines1 := push lines (spaces n ++ u "- ") in
                if isVector (fst item)
                then snd item (n + 2) (append_last lines1 (u "::"))
                else snd item n lines1)).
      intros b ls Hin. now apply Hstep.
  - assert (Hobj : props <> [] -> forall n lines,
               toValue cmp (VObj proto props) n (pre ++ lines) false
               = after_lines pre (toValue cmp (VObj proto props) n lines false)).
    { intros Hne n lines. rewrite !toValue_object by exact Hne. unfold write_entries.
      apply (@fold_after _ (fun (e : jsstring * Value) lines =>
                writeKeyValuePair (fst e) (snd e)
                  (fun i ls => toValue cmp (snd e) i ls false) n lines)).
      intros b ls Hin. unfold writeKeyValuePair, push.
      rewrite Forall_forall in IH.
      assert (Hb : In b props)
        by (apply (Permutation_in _ (sort_entries_perm cmp props)); exact Hin).
      destruct (IH b Hb) as [IHb _].
      rewrite <- app_assoc, append_last_app by (destruct ls; discriminate).
      apply IHb. rewrite append_last_snoc. destruct ls; discriminate. }
    split.
    + intros n lines Hl. destruct props as [|e props].
      * cbn [toValue toObject after_lines]. now rewrite append_last_app.
      * apply Hobj. discriminate.
    + intros _ He n lines. destruct props as [|e props]; [discriminate|].
      apply Hobj. discriminate.
Qed.

(** X12.  For a root that is a non-empty list or dict, the version header
    only comes first: [stringify] with [includeVersion] returns the header
    line, an empty line, and then exactly the text it returns without it
    (and throws when it throws without it). *)
Theorem version_header_prefix (v : Value) :
  is_scalar v = false -> isEmptyVector v = false ->
  stringify cmp v true
  = match stringify cmp v false with
    | Done text => Done (VERSION_HEADER ++ LF :: LF :: text)
    | Raise e => Raise e
    end.
Proof.
  intros Hs He. unfold stringify. rewrite !toValue_root.
  destruct (toValue_after [u "%HUML v0.1.0"; []] v) as [_ H].
  specialize (H Hs He 0 []). rewrite app_nil_r in H. rewrite H.
  destruct (toValue cmp v 0 [] false) as [ls|e]; [|reflexivity].
  cbn [after_lines and_then]. f_equal. apply join_lines_header.
Qed.

End EncoderProperties.

Lemma root_scalar_needs_header_witness :
  stringify code_unit_compare (VStr (u "a")) false = Done []
  /\ parse [] = Throw (JSError EmptyDocument) initial
  /\ stringify code_unit_compare (VStr (u "a")) true
     = Done (VERSION_HEADER ++ LF :: (QUOTE :: u "a" ++ [QUOTE]) ++ [LF]).
Proof.
  apply (@root_scalar_needs_header code_unit_compare (VStr (u "a")) (QUOTE :: u "a" ++ [QUOTE])).
  reflexivity.
Defined.

Lemma version_header_prefix_witness :
  stringify code_unit_compare (VObj true [(u "a", VNull)]) true
  = Done (VERSION_HEADER ++ LF :: LF :: u "a: null" ++ [LF]).
Proof.
  apply (@version_header_prefix code_unit_compare (VObj true [(u "a", VNull)]));
    reflexivity.
Defined.

Lemma wp_throw A (c : M A) st e st' :
  c st = Throw e st' -> forall (Q : A -> Cursor -> Prop) (E : exn -> Cursor -> Prop),
  E e st' -> wp c st Q E.
Proof. unfold wp. now intros ->. Qed.

Lemma wp_throws A (c : M A) st e st' :
  wp c st (fun _ _ => False) (fun x s => x = e /\ s = st') -> c st = Throw e st'.
Proof. unfold wp. destruct (c st); [contradiction| |contradiction]. now intros [-> ->]. Qed.

(** X13.  A string with a newline as an item of a nested list: the encoder
    writes its closing delimiter two columns to the left of the dash, and
    the decoder, which wants it in the column of the dash, rejects the
    list the encoder wrote. *)
Theorem list_item_multiline_rejected (cmp : jsstring -> jsstring -> Z)
    (s : jsstring) (k : nat) (items : list Value) (lines : list jsstring)
    (data : jsstring) (fuel : nat) (out : list Value) (st : Cursor) (lsn : nat)
    (more : jsstring) :
  mem LF s = true ->
  forallb (fun x => negb (closes (u "```") x)) (string_lines s) = true ->
  at_line data lsn
    (spaces (k + 2) ++ u "- ```" ++ LF :: join_lines (string_block s k) ++ more) ->
  lsn <= pos st <= lsn + (k + 2) ->
  (exists others,
      toValue cmp (VArr (VStr s :: items)) (k + 2) lines false
      = Done (lines ++ (spaces (k + 2) ++ u "- ```") :: string_block s k ++ others))
  /\ exists st',
      parseMultilineList data (S fuel) (k + 2) out st
      = Throw (HUMLError (ClosingDelimiterIndent (k + 2))
                 (line st + 1 + length (string_lines s))) st'.
Proof.
  intros Hs Hfence Hat Hpos. split.
  - rewrite toValue_array, toArray_nonempty by discriminate.
    cbn [map fold_left and_then fst snd isVector toValue].
    change (push lines (spaces (k + 2) ++ u "- "))
      with (lines ++ [spaces (k + 2) ++ u "- "]).
    rewrite (@toString_block s k lines _ Hs).
    set (X := lines ++ ((spaces (k + 2) ++ u "- ") ++ u "```") :: string_block s k).
    set (l := map (fun v => (v, (fun i ls => toValue cmp v i ls false) : writer)) items).
    set (step := fun (item : Value * writer) (lines0 : list jsstring) =>
                   if isVector (fst item)
                   then snd item (k + 2 + 2)
                          (append_last (push lines0 (spaces (k + 2) ++ u "- ")) (u "::"))
                   else snd item (k + 2) (push lines0 (spaces (k + 2) ++ u "- "))).
    change (exists others,
               fold_left (fun acc b => and_then acc (step b)) l (Done X)
               = Done (lines ++ (spaces (k + 2) ++ u "- ```") :: string_block s k ++ others)).
    assert (Hstep : forall (b : Value * writer) ls, In b l ->
               (exists ls', step b ls = Done ls')
               /\ step b (X ++ ls) = after_lines X (step b ls)).
    { intros b ls Hin. apply in_map_iff in Hin as (x & <- & _).
      unfold step. cbn [fst snd]. unfold push.
      destruct (toValue_after cmp X x) as [Hx _].
      destruct (isVector x).
      - split; [apply toValue_indented; left; lia|].
        rewrite <- app_assoc, append_last_app by (destruct ls; discriminate).
        apply Hx. rewrite append_last_snoc. destruct ls; discriminate.
      - split; [apply toValue_indented; left; lia|].
        rewrite <- app_assoc. apply Hx. destruct ls; discriminate. }
    pose proof (@fold_after _ step X l (fun b ls Hin => proj2 (Hstep b ls Hin)) [])
      as Hfold.
    rewrite app_nil_r in Hfold. rewrite Hfold.
    destruct (@fold_and_then_done _ _ step l (fun b a Hin => proj1 (Hstep b a Hin)) [])
      as [others ->].
    exists others. cbn [after_lines]. unfold X.
    rewrite <- !app_assoc. reflexivity.
  - set (body := map (app (spaces (k + 2))) (string_lines s)).
    assert (Hj : join_lines (string_block s k) = unlines body ++ spaces k ++ u "```")
      by (unfold string_block; apply join_lines_snoc).
    rewrite Hj in Hat.
    assert (Hb : forallb (content_line (delimiter true)) body = true).
    { unfold body. rewrite forallb_forall. intros x Hx.
      apply in_map_iff in Hx as (y & <- & Hy).
      pose proof (string_lines_no_lf s) as Hlf. rewrite forallb_forall in Hlf, Hfence.
      unfold content_line, delimiter. rewrite closes_indented, (Hfence y Hy), andb_true_r.
      specialize (Hlf y Hy). apply negb_true_iff in Hlf. apply negb_true_iff.
      unfold mem in *. rewrite existsb_app, Hlf, orb_false_r.
      unfold spaces. clear. induction (k + 2) as [|n IH]; [reflexivity|]. exact IH. }
    assert (Hat' : at_line data lsn
                     (spaces (k + 2) ++ DASH :: SP
                        :: u "```" ++ LF :: (unlines body ++ spaces k ++ u "```") ++ more))
      by exact Hat.
    destruct (@list_item_dash data (k + 2) st lsn _ Hat' Hpos) as (Hsk & Hd & Hi & Hc & R1).
    set (s0 := mkCursor (lsn + (k + 2)) (line st)) in *.
    change (mkCursor (lsn + (k + 2) + 1) (line st)) with (adv s0 1) in R1.
    assert (R2 : rest data (adv (adv s0 1) 1)
                 = delimiter true ++ LF :: unlines body ++ spaces k ++ delimiter true ++ more).
    { rewrite rest_adv, R1. cbn [skipn delimiter]. rewrite <- !app_assoc. reflexivity. }
    assert (Has : assertSpace data AfterDash (adv s0 1) = Ok tt (adv (adv s0 1) 1)).
    { apply (@assertSpace_at data AfterDash (adv s0 1) BACKTICK
               (u "``" ++ LF :: (unlines body ++ spaces k ++ u "```") ++ more));
        [exact R1|discriminate]. }
    assert (Hne : k <> k + 2) by lia.
    pose proof (@closing_misplaced_at data (k + 2) true (adv (adv s0 1) 1) body k more
                  Hb R2 Hne) as Hv.
    eexists. apply wp_throws.
    cbn [parseMultilineList]. wp_step Hsk. wp_get. rewrite Hd. cbv zeta.
    rewrite Hi, Nat.ltb_irrefl, Nat.eqb_refl, Hc. cbn [negb].
    wp_adv. change (mkCursor (pos s0 + 1) (line s0)) with (adv s0 1).
    wp_step Has. wp_get.
    rewrite peekString_rest, R2. cbn [delimiter prefixb app N.eqb Pos.eqb andb].
    apply wp_bind. apply wp_bind.
    apply (@wp_throw _ _ _ _ _ Hv). split; [|reflexivity].
    unfold s0, body. cbn [line adv]. now rewrite length_map.
Qed.

Lemma list_item_multiline_rejected_witness :
  (exists others,
      toValue code_unit_compare (VArr [VStr (u "a" ++ LF :: u "b")]) 2 [u "k::"] false
      = Done ([u "k::"] ++ (spaces 2 ++ u "- ```") :: string_block (u "a" ++ LF :: u "b") 0
                ++ others))
  /\ exists st',
      parseMultilineList
        (u "k::" ++ LF :: u "  - ```" ++ LF :: u "  a" ++ LF :: u "  b" ++ LF :: u "```" ++ [LF])
        1 2 [] (mkCursor 4 2)
      = Throw (HUMLError (ClosingDelimiterIndent 2) 5) st'.
Proof.
  apply (@list_item_multiline_rejected code_unit_compare (u "a" ++ LF :: u "b") 0 []
           [u "k::"]
           (u "k::" ++ LF :: u "  - ```" ++ LF :: u "  a" ++ LF :: u "  b" ++ LF
              :: u "```" ++ [LF])
           0 [] (mkCursor 4 2) 4 [LF]);
    [reflexivity|reflexivity|split; reflexivity|cbn [pos]; lia].
Defined.

(** ** Further properties: documents *)

Lemma rest_initial data : rest data initial = data.
Proof. reflexivity. Qed.

(** X14.  A header line [%HUML] followed by a space and a version other
    than [v0.1.0] is rejected with the 'unsupported version' error, which
    names the version and carries line 1. *)
Theorem unsupported_version_rejected (ver tail : jsstring) :
  ver <> [] -> forallb version_char ver = true -> version_stop tail = true ->
  ver <> u "v0.1.0" ->
  parse (u "%HUML " ++ ver ++ tail)
  = Throw (HUMLError (UnsupportedVersion ver) 1) (mkCursor (6 + length ver) 1).
Proof.
  intros Hne Hver Hstop Hv.
  set (data := u "%HUML " ++ ver ++ tail).
  assert (H5 : rest data (adv initial 5) = SP :: ver ++ tail) by reflexivity.
  assert (H6 : rest data (adv (adv initial 5) 1) = ver ++ tail) by reflexivity.
  destruct (rest_head _ _ H5) as (Hd5 & _).
  apply wp_throws. unfold parse, parse_.
  change (length data =? 0) with false. cbv iota.
  wp_get. change (peekString data (u "%HUML") initial) with true.
  apply wp_bind. unfold when.
  wp_adv. change (mkCursor (pos initial + 5) (line initial)) with (adv initial 5).
  wp_get. rewrite Hd5, (cur_is_rest _ _ SP H5). cbn [negb andb N.eqb Pos.eqb].
  apply wp_bind.
  wp_adv. change (mkCursor (pos (adv initial 5) + 1) (line (adv initial 5)))
            with (adv (adv initial 5) 1).
  wp_get. rewrite H6.
  change (fun c : N => negb (mem c [SP; LF; HASH])) with version_char.
  rewrite (@span_len_stop_at version_char ver tail Hver Hstop).
  wp_adv. wp_get. cbn [pos line adv initial].
  replace (0 + 5 + 1 <? 0 + 5 + 1 + length ver) with true
    by (symmetry; apply Nat.ltb_lt; destruct ver; [contradiction|simpl; lia]).
  change (0 + 5 + 1) with (pos (adv (adv initial 5) 1)).
  rewrite substring_rest, H6, firstn_app_length.
  assert (Hneq : string_eqb ver (u "v0.1.0") = false).
  { destruct (string_eqb ver (u "v0.1.0")) eqn:E; [|reflexivity].
    apply string_eqb_eq in E. contradiction. }
  rewrite Hneq. cbn [negb].
  apply wp_error. split; reflexivity.
Qed.

Lemma unsupported_version_rejected_witness :
  parse (u "%HUML v0.2.0" ++ LF :: u "a: 1")
  = Throw (HUMLError (UnsupportedVersion (u "v0.2.0")) 1) (mkCursor 12 1).
Proof.
  apply (@unsupported_version_rejected (u "v0.2.0") (LF :: u "a: 1"));
    [discriminate|reflexivity|reflexivity|discriminate].
Defined.

Lemma lead_split l : l = spaces (lead l) ++ skipn (lead l) l.
Proof.
  unfold lead, spaces. induction l as [|c l IH]; [reflexivity|].
  cbn [span_len]. destruct (is_space c) eqn:Ec; [|reflexivity].
  apply N.eqb_eq in Ec. subst c. cbn [repeat skipn app]. now rewrite <- IH.
Qed.

Lemma lead_stop l c r : skipn (lead l) l = c :: r -> c <> SP.
Proof.
  unfold lead. induction l as [|d l IH]; [discriminate|].
  cbn [span_len]. destruct (is_space d) eqn:Ed.
  - cbn [skipn]. exact IH.
  - cbn [skipn]. intros E. injection E as <- _. now apply N.eqb_neq in Ed.
Qed.

Lemma nth_error_spaces m k (l : list N) : k < m -> nth_error (spaces m ++ l) k = Some SP.
Proof.
  revert k. unfold spaces. induction m as [|m IH]; intros k Hk; [lia|].
  destruct k; [reflexivity|]. cbn [repeat app nth_error]. apply IH. lia.
Qed.

Lemma nth_error_after_spaces m c (l : list N) : nth_error (spaces m ++ c :: l) m = Some c.
Proof. unfold spaces. induction m as [|m IH]; [reflexivity|]. exact IH. Qed.

Lemma skipBlankLines_loop_done data fuel st :
  done data st = true -> skipBlankLines_loop data fuel st = Ok tt st.
Proof. intros H. destruct fuel; cbn [skipBlankLines_loop]; unfold bind, get; now rewrite H. Qed.

(** [consumeLine] on a comment line, from the start of the line. *)
Lemma consumeLine_comment data lsn ln m body T :
  at_line data lsn (spaces m ++ HASH :: body ++ LF :: T) -> comment_text body = true ->
  consumeLine data (mkCursor lsn ln)
  = Ok tt (mkCursor (lsn + m + 1 + length body + 1) (ln + 1)).
Proof.
  intros Hat Hc. unfold comment_text in Hc.
  apply andb_true_iff in Hc as [Hc Hlf]. apply andb_true_iff in Hc as [Hhd Hend].
  apply negb_true_iff in Hend, Hlf.
  set (st0 := mkCursor lsn ln).
  assert (R0 : rest data st0 = spaces m ++ HASH :: body ++ LF :: T).
  { pose proof (@at_line_rest data lsn _ ln 0 Hat) as H. rewrite Nat.add_0_r in H. exact H. }
  assert (Hsk : skipSpaces data st0 = Ok tt (adv st0 m))
    by (apply (@skipSpaces_at data st0 m HASH _ R0); discriminate).
  assert (R1 : rest data (adv st0 m) = HASH :: body ++ LF :: T)
    by (rewrite rest_adv, R0; apply skipn_spaces).
  destruct (rest_head _ _ R1) as (Hd1 & Hn1 & _).
  assert (Hlt : pos (adv st0 m) < length data)
    by (unfold done in Hd1; now apply Nat.leb_gt in Hd1).
  assert (Hsp : forall k, lsn <= k -> k < pos (adv st0 m) -> nth_error data k = Some SP).
  { intros k H1 H2. cbn [pos adv st0] in H2.
    replace k with (lsn + (k - lsn)) by lia.
    rewrite (@at_line_nth data lsn _ (k - lsn) Hat). apply nth_error_spaces. lia. }
  assert (Hls : lineStart data (adv st0 m) = lsn).
  { apply lineStart_in_indent; [exact (proj1 Hat)|cbn; lia|exact Hsp|exact Hlt|].
    rewrite Hn1. discriminate. }
  assert (Hci : getCurIndent data (adv st0 m) = m).
  { rewrite (@getCurIndent_in_indent data (adv st0 m) lsn (proj1 Hat)); [cbn; lia|cbn; lia|exact Hsp|exact Hlt| |];
      rewrite Hn1; discriminate. }
  assert (R2 : rest data (adv (adv st0 m) 1) = body ++ LF :: T)
    by (rewrite rest_adv, R1; reflexivity).
  assert (Hd2 : done data (adv (adv st0 m) 1) = false)
    by (apply (@rest_app_done data _ body LF T R2)).
  apply wp_returns. unfold consumeLine.
  wp_get. wp_step Hsk. wp_get.
  rewrite Hd1, (cur_is_rest _ _ LF R1), (cur_is_rest _ _ HASH R1).
  cbn [orb N.eqb Pos.eqb]. apply wp_bind. apply wp_bind.
  apply wp_when.
  { intros Hb. exfalso. apply andb_true_iff in Hb as [_ Hb]. apply negb_true_iff in Hb.
    rewrite Hci, Hls in Hb. cbn [pos adv st0] in Hb. apply Nat.eqb_neq in Hb. lia. }
  intros _. wp_setpos.
  change (mkCursor (pos (adv st0 m) + 1) (line (adv st0 m))) with (adv (adv st0 m) 1).
  wp_get. rewrite Hd2. cbn [negb andb].
  apply wp_when.
  { intros Hb. exfalso. apply negb_true_iff in Hb. destruct body as [|d body].
    - rewrite (cur_is_rest _ _ LF R2), orb_true_r in Hb. discriminate.
    - apply N.eqb_eq in Hhd. subst d. rewrite (cur_is_rest _ _ SP R2) in Hb. discriminate. }
  intros _. wp_get.
  rewrite (@indexOf_line data _ body T R2 Hlf).
  assert (Hsl : slice data (pos (adv (adv st0 m) 1))
                  (Some (pos (adv (adv st0 m) 1) + length body)) = body).
  { unfold slice. fold (rest data (adv (adv st0 m) 1)). rewrite R2.
    pose proof (rest_length data (adv (adv st0 m) 1)) as Hl.
    rewrite R2, length_app in Hl. cbn [length] in Hl.
    rewrite Nat.min_l by lia.
    replace (pos (adv (adv st0 m) 1) + length body - pos (adv (adv st0 m) 1))
      with (length body) by lia.
    apply firstn_app_length. }
  rewrite Hsl, Hend. cbn [andb]. apply wp_bind, wp_ret. apply wp_put.
  split; [reflexivity|]. unfold st0. cbn [pos line adv]. f_equal; lia.
Qed.

Lemma blank_or_comment_skipped data lsn ln l T fuel (Q : unit -> Cursor -> Prop) E :
  blank_or_comment l = true -> at_line data lsn (l ++ LF :: T) ->
  wp (skipBlankLines_loop data fuel) (mkCursor (lsn + length l + 1) (ln + 1)) Q E ->
  wp (skipBlankLines_loop data (S fuel)) (mkCursor lsn ln) Q E.
Proof.
  intros Hl Hat Hk. unfold blank_or_comment in Hl.
  set (st0 := mkCursor lsn ln).
  assert (R0 : rest data st0 = l ++ LF :: T).
  { pose proof (@at_line_rest data lsn _ ln 0 Hat) as H. rewrite Nat.add_0_r in H. exact H. }
  pose proof (@rest_app_done data st0 l LF T R0) as Hd0.
  destruct (skipn (lead l) l) as [|c body] eqn:E0.
  - apply Nat.eqb_eq in Hl. pose proof (lead_split l) as Hs. rewrite E0, Hl in Hs.
    cbn in Hs. subst l. cbn [app length] in *.
    pose proof (@skipSpaces_none data st0 LF T R0 ltac:(discriminate)) as Hsk.
    pose proof (@consumeLine_at data st0 T R0) as Hcl.
    cbn [skipBlankLines_loop]. wp_get. rewrite Hd0. wp_step Hsk. wp_get. rewrite Hd0.
    rewrite (cur_is_rest _ _ LF R0), (cur_is_rest _ _ HASH R0).
    cbn [negb orb andb N.eqb Pos.eqb]. rewrite Nat.ltb_irrefl.
    wp_setpos. change (mkCursor (pos st0) (line st0)) with st0.
    wp_step Hcl. unfold st0. cbn [pos line].
    rewrite Nat.add_0_r in Hk. exact Hk.
  - apply andb_true_iff in Hl as [Hc Hbody]. apply N.eqb_eq in Hc. subst c.
    pose proof (lead_split l) as Hs. rewrite E0 in Hs.
    set (m := lead l) in *.
    assert (Hat' : at_line data lsn (spaces m ++ HASH :: body ++ LF :: T)).
    { rewrite Hs in Hat. rewrite <- app_assoc in Hat. exact Hat. }
    assert (R0' : rest data st0 = spaces m ++ HASH :: body ++ LF :: T).
    { rewrite R0. rewrite Hs at 1. now rewrite <- app_assoc. }
    assert (Hsk : skipSpaces data st0 = Ok tt (adv st0 m))
      by (apply (@skipSpaces_at data st0 m HASH _ R0'); discriminate).
    assert (R1 : rest data (adv st0 m) = HASH :: body ++ LF :: T)
      by (rewrite rest_adv, R0'; apply skipn_spaces).
    destruct (rest_head _ _ R1) as (Hd1 & _).
    pose proof (@consumeLine_comment data lsn ln m body T Hat' Hbody) as Hcl.
    cbn [skipBlankLines_loop]. wp_get. rewrite Hd0. wp_step Hsk. wp_get. rewrite Hd1.
    rewrite (cur_is_rest _ _ LF R1), (cur_is_rest _ _ HASH R1).
    cbn [negb orb andb N.eqb Pos.eqb].
    wp_setpos. change (mkCursor (pos st0) (line (adv st0 m))) with st0.
    wp_step Hcl.
    replace (lsn + m + 1 + length body + 1) with (lsn + length l + 1); [exact Hk|].
    rewrite Hs at 1. rewrite length_app, length_spaces. cbn [length]. lia.
Qed.

Lemma blank_or_comment_lines data ls (Q : unit -> Cursor -> Prop) E :
  forall lsn ln fuel T,
    forallb blank_or_comment ls = true -> at_line data lsn (unlines ls ++ T) ->
    wp (skipBlankLines_loop data fuel)
       (mkCursor (lsn + length (unlines ls)) (ln + length ls)) Q E ->
    wp (skipBlankLines_loop data (length ls + fuel)) (mkCursor lsn ln) Q E.
Proof.
  induction ls as [|l ls IH]; intros lsn ln fuel T Hb Hat Hk.
  - cbn [length unlines map concat Nat.add] in *. now rewrite !Nat.add_0_r in Hk.
  - cbn [forallb] in Hb. apply andb_true_iff in Hb as [Hl Hb].
    rewrite unlines_cons, <- app_assoc in Hat. cbn [app] in Hat.
    cbn [length Nat.add].
    apply (@blank_or_comment_skipped data lsn ln l _ _ Q E Hl Hat).
    apply (IH _ _ _ T Hb (@at_line_next data lsn l _ Hat)).
    rewrite unlines_cons, length_app in Hk. cbn [length] in Hk.
    replace (lsn + length l + 1 + length (unlines ls))
      with (lsn + (length l + S (length (unlines ls)))) by lia.
    replace (ln + 1 + length ls) with (ln + S (length ls)) by lia. exact Hk.
Qed.

(** X15.  A document made only of empty lines and comment lines has no
    root value: [parse] fails with 'empty document', raised at the end of
    the input. *)
Theorem comment_only_document_rejected (ls : list jsstring) :
  ls <> [] -> forallb blank_or_comment ls = true ->
  parse (unlines ls)
  = Throw (HUMLError EmptyDoc (1 + length ls)) (mkCursor (length (unlines ls)) (1 + length ls)).
Proof.
  intros Hne Hb. set (data := unlines ls).
  assert (Hat : at_line data 0 (unlines ls ++ [])) by (rewrite app_nil_r; now split).
  pose proof (unlines_length ls) as Hlen. fold data in Hlen.
  assert (Hdone : done data (mkCursor (0 + length (unlines ls)) (1 + length ls)) = true)
    by (unfold done; cbn [pos]; apply Nat.leb_le; unfold data; lia).
  assert (Hhead : exists c r, data = c :: r /\ (c = LF \/ c = SP \/ c = HASH)).
  { destruct ls as [|l ls]; [contradiction|].
    cbn [forallb] in Hb. apply andb_true_iff in Hb as [Hl _].
    unfold data. rewrite unlines_cons. unfold blank_or_comment in Hl.
    pose proof (lead_split l) as Hs.
    destruct (skipn (lead l) l) as [|c body] eqn:E.
    - apply Nat.eqb_eq in Hl. rewrite Hl in Hs. cbn in Hs. subst l.
      eexists _, _. split; [reflexivity|auto].
    - apply andb_true_iff in Hl as [Hc _]. apply N.eqb_eq in Hc. subst c.
      rewrite Hs. destruct (lead l); cbn; eexists _, _; (split; [reflexivity|auto]). }
  destruct Hhead as (c & r & Ed & Hc).
  assert (Hlen0 : (length data =? 0) = false) by (rewrite Ed; reflexivity).
  apply wp_throws. unfold parse, parse_. fold data. rewrite Hlen0.
  wp_get.
  assert (Hpk : peekString data (u "%HUML") initial = false).
  { unfold peekString. rewrite rest_initial, Ed.
    destruct Hc as [ -> | [ -> | -> ] ]; reflexivity. }
  rewrite Hpk. apply wp_bind, wp_ret.
  apply wp_bind.
  assert (Heq : skipBlankLines data initial
                = skipBlankLines_loop data (length ls + (length data - length ls))
                    (mkCursor 0 1)).
  { unfold skipBlankLines. f_equal. cbn [pos initial]. lia. }
  unfold wp at 1. rewrite Heq.
  apply (@blank_or_comment_lines data ls _ _ 0 1 _ [] Hb Hat).
  apply (@wp_ok _ _ _ _ _ (@skipBlankLines_loop_done data _ _ Hdone)).
  wp_get. rewrite Hdone. apply wp_error. split; reflexivity.
Qed.

Lemma comment_only_document_rejected_witness :
  parse (u "# a note" ++ LF :: LF :: u "  #" ++ [LF])
  = Throw (HUMLError EmptyDoc 4) (mkCursor 14 4).
Proof.
  apply (@comment_only_document_rejected [u "# a note"; []; u "  #"]);
    [discriminate|reflexivity].
Defined.

(** *** Blocks followed by more lines *)

Lemma has_own_after_define k k' v props :
  k = k' \/ has_own k props = true -> has_own k (define_prop k' v props) = true.
Proof.
  intros H. unfold define_prop. destruct (has_own k' props) eqn:E.
  - rewrite has_own_replace. destruct H as [->|H]; assumption.
  - destruct (array_index k').
    + rewrite has_own_insert. destruct H as [-> | ->];
        [now rewrite string_eqb_refl|apply orb_true_r].
    + rewrite has_own_app. destruct H as [-> | ->];
        [rewrite string_eqb_refl; apply orb_true_r|reflexivity].
Qed.

Lemma put_entries_has_own es :
  forall out k,
    fst out = true -> keys_ok (map fst es) = true ->
    forallb (fun k' => negb (has_own k' (snd out))) (map fst es) = true ->
    In k (map fst es) \/ has_own k (snd out) = true ->
    has_own k (snd (put_entries es out)) = true.
Proof.
  induction es as [|[k0 v0] es IH]; intros out k Hp Hk Ho Hin.
  - destruct Hin as [[]|Hin]. exact Hin.
  - cbn [map fst] in *.
    destruct (@fresh_step k0 v0 (map fst es) out Hp Hk Ho) as (_ & Hset & Hk' & Ho').
    unfold put_entries. cbn [fold_left fst snd].
    apply IH; [now rewrite Hset|exact Hk'|exact Ho'|].
    destruct Hin as [[-> | Hin] | Hin]; [right|now left|right];
      rewrite Hset; cbn [snd]; apply has_own_after_define; auto.
Qed.

Lemma tail_ok_block n ls es post :
  dict_lines n ls es -> tail_ok (n + 2) post -> tail_ok (n + 2) (unlines ls ++ post).
Proof.
  intros H Hp. destruct ls as [|l ls]; [exact Hp|].
  destruct (@dict_lines_head n (l :: ls) es post H ltac:(discriminate)) as (c & r & E & Hc & _).
  right. exists n, c, r. split; [exact E|]. split; [lia|exact Hc].
Qed.

Lemma dict_entries_length n ls es : dict_lines n ls es -> length es <= length ls.
Proof.
  induction 1; cbn [length]; rewrite ?length_app; lia.
Qed.

(** One entry with a vector value, in a dict that goes on. *)
Lemma dict_vector_step data fuel n out st lsn k suffix body val T
    (Q : Value -> Cursor -> Prop) E :
  reads_vector (n + 2) suffix body val ->
  at_line data lsn (spaces n ++ quoteKey k ++ COLON :: COLON
                      :: suffix ++ LF :: unlines body ++ T) ->
  tail_ok (n + 2) T ->
  lsn <= pos st <= lsn + n ->
  2 * length body + 2 <= fuel ->
  js_in k (fst out) (snd out) = false ->
  (forall st',
      line st' = line st + 1 + length body ->
      lsn + (n + length (quoteKey k) + 2 + length suffix) + 1 + length (unlines body)
      <= pos st'
      <= lsn + (n + length (quoteKey k) + 2 + length suffix) + 1 + length (unlines body)
         + lead T ->
      wp (parseMultilineDict data fuel n (obj_set k val out)) st' Q E) ->
  wp (parseMultilineDict data (S fuel) n out) st Q E.
Proof.
  intros Hvec Hat Htail Hpos Hfuel Hjs Hk.
  apply (@dict_vector_entry data fuel n out st lsn k _ _ _ Hat Hpos Hjs).
  set (s := mkCursor (lsn + n + length (quoteKey k) + 2) (line st)).
  assert (Hr : rest data s = suffix ++ LF :: unlines body ++ T).
  { unfold s. replace (lsn + n + length (quoteKey k) + 2)
      with (lsn + (n + length (quoteKey k) + 2)) by lia.
    rewrite (@at_line_rest data lsn _ (line st) _ Hat).
    replace (n + length (quoteKey k) + 2)
      with (length (spaces n ++ quoteKey k ++ [COLON; COLON])) by lens.
    transitivity (skipn (length (spaces n ++ quoteKey k ++ [COLON; COLON]))
                    ((spaces n ++ quoteKey k ++ [COLON; COLON])
                       ++ suffix ++ LF :: unlines body ++ T));
      [|apply skipn_app_length].
    f_equal. rewrite <- !app_assoc. reflexivity. }
  destruct (Hvec data fuel s T Hr Htail Hfuel) as (st' & Hrun & Hline & Hp).
  apply (@wp_ok _ _ _ _ _ Hrun). apply Hk.
  - exact Hline.
  - unfold s in Hp. cbn [pos] in Hp. lia.
Qed.

(** What [dict_prefix] states for the lines [ls] of the entries [es]. *)
Lemma dict_vector_prefix n k suffix body val ls es :
  reads_vector (n + 2) suffix body val -> dict_lines n ls es ->
  (forall data fuel out st lsn post (Q : Value -> Cursor -> Prop) E,
      at_line data lsn (unlines ls ++ post) -> tail_ok (n + 2) post ->
      lsn <= pos st <= lsn + lead (unlines ls ++ post) ->
      2 * length ls + 1 <= length es + fuel ->
      fst out = true -> keys_ok (map fst es) = true ->
      forallb (fun k => negb (has_own k (snd out))) (map fst es) = true ->
      (forall st',
          line st' = line st + length ls ->
          lsn + length (unlines ls) <= pos st' <= lsn + length (unlines ls) + lead post ->
          wp (parseMultilineDict data fuel n (put_entries es out)) st' Q E) ->
      wp (parseMultilineDict data (length es + fuel) n out) st Q E) ->
  forall data fuel out st lsn post (Q : Value -> Cursor -> Prop) E,
    at_line data lsn
      (unlines ((spaces n ++ quoteKey k ++ u "::" ++ suffix) :: body ++ ls) ++ post) ->
    tail_ok (n + 2) post ->
    lsn <= pos st
    <= lsn + lead (unlines ((spaces n ++ quoteKey k ++ u "::" ++ suffix)
                              :: body ++ ls) ++ post) ->
    2 * length ((spaces n ++ quoteKey k ++ u "::" ++ suffix) :: body ++ ls) + 1
    <= length ((k, val) :: es) + fuel ->
    fst out = true -> keys_ok (map fst ((k, val) :: es)) = true ->
    forallb (fun k => negb (has_own k (snd out))) (map fst ((k, val) :: es)) = true ->
    (forall st',
        line st' = line st + length ((spaces n ++ quoteKey k ++ u "::" ++ suffix)
                                       :: body ++ ls) ->
        lsn + length (unlines ((spaces n ++ quoteKey k ++ u "::" ++ suffix)
                                 :: body ++ ls))
        <= pos st'
        <= lsn + length (unlines ((spaces n ++ quoteKey k ++ u "::" ++ suffix)
                                    :: body ++ ls)) + lead post ->
        wp (parseMultilineDict data fuel n (put_entries ((k, val) :: es) out))
           st' Q E) ->
    wp (parseMultilineDict data (length ((k, val) :: es) + fuel) n out) st Q E.
Proof.
  intros Hvec Hls IH data fuel out st lsn post Q E
         Hat Htail Hpos Hfuel Hproto Hkeys Hown Hk.
  change (u "::") with [COLON; COLON] in *.
  set (L := spaces n ++ quoteKey k ++ [COLON; COLON] ++ suffix) in *.
  assert (E1 : unlines (L :: body ++ ls) ++ post
               = L ++ LF :: unlines body ++ unlines ls ++ post)
    by (rewrite unlines_cons, unlines_app, <- !app_assoc; simpl;
        rewrite <- ?app_assoc; reflexivity).
  assert (E2 : L ++ LF :: unlines body ++ unlines ls ++ post
               = spaces n ++ quoteKey k ++ COLON :: COLON
                   :: suffix ++ LF :: unlines body ++ unlines ls ++ post)
    by (unfold L; rewrite <- !app_assoc; reflexivity).
  rewrite E1 in Hat, Hpos.
  pose proof (@at_line_block data lsn body L _ Hat) as Hnext.
  rewrite E2 in Hat, Hpos. rewrite lead_key in Hpos.
  destruct (@fresh_step k val (map fst es) out Hproto Hkeys Hown)
    as (Hjs & Hset & Hk' & Hown').
  assert (HL : length L = n + length (quoteKey k) + 2 + length suffix) by (unfold L; lens).
  cbn [length] in Hfuel |- *. rewrite length_app in Hfuel. cbn [Nat.add].
  apply (@dict_vector_step data (length es + fuel) n out st lsn k suffix body val
           (unlines ls ++ post) Q E Hvec Hat
           (@tail_ok_block n ls es post Hls Htail) Hpos); [lia|exact Hjs|].
  intros st' Hline Hp.
  apply (IH data fuel (obj_set k val out) st' (lsn + length L + 1 + length (unlines body))
           post Q E Hnext Htail); [lia|lia|now rewrite Hset|exact Hk'|exact Hown'|].
  intros st'' Hline' Hp'. apply Hk.
  - cbn [length]. rewrite length_app. lia.
  - rewrite unlines_cons, unlines_app, !length_app. cbn [length]. rewrite length_app. lia.
Qed.

(** [parseMultilineDict] over the lines of entries, in a dict that goes
    on after them. *)
Lemma dict_prefix n ls es :
  dict_lines n ls es ->
  forall data fuel out st lsn post (Q : Value -> Cursor -> Prop) E,
    at_line data lsn (unlines ls ++ post) -> tail_ok (n + 2) post ->
    lsn <= pos st <= lsn + lead (unlines ls ++ post) ->
    2 * length ls + 1 <= length es + fuel ->
    fst out = true -> keys_ok (map fst es) = true ->
    forallb (fun k => negb (has_own k (snd out))) (map fst es) = true ->
    (forall st',
        line st' = line st + length ls ->
        lsn + length (unlines ls) <= pos st' <= lsn + length (unlines ls) + lead post ->
        wp (parseMultilineDict data fuel n (put_entries es out)) st' Q E) ->
    wp (parseMultilineDict data (length es + fuel) n out) st Q E.
Proof.
  induction 1 as [n|n k t v ls es Ht Hls IH|n k ls es Hls IH|n k ls es Hls IH
                  |n k body items ls es Hne Hb Hls IH
                  |n k body entries ls es Hne Hb IHb Hkb Hls IH].
  - intros data fuel out st lsn post Q E Hat Htail Hpos Hfuel Hproto Hkeys Hown Hk.
    cbn [length Nat.add]. apply Hk; cbn [length unlines map concat app] in *; lia.
  - intros data fuel out st lsn post Q E Hat Htail Hpos Hfuel Hproto Hkeys Hown Hk.
    change (u ": ") with [COLON; SP] in *.
    set (L := spaces n ++ quoteKey k ++ [COLON; SP] ++ t) in *.
    assert (E1 : unlines (L :: ls) ++ post = L ++ LF :: unlines ls ++ post)
      by (rewrite unlines_cons, <- app_assoc; reflexivity).
    assert (E2 : L ++ LF :: unlines ls ++ post
                 = spaces n ++ quoteKey k ++ COLON :: SP :: t ++ LF :: unlines ls ++ post)
      by (unfold L; rewrite <- !app_assoc; reflexivity).
    rewrite E1 in Hat, Hpos.
    pose proof (@at_line_next data lsn L _ Hat) as Hnext.
    rewrite E2 in Hat, Hpos. rewrite lead_key in Hpos.
    destruct (@fresh_step k v (map fst es) out Hproto Hkeys Hown)
      as (Hjs & Hset & Hk' & Hown').
    assert (HL : length L = n + length (quoteKey k) + 2 + length t) by (unfold L; lens).
    cbn [length] in Hfuel |- *. cbn [Nat.add].
    apply (@dict_scalar_entry data (length es + fuel) n out st lsn k t v _ Q E Ht Hat Hpos Hjs).
    apply (IH data fuel (obj_set k v out)
             (mkCursor (lsn + n + length (quoteKey k) + 2 + length t + 1) (line st + 1))
             (lsn + length L + 1) post Q E Hnext Htail);
      [cbn [pos]; lia|lia|now rewrite Hset|exact Hk'|exact Hown'|].
    intros st' Hline Hp. cbn [line] in Hline. apply Hk.
    + cbn [length]. lia.
    + rewrite unlines_cons, length_app. cbn [length]. lia.
  - apply (@dict_vector_prefix n k (u " []") [] (VArr []) ls es);
      [apply reads_vector_empty_list|exact Hls|exact IH].
  - apply (@dict_vector_prefix n k (u " {}") [] EMPTY_OBJECT ls es);
      [apply reads_vector_empty_dict|exact Hls|exact IH].
  - apply (@dict_vector_prefix n k [] body (VArr items) ls es);
      [|exact Hls|exact IH].
    apply reads_vector_list; [exact Hne|exact Hb|]. now apply (proj2 reads_lines).
  - apply (@dict_vector_prefix n k [] body _ ls es); [|exact Hls|exact IH].
    apply reads_vector_dict; [exact Hne|exact Hb| |exact Hkb]. now apply (proj1 reads_lines).
Qed.

Lemma dict_first_line ls es :
  dict_lines 0 ls es -> ls <> [] ->
  exists k sfx ls',
    ls = (quoteKey k ++ COLON :: sfx) :: ls' /\ ~ In LF sfx
    /\ (ls' = []
        \/ forall post, exists m' c' r',
             unlines ls' ++ post = spaces m' ++ c' :: r'
             /\ is_js_space c' = false /\ c' <> HASH /\ c' <> LF).
Proof.
  intros H Hne.
  assert (Hnext : forall ls0 es0, dict_lines 0 ls0 es0 ->
             ls0 = [] \/ forall post, exists m' c' r',
               unlines ls0 ++ post = spaces m' ++ c' :: r'
               /\ is_js_space c' = false /\ c' <> HASH /\ c' <> LF).
  { intros ls0 es0 H0. destruct ls0 as [|l2 ls0]; [now left|]. right. intros post.
    destruct (@dict_lines_solid 0 (l2 :: ls0) _ post H0 ltac:(discriminate))
      as (c' & r' & E' & H'). exists 0, c', r'. auto. }
  inversion H as [n|n k t v ls0 es0 Ht Hls|n k ls0 es0 Hls|n k ls0 es0 Hls
                  |n k body items ls0 es0 Hb Hl Hls
                  |n k body entries ls0 es0 Hb Hl Hk Hls]; subst; try congruence;
    exists k; cbn [spaces repeat app].
  - exists (SP :: t), ls0. split; [reflexivity|]. split; [|now apply (Hnext _ _ Hls)].
    intros [Hin|Hin]; [discriminate|]. now apply (scalar_text_no_lf Ht) in Hin.
  - exists (u ": []"), ls0. split; [reflexivity|]. split; [|now apply (Hnext _ _ Hls)].
    intros Hin. cbn in Hin. repeat (destruct Hin as [Hin|Hin]; [discriminate|]). contradiction.
  - exists (u ": {}"), ls0. split; [reflexivity|]. split; [|now apply (Hnext _ _ Hls)].
    intros Hin. cbn in Hin. repeat (destruct Hin as [Hin|Hin]; [discriminate|]). contradiction.
  - exists [COLON], (body ++ ls0). split; [reflexivity|].
    split; [intros [Hin|[]]; discriminate|]. right. intros post.
    rewrite unlines_app, <- app_assoc.
    destruct (@list_lines_solid 2 body items (unlines ls0 ++ post) Hl Hb)
      as (c' & r' & E' & H'). exists 2, c', r'. auto.
  - exists [COLON], (body ++ ls0). split; [reflexivity|].
    split; [intros [Hin|[]]; discriminate|]. right. intros post.
    rewrite unlines_app, <- app_assoc.
    destruct (@dict_lines_solid 2 body entries (unlines ls0 ++ post) Hl Hb)
      as (c' & r' & E' & H'). exists 2, c', r'. auto.
Qed.

Lemma key_root_head k :
  exists c r, quoteKey k = c :: r /\ content c = true /\ c <> COLON /\ c <> 37%N.
Proof.
  destruct (key_content k) as (c & r & E & Hc & _).
  exists c, r. split; [exact E|]. split; [exact Hc|].
  destruct (quoteKey_head k) as (c' & r' & Eq & Hq). rewrite Eq in E.
  injection E as -> _. destruct Hq as [[-> _]|[Ha _]].
  - split; discriminate.
  - unfold isAlpha in Ha. apply orb_true_iff in Ha.
    destruct Ha as [Ha|Ha]; apply andb_true_iff in Ha as [H1 H2];
      apply N.leb_le in H1, H2; split; lia.
Qed.

(** The wrapper of [parse] on the lines of a root dict that more lines
    follow: the loop of [parseMultilineDict] goes on after them. *)
Lemma parse_dict_prefix ls es m c r (Q : Value -> Cursor -> Prop) E :
  dict_lines 0 ls es -> ls <> [] -> keys_ok (map fst es) = true ->
  m < 2 -> is_js_space c = false -> c <> HASH -> c <> LF ->
  (forall st',
      line st' = 1 + length ls ->
      length (unlines ls) <= pos st' <= length (unlines ls) + m ->
      wp (parseMultilineDict (unlines ls ++ spaces m ++ c :: r)
            (S (length (unlines ls ++ spaces m ++ c :: r)) - length es) 0
            (put_entries es (true, []))) st' Q E) ->
  wp (parse_ (unlines ls ++ spaces m ++ c :: r)) initial Q E.
Proof.
  intros Hdl Hne Hk Hm Hc1 Hc2 Hc3 Hcont.
  set (post := spaces m ++ c :: r). set (data := unlines ls ++ post).
  assert (Hcc : content c = true).
  { unfold content. destruct (N.eqb_spec c SP) as [->|_]; [discriminate|].
    destruct (N.eqb_spec c LF) as [->|_]; [contradiction|].
    destruct (N.eqb_spec c HASH) as [->|_]; [contradiction|]. reflexivity. }
  destruct (dict_first_line Hdl Hne) as (k & sfx & ls' & Els & Hsfx & Hnext).
  destruct (key_root_head k) as (c0 & r0 & Eq & Hc0 & N1 & N2).
  assert (Ekey : data = quoteKey k ++ COLON :: sfx ++ LF :: unlines ls' ++ post).
  { unfold data. rewrite Els, unlines_cons, <- !app_assoc. reflexivity. }
  assert (Ed : data = c0 :: r0 ++ COLON :: sfx ++ LF :: unlines ls' ++ post)
    by (rewrite Ekey, Eq; reflexivity).
  pose proof (@root_facts data c0 _ Ed Hc0 N1 N2) as F.
  assert (Hinl : hasInlineDictAtRoot data initial = Ok false initial).
  { assert (Hsolid : exists m' c' r', unlines ls' ++ post = spaces m' ++ c' :: r'
                       /\ is_js_space c' = false /\ c' <> HASH /\ c' <> LF).
    { destruct Hnext as [->|Hnext]; [exists m, c, r; auto|apply Hnext]. }
    destruct Hsolid as (m' & c' & r' & E' & H1 & H2 & H3).
    rewrite Ekey.
    replace (quoteKey k ++ COLON :: sfx ++ LF :: unlines ls' ++ post)
      with ((quoteKey k ++ COLON :: sfx) ++ LF :: spaces m' ++ c' :: r')
      by (rewrite <- E', <- app_assoc; reflexivity).
    apply hasInline_more_lines; auto.
    intros Hin. apply in_app_iff in Hin as [Hin|[Hin|Hin]];
      [now apply key_no_lf in Hin|discriminate|contradiction]. }
  pose proof (proj1 lines_length 0 ls es Hdl) as Hlen.
  pose proof (dict_entries_length Hdl) as Hes.
  assert (Hdata : length data = length (unlines ls) + length post)
    by (unfold data; apply length_app).
  assert (Hat : at_line data 0 (unlines ls ++ post))
    by exact (proj2 (proj2 (proj2 (proj2 (proj2 (proj2 (proj2 (proj2 F)))))))).
  assert (Hlead : lead post = m) by (unfold post; now apply lead_content).
  destruct F as (Flen & Fpk & Fs & Fd & Fi & Fp2 & Fp1 & Fr & Fat).
  unfold parse_. fold data. rewrite Flen. wp_get. rewrite Fpk.
  apply wp_bind, wp_ret. wp_step Fs. wp_get. rewrite Fd, Fi, Fp2, Fp1.
  cbn [Nat.eqb negb andb]. apply wp_bind, wp_ret. cbn [negb andb]. apply wp_bind.
  unfold getRootType. wp_step (@hasKeyValuePair_key data k _ Ekey).
  wp_step Hinl. apply wp_ret.
  replace (S (length data)) with (length es + (S (length data) - length es)) by lia.
  apply (@dict_prefix 0 ls es Hdl data _ (true, []) initial 0 post Q E Hat).
  - right. exists m, c, r. split; [reflexivity|]. split; [exact Hm|exact Hcc].
  - cbn [pos initial]. lia.
  - lia.
  - reflexivity.
  - exact Hk.
  - apply forallb_no_own.
  - intros st' Hline Hp. rewrite Hlead in Hp. cbn [line initial] in Hline.
    replace (length es + (S (length data) - length es) - length es)
      with (S (length data) - length es) by lia.
    apply Hcont; [exact Hline|lia].
Qed.

Lemma at_line_after_lines data ls :
  forall lsn post, at_line data lsn (unlines ls ++ post) ->
                   at_line data (lsn + length (unlines ls)) post.
Proof.
  induction ls as [|l ls IH]; intros lsn post Hat.
  - cbn [unlines map concat length app] in *. now rewrite Nat.add_0_r.
  - rewrite unlines_cons, <- app_assoc in Hat. cbn [app] in Hat.
    apply at_line_next in Hat. apply IH in Hat.
    rewrite unlines_cons, length_app. cbn [length].
    replace (lsn + (length l + S (length (unlines ls))))
      with (lsn + length l + 1 + length (unlines ls)) by lia.
    exact Hat.
Qed.

(** The choice of [hasInlineDictAtRoot] on the lines of a dict: the block
    form, unless the document is one line with a scalar value. *)
Lemma dict_doc_choice ls es :
  dict_lines 0 ls es -> ls <> [] ->
  match es with
  | [(k, v)] => negb (isEmptyVector v && mem HASH k)
  | _ => true
  end = true ->
  hasInlineDictAtRoot (unlines ls) initial = Ok false initial
  \/ exists k t x, ls = [quoteKey k ++ u ": " ++ t] /\ es = [(k, x)] /\ scalar_text t x.
Proof.
  intros Hdl Hne Hhash.
  assert (Hmore : forall L1 ls' es', dict_lines 0 ls' es' -> ls' <> [] -> ~ In LF L1 ->
            hasInlineDictAtRoot (unlines (L1 :: ls')) initial = Ok false initial).
  { intros L1 ls' es' H' Hn' HL.
    destruct (@dict_lines_solid 0 ls' es' [] H' Hn') as (c & r & E & Hc1 & Hc2 & Hc3).
    rewrite app_nil_r in E. rewrite unlines_cons, E.
    now apply hasInline_more_lines. }
  assert (Hkey : forall k sfx, ~ In LF sfx -> ~ In LF (spaces 0 ++ quoteKey k ++ sfx)).
  { intros k sfx Hs Hin. cbn [spaces repeat app] in Hin.
    apply in_app_iff in Hin as [Hin|Hin]; [now apply key_no_lf in Hin|contradiction]. }
  assert (Hbody : forall k body ls' c r,
            unlines body ++ unlines ls' = spaces 2 ++ c :: r ->
            is_js_space c = false -> c <> HASH -> c <> LF ->
            hasInlineDictAtRoot
              (unlines ((spaces 0 ++ quoteKey k ++ u "::") :: body ++ ls')) initial
            = Ok false initial).
  { intros k body ls' c r E Hc1 Hc2 Hc3. rewrite unlines_cons, unlines_app, E.
    apply hasInline_more_lines; auto. apply Hkey.
    intros [Hin|[Hin|[]]]; discriminate. }
  assert (Hempty : forall k (open close : N), mem HASH k = false ->
            open <> LF -> open <> HASH -> close <> LF -> close <> HASH ->
            hasInlineDictAtRoot
              (unlines [spaces 0 ++ quoteKey k ++ COLON :: COLON :: SP :: [open; close]])
              initial
            = Ok false initial).
  { intros k open close Hh O1 O2 C1 C2. rewrite unlines_cons. cbn [unlines map concat].
    apply hasInline_vector_line.
    - apply Hkey. intros Hin. cbn in Hin.
      repeat (destruct Hin as [Hin|Hin]; [try discriminate; congruence|]). contradiction.
    - cbn [spaces repeat app]. intros Hin. apply in_app_iff in Hin as [Hin|Hin].
      + now apply (key_no_hash k Hh) in Hin.
      + cbn in Hin.
        repeat (destruct Hin as [Hin|Hin]; [try discriminate; congruence|]). contradiction.
    - cbn [spaces repeat app].
      change (COLON :: COLON :: SP :: [open; close]) with (u "::" ++ SP :: [open; close]).
      apply includes_app. }
  inversion Hdl as [n|n k t v ls0 es0 Ht Hls|n k ls0 es0 Hls|n k ls0 es0 Hls
                    |n k body items ls0 es0 Hb Hl Hls
                    |n k body entries ls0 es0 Hb Hl Hk1 Hls]; subst.
  - congruence.
  - destruct ls0 as [|l2 ls''].
    + right. exists k, t, v. apply dict_lines_nil_inv in Hls. subst es0.
      repeat split; auto.
    + left. apply (Hmore _ _ _ Hls); [discriminate|]. apply Hkey.
      change (u ": ") with [COLON; SP]. intros [Hin|[Hin|Hin]]; try discriminate.
      now apply (scalar_text_no_lf Ht) in Hin.
  - left. destruct ls0 as [|l2 ls''].
    + apply dict_lines_nil_inv in Hls. subst es0.
      cbn [isEmptyVector andb negb] in Hhash. apply negb_true_iff in Hhash.
      apply (Hempty k 91%N 93%N Hhash); discriminate.
    + apply (Hmore _ _ _ Hls); [discriminate|]. apply Hkey.
      intros Hin. cbn in Hin. repeat (destruct Hin as [Hin|Hin]; [discriminate|]).
      contradiction.
  - left. destruct ls0 as [|l2 ls''].
    + apply dict_lines_nil_inv in Hls. subst es0.
      cbn [isEmptyVector EMPTY_OBJECT andb negb] in Hhash. apply negb_true_iff in Hhash.
      apply (Hempty k 123%N 125%N Hhash); discriminate.
    + apply (Hmore _ _ _ Hls); [discriminate|]. apply Hkey.
      intros Hin. cbn in Hin. repeat (destruct Hin as [Hin|Hin]; [discriminate|]).
      contradiction.
  - left.
    destruct (@list_lines_solid 2 body items (unlines ls0) Hl Hb)
      as (c & r & E & Hc1 & Hc2 & Hc3).
    now apply (Hbody k body ls0 c r).
  - left.
    destruct (@dict_lines_solid 2 body entries (unlines ls0) Hl Hb)
      as (c & r & E & Hc1 & Hc2 & Hc3).
    now apply (Hbody k body ls0 c r).
Qed.

(** X16.  A document whose lines are the entries of a dict in block form
    (scalar values, [[]] and [{}], nested blocks of lists and dicts, no
    comments), with distinct keys that are no properties of
    [Object.prototype], decodes to the object of its entries, added in the
    order of the lines.  One document is left out: a single line with an
    empty list or dict under a key that holds a [#]. *)
Theorem block_dict_document_decoded (ls : list jsstring) (es : list (jsstring * Value)) :
  dict_lines 0 ls es -> ls <> [] -> keys_ok (map fst es) = true ->
  match es with
  | [(k, v)] => negb (isEmptyVector v && mem HASH k)
  | _ => true
  end = true ->
  exists st', parse (unlines ls) = Ok (VObj true (snd (build_object es))) st'.
Proof.
  intros Hdl Hne Hk Hhash.
  destruct (dict_doc_choice Hdl Hne Hhash) as [Hinl|(k & t & x & -> & -> & Ht)].
  - eexists. now apply parse_dict_lines.
  - destruct (hasInline_total (unlines [quoteKey k ++ u ": " ++ t]) initial) as [[|] Hinl].
    + exact (@parse_inline_entry k t x Ht Hk Hinl).
    + eexists. now apply parse_dict_lines.
Qed.

Lemma block_dict_document_decoded_witness :
  exists st',
    parse (unlines [u "b:: []"; u "a::"; u "  - 1"; u "  - ::"; u "    k: null";
                    QUOTE :: u "x y" ++ QUOTE :: u ": true"])
    = Ok (VObj true
            (snd (build_object
                    [(u "b", VArr []);
                     (u "a", VArr [num 1; VObj true (snd (build_object [(u "k", VNull)]))]);
                     (u "x y", VBool true)]))) st'.
Proof.
  apply (@block_dict_document_decoded
           [u "b:: []"; u "a::"; u "  - 1"; u "  - ::"; u "    k: null";
            QUOTE :: u "x y" ++ QUOTE :: u ": true"]
           [(u "b", VArr []);
            (u "a", VArr [num 1; VObj true (snd (build_object [(u "k", VNull)]))]);
            (u "x y", VBool true)]);
    [|discriminate|reflexivity|reflexivity].
  apply (@dl_empty_list 0 (u "b")).
  apply (@dl_list 0 (u "a") [u "  - 1"; u "  - ::"; u "    k: null"]
           [num 1; VObj true (snd (build_object [(u "k", VNull)]))]
           [QUOTE :: u "x y" ++ QUOTE :: u ": true"] [(u "x y", VBool true)]).
  - discriminate.
  - apply (@ll_scalar 2 (u "1") (num 1)).
    + apply (@st_number false 1%N 0%Z). reflexivity.
    + apply (@ll_dict 2 [u "    k: null"] [(u "k", VNull)] [] []).
      * discriminate.
      * apply (@dl_scalar 4 (u "k") (u "null") VNull [] []); constructor.
      * reflexivity.
      * constructor.
  - apply (@dl_scalar 0 (u "x y") (u "true") (VBool true) [] []); constructor.
Defined.

(** X17.  A document whose lines are the items of a list in block form
    (a dash and a scalar, or a dash, [::] and a nested block) decodes to
    the list of its items, and the whole input is consumed. *)
Theorem block_list_document_decoded (ls : list jsstring) (items : list Value) :
  list_lines 0 ls items -> ls <> [] ->
  parse (unlines ls)
  = Ok (VArr items) (mkCursor (length (unlines ls)) (1 + length ls)).
Proof.
  intros Hll Hne.
  exact (@parse_list_lines ls items Hll Hne).
Qed.

Lemma block_list_document_decoded_witness :
  parse (unlines [u "- 1"; u "- ::"; u "  - null"])
  = Ok (VArr [num 1; VArr [VNull]]) (mkCursor 18 4).
Proof.
  apply (@block_list_document_decoded [u "- 1"; u "- ::"; u "  - null"]
           [num 1; VArr [VNull]]); [|discriminate].
  apply (@ll_scalar 0 (u "1") (num 1)).
  - apply (@st_number false 1%N 0%Z). reflexivity.
  - apply (@ll_list 0 [u "  - null"] [VNull] [] []).
    + discriminate.
    + apply (@ll_scalar 2 (u "null") VNull [] []); constructor.
    + constructor.
Defined.

(** X18.  In a root dict in block form a key that an earlier entry has
    already set is rejected: the error names the key and carries the line
    of its second occurrence. *)
Theorem duplicate_key_rejected (ls : list jsstring) (es : list (jsstring * Value))
    (k : jsstring) (more : jsstring) :
  dict_lines 0 ls es -> ls <> [] -> keys_ok (map fst es) = true ->
  In k (map fst es) ->
  parse (unlines ls ++ quoteKey k ++ COLON :: more)
  = Throw (HUMLError (DuplicateKey k) (1 + length ls))
      (mkCursor (length (unlines ls) + length (quoteKey k)) (1 + length ls)).
Proof.
  intros Hdl Hne Hk Hin.
  destruct (key_head_solid k) as (c & r & Eq & Hc1 & Hc2 & Hc3).
  set (data := unlines ls ++ quoteKey k ++ COLON :: more).
  assert (Ed : data = unlines ls ++ spaces 0 ++ c :: (r ++ COLON :: more))
    by (unfold data; rewrite Eq; reflexivity).
  assert (Hat : at_line data (0 + length (unlines ls))
                  (spaces 0 ++ quoteKey k ++ COLON :: more)).
  { apply at_line_after_lines. now split. }
  pose proof (dict_entries_length Hdl) as Hes.
  pose proof (unlines_length ls) as Hul.
  assert (Hlen : length data = length (unlines ls) + length (quoteKey k ++ COLON :: more))
    by (unfold data; apply length_app).
  apply wp_throws. unfold parse. fold data. rewrite Ed.
  apply (@parse_dict_prefix ls es 0 c (r ++ COLON :: more) _ _ Hdl Hne Hk);
    [lia|exact Hc1|exact Hc2|exact Hc3|].
  rewrite <- Ed. intros st' Hline Hp.
  destruct (S (length data) - length es) as [|fuel] eqn:Ef; [lia|].
  destruct (@dict_entry_key data 0 st' (0 + length (unlines ls)) k more Hat ltac:(lia))
    as (c' & r' & Hsk & Hd & Hi & Hks & Hpk & _).
  cbn [parseMultilineDict]. wp_step Hsk. wp_get. rewrite Hd. cbv zeta.
  rewrite Hi. cbn [Nat.ltb Nat.leb Nat.eqb negb]. rewrite Hks. cbn [negb].
  wp_step Hpk.
  assert (Hjs : js_in k (fst (put_entries es (true, []))) (snd (put_entries es (true, [])))
                = true).
  { unfold js_in. rewrite (@put_entries_has_own es (true, []) k eq_refl Hk
                             (forallb_no_own _) (or_introl Hin)). reflexivity. }
  rewrite Hjs. apply wp_error. rewrite Hline. split; [reflexivity|].
  f_equal; lia.
Qed.

Lemma duplicate_key_rejected_witness :
  parse (unlines [u "a::"; u "  b: 1"; u "c: 2"] ++ u "a" ++ COLON :: u " 3")
  = Throw (HUMLError (DuplicateKey (u "a")) 4) (mkCursor 17 4).
Proof.
  apply (@duplicate_key_rejected [u "a::"; u "  b: 1"; u "c: 2"]
           [(u "a", VObj true (snd (build_object [(u "b", num 1)]))); (u "c", num 2)]
           (u "a") (u " 3")); [|discriminate|reflexivity|now left].
  apply (@dl_dict 0 (u "a") [u "  b: 1"] [(u "b", num 1)] [u "c: 2"] [(u "c", num 2)]).
  - discriminate.
  - apply (@dl_scalar 2 (u "b") (u "1") (num 1) [] []); [|constructor].
    apply (@st_number false 1%N 0%Z). reflexivity.
  - reflexivity.
  - apply (@dl_scalar 0 (u "c") (u "2") (num 2) [] []); [|constructor].
    apply (@st_number false 1%N 1%Z). reflexivity.
Defined.

(** X19.  After the entries of a root dict in block form, a line indented
    by one space is rejected with the 'bad indent' error, which names the
    indentation found (1) and the one of the dict (0), whatever the line
    holds. *)
Theorem odd_indent_rejected (ls : list jsstring) (es : list (jsstring * Value))
    (c : char) (r : jsstring) :
  dict_lines 0 ls es -> ls <> [] -> keys_ok (map fst es) = true ->
  is_js_space c = false -> c <> HASH ->
  parse (unlines ls ++ SP :: c :: r)
  = Throw (HUMLError (BadIndent 1 0) (1 + length ls))
      (mkCursor (length (unlines ls) + 1) (1 + length ls)).
Proof.
  intros Hdl Hne Hk Hc1 Hc2.
  assert (Hc3 : c <> LF) by (intros ->; discriminate).
  assert (Hcc : content c = true).
  { unfold content. destruct (N.eqb_spec c SP) as [->|_]; [discriminate|].
    destruct (N.eqb_spec c LF) as [->|_]; [contradiction|].
    destruct (N.eqb_spec c HASH) as [->|_]; [contradiction|]. reflexivity. }
  set (data := unlines ls ++ SP :: c :: r).
  assert (Hat : at_line data (0 + length (unlines ls)) (spaces 1 ++ c :: r)).
  { apply at_line_after_lines. now split. }
  pose proof (dict_entries_length Hdl) as Hes.
  pose proof (unlines_length ls) as Hul.
  assert (Hlen : length data = length (unlines ls) + length (SP :: c :: r))
    by (unfold data; apply length_app).
  apply wp_throws. unfold parse. fold data.
  apply (@parse_dict_prefix ls es 1 c r _ _ Hdl Hne Hk);
    [lia|exact Hc1|exact Hc2|exact Hc3|].
  change (unlines ls ++ spaces 1 ++ c :: r) with data. intros st' Hline Hp.
  destruct (S (length data) - length es) as [|fuel] eqn:Ef; [cbn [length] in Hlen; lia|].
  destruct (@line_head data (0 + length (unlines ls)) 1 c r st' Hat Hcc ltac:(lia))
    as (Hsk & Hrest).
  destruct (Hrest (line st')) as (Hd & Hi & _).
  cbn [parseMultilineDict]. wp_step Hsk. wp_get. rewrite Hd. cbv zeta.
  rewrite Hi. cbn [Nat.ltb Nat.leb Nat.eqb negb].
  apply wp_error. rewrite Hline. split; [reflexivity|]. f_equal.
Qed.

Lemma odd_indent_rejected_witness :
  parse (unlines [u "a: 1"] ++ SP :: u "b: 2")
  = Throw (HUMLError (BadIndent 1 0) 2) (mkCursor 6 2).
Proof.
  apply (@odd_indent_rejected [u "a: 1"] [(u "a", num 1)] 98%N (u ": 2"));
    [|discriminate|reflexivity|reflexivity|discriminate].
  apply (@dl_scalar 0 (u "a") (u "1") (num 1) [] []); [|constructor].
  apply (@st_number false 1%N 0%Z). reflexivity.
Defined.

(** ** Further properties: inline vectors *)

Lemma prefixb_app_sep e p t tl :
  mem e p = false -> prefixb p (t ++ e :: tl) = prefixb p t.
Proof.
  revert t. induction p as [|c p IH]; intros t Hp; [reflexivity|].
  unfold mem in Hp, IH. cbn [existsb] in Hp. apply orb_false_iff in Hp as [Hc Hp].
  destruct t as [|d t]; cbn [app prefixb].
  - rewrite N.eqb_sym, Hc. reflexivity.
  - now rewrite IH.
Qed.

Lemma parseNumber_loop_comma len :
  forall t n f g tl, length t <= len ->
    parseNumber_loop t n f = (n + length t, g) ->
    parseNumber_loop (t ++ COMMA :: tl) n f = (n + length t, g).
Proof.
  induction len as [|len IH]; intros t n f g tl Hlen H.
  - destruct t; [|simpl in Hlen; lia]. simpl in *. exact H.
  - destruct t as [|c t]; [simpl in *; exact H|].
    simpl in H |- *.
    destruct (isDigit c || (c =? UNDERSCORE)%N).
    { replace (n + S (length t)) with (S n + length t) in * by lia.
      apply IH; [simpl in Hlen; lia|exact H]. }
    destruct (c =? DOT)%N.
    { replace (n + S (length t)) with (S n + length t) in * by lia.
      apply IH; [simpl in Hlen; lia|exact H]. }
    destruct ((c =? 101) || (c =? 69))%N.
    + destruct t as [|s t].
      * simpl in *. exact H.
      * simpl app. cbv iota beta. destruct ((s =? PLUS) || (s =? DASH))%N.
        -- replace (n + S (length (s :: t))) with (n + 2 + length t) in * by (simpl; lia).
           apply IH; [simpl in Hlen; lia|exact H].
        -- replace (n + S (length (s :: t))) with (S n + length (s :: t)) in * by lia.
           apply (IH (s :: t)); [simpl in Hlen |- *; lia|exact H].
    + injection H as H _. lia.
Qed.

Lemma find_prefix_none_comma t tl :
  existsb (fun pb : jsstring * N => prefixb (fst pb) t) NUMBER_BASE_PREFIXES = false ->
  find (fun pb : jsstring * N => prefixb (fst pb) (t ++ COMMA :: tl)) NUMBER_BASE_PREFIXES
  = None.
Proof.
  unfold NUMBER_BASE_PREFIXES. cbn [existsb find fst]. intros H.
  apply orb_false_iff in H as [H1 H]. apply orb_false_iff in H as [H2 H].
  apply orb_false_iff in H as [H3 _].
  rewrite !(@prefixb_app_sep COMMA) by reflexivity. now rewrite H1, H2, H3.
Qed.

Lemma parseNumber_comma data st x sign t' tl :
  rest data st = sign ++ t' ++ COMMA :: tl ->
  (sign = [] /\ (exists c r, t' = c :: r /\ isDigit c = true) \/ sign = [DASH]) ->
  existsb (fun pb : jsstring * N => prefixb (fst pb) t') NUMBER_BASE_PREFIXES = false ->
  mem UNDERSCORE (sign ++ t') = false ->
  (let (n, isFloat) := parseNumber_loop t' 0 false in
   (n =? length t')
   && number_eqb (if isFloat then parseFloat (sign ++ t') else parseInt (sign ++ t') 10) x)
  = true ->
  parseNumber data st = Ok (VNum x) (adv st (length (sign ++ t'))).
Proof.
  intros H Hs Hp Hu Hn.
  destruct (parseNumber_loop t' 0 false) as [n isFloat] eqn:El.
  apply andb_true_iff in Hn as [Hlen Hx]. apply Nat.eqb_eq in Hlen. subst n.
  apply number_eqb_eq in Hx.
  pose proof (@parseNumber_loop_comma (length t') t' 0 false isFloat tl (le_n _) El) as Ha.
  simpl in Ha.
  unfold parseNumber, bind, get.
  assert (Hst : exists st1, when ((peekChar data (pos st) =? PLUS)
                                   || (peekChar data (pos st) =? DASH))%N
                              (advance 1) st = Ok tt st1
                            /\ st1 = adv st (length sign)
                            /\ rest data st1 = t' ++ COMMA :: tl).
  { destruct Hs as [[-> (c & r & -> & Hc)]| ->].
    - simpl in H. destruct (rest_head _ _ H) as (_ & _ & Hpk). rewrite Hpk.
      destruct (isDigit_not _ Hc) as (_ & _ & -> & -> & _).
      simpl. exists st. unfold ret. rewrite adv_0. auto.
    - simpl in H. destruct (rest_head _ _ H) as (_ & _ & Hpk). rewrite Hpk.
      simpl. exists (adv st 1). repeat split. rewrite rest_adv, H. reflexivity. }
  destruct Hst as (st1 & -> & -> & Hr).
  unfold peekString. rewrite Hr, (find_prefix_none_comma _ _ Hp), Ha.
  unfold advance, ret. unfold adv at 1 2. simpl pos. simpl line.
  f_equal.
  - rewrite <- Nat.add_assoc, substring_rest, H, app_assoc, <- length_app.
    rewrite firstn_app_length, (remove_underscores_id _ Hu). now rewrite Hx.
  - unfold adv. f_equal. rewrite length_app. lia.
Qed.

Lemma parseValue_number_comma data ci st x tl :
  number_text_ok x = true ->
  rest data st = number_to_string x ++ COMMA :: tl ->
  parseValue data ci st = Ok (VNum x) (adv st (length (number_to_string x))).
Proof.
  intros Hx H. destruct (number_text_split _ Hx) as (sign & t' & Ht & Hs & Hd & Hp & Hu & Hn).
  rewrite Ht in *. rewrite <- app_assoc in H.
  destruct Hd as (c & r & -> & Hc).
  destruct (isDigit_not _ Hc) as (C1 & C2 & C3 & C4 & C5 & C6 & C7 & C8 & C9 & C10).
  unfold parseValue, bind, get.
  destruct Hs as [-> | ->].
  - simpl in H. destruct (rest_head _ _ H) as (Hdn & _ & Hpk).
    rewrite Hdn, Hpk, C1, C2. cbn [andb]. unfold peekString. rewrite H.
    rewrite special_none by assumption. rewrite C3, C4, Hc.
    apply (@parseNumber_comma data st x [] (c :: r) tl); auto.
    left. split; eauto.
  - simpl in H. destruct (rest_head _ _ H) as (Hdn & _ & Hpk).
    rewrite Hdn, Hpk. cbn [N.eqb Pos.eqb andb]. unfold peekString. rewrite H.
    rewrite special_none by reflexivity.
    unfold advance. change (mkCursor (pos st + 1) (line st)) with (adv st 1).
    assert (H1 : rest data (adv st 1) = c :: r ++ COMMA :: tl)
      by (rewrite rest_adv, H; reflexivity).
    rewrite H1. change (u "inf") with (105%N :: u "nf"). cbn [prefixb].
    rewrite (N.eqb_sym 105), C10. cbn [andb].
    destruct (rest_head _ _ H1) as (_ & _ & Hpk1). rewrite Hpk1, Hc.
    rewrite set_pos_back.
    apply (@parseNumber_comma data st x [DASH] (c :: r) tl); auto.
Qed.

(** A scalar followed by a comma. *)
Lemma parseValue_scalar_comma data ci st t v tl :
  scalar_text t v ->
  rest data st = t ++ COMMA :: tl ->
  parseValue data ci st = Ok v (adv st (length t)).
Proof.
  intros Ht H.
  destruct Ht.
  1-5: unfold parseValue, bind, get, peekString;
       destruct (rest_head _ _ H) as (Hd & _ & Hp); rewrite Hd, Hp, H; reflexivity.
  - assert (H1 : skipn (pos st + 1) data = u "inf" ++ COMMA :: tl).
    { pose proof (rest_adv data st 1) as E. rewrite H in E. exact E. }
    unfold parseValue, bind, get, peekString.
    destruct (rest_head _ _ H) as (Hd & _ & Hp). rewrite Hd, Hp, H.
    simpl. unfold rest. simpl. rewrite H1. simpl. unfold ret, adv. f_equal. f_equal. lia.
  - now apply parseValue_number_comma with (tl := tl).
  - unfold parseValue, bind, get, peekString.
    unfold JSON_stringify in H. simpl in H.
    destruct (rest_head _ _ H) as (Hd & _ & Hp). rewrite Hd, Hp.
    assert (Htq : prefixb TRIPLE_QUOTE (rest data st) = false).
    { rewrite H. destruct (json_quote_body s) as [|c b] eqn:Eb.
      - reflexivity.
      - apply json_body_head in Eb. apply N.eqb_neq in Eb.
        cbn [app prefixb TRIPLE_QUOTE]. rewrite N.eqb_sym in Eb. rewrite Eb.
        reflexivity. }
    rewrite Htq. cbn [N.eqb Pos.eqb].
    rewrite (@parseString_at data st s (COMMA :: tl)); [reflexivity|].
    unfold JSON_stringify. simpl. exact H.
Qed.

(** A scalar followed by a comma or a newline. *)
Lemma parseValue_scalar_sep data ci st t v e tl :
  scalar_text t v -> e = COMMA \/ e = LF ->
  rest data st = t ++ e :: tl ->
  parseValue data ci st = Ok v (adv st (length t)).
Proof.
  intros Ht [-> | ->] H.
  - now apply parseValue_scalar_comma with (tl := tl).
  - now apply (@parseValue_scalar data ci st t v tl Ht H).
Qed.

Lemma parseNumber_loop_no_space len :
  forall t n f g, length t <= len ->
    parseNumber_loop t n f = (n + length t, g) -> ~ In SP t.
Proof.
  induction len as [|len IH]; intros t n f g Hlen H.
  - destruct t; [auto|simpl in Hlen; lia].
  - destruct t as [|c t]; [auto|].
    simpl in H. intros [Hc|Hin].
    + subst c. simpl in H. injection H as H _. lia.
    + destruct (isDigit c || (c =? UNDERSCORE)%N).
      { replace (n + S (length t)) with (S n + length t) in H by lia.
        apply (IH t (S n) f g) in H; [contradiction|simpl in Hlen; lia]. }
      destruct (c =? DOT)%N.
      { replace (n + S (length t)) with (S n + length t) in H by lia.
        apply (IH t (S n) true g) in H; [contradiction|simpl in Hlen; lia]. }
      destruct ((c =? 101) || (c =? 69))%N.
      * destruct t as [|s t]; [contradiction|].
        destruct ((s =? PLUS) || (s =? DASH))%N eqn:Es.
        -- replace (n + S (length (s :: t))) with (n + 2 + length t) in H by (simpl; lia).
           apply (IH t (n + 2) true g) in H; [|simpl in Hlen; lia].
           destruct Hin as [->|Hin]; [simpl in Es; discriminate|contradiction].
        -- replace (n + S (length (s :: t))) with (S n + length (s :: t)) in H by lia.
           apply (IH (s :: t) (S n) true g) in H; [contradiction|simpl in Hlen |- *; lia].
      * injection H as H _. lia.
Qed.

(** The text of a scalar is not empty, and neither starts nor ends with a
    space. *)
Lemma scalar_text_ends t v :
  scalar_text t v ->
  (exists c r, t = c :: r /\ c <> SP /\ c <> LF /\ c <> HASH /\ c <> COMMA)
  /\ exists front c, t = front ++ [c] /\ c <> SP.
Proof.
  intros H. destruct H.
  1: split; [exists 110%N, (u "ull")|exists (u "nul"), 108%N].
  3: split; [exists 116%N, (u "rue")|exists (u "tru"), 101%N].
  5: split; [exists 102%N, (u "alse")|exists (u "fals"), 101%N].
  7: split; [exists 110%N, (u "an")|exists (u "na"), 110%N].
  9: split; [exists 105%N, (u "nf")|exists (u "in"), 102%N].
  11: split; [exists DASH, (u "inf")|exists (u "-in"), 102%N].
  1-12: repeat split; discriminate.
  - destruct (number_text_split _ H) as (sign & t' & -> & Hs & (c & r & -> & Hc) & _ & _ & Hn).
    destruct (isDigit_not _ Hc) as (C1 & C2 & C3 & C4 & C5 & C6 & _).
    assert (Hc' : c <> SP /\ c <> LF /\ c <> HASH /\ c <> COMMA).
    { unfold isDigit in Hc. apply andb_true_iff in Hc as [H1 H2].
      apply N.leb_le in H1, H2. repeat split; lia. }
    split.
    + destruct Hs as [-> | ->].
      * exists c, r. split; [reflexivity|exact Hc'].
      * exists DASH, (c :: r). repeat split; discriminate.
    + destruct (parseNumber_loop (c :: r) 0 false) as [n isFloat] eqn:El.
      apply andb_true_iff in Hn as [Hlen _]. apply Nat.eqb_eq in Hlen. subst n.
      pose proof (@parseNumber_loop_no_space (length (c :: r)) (c :: r) 0 false isFloat
                    (le_n _) El) as Hno.
      destruct (@exists_last _ (c :: r) ltac:(discriminate)) as (front & z & Ez).
      exists (sign ++ front), z. rewrite Ez, app_assoc. split; [reflexivity|].
      intros ->. apply Hno. rewrite Ez. apply in_or_app. right. now left.
  - split.
    + exists QUOTE, (json_quote_body s ++ [QUOTE]). repeat split; discriminate.
    + exists (QUOTE :: json_quote_body s), QUOTE. split; [reflexivity|discriminate].
Qed.

Lemma inline_items_cons t ts : inline_items (t :: ts) = t ++ more_items ts.
Proof.
  revert t. induction ts as [|t' ts IH]; intros t.
  - cbn. now rewrite app_nil_r.
  - change (inline_items (t :: t' :: ts)) with (t ++ COMMA :: SP :: inline_items (t' :: ts)).
    rewrite IH. reflexivity.
Qed.

Lemma more_items_length ts : length ts <= length (more_items ts).
Proof.
  unfold more_items. induction ts as [|t ts IH]; [simpl; lia|].
  cbn [map concat length]. rewrite length_app. cbn [length]. lia.
Qed.

Lemma more_items_cons t ts : more_items (t :: ts) = COMMA :: SP :: t ++ more_items ts.
Proof. reflexivity. Qed.

Lemma nth_error_rest data st i : nth_error data (pos st + i) = nth_error (rest data st) i.
Proof. unfold rest. now rewrite nth_error_skipn. Qed.

Lemma no_space_before_after data st front c tl :
  rest data st = (front ++ [c]) ++ tl -> c <> SP ->
  no_space_before data (adv st (length (front ++ [c]))) = true.
Proof.
  intros H Hc. unfold no_space_before. cbn [pos adv]. rewrite length_app. cbn [length].
  replace (pos st + (length front + 1) - 1) with (pos st + length front) by lia.
  rewrite nth_error_rest, H, <- app_assoc. cbn [app].
  rewrite nth_error_app2 by lia. rewrite Nat.sub_diag. cbn [nth_error].
  apply N.eqb_neq in Hc. rewrite Hc. now rewrite andb_false_r.
Qed.

(** The comma and the space between two elements. *)
Lemma comma_step data st c tl :
  rest data st = COMMA :: SP :: c :: tl -> c <> SP -> no_space_before data st = true ->
  expectComma data st = Ok tt (adv st 2).
Proof.
  intros H Hc Hprev. unfold no_space_before in Hprev. apply negb_true_iff in Hprev.
  destruct (rest_head _ _ H) as (Hd & _).
  assert (H1 : rest data (adv st 1) = SP :: c :: tl) by (rewrite rest_adv, H; reflexivity).
  apply wp_returns. unfold expectComma.
  wp_step (@skipSpaces_none data st COMMA _ H ltac:(discriminate)).
  wp_get. rewrite Hd, (cur_is_rest _ _ COMMA H). cbn [orb negb N.eqb Pos.eqb].
  rewrite Hprev. wp_adv. change (mkCursor (pos st + 1) (line st)) with (adv st 1).
  apply (@wp_ok _ _ _ _ _ (@assertSpace_at data AfterComma (adv st 1) c tl H1 Hc)).
  split; [reflexivity|]. now rewrite adv_adv.
Qed.

Lemma inline_loop_end data fuel type isFirst obj arr st T :
  rest data st = LF :: T ->
  parseInlineVectorContents_loop data fuel type isFirst obj arr st = Ok (obj, arr) st.
Proof.
  intros H. destruct (rest_head _ _ H) as (Hd & _).
  destruct fuel; cbn [parseInlineVectorContents_loop]; unfold bind, get;
    rewrite Hd, (cur_is_rest _ _ LF H); reflexivity.
Qed.

(** The loop of [parseInlineVectorContents] over the elements of a list
    that follow the first one. *)
Lemma inline_list_more data ts vs :
  Forall2 scalar_text ts vs ->
  forall fuel obj arr st T,
    rest data st = more_items ts ++ LF :: T ->
    no_space_before data st = true -> length ts <= fuel ->
    parseInlineVectorContents_loop data fuel INLINE_LIST false obj arr st
    = Ok (obj, arr ++ vs) (adv st (length (more_items ts))).
Proof.
  induction 1 as [|t v ts vs Ht Hts IH]; intros fuel obj arr st T H Hprev Hfuel.
  - cbn [more_items map concat app length] in *. rewrite app_nil_r, adv_0.
    now apply inline_loop_end with (T := T).
  - destruct fuel as [|fuel]; [simpl in Hfuel; lia|].
    rewrite more_items_cons in H. cbn [app] in H. rewrite <- app_assoc in H.
    destruct (scalar_text_ends Ht) as ((c & r & Et & Hc1 & _) & (front & z & Ez & Hz)).
    assert (Hsep : exists e tl, more_items ts ++ LF :: T = e :: tl /\ (e = COMMA \/ e = LF)).
    { destruct ts as [|t2 ts]; [exists LF, T; auto|].
      unfold more_items. cbn [map concat app]. eexists _, _. split; [reflexivity|auto]. }
    destruct Hsep as (e & tl & Etl & He).
    destruct (rest_head _ _ H) as (Hd & _).
    assert (Hcm : expectComma data st = Ok tt (adv st 2)).
    { apply (@comma_step data st c (r ++ more_items ts ++ LF :: T)); [|exact Hc1|exact Hprev].
      rewrite H, Et. reflexivity. }
    assert (H2 : rest data (adv st 2) = t ++ e :: tl)
      by (rewrite rest_adv, H, <- Etl; reflexivity).
    pose proof (@parseValue_scalar_sep data 0 (adv st 2) t v e tl Ht He H2) as Hv.
    set (s2 := adv (adv st 2) (length t)) in *.
    assert (H3 : rest data s2 = e :: tl)
      by (unfold s2; rewrite rest_adv, H2; apply skipn_app_length).
    destruct (rest_head _ _ H3) as (Hd3 & _).
    assert (Hsp : cur_is data s2 SP = false).
    { rewrite (cur_is_rest _ _ SP H3). destruct He as [-> | ->]; reflexivity. }
    assert (Hprev2 : no_space_before data s2 = true).
    { unfold s2. rewrite Ez. apply (@no_space_before_after data (adv st 2) front z (e :: tl)).
      - now rewrite H2, Ez.
      - exact Hz. }
    apply wp_returns. cbn [parseInlineVectorContents_loop].
    wp_get. rewrite Hd, (cur_is_rest _ _ LF H), (cur_is_rest _ _ HASH H).
    cbn [orb N.eqb Pos.eqb negb]. unfold when at 1. wp_step Hcm.
    apply wp_bind. wp_step Hv. apply wp_ret. cbv beta iota.
    wp_get. rewrite Hd3, Hsp. cbn [negb andb].
    assert (H3m : rest data s2 = more_items ts ++ LF :: T) by (now rewrite H3, Etl).
    apply (@wp_ok _ _ _ _ _
             (IH fuel obj (arr ++ [v]) s2 T H3m Hprev2 ltac:(simpl in Hfuel; lia))).
    split; [now rewrite <- app_assoc|].
    unfold s2. rewrite !adv_adv. f_equal.
    rewrite more_items_cons. cbn [length]. rewrite length_app. lia.
Qed.

(** X20.  The elements of an inline list, scalars separated by a comma
    and a space up to the end of the line, are read by
    [parseInlineVectorContents] as the list of their values, in order. *)
Theorem inline_list_read (data : jsstring) (st : Cursor) (ts : list jsstring)
    (vs : list Value) (T : jsstring) :
  Forall2 scalar_text ts vs -> ts <> [] ->
  rest data st = inline_items ts ++ LF :: T ->
  parseInlineVectorContents data INLINE_LIST st
  = Ok (VArr vs) (mkCursor (pos st + length (inline_items ts) + 1) (line st + 1)).
Proof.
  intros Hts Hne H.
  destruct Hts as [|t v ts vs Ht Hts]; [contradiction|].
  rewrite inline_items_cons in *. rewrite <- app_assoc in H.
  destruct (scalar_text_ends Ht) as ((c & r & Et & Hc1 & Hc2 & Hc3 & _) & (front & z & Ez & Hz)).
  assert (Hsep : exists e tl, more_items ts ++ LF :: T = e :: tl /\ (e = COMMA \/ e = LF)).
  { destruct ts as [|t2 ts]; [exists LF, T; auto|].
    unfold more_items. cbn [map concat app]. eexists _, _. split; [reflexivity|auto]. }
  destruct Hsep as (e & tl & Etl & He).
  assert (H0 : rest data st = c :: r ++ more_items ts ++ LF :: T) by (now rewrite H, Et).
  destruct (rest_head _ _ H0) as (Hd & _).
  assert (H2 : rest data st = t ++ e :: tl) by (now rewrite H, Etl).
  pose proof (@parseValue_scalar_sep data 0 st t v e tl Ht He H2) as Hv.
  set (s2 := adv st (length t)) in *.
  assert (H3 : rest data s2 = more_items ts ++ LF :: T)
    by (unfold s2; rewrite rest_adv, H; apply skipn_app_length).
  assert (H3' : rest data s2 = e :: tl) by (now rewrite H3).
  destruct (rest_head _ _ H3') as (Hd3 & _).
  assert (Hsp : cur_is data s2 SP = false).
  { rewrite (cur_is_rest _ _ SP H3'). destruct He as [-> | ->]; reflexivity. }
  assert (Hprev2 : no_space_before data s2 = true).
  { unfold s2. rewrite Ez. apply (@no_space_before_after data st front z (e :: tl)).
    - now rewrite H2, Ez.
    - exact Hz. }
  pose proof (rest_length data st) as Hlen. rewrite H, !length_app in Hlen.
  pose proof (more_items_length ts) as Hml.
  assert (Hlt : 0 < length t) by (rewrite Et; simpl; lia).
  destruct (length data - pos st) as [|fuel] eqn:Ef; [cbn [length] in Hlen; lia|].
  pose proof (@inline_list_more data ts vs Hts fuel (true, []) [v] s2 T H3 Hprev2
                ltac:(cbn [length] in Hlen; lia)) as Hloop.
  assert (H4 : rest data (adv s2 (length (more_items ts))) = LF :: T)
    by (rewrite rest_adv, H3; apply skipn_app_length).
  apply wp_returns. unfold parseInlineVectorContents. wp_get. rewrite Ef.
  apply wp_bind. cbn [parseInlineVectorContents_loop].
  wp_get. rewrite Hd, (cur_is_rest _ _ LF H0), (cur_is_rest _ _ HASH H0).
  assert (Hnl : (c =? LF)%N = false) by now apply N.eqb_neq.
  assert (Hnh : (c =? HASH)%N = false) by now apply N.eqb_neq.
  rewrite Hnl, Hnh. cbn [orb negb]. unfold when at 1. apply wp_bind, wp_ret.
  apply wp_bind. wp_step Hv. apply wp_ret. cbv beta iota.
  wp_get. rewrite Hd3, Hsp. cbn [negb andb app].
  apply (@wp_ok _ _ _ _ _ Hloop).
  wp_step (@consumeLine_at data _ T H4). apply wp_ret.
  split; [reflexivity|]. unfold s2. cbn [pos line adv]. rewrite length_app. f_equal; lia.
Qed.

Lemma inline_list_read_witness :
  parseInlineVectorContents (u "k:: 80, true, " ++ QUOTE :: u "a, b" ++ [QUOTE; LF])
    INLINE_LIST (mkCursor 4 1)
  = Ok (VArr [num 80; VBool true; VStr (u "a, b")]) (mkCursor 21 2).
Proof.
  apply (@inline_list_read (u "k:: 80, true, " ++ QUOTE :: u "a, b" ++ [QUOTE; LF])
           (mkCursor 4 1) [u "80"; u "true"; QUOTE :: u "a, b" ++ [QUOTE]]
           [num 80; VBool true; VStr (u "a, b")] []); [|discriminate|reflexivity].
  constructor; [apply (@st_number false 5%N 4%Z); reflexivity|].
  constructor; [constructor|].
  constructor; [apply (st_string (u "a, b"))|constructor].
Defined.

(** One entry of an inline dict, from its key on. *)
Lemma inline_entry_read data st k t v e tl :
  scalar_text t v -> e = COMMA \/ e = LF ->
  rest data st = inline_entry k t ++ e :: tl ->
  exists s2,
    s2 = adv st (length (inline_entry k t))
    /\ (key <- parseKey data ;;
        st1 <- get ;;
        if done data st1 || negb (cur_is data st1 COLON) then error ExpectedColonInlineDict
        else
          advance 1 ;;
          assertSpace data InInlineDict ;;
          v <- parseValue data 0 ;;
          ret (key, v)) st = Ok (k, v) s2
    /\ rest data s2 = e :: tl
    /\ cur_is data s2 SP = false /\ done data s2 = false
    /\ no_space_before data s2 = true.
Proof.
  intros Ht He H. unfold inline_entry in *. rewrite <- app_assoc in H. cbn [app] in H.
  destruct (scalar_text_ends Ht) as ((c & r & Et & Hc1 & _) & (front & z & Ez & Hz)).
  destruct (@parseKey_at data st k _ H) as [Hk _].
  set (s1 := adv st (length (quoteKey k))) in *.
  assert (H1 : rest data s1 = COLON :: SP :: t ++ e :: tl)
    by (unfold s1; rewrite rest_adv, H; apply skipn_app_length).
  destruct (rest_head _ _ H1) as (Hd1 & _).
  assert (R2 : rest data (adv s1 1) = SP :: c :: r ++ e :: tl)
    by (rewrite rest_adv, H1, Et; reflexivity).
  pose proof (@assertSpace_at data InInlineDict (adv s1 1) c _ R2 Hc1) as Has.
  assert (R3 : rest data (adv (adv s1 1) 1) = t ++ e :: tl)
    by (rewrite rest_adv, R2, Et; reflexivity).
  pose proof (@parseValue_scalar_sep data 0 _ t v e tl Ht He R3) as Hv.
  set (s2 := adv (adv (adv s1 1) 1) (length t)) in *.
  assert (H3 : rest data s2 = e :: tl)
    by (unfold s2; rewrite rest_adv, R3; apply skipn_app_length).
  destruct (rest_head _ _ H3) as (Hd3 & _).
  exists s2. split.
  { unfold s2, s1. rewrite !adv_adv. f_equal. rewrite length_app. cbn [length]. lia. }
  split.
  { apply wp_returns. wp_step Hk. wp_get.
    rewrite Hd1, (cur_is_rest _ _ COLON H1). cbn [orb negb N.eqb Pos.eqb].
    wp_adv. change (mkCursor (pos s1 + 1) (line s1)) with (adv s1 1).
    wp_step Has. wp_step Hv. apply wp_ret. now split. }
  split; [exact H3|]. split; [|split; [exact Hd3|]].
  - rewrite (cur_is_rest _ _ SP H3). destruct He as [-> | ->]; reflexivity.
  - unfold s2. rewrite Ez.
    apply (@no_space_before_after data (adv (adv s1 1) 1) front z (e :: tl)); [|exact Hz].
    now rewrite R3, Ez.
Qed.

Lemma more_items_sep ts T :
  exists e tl, more_items ts ++ LF :: T = e :: tl /\ (e = COMMA \/ e = LF).
Proof.
  destruct ts as [|t2 ts]; [exists LF, T; auto|].
  rewrite more_items_cons. cbn [app]. eexists _, _. split; [reflexivity|auto].
Qed.

(** The loop of [parseInlineVectorContents] over the entries of a dict
    that follow the first one. *)
Lemma inline_dict_more data es :
  Forall (fun e : jsstring * jsstring * Value => scalar_text (snd (fst e)) (snd e)) es ->
  forall fuel obj arr st T,
    rest data st = more_items (entry_texts es) ++ LF :: T ->
    no_space_before data st = true -> length es <= fuel ->
    parseInlineVectorContents_loop data fuel INLINE_DICT false obj arr st
    = Ok (put_entries (entry_pairs es) obj, arr)
         (adv st (length (more_items (entry_texts es)))).
Proof.
  induction 1 as [|[[k t] v] es Ht Hes IH]; intros fuel obj arr st T H Hprev Hfuel.
  - cbn [entry_texts entry_pairs map more_items concat app length put_entries fold_left] in *.
    rewrite adv_0. now apply inline_loop_end with (T := T).
  - destruct fuel as [|fuel]; [simpl in Hfuel; lia|].
    cbn [entry_texts entry_pairs map fst snd] in *.
    fold (entry_texts es) in *. fold (entry_pairs es) in *.
    rewrite more_items_cons in H. cbn [app] in H. rewrite <- app_assoc in H.
    destruct (more_items_sep (entry_texts es) T) as (e & tl & Etl & He).
    destruct (rest_head _ _ H) as (Hd & _).
    destruct (key_content k) as (c & r & Eq & Hc & _).
    destruct (content_spec _ Hc) as (Hc1 & _).
    assert (Hcm : expectComma data st = Ok tt (adv st 2)).
    { apply (@comma_step data st c
               (r ++ COLON :: SP :: t ++ more_items (entry_texts es) ++ LF :: T));
        [|exact Hc1|exact Hprev].
      rewrite H. unfold inline_entry. rewrite Eq, <- app_assoc. reflexivity. }
    assert (H2 : rest data (adv st 2) = inline_entry k t ++ e :: tl)
      by (rewrite rest_adv, H, <- Etl; reflexivity).
    destruct (@inline_entry_read data (adv st 2) k t v e tl Ht He H2)
      as (s2 & Es2 & Hrun & H3 & Hsp & Hd3 & Hprev2).
    assert (H3m : rest data s2 = more_items (entry_texts es) ++ LF :: T)
      by (now rewrite H3, Etl).
    apply wp_returns. cbn [parseInlineVectorContents_loop].
    wp_get. rewrite Hd, (cur_is_rest _ _ LF H), (cur_is_rest _ _ HASH H).
    cbn [orb N.eqb Pos.eqb negb]. unfold when at 1. wp_step Hcm.
    apply wp_bind. unfold wp at 1.
    assert (Hrun' : (key <- parseKey data ;;
                     st1 <- get ;;
                     if done data st1 || negb (cur_is data st1 COLON)
                     then error ExpectedColonInlineDict
                     else
                       advance 1 ;;
                       assertSpace data InInlineDict ;;
                       v0 <- parseValue data 0 ;;
                       ret (obj_set key v0 obj, arr)) (adv st 2)
                    = Ok (obj_set k v obj, arr) s2).
    { revert Hrun. unfold bind, get, ret, error, advance.
      destruct (parseKey data (adv st 2)) as [key s|x s|]; [|discriminate|discriminate].
      destruct (done data s || negb (cur_is data s COLON)); [discriminate|].
      destruct (assertSpace data InInlineDict _) as [[] s'|x s'|]; [|discriminate|discriminate].
      destruct (parseValue data 0 s') as [v0 s''|x s''|]; [|discriminate|discriminate].
      intros E. injection E as -> -> ->. reflexivity. }
    rewrite Hrun'. cbv beta iota.
    wp_get. rewrite Hd3, Hsp. cbn [negb andb].
    apply (@wp_ok _ _ _ _ _
             (IH fuel (obj_set k v obj) arr s2 T H3m Hprev2 ltac:(simpl in Hfuel; lia))).
    split; [reflexivity|].
    rewrite Es2, !adv_adv. f_equal.
    rewrite more_items_cons. cbn [length]. rewrite length_app. lia.
Qed.

(** X21.  The entries of an inline dict, each a key, a colon, a space and
    a scalar, separated by a comma and a space up to the end of the line,
    are read by [parseInlineVectorContents] as the object obtained by
    assigning the values in order: a key written twice keeps its place
    and takes the later value. *)
Theorem inline_dict_read (data : jsstring) (st : Cursor)
    (es : list (jsstring * jsstring * Value)) (T : jsstring) :
  Forall (fun e : jsstring * jsstring * Value => scalar_text (snd (fst e)) (snd e)) es ->
  es <> [] ->
  rest data st = inline_items (entry_texts es) ++ LF :: T ->
  parseInlineVectorContents data INLINE_DICT st
  = Ok (VObj (fst (put_entries (entry_pairs es) (true, [])))
             (snd (put_entries (entry_pairs es) (true, []))))
       (mkCursor (pos st + length (inline_items (entry_texts es)) + 1) (line st + 1)).
Proof.
  intros Hes Hne H.
  destruct Hes as [|[[k t] v] es Ht Hes]; [contradiction|].
  cbn [entry_texts entry_pairs map fst snd] in *.
  fold (entry_texts es) in *. fold (entry_pairs es) in *.
  rewrite inline_items_cons in *. rewrite <- app_assoc in H.
  destruct (more_items_sep (entry_texts es) T) as (e & tl & Etl & He).
  destruct (key_content k) as (c & r & Eq & Hc & _).
  destruct (content_spec _ Hc) as (Hc1 & Hc2 & Hc3).
  assert (H0 : rest data st = c :: r ++ COLON :: SP :: t ++ more_items (entry_texts es) ++ LF :: T).
  { rewrite H. unfold inline_entry. rewrite Eq, <- app_assoc. reflexivity. }
  destruct (rest_head _ _ H0) as (Hd & _).
  assert (H2 : rest data st = inline_entry k t ++ e :: tl) by (now rewrite H, Etl).
  destruct (@inline_entry_read data st k t v e tl Ht He H2)
    as (s2 & Es2 & Hrun & H3 & Hsp & Hd3 & Hprev2).
  assert (H3m : rest data s2 = more_items (entry_texts es) ++ LF :: T)
    by (now rewrite H3, Etl).
  pose proof (rest_length data st) as Hlen. rewrite H, !length_app in Hlen.
  pose proof (more_items_length (entry_texts es)) as Hml.
  assert (Hel : length (entry_texts es) = length es) by apply length_map.
  assert (Hlt : 0 < length (inline_entry k t))
    by (unfold inline_entry; rewrite Eq; simpl; lia).
  destruct (length data - pos st) as [|fuel] eqn:Ef; [cbn [length] in Hlen; lia|].
  pose proof (@inline_dict_more data es Hes fuel (obj_set k v (true, [])) [] s2 T H3m Hprev2
                ltac:(cbn [length] in Hlen; lia)) as Hloop.
  assert (H4 : rest data (adv s2 (length (more_items (entry_texts es)))) = LF :: T)
    by (rewrite rest_adv, H3m; apply skipn_app_length).
  assert (Hrun' : (key <- parseKey data ;;
                   st1 <- get ;;
                   if done data st1 || negb (cur_is data st1 COLON)
                   then error ExpectedColonInlineDict
                   else
                     advance 1 ;;
                     assertSpace data InInlineDict ;;
                     v0 <- parseValue data 0 ;;
                     ret (obj_set key v0 (true, []), @nil Value)) st
                  = Ok (obj_set k v (true, []), []) s2).
  { revert Hrun. unfold bind, get, ret, error, advance.
    destruct (parseKey data st) as [key s|x s|]; [|discriminate|discriminate].
    destruct (done data s || negb (cur_is data s COLON)); [discriminate|].
    destruct (assertSpace data InInlineDict _) as [[] s'|x s'|]; [|discriminate|discriminate].
    destruct (parseValue data 0 s') as [v0 s''|x s''|]; [|discriminate|discriminate].
    intros E. injection E as -> -> ->. reflexivity. }
  apply wp_returns. unfold parseInlineVectorContents. wp_get. rewrite Ef.
  apply wp_bind. cbn [parseInlineVectorContents_loop].
  wp_get. rewrite Hd, (cur_is_rest _ _ LF H0), (cur_is_rest _ _ HASH H0).
  assert (Hnl : (c =? LF)%N = false) by now apply N.eqb_neq.
  assert (Hnh : (c =? HASH)%N = false) by now apply N.eqb_neq.
  rewrite Hnl, Hnh. cbn [orb negb]. unfold when at 1. apply wp_bind, wp_ret.
  apply wp_bind. unfold wp at 1. rewrite Hrun'. cbv beta iota.
  wp_get. rewrite Hd3, Hsp. cbn [negb andb].
  apply (@wp_ok _ _ _ _ _ Hloop).
  wp_step (@consumeLine_at data _ T H4).
  destruct (put_entries (entry_pairs es) (obj_set k v (true, []))) as [proto props] eqn:Ep.
  apply wp_ret.
  unfold put_entries in *. cbn [fold_left fst snd]. rewrite Ep.
  split; [reflexivity|]. rewrite Es2. cbn [pos line adv]. rewrite length_app. f_equal; lia.
Qed.

Lemma inline_dict_read_witness :
  parseInlineVectorContents (u "k:: a: 1, b: true, a: null" ++ [LF]) INLINE_DICT
    (mkCursor 4 1)
  = Ok (VObj true [(u "a", VNull); (u "b", VBool true)]) (mkCursor 27 2).
Proof.
  apply (@inline_dict_read (u "k:: a: 1, b: true, a: null" ++ [LF]) (mkCursor 4 1)
           [(u "a", u "1", num 1); (u "b", u "true", VBool true); (u "a", u "null", VNull)]
           []); [|discriminate|reflexivity].
  constructor; [apply (@st_number false 1%N 0%Z); reflexivity|].
  constructor; [constructor|].
  constructor; [constructor|constructor].
Defined.

(** ** Further properties: every run of the decoder ends

    Each loop and each call of the mutually recursive methods consumes
    input, so that the fuel of the model is never exhausted; the cursor
    stays inside the input and the line counter never exceeds the number
    of the line the cursor stands on. *)

Section Termination.

Variable data : jsstring.

Local Abbreviation Snd := (sound data).
Local Abbreviation Rng := (in_range data).

Lemma done_false st : done data st = false -> pos st < length data.
Proof. unfold done. intros H. now apply Nat.leb_gt in H. Qed.

Lemma done_true st : done data st = true -> length data <= pos st.
Proof. unfold done. intros H. now apply Nat.leb_le in H. Qed.

Lemma cur_is_lt st c : cur_is data st c = true -> pos st < length data.
Proof.
  unfold cur_is. destruct (nth_error data (pos st)) eqn:E; [|discriminate].
  intros _. apply nth_error_Some. now rewrite E.
Qed.

Lemma line_number_top p : line_number data p <= line_number data (length data).
Proof.
  destruct (Nat.le_gt_cases p (length data)) as [H|H]; [now apply line_number_mono|].
  unfold line_number. rewrite firstn_all2 by lia. now rewrite firstn_all.
Qed.

Lemma sound_error A m st (Q : A -> Cursor -> Prop) : Snd st -> wp (error m) st Q Rng.
Proof.
  intros (_ & H1 & H2). apply wp_error. cbn [in_range].
  pose proof (line_number_top (pos st)). lia.
Qed.

Lemma sound_forward st p :
  Snd st -> pos st <= p -> p <= length data -> Snd (mkCursor p (line st)).
Proof.
  intros (H0 & H1 & H2) Hp Hl. repeat split; cbn [pos line]; try lia.
  etransitivity; [exact H2|]. now apply line_number_mono.
Qed.

Lemma sound_eta st : Snd st -> Snd (mkCursor (pos st) (line st)).
Proof. now destruct st. Qed.

Lemma prefixb_length s l : prefixb s l = true -> length s <= length l.
Proof.
  revert l. induction s as [|c s IH]; intros [|d l]; cbn [prefixb length]; intros H;
    [lia|lia|discriminate|].
  apply andb_true_iff in H as [_ H]. apply IH in H. lia.
Qed.

Lemma peek_length s st :
  peekString data s st = true -> 0 < length s -> pos st + length s <= length data.
Proof.
  unfold peekString. intros H Hs. apply prefixb_length in H.
  pose proof (rest_length data st) as Hl. rewrite Hl in H. lia.
Qed.

Lemma span_inside f st : pos st <= length data ->
  pos st + span_len f (rest data st) <= length data.
Proof.
  intros H. pose proof (span_len_le f (rest data st)). pose proof (rest_length data st). lia.
Qed.

Lemma skipSpaces_ok st (Q : unit -> Cursor -> Prop) :
  Snd st ->
  (forall st', Snd st' -> pos st <= pos st' -> line st' = line st -> Q tt st') ->
  wp (skipSpaces data) st Q Rng.
Proof.
  intros HS HQ. unfold skipSpaces, wp, advance.
  apply HQ; cbn [pos line]; try lia.
  apply sound_forward; [exact HS|lia|]. apply span_inside, HS.
Qed.

Lemma assertSpace_ok ctx st (Q : unit -> Cursor -> Prop) :
  Snd st ->
  (forall st', Snd st' -> pos st < pos st' -> line st' = line st -> Q tt st') ->
  wp (assertSpace data ctx) st Q Rng.
Proof.
  intros HS HQ. unfold assertSpace. wp_get.
  destruct (done data st) eqn:Ed; cbn [orb]; [now apply sound_error|].
  destruct (cur_is data st SP) eqn:Ec; cbn [negb]; [|now apply sound_error].
  apply cur_is_lt in Ec.
  assert (HS1 : Snd (mkCursor (pos st + 1) (line st)))
    by (apply sound_forward; [exact HS|lia|lia]).
  wp_adv. wp_get.
  destruct (negb (done data _) && cur_is data _ SP); [now apply sound_error|].
  apply wp_ret, HQ; cbn [pos line]; auto; lia.
Qed.

Lemma consumeLine_ok st (Q : unit -> Cursor -> Prop) :
  Snd st ->
  (forall st', Snd st' -> pos st <= pos st' ->
               (done data st = false -> pos st < pos st') -> Q tt st') ->
  wp (consumeLine data) st Q Rng.
Proof.
  intros HS HQ. unfold consumeLine.
  wp_get.
  apply wp_bind, skipSpaces_ok; [exact HS|].
  intros st1 HS1 Hpos1 Hline1.
  wp_get.
  assert (Hfin : forall st2, Snd st2 -> pos st <= pos st2 ->
            wp (bind get (fun st3 =>
                  bind (when (ends_with_space (slice data (pos st3) (indexOf data LF (pos st3)))
                              && (0 <? length (slice data (pos st3) (indexOf data LF (pos st3)))))
                          (error TrailingSpaces))
                    (fun _ => match indexOf data LF (pos st3) with
                              | Some nextNewline => put (mkCursor (nextNewline + 1) (line st3 + 1))
                              | None => put (mkCursor (length data) (line st3))
                              end))) st2 Q Rng).
  { intros st2 HS2 Hpos2.
    wp_get.
    pose proof (indexOf_spec data LF (pos st2)) as Hidx.
    destruct (indexOf data LF (pos st2)) as [nl|].
    - destruct Hidx as [Hge [Hnl Hfirst]].
      assert (Hlt : nl < length data) by (apply nth_error_Some; rewrite Hnl; discriminate).
      apply wp_bind, wp_when; [intros _; now apply sound_error|].
      intros _. apply wp_put. apply HQ; cbn [pos line]; try lia.
      destruct HS2 as (H0 & H1 & H2). repeat split; cbn [pos line]; try lia.
      replace (nl + 1) with (S nl) by lia.
      rewrite (line_number_newline _ _ Hnl).
      assert (line_number data (pos st2) <= line_number data nl)
        by (apply line_number_mono; lia).
      lia.
    - apply wp_bind, wp_when; [intros _; now apply sound_error|].
      intros _. apply wp_put. destruct HS2 as (H0 & H1 & H2).
      apply HQ; cbn [pos line].
      + repeat split; cbn [pos line]; try lia.
        etransitivity; [exact H2|]. apply line_number_top.
      + destruct HS. lia.
      + intros Hd. now apply done_false. }
  apply wp_bind.
  destruct (done data st1 || cur_is data st1 LF) eqn:Elf.
  - apply wp_when; [intros _; now apply sound_error|].
    intros _. apply Hfin; [exact HS1|lia].
  - destruct (cur_is data st1 HASH) eqn:Ehash; [|now apply sound_error].
    apply cur_is_lt in Ehash.
    assert (HS2 : Snd (mkCursor (pos st1 + 1) (line st1)))
      by (apply sound_forward; [exact HS1|lia|lia]).
    apply wp_bind, wp_when; [intros _; now apply sound_error|].
    intros _. wp_setpos. wp_get. apply wp_when; [intros _; now apply sound_error|].
    intros _. apply Hfin; [exact HS2|cbn [pos]; lia].
Qed.

Lemma consumeLineContent_ok st (Q : jsstring -> Cursor -> Prop) :
  Snd st ->
  (forall s st', Snd st' -> pos st <= pos st' ->
                 (done data st = false -> pos st < pos st') -> Q s st') ->
  wp (consumeLineContent data) st Q Rng.
Proof.
  intros HS HQ. unfold consumeLineContent. wp_get.
  pose proof (indexOf_spec data LF (pos st)) as Hidx.
  destruct HS as (H0 & H1 & H2).
  destruct (indexOf data LF (pos st)) as [nl|].
  - destruct Hidx as [Hge [Hnl Hfirst]].
    assert (Hlt : nl < length data) by (apply nth_error_Some; rewrite Hnl; discriminate).
    apply wp_bind, wp_put. apply wp_ret. apply HQ; cbn [pos line]; try lia.
    repeat split; cbn [pos line]; try lia.
    replace (nl + 1) with (S nl) by lia.
    rewrite (line_number_newline _ _ Hnl).
    assert (line_number data (pos st) <= line_number data nl)
      by (apply line_number_mono; lia).
    lia.
  - apply wp_bind, wp_put. apply wp_ret. apply HQ; cbn [pos line]; try lia.
    + repeat split; cbn [pos line]; try lia.
      etransitivity; [exact H2|]. apply line_number_top.
    + intros Hd. now apply done_false.
Qed.

Lemma skipBlankLines_loop_ok fuel st (Q : unit -> Cursor -> Prop) :
  Snd st -> length data - pos st <= fuel ->
  (forall st', Snd st' -> pos st <= pos st' -> Q tt st') ->
  wp (skipBlankLines_loop data fuel) st Q Rng.
Proof.
  revert st. induction fuel as [|fuel IH]; intros st HS Hfuel HQ.
  - cbn [skipBlankLines_loop]. wp_get.
    destruct (done data st) eqn:Ed; [apply wp_ret, HQ; auto|].
    apply done_false in Ed. lia.
  - cbn [skipBlankLines_loop]. wp_get.
    destruct (done data st) eqn:Ed; [apply wp_ret, HQ; auto|].
    pose proof (done_false _ Ed) as Hlt.
    apply wp_bind, skipSpaces_ok; [exact HS|].
    intros st1 HS1 Hpos1 Hline1.
    wp_get.
    assert (Hgo : wp (set_pos (pos st) ;; consumeLine data ;; skipBlankLines_loop data fuel)
                    st1 Q Rng).
    { wp_setpos. rewrite Hline1.
      replace (mkCursor (pos st) (line st)) with st by (destruct st; reflexivity).
      apply wp_bind, consumeLine_ok; [exact HS|].
      intros st2 HS2 Hpos2 Hprog. specialize (Hprog Ed).
      apply IH; [exact HS2|lia|].
      intros st' HS' Hpos'. apply HQ; [exact HS'|lia]. }
    destruct (done data st1) eqn:Ed1.
    + apply wp_when; [intros _; now apply sound_error|].
      intros _. apply HQ; [exact HS1|exact Hpos1].
    + destruct (negb (cur_is data st1 LF || cur_is data st1 HASH));
        [apply wp_ret, HQ; auto|].
      destruct (cur_is data st1 LF && (pos st <? pos st1)); [now apply sound_error|].
      exact Hgo.
Qed.

Lemma skipBlankLines_ok st (Q : unit -> Cursor -> Prop) :
  Snd st ->
  (forall st', Snd st' -> pos st <= pos st' -> Q tt st') ->
  wp (skipBlankLines data) st Q Rng.
Proof.
  intros HS HQ. unfold skipBlankLines.
  change (wp (skipBlankLines_loop data (length data - pos st)) st Q Rng).
  now apply skipBlankLines_loop_ok.
Qed.

Lemma expectComma_ok st (Q : unit -> Cursor -> Prop) :
  Snd st ->
  (forall st', Snd st' -> pos st < pos st' -> Q tt st') ->
  wp (expectComma data) st Q Rng.
Proof.
  intros HS HQ. unfold expectComma.
  apply wp_bind, skipSpaces_ok; [exact HS|].
  intros st1 HS1 Hpos1 Hline1. wp_get.
  destruct (done data st1) eqn:Ed; cbn [orb]; [now apply sound_error|].
  destruct (cur_is data st1 COMMA) eqn:Ec; cbn [negb]; [|now apply sound_error].
  apply cur_is_lt in Ec.
  destruct ((0 <? pos st1) && _); [now apply sound_error|].
  wp_adv. apply assertSpace_ok.
  - apply sound_forward; [exact HS1|lia|lia].
  - intros st' HS' Hp _. apply HQ; [exact HS'|cbn [pos] in Hp; lia].
Qed.


Lemma parseString_loop_inside len :
  forall s n result, length s <= len ->
    match parseString_loop s n result with
    | ScanOk _ m => n < m /\ m <= n + length s
    | ScanErr _ _ => True
    end.
Proof.
  induction len as [|len IH]; intros s n result Hlen.
  - destruct s; [exact I|simpl in Hlen; lia].
  - destruct s as [|c s1]; [exact I|].
    cbn [parseString_loop length] in *.
    destruct (c =? QUOTE)%N; [lia|].
    destruct (c =? LF)%N; [exact I|].
    destruct (c =? BACKSLASH)%N.
    + destruct s1 as [|esc s2]; [exact I|].
      destruct (ESCAPE_MAP esc) as [x|].
      * specialize (IH s2 (n + 2) (result ++ [x])).
        destruct (parseString_loop s2 (n + 2) (result ++ [x])); [|exact I].
        cbn [length] in *. destruct IH; lia.
      * destruct (esc =? 117)%N; [|exact I].
        destruct s2 as [|h1 [|h2 [|h3 [|h4 s3]]]]; try exact I.
        destruct (parseInt [h1; h2; h3; h4] 16) as [|neg|neg m e]; [exact I| |].
        -- specialize (IH s3 (n + 6) (result ++ [fromCharCode (Infinity neg)])).
           destruct (parseString_loop s3 (n + 6) _); [|exact I].
           cbn [length] in *. destruct IH; lia.
        -- specialize (IH s3 (n + 6) (result ++ [fromCharCode (Finite neg m e)])).
           destruct (parseString_loop s3 (n + 6) _); [|exact I].
           cbn [length] in *. destruct IH; lia.
    + specialize (IH s1 (S n) (result ++ [c])).
      destruct (parseString_loop s1 (S n) (result ++ [c])); [|exact I].
      destruct IH; lia.
Qed.

Lemma parseString_ok st (Q : jsstring -> Cursor -> Prop) :
  Snd st -> pos st < length data ->
  (forall s st', Snd st' -> pos st < pos st' -> line st' = line st -> Q s st') ->
  wp (parseString data) st Q Rng.
Proof.
  intros HS Hlt HQ. unfold parseString.
  wp_adv. wp_get. cbn [pos line].
  pose proof (@parseString_loop_inside
                (length (rest data (mkCursor (pos st + 1) (line st))))
                (rest data (mkCursor (pos st + 1) (line st))) 0 [] (le_n _)) as Hb.
  pose proof (rest_length data (mkCursor (pos st + 1) (line st))) as Hl.
  cbn [pos] in Hl.
  destruct (parseString_loop _ 0 []) as [s m|e m].
  - wp_setpos. apply wp_ret, HQ; cbn [pos line]; try lia.
    apply sound_forward; [exact HS|lia|lia].
  - wp_setpos. destruct HS as (H0 & H1 & H2). apply wp_error. cbn [in_range line].
    pose proof (line_number_top (pos st)). lia.
Qed.

Lemma peekChar_lt st c : peekChar data (pos st) = c -> c <> 0%N -> pos st < length data.
Proof.
  unfold peekChar. intros H Hc.
  destruct (Nat.lt_ge_cases (pos st) (length data)) as [Hlt|Hge]; [exact Hlt|].
  rewrite nth_overflow in H by exact Hge. congruence.
Qed.

Lemma parseKey_ok st (Q : jsstring -> Cursor -> Prop) :
  Snd st ->
  (forall s st', Snd st' -> pos st < pos st' -> line st' = line st -> Q s st') ->
  wp (parseKey data) st Q Rng.
Proof.
  intros HS HQ. unfold parseKey.
  apply wp_bind, skipSpaces_ok; [exact HS|].
  intros st1 HS1 Hpos1 Hline1. wp_get.
  destruct (N.eqb_spec (peekChar data (pos st1)) QUOTE) as [Eq|Eq].
  - apply parseString_ok; [exact HS1|apply (peekChar_lt _ Eq); discriminate|].
    intros s st' HS' Hp Hl. apply HQ; [exact HS'|lia|congruence].
  - wp_adv. wp_get. cbn [pos].
    destruct (Nat.eqb_spec (pos st1 + span_len is_key_char (rest data st1)) (pos st1)) as [E|E].
    + apply sound_error. rewrite E. now apply sound_eta.
    + apply wp_ret, HQ; cbn [pos line]; try lia.
      apply sound_forward; [exact HS1|lia|]. apply span_inside, HS1.
Qed.

Lemma parseIndicator_ok st (Q : bool -> Cursor -> Prop) :
  Snd st ->
  (forall b st', Snd st' -> pos st < pos st' -> line st' = line st -> Q b st') ->
  wp (parseIndicator data) st Q Rng.
Proof.
  intros HS HQ. unfold parseIndicator. wp_get.
  destruct (done data st) eqn:Ed; cbn [orb]; [now apply sound_error|].
  destruct (cur_is data st COLON) eqn:Ec; cbn [negb]; [|now apply sound_error].
  apply cur_is_lt in Ec.
  assert (HS1 : Snd (mkCursor (pos st + 1) (line st)))
    by (apply sound_forward; [exact HS|lia|lia]).
  wp_adv. wp_get.
  destruct (done data (mkCursor (pos st + 1) (line st))) eqn:Ed1; cbn [negb andb].
  - apply wp_ret, HQ; cbn [pos line]; auto; lia.
  - destruct (cur_is data (mkCursor (pos st + 1) (line st)) COLON) eqn:Ec2.
    + apply cur_is_lt in Ec2. cbn [pos] in Ec2.
      wp_adv. apply wp_ret, HQ; cbn [pos line]; try lia.
      apply sound_forward; [exact HS|lia|lia].
    + apply wp_ret, HQ; cbn [pos line]; auto; lia.
Qed.

Lemma parseBase_ok start base prefix st (Q : Value -> Cursor -> Prop) :
  Snd st -> peekString data prefix st = true -> 0 < length prefix ->
  (forall v st', Snd st' -> pos st < pos st' -> line st' = line st -> Q v st') ->
  wp (parseBase data start base prefix) st Q Rng.
Proof.
  intros HS Hpk Hlen HQ. unfold parseBase.
  pose proof (peek_length _ _ Hpk Hlen) as Hin.
  assert (HS1 : Snd (mkCursor (pos st + length prefix) (line st)))
    by (apply sound_forward; [exact HS|lia|lia]).
  wp_adv. wp_get. wp_adv. wp_get. cbn [pos line].
  set (s1 := mkCursor (pos st + length prefix) (line st)) in *.
  assert (HS2 : Snd (mkCursor (pos st + length prefix
                               + span_len (base_validator base) (rest data s1)) (line st))).
  { pose proof (@span_inside (base_validator base) s1) as Hsp.
    change (pos s1) with (pos st + length prefix) in Hsp. specialize (Hsp Hin).
    apply (@sound_forward st); [exact HS|lia|lia]. }
  destruct (_ =? _); [now apply sound_error|].
  apply wp_ret, HQ; cbn [pos line]; try lia. exact HS2.
Qed.

Lemma parseNumber_loop_inside l :
  forall n f, n <= fst (parseNumber_loop l n f) <= n + length l.
Proof.
  assert (H : forall len l n f, length l <= len ->
                n <= fst (parseNumber_loop l n f) <= n + length l).
  { induction len as [|len IH]; intros l0 n f Hlen.
    - destruct l0; [simpl; lia|simpl in Hlen; lia].
    - destruct l0 as [|c l1]; [simpl; lia|].
      cbn [parseNumber_loop length] in *.
      destruct (isDigit c || (c =? UNDERSCORE)%N).
      { specialize (IH l1 (S n) f). lia. }
      destruct (c =? DOT)%N.
      { specialize (IH l1 (S n) true). lia. }
      destruct ((c =? 101) || (c =? 69))%N; [|simpl; lia].
      destruct l1 as [|s l2].
      + cbn [parseNumber_loop fst length]. lia.
      + destruct ((s =? PLUS) || (s =? DASH))%N.
        * specialize (IH l2 (n + 2) true). cbn [length] in *. lia.
        * specialize (IH (s :: l2) (S n) true). cbn [length] in *. lia. }
  intros n f. now apply (H (length l)).
Qed.

Lemma parseNumber_loop_digit_step c l n f :
  isDigit c = true -> n < fst (parseNumber_loop (c :: l) n f).
Proof.
  intros H. cbn [parseNumber_loop]. rewrite H. cbn [orb].
  pose proof (parseNumber_loop_inside l (S n) f). lia.
Qed.

(** [parseNumber] moves on when a sign or a digit stands at the cursor. *)
Lemma parseNumber_ok st (Q : Value -> Cursor -> Prop) :
  Snd st ->
  ((peekChar data (pos st) =? PLUS) || (peekChar data (pos st) =? DASH)
   || isDigit (peekChar data (pos st)))%N = true ->
  (forall v st', Snd st' -> pos st < pos st' -> line st' = line st -> Q v st') ->
  wp (parseNumber data) st Q Rng.
Proof.
  intros HS Hc HQ. unfold parseNumber. wp_get.
  assert (Hlt : pos st < length data).
  { apply (peekChar_lt _ eq_refl). intros E. rewrite E in Hc. discriminate. }
  assert (Hwhen : forall (Q' : unit -> Cursor -> Prop),
             (forall st1, Snd st1 -> pos st <= pos st1 -> line st1 = line st ->
                          (pos st < pos st1 \/ st1 = st /\ isDigit (peekChar data (pos st)) = true) ->
                          Q' tt st1) ->
             wp (when ((peekChar data (pos st) =? PLUS) || (peekChar data (pos st) =? DASH))%N
                   (advance 1)) st Q' Rng).
  { intros Q' HQ'. apply wp_when.
    - intros _. apply wp_advance. apply HQ'; cbn [pos line]; try lia.
      apply sound_forward; [exact HS|lia|lia].
    - intros E. rewrite E in Hc. cbn [orb] in Hc. apply HQ'; auto. }
  apply wp_bind, Hwhen. intros st1 HS1 Hp1 Hl1 Hprog. wp_get.
  destruct (find _ NUMBER_BASE_PREFIXES) as [[prefix base]|] eqn:Ef.
  - apply find_some in Ef as [Hin Hpk]. cbn [fst] in Hpk.
    apply parseBase_ok; [exact HS1|exact Hpk| |].
    + unfold NUMBER_BASE_PREFIXES in Hin.
      destruct Hin as [E|[E|[E|[]]]]; injection E as <- _; simpl; lia.
    + intros v st' HS' Hp Hl. apply HQ; [exact HS'|lia|congruence].
  - pose proof (parseNumber_loop_inside (rest data st1) 0 false) as Hn.
    destruct (parseNumber_loop (rest data st1) 0 false) as [n isFloat] eqn:El.
    cbn [fst] in Hn. pose proof (rest_length data st1) as Hrl.
    wp_adv. wp_get. apply wp_ret. apply HQ; cbn [pos line]; try lia.
    + apply sound_forward; [exact HS1|lia|]. destruct HS1. lia.
    + destruct Hprog as [Hprog|[-> Hd]]; [lia|].
      assert (Hr : exists l, rest data st = peekChar data (pos st) :: l).
      { unfold rest, peekChar.
        destruct (nth_error data (pos st)) as [c|] eqn:En;
          [|apply nth_error_None in En; lia].
        rewrite (nth_error_nth _ _ 0%N En).
        apply nth_error_split in En as (l1 & l2 & Ed & Hlen1).
        exists l2. rewrite Ed at 1. rewrite <- Hlen1.
        now rewrite skipn_app_length. }
      destruct Hr as (l & Hr). rewrite Hr in El.
      pose proof (@parseNumber_loop_digit_step _ l 0 false Hd) as Hs.
      rewrite El in Hs. cbn [fst] in Hs. lia.
Qed.


Lemma parseMultilineString_loop_ok fuel keyIndent preserve delim lines st
    (Q : Value -> Cursor -> Prop) :
  Snd st -> length data - pos st <= fuel -> length delim = 3 ->
  (forall v st', Snd st' -> pos st <= pos st' -> Q v st') ->
  wp (parseMultilineString_loop data fuel keyIndent preserve delim lines) st Q Rng.
Proof.
  revert st lines. induction fuel as [|fuel IH]; intros st lines HS Hfuel Hd HQ.
  - cbn [parseMultilineString_loop]. wp_get.
    destruct (done data st) eqn:Ed; [now apply sound_error|].
    apply done_false in Ed. lia.
  - cbn [parseMultilineString_loop]. wp_get.
    destruct (done data st) eqn:Ed; [now apply sound_error|].
    pose proof (done_false _ Ed) as Hlt.
    assert (HS1 : Snd (mkCursor (pos st + span_len is_space (rest data st)) (line st))).
    { apply sound_forward; [exact HS|lia|]. apply span_inside, HS. }
    wp_adv. wp_get.
    destruct (peekString data delim _) eqn:Epk.
    + apply peek_length in Epk; [|lia]. cbn [pos] in Epk.
      destruct (negb (_ =? keyIndent)); [now apply sound_error|].
      wp_adv. cbn [pos line].
      apply wp_bind, consumeLine_ok.
      * apply sound_forward; [exact HS|lia|lia].
      * intros st' HS' Hp _. apply wp_ret, HQ; [exact HS'|cbn [pos] in Hp; lia].
    + wp_setpos. cbn [line].
      replace (mkCursor (pos st) (line st)) with st by (destruct st; reflexivity).
      apply wp_bind, consumeLineContent_ok; [exact HS|].
      intros s st' HS' Hp Hprog. specialize (Hprog Ed).
      apply IH; [exact HS'|lia|exact Hd|].
      intros v st'' HS'' Hp''. apply HQ; [exact HS''|lia].
Qed.

Lemma parseMultilineString_ok keyIndent preserve st (Q : Value -> Cursor -> Prop) :
  Snd st -> pos st + 3 <= length data ->
  (forall v st', Snd st' -> pos st < pos st' -> Q v st') ->
  wp (parseMultilineString data keyIndent preserve) st Q Rng.
Proof.
  intros HS H3 HQ. unfold parseMultilineString. wp_get. wp_adv.
  apply wp_bind, consumeLine_ok.
  - apply sound_forward; [exact HS|lia|lia].
  - intros st1 HS1 Hp1 _. cbn [pos] in Hp1. wp_get.
    apply parseMultilineString_loop_ok; [exact HS1|lia| |].
    + unfold substring. rewrite length_firstn, length_skipn. lia.
    + intros v st' HS' Hp. apply HQ; [exact HS'|lia].
Qed.

Lemma parseValue_ok keyIndent st (Q : Value -> Cursor -> Prop) :
  Snd st ->
  (forall v st', Snd st' -> pos st < pos st' -> Q v st') ->
  wp (parseValue data keyIndent) st Q Rng.
Proof.
  intros HS HQ. unfold parseValue. wp_get.
  destruct (done data st) eqn:Ed; [now apply sound_error|].
  pose proof (done_false _ Ed) as Hlt.
  destruct (N.eqb_spec (peekChar data (pos st)) QUOTE) as [Eq|Eq].
  { destruct (peekString data TRIPLE_QUOTE st) eqn:Et.
    - apply parseMultilineString_ok; [exact HS| |exact HQ].
      apply (peek_length _ _ Et). simpl. lia.
    - apply wp_bind, parseString_ok; [exact HS|exact Hlt|].
      intros s st' HS' Hp _. apply wp_ret, HQ; auto. }
  destruct ((peekChar data (pos st) =? BACKTICK)%N && peekString data (u "```") st) eqn:Eb.
  { apply andb_true_iff in Eb as [_ Eb].
    apply parseMultilineString_ok; [exact HS| |exact HQ].
    apply (peek_length _ _ Eb). simpl. lia. }
  destruct (find _ SPECIAL_VALUES) as [[str value]|] eqn:Ef.
  { apply find_some in Ef as [Hin Hpk]. cbn [fst] in Hpk.
    assert (Hl : 0 < length str).
    { unfold SPECIAL_VALUES in Hin.
      repeat (destruct Hin as [E|Hin]; [injection E as <- _; simpl; lia|]).
      contradiction. }
    pose proof (peek_length _ _ Hpk Hl).
    wp_adv. apply wp_ret, HQ; cbn [pos line]; try lia.
    apply sound_forward; [exact HS|lia|lia]. }
  assert (HS1 : Snd (mkCursor (pos st + 1) (line st)))
    by (apply sound_forward; [exact HS|lia|lia]).
  assert (Hsign : forall sign : N,
             (peekChar data (pos st) =? sign)%N = true -> (sign = PLUS \/ sign = DASH) ->
             wp (advance 1 ;;
                 st1 <- get ;;
                 if peekString data (u "inf") st1
                 then advance 3 ;; ret (VNum (Infinity (sign =? DASH)%N))
                 else if isDigit (peekChar data (pos st1))
                      then set_pos (pos st1 - 1) ;; parseNumber data
                      else error (InvalidAfterSign sign)) st Q Rng).
  { intros sign Hc Hsg. wp_adv. wp_get.
    destruct (peekString data (u "inf") _) eqn:Ei.
    - apply peek_length in Ei; [|simpl; lia]. cbn [pos length] in Ei.
      wp_adv. apply wp_ret, HQ; cbn [pos line]; try lia.
      apply sound_forward; [exact HS|lia|]. change (length (u "inf")) with 3 in Ei. lia.
    - destruct (isDigit _); [|now apply sound_error].
      wp_setpos. cbn [pos line].
      replace (mkCursor (pos st + 1 - 1) (line st)) with st
        by (destruct st as [p0 l0]; cbn [pos line]; f_equal; lia).
      apply parseNumber_ok; [exact HS| |].
      + destruct Hsg as [-> | ->]; rewrite Hc; cbn [orb]; [reflexivity|].
        now rewrite orb_true_r.
      + intros v st' HS' Hp _. now apply HQ. }
  destruct (N.eqb_spec (peekChar data (pos st)) PLUS) as [Ep|Ep].
  { specialize (Hsign PLUS). rewrite Ep in Hsign.
    apply (Hsign eq_refl (or_introl eq_refl)). }
  destruct (N.eqb_spec (peekChar data (pos st)) DASH) as [Em|Em].
  { specialize (Hsign DASH). rewrite Em in Hsign.
    apply (Hsign eq_refl (or_intror eq_refl)). }
  destruct (isDigit (peekChar data (pos st))) eqn:Edg; [|now apply sound_error].
  apply parseNumber_ok; [exact HS| |].
  - rewrite Edg. now rewrite orb_true_r.
  - intros v st' HS' Hp _. now apply HQ.
Qed.

Lemma parseInlineVectorContents_loop_ok fuel type :
  forall isFirst obj arr st (Q : bool * list (jsstring * Value) * list Value -> Cursor -> Prop),
    Snd st -> length data - pos st <= fuel ->
    (forall r st', Snd st' -> pos st <= pos st' -> Q r st') ->
    wp (parseInlineVectorContents_loop data fuel type isFirst obj arr) st Q Rng.
Proof.
  induction fuel as [|fuel IH]; intros isFirst obj arr st Q HS Hfuel HQ.
  - cbn [parseInlineVectorContents_loop]. wp_get.
    destruct (done data st) eqn:Ed; cbn [orb]; [apply wp_ret, HQ; auto|].
    apply done_false in Ed. lia.
  - cbn [parseInlineVectorContents_loop]. wp_get.
    destruct (done data st || cur_is data st LF || cur_is data st HASH) eqn:Estop;
      [apply wp_ret, HQ; auto|].
    assert (Hcomma : forall (Q' : unit -> Cursor -> Prop),
               (forall st1, Snd st1 -> pos st <= pos st1 -> Q' tt st1) ->
               wp (when (negb isFirst) (expectComma data)) st Q' Rng).
    { intros Q' HQ'. apply wp_when.
      - intros _. apply expectComma_ok; [exact HS|].
        intros st1 HS1 Hp1. apply HQ'; [exact HS1|lia].
      - intros _. apply HQ'; auto. }
    apply wp_bind, Hcomma. intros st1 HS1 Hp1.
    assert (Hrest : forall obj' arr' st2,
               Snd st2 -> pos st < pos st2 ->
               wp (st2' <- get ;;
                   if negb (done data st2') && cur_is data st2' SP then
                     let nextPos := pos st2' + 1
                                    + span_len is_space (skipn (pos st2' + 1) data) in
                     if (nextPos <? length data)
                        && match nth_error data nextPos with
                           | Some c => (c =? COMMA)%N
                           | None => false
                           end
                     then skipSpaces data ;;
                          parseInlineVectorContents_loop data fuel type false obj' arr'
                     else ret (obj', arr')
                   else parseInlineVectorContents_loop data fuel type false obj' arr')
                  st2 Q Rng).
    { intros obj' arr' st2 HS2 Hp2. wp_get.
      destruct (negb (done data st2) && cur_is data st2 SP).
      - cbv zeta. destruct (_ && _).
        + apply wp_bind, skipSpaces_ok; [exact HS2|].
          intros st3 HS3 Hp3 _.
          apply IH; [exact HS3|lia|].
          intros r st' HS' Hp'. apply HQ; [exact HS'|lia].
        + apply wp_ret, HQ; [exact HS2|lia].
      - apply IH; [exact HS2|lia|].
        intros r st' HS' Hp'. apply HQ; [exact HS'|lia]. }
    destruct type.
    + apply wp_bind. apply wp_bind, parseKey_ok; [exact HS1|].
      intros key st2 HS2 Hp2 _. wp_get.
      destruct (done data st2) eqn:Ed2; cbn [orb]; [now apply sound_error|].
      destruct (cur_is data st2 COLON) eqn:Ec; cbn [negb]; [|now apply sound_error].
      apply cur_is_lt in Ec.
      wp_adv. apply wp_bind, assertSpace_ok.
      * apply sound_forward; [exact HS2|lia|lia].
      * intros st3 HS3 Hp3 _. cbn [pos] in Hp3.
        apply wp_bind, parseValue_ok; [exact HS3|].
        intros v st4 HS4 Hp4. apply wp_ret. cbv beta iota.
        apply Hrest; [exact HS4|lia].
    + apply wp_bind. apply wp_bind, parseValue_ok; [exact HS1|].
      intros v st2 HS2 Hp2. apply wp_ret. cbv beta iota.
      apply Hrest; [exact HS2|lia].
Qed.

Lemma parseInlineVectorContents_ok type st (Q : Value -> Cursor -> Prop) :
  Snd st ->
  (forall v st', Snd st' -> pos st <= pos st' -> Q v st') ->
  wp (parseInlineVectorContents data type) st Q Rng.
Proof.
  intros HS HQ. unfold parseInlineVectorContents. wp_get.
  apply wp_bind, parseInlineVectorContents_loop_ok; [exact HS|lia|].
  intros [[proto props] arr0] st1 HS1 Hp1.
  apply wp_bind, consumeLine_ok; [exact HS1|].
  intros st2 HS2 Hp2 _.
  destruct type; apply wp_ret, HQ; auto; lia.
Qed.

Lemma parseInlineVector_ok st (Q : Value -> Cursor -> Prop) :
  Snd st ->
  (forall v st', Snd st' -> pos st <= pos st' -> Q v st') ->
  wp (parseInlineVector data) st Q Rng.
Proof.
  intros HS HQ. unfold parseInlineVector. wp_get.
  assert (Hempty : forall val, peekString data (u "[]") st = true
                               \/ peekString data (u "{}") st = true ->
            wp (advance 2 ;; consumeLine data ;; ret val) st Q Rng).
  { intros val Hpk.
    assert (Hin : pos st + 2 <= length data).
    { destruct Hpk as [Hpk|Hpk]; apply peek_length in Hpk; simpl in *; lia. }
    wp_adv. apply wp_bind, consumeLine_ok.
    - apply sound_forward; [exact HS|lia|lia].
    - intros st1 HS1 Hp1 _. cbn [pos] in Hp1. apply wp_ret, HQ; [exact HS1|lia]. }
  destruct (peekString data (u "[]") st) eqn:E1; [apply Hempty; now left|].
  destruct (peekString data (u "{}") st) eqn:E2; [apply Hempty; now right|].
  apply wp_bind. unfold hasInlineDict. wp_get. apply wp_ret.
  destruct (hasInlineDict_some _ _ _); now apply parseInlineVectorContents_ok.
Qed.

Lemma getMultilineVectorType_ok indent st (Q : bool -> Cursor -> Prop) :
  Snd st ->
  (forall b st', Snd st' -> pos st <= pos st' -> done data st' = false -> Q b st') ->
  wp (getMultilineVectorType data indent) st Q Rng.
Proof.
  intros HS HQ. unfold getMultilineVectorType.
  apply wp_bind, skipBlankLines_ok; [exact HS|].
  intros st1 HS1 Hp1. wp_get.
  destruct (done data st1) eqn:Ed; [now apply sound_error|].
  destruct (_ <? indent); [now apply sound_error|].
  apply wp_ret, HQ; auto.
Qed.


(** The three mutually recursive methods: each call and each iteration
    starts further in the input than the one before, so that a fuel
    above the number of code units left is never used up. *)
Lemma parseMultiline_ok fuel :
  (forall indent out st (Q : Value -> Cursor -> Prop),
      Snd st -> length data < fuel + pos st ->
      (forall proto props st',
          Snd st' -> pos st <= pos st' ->
          done data st' = true \/ getCurIndent data st' < indent ->
          Q (VObj proto props) st') ->
      wp (parseMultilineDict data fuel indent out) st Q Rng)
  /\ (forall indent out st (Q : Value -> Cursor -> Prop),
         Snd st -> length data < fuel + pos st ->
         (forall items st', Snd st' -> pos st <= pos st' -> Q (VArr items) st') ->
         wp (parseMultilineList data fuel indent out) st Q Rng)
  /\ (forall indent st (Q : Value -> Cursor -> Prop),
         Snd st -> length data < fuel + pos st ->
         (forall v st', Snd st' -> pos st <= pos st' -> Q v st') ->
         wp (parseVector data fuel indent) st Q Rng).
Proof.
  induction fuel as [|fuel (IHd & IHl & IHv)].
  - repeat split; [intros ? ? st ? HS Hfuel|intros ? ? st ? HS Hfuel|intros ? st ? HS Hfuel];
      destruct HS as (HS & _); lia.
  - repeat split.
    + intros indent out st Q HS Hfuel HQ. cbn [parseMultilineDict].
      apply wp_bind, skipBlankLines_ok; [exact HS|]. intros st1 HS1 Hp1. wp_get.
      destruct (done data st1) eqn:Ed; [apply wp_ret, HQ; auto|].
      cbv zeta.
      destruct (getCurIndent data st1 <? indent) eqn:Ei.
      { apply wp_ret, HQ; auto. right. now apply Nat.ltb_lt. }
      destruct (negb (getCurIndent data st1 =? indent)); [now apply sound_error|].
      destruct (negb (isKeyStart data st1)); [now apply sound_error|].
      apply wp_bind, parseKey_ok; [exact HS1|]. intros key st2 HS2 Hp2 _.
      destruct (js_in key (fst out) (snd out)); [now apply sound_error|].
      apply wp_bind, parseIndicator_ok; [exact HS2|]. intros ind st3 HS3 Hp3 _.
      apply wp_bind.
      destruct ind; cbn [negb].
      * apply IHv; [exact HS3|lia|]. intros v st4 HS4 Hp4.
        apply IHd; [exact HS4|lia|]. intros proto props st5 HS5 Hp5 Hend.
        apply HQ; auto; lia.
      * apply wp_bind, assertSpace_ok; [exact HS3|]. intros st4 HS4 Hp4 _. wp_get.
        cbv zeta. apply wp_bind, parseValue_ok; [exact HS4|]. intros v st5 HS5 Hp5.
        apply wp_bind, wp_when.
        -- intros _. apply consumeLine_ok; [exact HS5|]. intros st6 HS6 Hp6 _.
           apply wp_ret.
           apply IHd; [exact HS6|lia|]. intros proto props st7 HS7 Hp7 Hend.
           apply HQ; auto; lia.
        -- intros _. apply wp_ret.
           apply IHd; [exact HS5|lia|]. intros proto props st7 HS7 Hp7 Hend.
           apply HQ; auto; lia.
    + intros indent out st Q HS Hfuel HQ. cbn [parseMultilineList].
      apply wp_bind, skipBlankLines_ok; [exact HS|]. intros st1 HS1 Hp1. wp_get.
      destruct (done data st1) eqn:Ed; [apply wp_ret, HQ; auto|].
      cbv zeta.
      destruct (getCurIndent data st1 <? indent); [apply wp_ret, HQ; auto|].
      destruct (negb (getCurIndent data st1 =? indent)); [now apply sound_error|].
      destruct (cur_is data st1 DASH) eqn:Ec; cbn [negb]; [|apply wp_ret, HQ; auto].
      apply cur_is_lt in Ec. wp_adv.
      apply wp_bind, assertSpace_ok; [apply sound_forward; [exact HS1|lia|lia]|].
      intros st2 HS2 Hp2 _. cbn [pos] in Hp2. wp_get. apply wp_bind.
      destruct (peekString data (u "::") st2) eqn:Epk.
      * apply peek_length in Epk; [|simpl; lia].
        change (length (u "::")) with 2 in Epk.
        wp_adv. apply IHv; [apply sound_forward; [exact HS2|lia|lia]|cbn [pos]; lia|].
        intros v st3 HS3 Hp3. cbn [pos] in Hp3.
        apply IHl; [exact HS3|lia|]. intros items st4 HS4 Hp4.
        apply HQ; auto; lia.
      * apply wp_bind, parseValue_ok; [exact HS2|]. intros v st3 HS3 Hp3.
        apply wp_bind, consumeLine_ok; [exact HS3|]. intros st4 HS4 Hp4 _.
        apply wp_ret.
        apply IHl; [exact HS4|lia|]. intros items st5 HS5 Hp5.
        apply HQ; auto; lia.
    + intros indent st Q HS Hfuel HQ. cbn [parseVector]. wp_get. cbv zeta.
      apply wp_bind, skipSpaces_ok; [exact HS|]. intros st1 HS1 Hp1 Hl1. wp_get.
      destruct (done data st1 || cur_is data st1 LF || cur_is data st1 HASH).
      * wp_setpos. rewrite Hl1.
        apply wp_bind, consumeLine_ok; [now apply sound_eta|].
        cbn [pos]. intros st2 HS2 Hp2 Hprog.
        apply wp_bind, getMultilineVectorType_ok; [exact HS2|].
        intros isList st3 HS3 Hp3 Hd3. wp_get. cbv zeta.
        apply done_false in Hd3.
        assert (Hlt : pos st < pos st3).
        { assert (Hd : done data (mkCursor (pos st) (line st)) = false)
            by (unfold done; cbn [pos]; apply Nat.leb_gt; lia).
          specialize (Hprog Hd). lia. }
        destruct isList.
        -- apply IHl; [exact HS3|lia|]. intros items st4 HS4 Hp4.
           apply HQ; auto; lia.
        -- apply IHd; [exact HS3|lia|]. intros proto props st4 HS4 Hp4 _.
           apply HQ; auto; lia.
      * wp_setpos. rewrite Hl1.
        apply wp_bind, assertSpace_ok; [now apply sound_eta|].
        cbn [pos]. intros st2 HS2 Hp2 _.
        apply parseInlineVector_ok; [exact HS2|]. intros v st3 HS3 Hp3.
        apply HQ; auto; lia.
Qed.

Lemma assertRootEnd_ok val description st (Q : Value -> Cursor -> Prop) :
  Snd st ->
  (forall st', Snd st' -> done data st' = true -> Q val st') ->
  wp (assertRootEnd data val description) st Q Rng.
Proof.
  intros HS HQ. unfold assertRootEnd.
  apply wp_bind, skipBlankLines_ok; [exact HS|]. intros st1 HS1 _. wp_get.
  destruct (done data st1) eqn:Ed; cbn [negb]; [|now apply sound_error].
  now apply wp_ret, HQ.
Qed.

Lemma sound_initial : Snd initial.
Proof. unfold sound, initial, line_number. cbn. lia. Qed.

Lemma version_line_ok st (Q : unit -> Cursor -> Prop) :
  Snd st ->
  (forall st', Snd st' -> Q tt st') ->
  wp (when (peekString data (u "%HUML") st)
        (advance 5 ;;
         st1 <- get ;;
         when (negb (done data st1) && cur_is data st1 SP)
           (advance 1 ;;
            st2 <- get ;;
            let start := pos st2 in
            advance (span_len (fun c => negb (mem c [SP; LF; HASH])) (rest data st2)) ;;
            st3 <- get ;;
            when (start <? pos st3)
              (let version := substring data start (pos st3) in
               when (negb (string_eqb version (u "v0.1.0")))
                 (error (UnsupportedVersion version)))) ;;
         consumeLine data)) st Q Rng.
Proof.
  intros HS HQ. apply wp_when; [|intros _; now apply HQ].
  intros Hpk. apply peek_length in Hpk; [|simpl; lia].
  change (length (u "%HUML")) with 5 in Hpk.
  wp_adv. wp_get.
  assert (HS1 : Snd (mkCursor (pos st + 5) (line st)))
    by (apply sound_forward; [exact HS|lia|lia]).
  apply wp_bind, wp_when.
  - intros Hsp. apply andb_true_iff in Hsp as [_ Hsp]. apply cur_is_lt in Hsp.
    cbn [pos] in Hsp. wp_adv. cbn [pos line]. wp_get. cbv zeta.
    assert (HS2 : Snd (mkCursor (pos st + 5 + 1) (line st)))
      by (apply sound_forward; [exact HS|lia|lia]).
    wp_adv. cbn [pos line]. wp_get.
    assert (HS3 : Snd (mkCursor (pos st + 5 + 1
                                 + span_len (fun c => negb (mem c [SP; LF; HASH]))
                                     (rest data (mkCursor (pos st + 5 + 1) (line st))))
                         (line st))).
    { apply (@sound_forward (mkCursor (pos st + 5 + 1) (line st))); [exact HS2|cbn [pos]; lia|].
      apply (@span_inside _ (mkCursor (pos st + 5 + 1) (line st))). cbn [pos]. lia. }
    apply wp_when.
    + intros _. cbv zeta. apply wp_when; [intros _; now apply sound_error|].
      intros _. apply consumeLine_ok; [exact HS3|]. intros st' HS' _ _. now apply HQ.
    + intros _. apply consumeLine_ok; [exact HS3|]. intros st' HS' _ _. now apply HQ.
  - intros _. apply consumeLine_ok; [exact HS1|]. intros st' HS' _ _. now apply HQ.
Qed.

(** [parse]: the run ends; a returned value other than a block list
    leaves the cursor at the end of the input, and an exception carries a
    line of the input. *)
Lemma parse_ok :
  wp (parse_ data) initial
     (fun v st' => Snd st' /\ (done data st' = true \/ exists items, v = VArr items))
     Rng.
Proof.
  unfold parse_. destruct (length data =? 0); [exact I|].
  wp_get. apply wp_bind, version_line_ok; [exact sound_initial|]. intros st0 HS0.
  apply wp_bind, skipBlankLines_ok; [exact HS0|]. intros st HS _. wp_get.
  destruct (done data st) eqn:Ed; [now apply sound_error|].
  destruct (negb (getCurIndent data st =? 0)); [now apply sound_error|].
  destruct (peekString data (u "::") st); [now apply sound_error|].
  apply wp_bind.
  match goal with
  | |- wp _ st ?K Rng => assert (Hroot : forall kv, K kv st)
  end.
  { intros kv. cbv beta. destruct (_ && _); [now apply sound_error|].
    apply wp_bind, getRootType_wp. intros t Ht.
    assert (Hempty : forall val d,
               pos st + 2 <= length data ->
               wp (advance 2 ;; consumeLine data ;; assertRootEnd data val d) st
                  (fun v st' => Snd st' /\ (done data st' = true
                                            \/ exists items, v = VArr items)) Rng).
    { intros val d Hin. wp_adv.
      apply wp_bind, consumeLine_ok; [apply sound_forward; [exact HS|lia|lia]|].
      intros st1 HS1 _ _. apply assertRootEnd_ok; [exact HS1|]. intros st2 HS2 Hd2. auto. }
    destruct t.
    - apply wp_bind, parseInlineVectorContents_ok; [exact HS|]. intros v st1 HS1 _.
      apply assertRootEnd_ok; [exact HS1|]. auto.
    - destruct (parseMultiline_ok (S (length data))) as (Hd & _ & _).
      apply Hd; [exact HS|lia|]. intros proto props st1 HS1 _ [Hend|Hend]; [auto|lia].
    - apply Hempty. apply peek_length in Ht; simpl in *; lia.
    - apply Hempty. apply peek_length in Ht; simpl in *; lia.
    - destruct (parseMultiline_ok (S (length data))) as (_ & Hl & _).
      apply Hl; [exact HS|lia|]. intros items st1 HS1 _.
      split; [exact HS1|]. right. now exists items.
    - apply wp_bind, parseInlineVectorContents_ok; [exact HS|]. intros v st1 HS1 _.
      apply assertRootEnd_ok; [exact HS1|]. auto.
    - apply wp_bind, parseValue_ok; [exact HS|]. intros v st1 HS1 _.
      apply wp_bind, consumeLine_ok; [exact HS1|]. intros st2 HS2 _ _.
      apply assertRootEnd_ok; [exact HS2|]. auto. }
  destruct (peekString data (u ":") st).
  - apply hasKeyValuePair_wp. intros b. apply Hroot.
  - apply wp_ret, Hroot.
Qed.

End Termination.

(** X22.  Every run of [parse] ends: on any input the decoder returns a
    value or throws.  Each loop of the parser and each call of the
    mutually recursive methods starts further in the input than the one
    before, so that the fuel of the model, one above the length of the
    input, is never used up. *)
Theorem parse_run_ends (data : jsstring) :
  (exists v st', parse data = Ok v st') \/ (exists e st', parse data = Throw e st').
Proof.
  pose proof (parse_ok data) as H. unfold wp in H. unfold parse.
  destruct (parse_ data initial) as [v st'|e st'|]; [left|right|contradiction]; eauto.
Qed.

(** X23.  The line number carried by a [HUMLError] of [parse] is a line
    of the document: it lies between 1 and the number of lines of the
    input (one more than its number of newlines). *)
Theorem error_line_in_document (data : jsstring) (m : message) (l : nat) (st' : Cursor) :
  parse data = Throw (HUMLError m l) st' ->
  1 <= l <= line_number data (length data).
Proof.
  intros Hp. pose proof (parse_ok data) as H. unfold wp in H. unfold parse in Hp.
  rewrite Hp in H. exact H.
Qed.

Lemma error_line_in_document_witness :
  1 <= 2 <= line_number (unlines [u "a: 1"; u "a: 2"]) (length (unlines [u "a: 1"; u "a: 2"])).
Proof.
  apply (@error_line_in_document (unlines [u "a: 1"; u "a: 2"])
           (DuplicateKey (u "a")) 2 (mkCursor 6 2)).
  vm_compute. reflexivity.
Defined.

(** X24.  When [parse] returns a value that is not an array, the cursor
    stands at the end of the input: the whole document has been read.
    (A list in block form at the root is returned without the check for
    content after the root element.) *)
Theorem whole_input_read (data : jsstring) (v : Value) (st' : Cursor) :
  parse data = Ok v st' -> (forall items, v <> VArr items) ->
  pos st' = length data.
Proof.
  intros Hp Hv. pose proof (parse_ok data) as H. unfold wp in H. unfold parse in Hp.
  rewrite Hp in H. destruct H as [(Hle & _) [Hd|(items & ->)]].
  - apply done_true in Hd. lia.
  - now destruct (Hv items).
Qed.

Lemma whole_input_read_witness :
  pos (mkCursor 7 1) = length (u "k: true").
Proof.
  apply (@whole_input_read (u "k: true") (VObj true [(u "k", VBool true)]) (mkCursor 7 1)).
  - vm_compute. reflexivity.
  - intros items. discriminate.
Defined.

(** ** Further properties: what ends a list in block form *)

Lemma list_tail_nested n ls items post :
  list_lines n ls items -> list_tail n post -> tail_ok (n + 2) (unlines ls ++ post).
Proof.
  intros H [Ht|(c & tl & -> & Hc & _)]; [now apply (@tail_ok_list n ls items post)|].
  destruct ls as [|l ls].
  - simpl. right. exists n, c, tl. repeat split; auto. lia.
  - destruct (@list_lines_head n (l :: ls) items (spaces n ++ c :: tl) H) as (r & E);
      [discriminate|].
    right. exists n, DASH, r. repeat split; auto. lia.
Qed.

(** [parseMultilineList] reads the lines of a list and stops at what
    follows them, be it a line of the same indent without a dash. *)
Lemma list_then :
  forall n ls items, list_lines n ls items ->
  forall data fuel out st lsn post,
    at_line data lsn (unlines ls ++ post) -> list_tail n post ->
    lsn <= pos st <= lsn + lead (unlines ls ++ post) ->
    2 * length ls + 1 <= fuel ->
    parseMultilineList data fuel n out st
    = Ok (VArr (out ++ items))
         (mkCursor (lsn + length (unlines ls) + lead post) (line st + length ls)).
Proof.
  assert (Hvector : forall n body val ls items,
             reads_vector (n + 2) [] body val ->
             list_lines n ls items ->
             (forall data fuel out st lsn post,
                 at_line data lsn (unlines ls ++ post) -> list_tail n post ->
                 lsn <= pos st <= lsn + lead (unlines ls ++ post) ->
                 2 * length ls + 1 <= fuel ->
                 parseMultilineList data fuel n out st
                 = Ok (VArr (out ++ items))
                      (mkCursor (lsn + length (unlines ls) + lead post)
                                (line st + length ls))) ->
             forall data fuel out st lsn post,
               at_line data lsn (unlines ((spaces n ++ u "- ::") :: body ++ ls) ++ post) ->
               list_tail n post ->
               lsn <= pos st
               <= lsn + lead (unlines ((spaces n ++ u "- ::") :: body ++ ls) ++ post) ->
               2 * length ((spaces n ++ u "- ::") :: body ++ ls) + 1 <= fuel ->
               parseMultilineList data fuel n out st
               = Ok (VArr (out ++ val :: items))
                    (mkCursor (lsn + length (unlines ((spaces n ++ u "- ::") :: body ++ ls))
                               + lead post)
                              (line st + length ((spaces n ++ u "- ::") :: body ++ ls)))).
  { intros n body val ls items Hvec Hls IH data fuel out st lsn post Hat Htail Hpos Hfuel.
    destruct fuel as [|fuel]; [simpl in Hfuel; lia|].
    change (u "- ::") with [DASH; SP; COLON; COLON] in *.
    set (L := spaces n ++ [DASH; SP; COLON; COLON]) in *.
    assert (E1 : unlines (L :: body ++ ls) ++ post
                 = L ++ LF :: unlines body ++ unlines ls ++ post)
      by (rewrite unlines_cons, unlines_app, <- !app_assoc; simpl;
          rewrite <- ?app_assoc; reflexivity).
    assert (E2 : L ++ LF :: unlines body ++ unlines ls ++ post
                 = spaces n ++ DASH :: SP :: COLON :: COLON
                     :: LF :: unlines body ++ unlines ls ++ post)
      by (unfold L; rewrite <- !app_assoc; reflexivity).
    rewrite E1 in Hat, Hpos.
    pose proof (@at_line_block data lsn body L _ Hat) as Hnext.
    rewrite E2 in Hat, Hpos. rewrite (lead_content n DASH _ eq_refl) in Hpos.
    apply wp_returns.
    apply (@list_vector_item data fuel n out st lsn _ _ _ Hat Hpos).
    set (s := mkCursor (lsn + n + 4) (line st)).
    assert (Hr : rest data s = [] ++ LF :: unlines body ++ unlines ls ++ post).
    { unfold s. replace (lsn + n + 4) with (lsn + (n + 4)) by lia.
      rewrite (@at_line_rest data lsn _ (line st) _ Hat).
      replace (n + 4) with (length (spaces n ++ [DASH; SP; COLON; COLON])) by lens.
      transitivity (skipn (length (spaces n ++ [DASH; SP; COLON; COLON]))
                      ((spaces n ++ [DASH; SP; COLON; COLON])
                         ++ LF :: unlines body ++ unlines ls ++ post));
        [|apply skipn_app_length].
      f_equal. rewrite <- !app_assoc. reflexivity. }
    assert (HL : length L = n + 4) by (unfold L; lens).
    cbn [length] in Hfuel. rewrite length_app in Hfuel.
    destruct (Hvec data fuel s (unlines ls ++ post) Hr
                (@list_tail_nested n ls items post Hls Htail) ltac:(simpl in Hfuel; lia))
      as (st' & Hrun & Hline & Hp).
    apply (@wp_ok _ _ _ _ _ Hrun).
    assert (Hrun' := IH data fuel (out ++ [val]) st'
                       (lsn + length L + 1 + length (unlines body)) post Hnext Htail
                       ltac:(unfold s in Hp; simpl in Hp; lia) ltac:(simpl in Hfuel; lia)).
    apply (@wp_ok _ _ _ _ _ Hrun'). split; [now rewrite <- app_assoc|].
    f_equal; rewrite ?unlines_cons, ?unlines_app, ?length_app; simpl;
      rewrite ?length_app; unfold s in *; simpl in *; lia. }
  induction 1 as [n|n t v ls items Ht Hls IH|n body inner ls items Hne Hb _ Hls IH
                  |n body entries ls items Hne Hb Hk Hls IH].
  - intros data fuel out st lsn post Hat [Ht|(c & tl & -> & Hc & Hnd)] Hpos Hfuel.
    + exact (@reads_list_nil n data fuel out st lsn post Hat Ht Hpos Hfuel).
    + destruct fuel as [|fuel]; [simpl in Hfuel; lia|].
      simpl in Hat, Hpos. rewrite (lead_content n c tl Hc) in Hpos.
      destruct (@line_head data lsn n c tl st Hat Hc Hpos) as [Hs Hh].
      destruct (Hh (line st)) as (Hd & Hi & Hr).
      apply wp_returns. cbn [parseMultilineList].
      wp_step Hs. wp_get. rewrite Hd. cbv zeta.
      rewrite Hi, Nat.ltb_irrefl, Nat.eqb_refl. cbn [negb].
      rewrite (cur_is_rest _ _ DASH Hr).
      apply N.eqb_neq in Hnd. rewrite Hnd. cbn [negb].
      apply wp_ret. split; [now rewrite app_nil_r|].
      rewrite (lead_content n c tl Hc). f_equal; simpl; lia.
  - intros data fuel out st lsn post Hat Htail Hpos Hfuel.
    destruct fuel as [|fuel]; [simpl in Hfuel; lia|].
    change (u "- ") with [DASH; SP] in *.
    set (L := spaces n ++ [DASH; SP] ++ t) in *.
    assert (E1 : unlines (L :: ls) ++ post = L ++ LF :: unlines ls ++ post)
      by (rewrite unlines_cons, <- app_assoc; reflexivity).
    assert (E2 : L ++ LF :: unlines ls ++ post
                 = spaces n ++ DASH :: SP :: t ++ LF :: unlines ls ++ post)
      by (unfold L; rewrite <- !app_assoc; reflexivity).
    rewrite E1 in Hat, Hpos.
    pose proof (@at_line_next data lsn L _ Hat) as Hnext.
    rewrite E2 in Hat, Hpos. rewrite (lead_content n DASH _ eq_refl) in Hpos.
    apply wp_returns.
    apply (@list_scalar_item data fuel n out st lsn t v _ _ _ Ht Hat Hpos).
    assert (HL : length L = n + 2 + length t) by (unfold L; lens).
    assert (Hrun := IH data fuel (out ++ [v])
                      (mkCursor (lsn + n + 2 + length t + 1) (line st + 1))
                      (lsn + length L + 1) post Hnext Htail
                      ltac:(simpl; lia) ltac:(simpl in Hfuel; lia)).
    apply (@wp_ok _ _ _ _ _ Hrun). split; [now rewrite <- app_assoc|].
    f_equal; rewrite ?unlines_cons, ?length_app; simpl; lia.
  - apply (Hvector n body (VArr inner) ls items); auto.
    apply reads_vector_list; auto. now apply (proj2 reads_lines).
  - apply (Hvector n body _ ls items); auto.
    apply reads_vector_dict; auto. now apply (proj1 reads_lines).
Qed.

Lemma parse_list_then ls items c tl :
  list_lines 0 ls items -> ls <> [] -> content c = true -> c <> DASH ->
  parse (unlines ls ++ c :: tl)
  = Ok (VArr items) (mkCursor (length (unlines ls)) (1 + length ls)).
Proof.
  intros Hll Hne Hc Hnd.
  set (data := unlines ls ++ c :: tl).
  assert (Hhd : exists more, data = DASH :: SP :: more).
  { unfold data. inversion Hll; subst; try congruence; rewrite unlines_cons; simpl;
      eexists; reflexivity. }
  destruct Hhd as (more & E).
  pose proof (@root_facts data DASH _ E eq_refl ltac:(discriminate)
                ltac:(discriminate)) as F.
  assert (Htail : list_tail 0 (c :: tl)).
  { right. exists c, tl. repeat split; auto. }
  pose proof (proj2 lines_length 0 ls items Hll) as Hlen.
  assert (Hdl : length data = length (unlines ls) + S (length tl))
    by (unfold data; rewrite length_app; reflexivity).
  assert (Hbound : 0 <= pos initial <= 0 + lead (unlines ls ++ c :: tl)) by (simpl; lia).
  assert (Hfuel : 2 * length ls + 1 <= S (length data)) by lia.
  pose proof (@list_then 0 ls items Hll data (S (length data)) [] initial 0 (c :: tl)
                (proj2 (proj2 (proj2 (proj2 (proj2 (proj2 (proj2 (proj2 F))))))))
                Htail Hbound Hfuel) as Hrun.
  assert (Hr : rest data initial = DASH :: SP :: more) by exact E.
  destruct (rest_head _ _ Hr) as (_ & _ & Hp).
  root_prefix F.
  unfold getRootType. wp_step (@hasKeyValuePair_dash data more E).
  wp_get. unfold peekString. rewrite Hr, Hp.
  change (prefixb (u "[]") (DASH :: SP :: more)) with false.
  change (prefixb (u "{}") (DASH :: SP :: more)) with false.
  change (45 =? 45)%N with true. cbv iota. apply wp_ret.
  apply (@wp_ok _ _ _ _ _ Hrun). split; [reflexivity|].
  change (c :: tl) with (spaces 0 ++ c :: tl). rewrite (lead_content 0 c tl Hc).
  unfold initial. cbn [line]. f_equal; lia.
Qed.

(** X25.  A list in block form at the root ends at the first line of
    column 0 that does not start with a dash: [parse] returns the items
    read so far and leaves the rest of the document unread, without an
    error ([parse] does not check for content after a root list in block
    form). *)
Theorem root_list_ignores_rest (ls : list jsstring) (items : list Value)
    (c : char) (tl : jsstring) :
  list_lines 0 ls items -> ls <> [] -> content c = true -> c <> DASH ->
  parse (unlines ls ++ c :: tl)
  = Ok (VArr items) (mkCursor (length (unlines ls)) (1 + length ls)).
Proof.
  intros Hll Hne Hc Hnd.
  exact (@parse_list_then ls items c tl Hll Hne Hc Hnd).
Qed.

Lemma root_list_ignores_rest_witness :
  parse (unlines [u "- 1"] ++ 107%N :: u ": 2")
  = Ok (VArr [num 1]) (mkCursor 4 2).
Proof.
  apply (@root_list_ignores_rest [u "- 1"] [num 1] 107%N (u ": 2")).
  - apply (@ll_scalar 0 (u "1") (num 1) [] []); [|apply ll_nil].
    apply (@st_number false 1%N 0%Z); reflexivity.
  - discriminate.
  - reflexivity.
  - discriminate.
Defined.

(** ** Further properties: an empty list or dict as an item of a list *)

Lemma list_items_length n ls items : list_lines n ls items -> length items <= length ls.
Proof.
  induction 1; cbn [length]; rewrite ?length_app; lia.
Qed.

Lemma tail_ok_items n ls items post :
  list_lines n ls items -> tail_ok (n + 2) post -> tail_ok (n + 2) (unlines ls ++ post).
Proof.
  intros H Ht. destruct ls as [|l ls]; [exact Ht|].
  destruct (@list_lines_head n (l :: ls) items post H) as (r & E); [discriminate|].
  right. exists n, DASH, r. repeat split; auto. lia.
Qed.

(** [parseMultilineList] over the lines of the first items of a list:
    the loop goes on with the items read, at the line that follows. *)
Lemma list_prefix :
  forall n ls items, list_lines n ls items ->
  forall data fuel out st lsn post (Q : Value -> Cursor -> Prop) E,
    at_line data lsn (unlines ls ++ post) -> tail_ok (n + 2) post ->
    lsn <= pos st <= lsn + lead (unlines ls ++ post) ->
    2 * length ls + 1 <= length items + fuel ->
    (forall st',
        line st' = line st + length ls ->
        lsn + length (unlines ls) <= pos st' <= lsn + length (unlines ls) + lead post ->
        wp (parseMultilineList data fuel n (out ++ items)) st' Q E) ->
    wp (parseMultilineList data (length items + fuel) n out) st Q E.
Proof.
  assert (Hvector : forall n body val ls items,
             reads_vector (n + 2) [] body val ->
             list_lines n ls items ->
             (forall data fuel out st lsn post (Q : Value -> Cursor -> Prop) E,
                 at_line data lsn (unlines ls ++ post) -> tail_ok (n + 2) post ->
                 lsn <= pos st <= lsn + lead (unlines ls ++ post) ->
                 2 * length ls + 1 <= length items + fuel ->
                 (forall st',
                     line st' = line st + length ls ->
                     lsn + length (unlines ls) <= pos st'
                     <= lsn + length (unlines ls) + lead post ->
                     wp (parseMultilineList data fuel n (out ++ items)) st' Q E) ->
                 wp (parseMultilineList data (length items + fuel) n out) st Q E) ->
             forall data fuel out st lsn post (Q : Value -> Cursor -> Prop) E,
               at_line data lsn (unlines ((spaces n ++ u "- ::") :: body ++ ls) ++ post) ->
               tail_ok (n + 2) post ->
               lsn <= pos st
               <= lsn + lead (unlines ((spaces n ++ u "- ::") :: body ++ ls) ++ post) ->
               2 * length ((spaces n ++ u "- ::") :: body ++ ls) + 1
               <= length (val :: items) + fuel ->
               (forall st',
                   line st' = line st + length ((spaces n ++ u "- ::") :: body ++ ls) ->
                   lsn + length (unlines ((spaces n ++ u "- ::") :: body ++ ls)) <= pos st'
                   <= lsn + length (unlines ((spaces n ++ u "- ::") :: body ++ ls))
                      + lead post ->
                   wp (parseMultilineList data fuel n (out ++ val :: items)) st' Q E) ->
               wp (parseMultilineList data (length (val :: items) + fuel) n out) st Q E).
  { intros n body val ls items Hvec Hls IH data fuel out st lsn post Q E
           Hat Htail Hpos Hfuel Hk.
    change (u "- ::") with [DASH; SP; COLON; COLON] in *.
    set (L := spaces n ++ [DASH; SP; COLON; COLON]) in *.
    assert (E1 : unlines (L :: body ++ ls) ++ post
                 = L ++ LF :: unlines body ++ unlines ls ++ post)
      by (rewrite unlines_cons, unlines_app, <- !app_assoc; simpl;
          rewrite <- ?app_assoc; reflexivity).
    assert (E2 : L ++ LF :: unlines body ++ unlines ls ++ post
                 = spaces n ++ DASH :: SP :: COLON :: COLON
                     :: LF :: unlines body ++ unlines ls ++ post)
      by (unfold L; rewrite <- !app_assoc; reflexivity).
    rewrite E1 in Hat, Hpos.
    pose proof (@at_line_block data lsn body L _ Hat) as Hnext.
    rewrite E2 in Hat, Hpos. rewrite (lead_content n DASH _ eq_refl) in Hpos.
    cbn [length] in Hfuel |- *. rewrite length_app in Hfuel. cbn [Nat.add].
    apply (@list_vector_item data (length items + fuel) n out st lsn _ _ _ Hat Hpos).
    set (s := mkCursor (lsn + n + 4) (line st)).
    assert (Hr : rest data s = [] ++ LF :: unlines body ++ unlines ls ++ post).
    { unfold s. replace (lsn + n + 4) with (lsn + (n + 4)) by lia.
      rewrite (@at_line_rest data lsn _ (line st) _ Hat).
      replace (n + 4) with (length (spaces n ++ [DASH; SP; COLON; COLON])) by lens.
      transitivity (skipn (length (spaces n ++ [DASH; SP; COLON; COLON]))
                      ((spaces n ++ [DASH; SP; COLON; COLON])
                         ++ LF :: unlines body ++ unlines ls ++ post));
        [|apply skipn_app_length].
      f_equal. rewrite <- !app_assoc. reflexivity. }
    assert (HL : length L = n + 4) by (unfold L; lens).
    destruct (Hvec data (length items + fuel) s (unlines ls ++ post) Hr
                (@tail_ok_items n ls items post Hls Htail) ltac:(lia))
      as (st' & Hrun & Hline & Hp).
    apply (@wp_ok _ _ _ _ _ Hrun).
    apply (IH data fuel (out ++ [val]) st'
             (lsn + length L + 1 + length (unlines body)) post Q E Hnext Htail);
      [unfold s in Hp; simpl in Hp; lia|lia|].
    intros st'' Hline'' Hp''. rewrite <- app_assoc. cbn [app]. apply Hk.
    + cbn [length]. rewrite length_app. unfold s in Hline. cbn [line length] in Hline. lia.
    + rewrite unlines_cons, unlines_app, !length_app. cbn [length].
      rewrite length_app. lia. }
  induction 1 as [n|n t v ls items Ht Hls IH|n body inner ls items Hne Hb _ Hls IH
                  |n body entries ls items Hne Hb Hk Hls IH].
  - intros data fuel out st lsn post Q E Hat Htail Hpos Hfuel Hk.
    cbn [length Nat.add]. rewrite <- (app_nil_r out).
    apply Hk; cbn [length unlines map concat app] in *; lia.
  - intros data fuel out st lsn post Q E Hat Htail Hpos Hfuel Hk.
    change (u "- ") with [DASH; SP] in *.
    set (L := spaces n ++ [DASH; SP] ++ t) in *.
    assert (E1 : unlines (L :: ls) ++ post = L ++ LF :: unlines ls ++ post)
      by (rewrite unlines_cons, <- app_assoc; reflexivity).
    assert (E2 : L ++ LF :: unlines ls ++ post
                 = spaces n ++ DASH :: SP :: t ++ LF :: unlines ls ++ post)
      by (unfold L; rewrite <- !app_assoc; reflexivity).
    rewrite E1 in Hat, Hpos.
    pose proof (@at_line_next data lsn L _ Hat) as Hnext.
    rewrite E2 in Hat, Hpos. rewrite (lead_content n DASH _ eq_refl) in Hpos.
    assert (HL : length L = n + 2 + length t) by (unfold L; lens).
    cbn [length] in Hfuel |- *. cbn [Nat.add].
    apply (@list_scalar_item data (length items + fuel) n out st lsn t v _ Q E Ht Hat Hpos).
    apply (IH data fuel (out ++ [v])
             (mkCursor (lsn + n + 2 + length t + 1) (line st + 1))
             (lsn + length L + 1) post Q E Hnext Htail);
      [cbn [pos]; lia|lia|].
    intros st' Hline Hp. cbn [line] in Hline. rewrite <- app_assoc. cbn [app]. apply Hk.
    + cbn [length]. lia.
    + rewrite unlines_cons, length_app. cbn [length]. lia.
  - apply (Hvector n body (VArr inner) ls items); auto.
    apply reads_vector_list; auto. now apply (proj2 reads_lines).
  - apply (Hvector n body _ ls items); auto.
    apply reads_vector_dict; auto. now apply (proj1 reads_lines).
Qed.

(** An item [- ::] with a character other than a space right after the
    indicator: [parseVector] wants a space there. *)
Lemma vector_item_unspaced data n fuel out st lsn c more :
  at_line data lsn (spaces n ++ DASH :: SP :: COLON :: COLON :: c :: more) ->
  content c = true ->
  lsn <= pos st <= lsn + n ->
  parseMultilineList data (S (S fuel)) n out st
  = Throw (HUMLError (ExpectedSingleSpace AfterDoubleColon) (line st))
      (mkCursor (lsn + n + 4) (line st)).
Proof.
  intros Hat Hc Hpos. destruct (content_spec _ Hc) as (N1 & N2 & N3).
  apply wp_throws.
  apply (@list_vector_item data (S fuel) n out st lsn _ _ _ Hat Hpos).
  set (s := mkCursor (lsn + n + 4) (line st)).
  assert (Hr : rest data s = c :: more).
  { unfold s. replace (lsn + n + 4) with (lsn + (n + 4)) by lia.
    rewrite (@at_line_rest data lsn _ (line st) _ Hat).
    replace (n + 4) with (length (spaces n ++ [DASH; SP; COLON; COLON])) by lens.
    transitivity (skipn (length (spaces n ++ [DASH; SP; COLON; COLON]))
                    ((spaces n ++ [DASH; SP; COLON; COLON]) ++ c :: more));
      [|apply skipn_app_length].
    f_equal. rewrite <- !app_assoc. reflexivity. }
  destruct (rest_head _ _ Hr) as (Hd & _ & _).
  apply N.eqb_neq in N1, N2, N3.
  cbn [parseVector]. wp_get. cbv zeta.
  wp_step (@skipSpaces_none data s c more Hr ltac:(now apply N.eqb_neq)).
  wp_get. rewrite Hd, (cur_is_rest _ _ LF Hr), (cur_is_rest _ _ HASH Hr), N2, N3.
  cbn [orb].
  wp_step (@set_pos_same s s eq_refl).
  apply wp_bind. unfold assertSpace. wp_get.
  rewrite Hd, (cur_is_rest _ _ SP Hr), N1. cbn [orb negb].
  apply wp_error. split; reflexivity.
Qed.

(** What the encoder writes for a list with an empty list or dict among
    its items: the line of that item is [- ::[]] or [- ::{}]. *)
Lemma toValue_empty_item cmp pre e post lines' :
  encodable (VArr pre) = true -> isVector e = true -> isEmptyVector e = true ->
  toValue cmp (VArr (pre ++ e :: post)) 0 [] false = Done lines' ->
  exists ls c1 c2 others,
    list_lines 0 ls (map (canonical cmp) pre)
    /\ content c1 = true
    /\ lines' = ls ++ (u "- ::" ++ [c1; c2]) :: others.
Proof.
  intros Hpre Hv He Hw.
  rewrite encodable_arr in Hpre.
  assert (Hf : Forall (encodes cmp) pre).
  { rewrite Forall_forall. intros x Hx. apply encodable_encodes.
    rewrite forallb_forall in Hpre. specialize (Hpre x Hx).
    now apply andb_true_iff in Hpre as [Hpre _]. }
  destruct (@list_fold cmp 0 pre Hf Hpre) as (ls & Hl & Hfold).
  rewrite toValue_array, toArray_nonempty in Hw by (destruct pre; discriminate).
  rewrite map_app, fold_left_app in Hw. cbv zeta in Hw, Hfold.
  change (if false then 0 else 0) with 0 in Hw.
  rewrite (Hfold []) in Hw. cbn [app map fold_left fst snd] in Hw.
  rewrite and_then_done, Hv in Hw. unfold push in Hw. rewrite append_last_snoc in Hw.
  assert (Hitem : exists c1 c2,
             content c1 = true
             /\ toValue cmp e (0 + 2) (ls ++ [(spaces 0 ++ u "- ") ++ u "::"]) false
                = Done (ls ++ [u "- ::" ++ [c1; c2]])).
  { destruct e as [| | | |[|i items]|proto [|p props]]; try discriminate.
    - exists 91%N, 93%N. split; [reflexivity|]. cbn [toValue toArray map].
      now rewrite append_last_snoc.
    - exists 123%N, 125%N. split; [reflexivity|]. cbn [toValue toObject].
      now rewrite append_last_snoc. }
  destruct Hitem as (c1 & c2 & Hc1 & Hitem). rewrite Hitem in Hw.
  set (X := ls ++ [u "- ::" ++ [c1; c2]]) in *.
  set (l := map (fun v => (v, (fun i ls => toValue cmp v i ls false) : writer)) post) in *.
  set (step := fun (item : Value * writer) (lines0 : list jsstring) =>
                 if isVector (fst item)
                 then snd item (0 + 2) (append_last (lines0 ++ [spaces 0 ++ u "- "]) (u "::"))
                 else snd item 0 (lines0 ++ [spaces 0 ++ u "- "])).
  change (fold_left (fun acc b => and_then acc (step b)) l (Done X) = Done lines') in Hw.
  assert (Hstep : forall (b : Value * writer) ls0, In b l ->
             step b (X ++ ls0) = after_lines X (step b ls0)).
  { intros b ls0 Hin. apply in_map_iff in Hin as (x & <- & _).
    unfold step. cbn [fst snd].
    destruct (toValue_after cmp X x) as [Hx _].
    destruct (isVector x).
    - rewrite <- app_assoc, append_last_app by (destruct ls0; discriminate).
      apply Hx. rewrite append_last_snoc. destruct ls0; discriminate.
    - rewrite <- app_assoc. apply Hx. destruct ls0; discriminate. }
  pose proof (@fold_after _ step X l Hstep []) as Hfa.
  rewrite app_nil_r in Hfa. rewrite Hfa in Hw.
  destruct (fold_left (fun acc b => and_then acc (step b)) l (Done [])) as [others|x];
    [|discriminate].
  cbn [after_lines] in Hw. injection Hw as <-.
  exists ls, c1, c2, others. split; [exact Hl|]. split; [exact Hc1|].
  unfold X. rewrite <- app_assoc. reflexivity.
Qed.

(** The decoder on such a text: the items before are read, and the item
    [- ::] with no space after it is rejected. *)
Lemma parse_unspaced_item ls items c more :
  list_lines 0 ls items -> content c = true ->
  parse (unlines ls ++ DASH :: SP :: COLON :: COLON :: c :: more)
  = Throw (HUMLError (ExpectedSingleSpace AfterDoubleColon) (1 + length ls))
      (mkCursor (length (unlines ls) + 4) (1 + length ls)).
Proof.
  intros Hll Hc.
  set (post := DASH :: SP :: COLON :: COLON :: c :: more).
  set (data := unlines ls ++ post).
  assert (Hhd : exists r, data = DASH :: SP :: r).
  { unfold data. inversion Hll; subst; rewrite ?unlines_cons; simpl;
      eexists; reflexivity. }
  destruct Hhd as (r & E).
  pose proof (@root_facts data DASH _ E eq_refl ltac:(discriminate)
                ltac:(discriminate)) as F.
  assert (Htail : tail_ok (0 + 2) post).
  { right. exists 0, DASH, (SP :: COLON :: COLON :: c :: more).
    split; [reflexivity|]. split; [lia|reflexivity]. }
  pose proof (proj2 lines_length 0 ls items Hll) as Hlen.
  pose proof (list_items_length Hll) as Hil.
  assert (Hdl : length data = length (unlines ls) + (5 + length more))
    by (unfold data; rewrite length_app; reflexivity).
  assert (Hat : at_line data (0 + length (unlines ls)) (spaces 0 ++ post)).
  { apply at_line_after_lines.
    exact (proj2 (proj2 (proj2 (proj2 (proj2 (proj2 (proj2 (proj2 F)))))))). }
  assert (Hr : rest data initial = DASH :: SP :: r) by exact E.
  destruct (rest_head _ _ Hr) as (_ & _ & Hp).
  destruct F as (Flen & Fpk & Fs & Fd & Fi & Fp2 & Fp1 & Fr & Fat).
  apply wp_throws. unfold parse, parse_. rewrite Flen. wp_get. rewrite Fpk.
  apply wp_bind, wp_ret. wp_step Fs. wp_get. rewrite Fd, Fi, Fp2, Fp1.
  cbn [Nat.eqb negb andb]. apply wp_bind, wp_ret. cbn [negb andb]. apply wp_bind.
  unfold getRootType. wp_step (@hasKeyValuePair_dash data r E).
  wp_get. unfold peekString. rewrite Hr, Hp.
  change (prefixb (u "[]") (DASH :: SP :: r)) with false.
  change (prefixb (u "{}") (DASH :: SP :: r)) with false.
  change (45 =? 45)%N with true. cbv iota. apply wp_ret.
  replace (S (length data)) with (length items + (S (length data) - length items)) by lia.
  apply (@list_prefix 0 ls items Hll data _ [] initial 0 post _ _ Fat Htail);
    [cbn [pos initial]; lia|lia|].
  intros st' Hline Hpos. cbn [app].
  destruct (S (length data) - length items) as [|[|fuel]] eqn:Ef; [lia|lia|].
  assert (Hlead : lead post = 0) by reflexivity.
  unfold wp.
  rewrite (@vector_item_unspaced data 0 fuel items st' (0 + length (unlines ls)) c more
             Hat Hc ltac:(lia)).
  rewrite Hline. cbn [initial line]. split; [reflexivity|]. f_equal; lia.
Qed.

(** X26.  A list with an empty list or dict among its items, the items
    before it being encodable: whenever [stringify] returns a text for
    it, [parse] rejects that text.  The encoder writes the item as
    [- ::[]] or [- ::{}], and the decoder wants a space after the [::]
    of an inline vector. *)
Theorem empty_list_item_rejected (cmp : jsstring -> jsstring -> Z)
    (pre post : list Value) (e : Value) (s : jsstring) :
  encodable (VArr pre) = true -> isVector e = true -> isEmptyVector e = true ->
  stringify cmp (VArr (pre ++ e :: post)) false = Done s ->
  exists l st',
    parse s = Throw (HUMLError (ExpectedSingleSpace AfterDoubleColon) l) st'.
Proof.
  intros Hpre Hv He Hs. unfold stringify in Hs. rewrite toValue_root in Hs.
  destruct (toValue cmp (VArr (pre ++ e :: post)) 0 [] false) as [lines'|x] eqn:Hw;
    [|discriminate].
  cbn [and_then] in Hs. injection Hs as <-.
  destruct (@toValue_empty_item cmp pre e post lines' Hpre Hv He Hw)
    as (ls & c1 & c2 & others & Hl & Hc1 & ->).
  rewrite join_lines_unlines, unlines_app, unlines_cons.
  exists (1 + length ls), (mkCursor (length (unlines ls) + 4) (1 + length ls)).
  exact (@parse_unspaced_item ls _ c1 (c2 :: LF :: unlines others) Hl Hc1).
Qed.

Lemma empty_list_item_rejected_witness :
  exists l st',
    parse (u "- 1" ++ LF :: u "- ::[]" ++ [LF])
    = Throw (HUMLError (ExpectedSingleSpace AfterDoubleColon) l) st'.
Proof.
  apply (@empty_list_item_rejected code_unit_compare [num 1] [] (VArr [])
           (u "- 1" ++ LF :: u "- ::[]" ++ [LF]));
    reflexivity.
Defined.
